(** * EconModel: a shallow embedding of the small-business life-cycle model

    The development follows [econmodel.py] and [functions.py].

    Conventions of the embedding.
    - The program is Python 2 ([iteritems], [xrange], indexable [dict.keys()]).
      A Python number is an [int] or a [float]; a [float] is idealised as a
      real number, an [int] is an unbounded integer.  The operators keep the
      Python 2 meaning: [/] between two ints is floor division, every other
      combination is true division, and a zero divisor raises.  Where the
      rounding of doubles decides a property, [functions.py] is read once
      more on binary64 numbers (module [Double]).
    - A [dict] is an association list whose order is the iteration order of
      the dict; assigning to an existing key keeps its place.  A new key goes
      to the end, where Python 2 places it by its hash: the order of a dict
      that the model builds is one of its possible iteration orders.
    - Objects that are shared and mutated ([Business], [BusinessLocation],
      [Person]) live in the city and are referred to by their index.
    - Random draws come from two tapes, read through a cursor that is part of
      the state: one of naturals ([poisson.rvs], [choice], [sample]) and one
      of reals ([norm.rvs]). *)

From Stdlib Require Import Reals Lra Lia ZArith String Bool Arith List
  Permutation.
From Stdlib Require Floats.
Import ListNotations.

Local Open Scope R_scope.

(** ** Python numbers *)

Inductive num : Type :=
| PInt (z : Z)
| PFloat (r : R).

Definition to_R (a : num) : R :=
  match a with
  | PInt z => IZR z
  | PFloat r => r
  end.

Definition py_add (a b : num) : num :=
  match a, b with
  | PInt x, PInt y => PInt (x + y)
  | _, _ => PFloat (to_R a + to_R b)
  end.

Definition py_sub (a b : num) : num :=
  match a, b with
  | PInt x, PInt y => PInt (x - y)
  | _, _ => PFloat (to_R a - to_R b)
  end.

Definition py_mul (a b : num) : num :=
  match a, b with
  | PInt x, PInt y => PInt (x * y)
  | _, _ => PFloat (to_R a * to_R b)
  end.

(** [a / b]: floor division on two ints, true division otherwise; [None] is
    [ZeroDivisionError]. *)
Definition py_div (a b : num) : option num :=
  match a, b with
  | PInt x, PInt y =>
      if (y =? 0)%Z then None else Some (PInt (x / y))
  | _, _ =>
      if Req_dec_T (to_R b) 0 then None else Some (PFloat (to_R a / to_R b))
  end.

(** [a ** 2] *)
Definition py_sqr (a : num) : num := py_mul a a.

Definition py_ltb (x y : R) : bool := if Rlt_dec x y then true else false.
Definition py_leb (x y : R) : bool := if Rle_dec x y then true else false.
Definition py_gtb (x y : R) : bool := py_ltb y x.
Definition py_geb (x y : R) : bool := py_leb y x.

Definition Loc : Type := (num * num)%type.

(** ** functions.py *)

(** [distance(loc1, loc2)]: [np.sqrt] always yields a float. *)
Definition distance (loc1 loc2 : Loc) : R :=
  sqrt (to_R (py_add (py_sqr (py_sub (fst loc1) (fst loc2)))
                     (py_sqr (py_sub (snd loc1) (snd loc2))))).

(** [inside(loc1, loc2, radius)] *)
Definition inside (loc1 loc2 : Loc) (radius : num) : bool :=
  if py_gtb (to_R (py_sub (fst loc2) (fst loc1))) (to_R radius)
     || py_ltb (to_R (py_sub (fst loc2) (fst loc1))) (- to_R radius)
  then false
  else if py_gtb (to_R (py_sub (snd loc2) (snd loc1))) (to_R radius)
          || py_ltb (to_R (py_sub (snd loc2) (snd loc1))) (- to_R radius)
  then false
  else if py_ltb (distance loc1 loc2) (to_R radius)
  then true
  else false.

Definition generate_person_name : string := "Dmo".
Definition generate_business_name : string := "Dmo's Chicken and Waffles".

(** The refinement target for [inside]: the plain strict-distance test. *)
Definition strictly_within (a b : Loc) (r : num) : bool :=
  py_ltb (distance a b) (to_R r).

(** ** functions.py on doubles

    The same two functions on binary64 numbers, with the IEEE 754 operations
    of the kernel: every subtraction, product, sum and square root is
    rounded to the nearest double, and a comparison with a NaN is false.
    The coordinates and the radius are doubles; an int coordinate is read as
    the double of the same value.  [x ** 2] is the rounded product of [x]
    with itself. *)
Module Double.
Import PrimFloat.
Local Open Scope float_scope.

Definition point : Type := (float * float)%type.

(** [distance(loc1, loc2)] *)
Definition distance (loc1 loc2 : point) : float :=
  sqrt ((fst loc1 - fst loc2) * (fst loc1 - fst loc2)
        + (snd loc1 - snd loc2) * (snd loc1 - snd loc2)).

(** [inside(loc1, loc2, radius)]; [a > b] is [b < a]. *)
Definition inside (loc1 loc2 : point) (radius : float) : bool :=
  if (radius <? fst loc2 - fst loc1) || (fst loc2 - fst loc1 <? - radius)
  then false
  else if (radius <? snd loc2 - snd loc1) || (snd loc2 - snd loc1 <? - radius)
  then false
  else if distance loc1 loc2 <? radius
  then true
  else false.

(** The refinement target once more: the plain strict-distance test. *)
Definition strictly_within (a b : point) (r : float) : bool :=
  distance a b <? r.

(** The two bounding-box tests of [inside] on their own: neither coordinate
    difference is above the radius or below its opposite. *)
Definition in_box (a b : point) (r : float) : bool :=
  negb ((r <? fst b - fst a) || (fst b - fst a <? - r))
  && negb ((r <? snd b - snd a) || (snd b - snd a <? - r)).

(** A point so close to the origin that the square of its abscissa
    underflows to zero, and a radius ten times smaller than that abscissa:
    the doubles that Python writes [1e-200] and [1e-201]. *)
Definition origin : point := (0, 0).
Definition speck : point := (0x1.87e92154ef7acp-665, 0).
Definition speck_radius : float := 0x1.39874ddd8c623p-668.

End Double.

(** ** Python containers *)

Definition dict (V : Type) : Type := list (string * V).

Fixpoint dict_get {V} (d : dict V) (k : string) : option V :=
  match d with
  | [] => None
  | (k', v) :: d' => if String.eqb k' k then Some v else dict_get d' k
  end.

(** [d[k] = v] *)
Fixpoint dict_set {V} (d : dict V) (k : string) (v : V) : dict V :=
  match d with
  | [] => [(k, v)]
  | (k', v') :: d' =>
      if String.eqb k' k then (k', v) :: d' else (k', v') :: dict_set d' k v
  end.

Definition dict_keys {V} (d : dict V) : list string := map fst d.

(** [l[i] = v] for an index in range *)
Fixpoint list_set {A} (l : list A) (i : nat) (v : A) : list A :=
  match l, i with
  | [], _ => []
  | _ :: t, O => v :: t
  | h :: t, S j => h :: list_set t j v
  end.

(** [l.remove(x)] on a list of references: the first occurrence goes; [None]
    is [ValueError]. *)
Fixpoint list_remove (l : list nat) (x : nat) : option (list nat) :=
  match l with
  | [] => None
  | h :: t =>
      if Nat.eqb h x then Some t
      else match list_remove t x with
           | Some t' => Some (h :: t')
           | None => None
           end
  end.

(** [del l[i]], used by [sample] *)
Fixpoint drop_nth {A} (l : list A) (i : nat) : list A :=
  match l, i with
  | [], _ => []
  | _ :: t, O => t
  | h :: t, S j => h :: drop_nth t j
  end.

(** [range(a, b)] *)
Definition py_range (a b : Z) : list Z :=
  map (fun k => (a + Z.of_nat k)%Z) (seq 0 (Z.to_nat (b - a))).

(** [int(r)] on a float: truncation towards zero *)
Definition py_int (r : R) : Z :=
  if Rle_dec 0 r then Int_part r else (- Int_part (- r))%Z.

(** ** The objects of econmodel.py *)

Record DemandType : Type := mkDemandType {
  dname : string;
  dlambda : num;
  dprice : num
}.

Record BusinessType : Type := mkBusinessType {
  bname : string;
  initial_cash : num;
  initial_need_threshold : num;
  initial_need_radius : num;
  burnrate : num
}.

Record BusinessLocation : Type := mkBusinessLocation {
  bl_location : Loc;
  available : bool
}.

Record Person : Type := mkPerson {
  p_name : string;
  p_location : Loc;
  needs : dict num
}.

(** [blocation] is a reference: the index of the location in
    [city.business_locations]. *)
Record Business : Type := mkBusiness {
  b_name : string;
  blocation : nat;
  b_location : Loc;
  btype : BusinessType;
  b_type : string;
  cash : num;
  birthday : Z;
  deathday : option Z;
  lifespan : option Z
}.

Record PopRow : Type := mkPopRow { demand_count : Z; total_demand : num }.
Record BizRow : Type := mkBizRow { count : Z; totalcash : num }.

(** [heap] holds every [Business] object ever created; [businesses] and
    [failed_businesses] are lists of references into it. *)
Record City : Type := mkCity {
  name : string;
  size : R;
  age : Z;
  dtypes : dict DemandType;
  btypes : dict BusinessType;
  people : list Person;
  heap : list Business;
  businesses : list nat;
  business_locations : list BusinessLocation;
  failed_businesses : list nat;
  pophistory : list (dict PopRow);
  bizhistory : list (dict BizRow)
}.

Definition with_age (c : City) (v : Z) : City :=
  mkCity (name c) (size c) v (dtypes c) (btypes c) (people c) (heap c)
    (businesses c) (business_locations c) (failed_businesses c)
    (pophistory c) (bizhistory c).
Definition with_people (c : City) (v : list Person) : City :=
  mkCity (name c) (size c) (age c) (dtypes c) (btypes c) v (heap c)
    (businesses c) (business_locations c) (failed_businesses c)
    (pophistory c) (bizhistory c).
Definition with_heap (c : City) (v : list Business) : City :=
  mkCity (name c) (size c) (age c) (dtypes c) (btypes c) (people c) v
    (businesses c) (business_locations c) (failed_businesses c)
    (pophistory c) (bizhistory c).
Definition with_businesses (c : City) (v : list nat) : City :=
  mkCity (name c) (size c) (age c) (dtypes c) (btypes c) (people c) (heap c)
    v (business_locations c) (failed_businesses c)
    (pophistory c) (bizhistory c).
Definition with_business_locations (c : City) (v : list BusinessLocation)
  : City :=
  mkCity (name c) (size c) (age c) (dtypes c) (btypes c) (people c) (heap c)
    (businesses c) v (failed_businesses c) (pophistory c) (bizhistory c).
Definition with_failed_businesses (c : City) (v : list nat) : City :=
  mkCity (name c) (size c) (age c) (dtypes c) (btypes c) (people c) (heap c)
    (businesses c) (business_locations c) v (pophistory c) (bizhistory c).
Definition with_pophistory (c : City) (v : list (dict PopRow)) : City :=
  mkCity (name c) (size c) (age c) (dtypes c) (btypes c) (people c) (heap c)
    (businesses c) (business_locations c) (failed_businesses c)
    v (bizhistory c).
Definition with_bizhistory (c : City) (v : list (dict BizRow)) : City :=
  mkCity (name c) (size c) (age c) (dtypes c) (btypes c) (people c) (heap c)
    (businesses c) (business_locations c) (failed_businesses c)
    (pophistory c) v.

Definition with_cash (b : Business) (v : num) : Business :=
  mkBusiness (b_name b) (blocation b) (b_location b) (btype b) (b_type b)
    v (birthday b) (deathday b) (lifespan b).
Definition with_death (b : Business) (d l : option Z) : Business :=
  mkBusiness (b_name b) (blocation b) (b_location b) (btype b) (b_type b)
    (cash b) (birthday b) d l.
Definition with_available (l : BusinessLocation) (v : bool)
  : BusinessLocation :=
  mkBusinessLocation (bl_location l) v.
Definition with_needs (p : Person) (v : dict num) : Person :=
  mkPerson (p_name p) (p_location p) v.

(** ** State, exceptions and random draws *)

(** [StillRunning] is not a Python exception: it marks a loop whose fuel ran
    out, that is, a run that has not returned yet. *)
Inductive Exn : Type :=
| KeyError | ZeroDivisionError | IndexError | ValueError | AttributeError
| StillRunning.

Record World : Type := mkWorld {
  w_city : City;
  w_ints : nat -> nat;
  w_reals : nat -> R
}.

Inductive Res (A : Type) : Type :=
| Ok (a : A) (w : World)
| Raise (e : Exn) (w : World).
Arguments Ok {A} a w.
Arguments Raise {A} e w.

Definition M (A : Type) : Type := World -> Res A.

Definition ret {A} (a : A) : M A := fun w => Ok a w.
Definition bind {A B} (m : M A) (f : A -> M B) : M B :=
  fun w => match m w with
           | Ok a w' => f a w'
           | Raise e w' => Raise e w'
           end.
Definition raise {A} (e : Exn) : M A := fun w => Raise e w.

Notation "x <- m ;; k" := (bind m (fun x => k))
  (at level 61, m at next level, right associativity).
Notation "m ;;; k" := (bind m (fun _ => k))
  (at level 61, right associativity).

Definition get_city : M City := fun w => Ok (w_city w) w.
Definition modify (f : City -> City) : M unit :=
  fun w => Ok tt (mkWorld (f (w_city w)) (w_ints w) (w_reals w)).
Definition lift {A} (e : Exn) (o : option A) : M A :=
  match o with
  | Some a => ret a
  | None => raise e
  end.

(** The state a computation stops in, whether it returns or raises. *)
Definition final {A} (r : Res A) : World :=
  match r with
  | Ok _ w => w
  | Raise _ w => w
  end.

(** One draw from the tape of naturals, one from the tape of reals. *)
Definition rand_int : M nat :=
  fun w => Ok (w_ints w 0%nat)
              (mkWorld (w_city w) (fun n => w_ints w (S n)) (w_reals w)).
Definition rand_real : M R :=
  fun w => Ok (w_reals w 0%nat)
              (mkWorld (w_city w) (w_ints w) (fun n => w_reals w (S n))).

(** [for x in xs: body(x)] over a list that the body does not restructure *)
Fixpoint for_each {A} (xs : list A) (body : A -> M unit) : M unit :=
  match xs with
  | [] => ret tt
  | x :: xs' => body x ;;; for_each xs' body
  end.

(** [random.choice(xs)] *)
Definition choice {A} (xs : list A) : M A :=
  match xs with
  | [] => raise IndexError
  | _ => k <- rand_int ;; lift IndexError (nth_error xs (k mod length xs))
  end.

(** [random.sample(pool, k)]: [k] draws without replacement *)
Fixpoint sample {A} (pool : list A) (k : nat) : M (list A) :=
  match k with
  | O => ret []
  | S k' =>
      match pool with
      | [] => raise ValueError
      | _ =>
          j <- rand_int ;;
          x <- lift IndexError (nth_error pool (j mod length pool)) ;;
          rest <- sample (drop_nth pool (j mod length pool)) k' ;;
          ret (x :: rest)
      end
  end.

(** [norm(scale = s).rvs()] and [poisson.rvs(mu)]: the value is whatever the
    tape holds.  The libraries check their arguments and the model does not:
    [norm] raises [ValueError] for a negative scale and returns its mean for
    the scale 0, and [poisson.rvs] rejects a negative rate.  The properties
    that depend on a draw are stated for arguments that the libraries
    accept. *)
Definition norm_rvs (scale : R) : M R := rand_real.
Definition poisson_rvs (mu : num) : M nat := rand_int.

(** [acc = a0; for x in xs: acc = body(acc, x)] *)
Fixpoint fold_m {A S} (xs : list A) (acc : S) (body : S -> A -> M S) : M S :=
  match xs with
  | [] => ret acc
  | x :: xs' => acc' <- body acc x ;; fold_m xs' acc' body
  end.

(** Dereferencing: a person by position, a business by reference, a location
    by position.  A reference that the city handed out is always in range;
    [IndexError] stands for a dangling one. *)
Definition get_person (i : nat) : M Person :=
  c <- get_city ;; lift IndexError (nth_error (people c) i).
Definition get_business (b : nat) : M Business :=
  c <- get_city ;; lift IndexError (nth_error (heap c) b).
Definition get_location (j : nat) : M BusinessLocation :=
  c <- get_city ;; lift IndexError (nth_error (business_locations c) j).

Definition put_person (i : nat) (p : Person) : M unit :=
  modify (fun c => with_people c (list_set (people c) i p)).
Definition put_business (b : nat) (biz : Business) : M unit :=
  modify (fun c => with_heap c (list_set (heap c) b biz)).
Definition put_location (j : nat) (l : BusinessLocation) : M unit :=
  modify (fun c => with_business_locations c
                     (list_set (business_locations c) j l)).

(** ** class DemandType *)

(** [demand_radius]: [1. + need_amount / self.dlambda]; [None] is
    [ZeroDivisionError]. *)
Definition demand_radius (dt : DemandType) (need_amount : num) : option num :=
  match py_div need_amount (dlambda dt) with
  | Some q => Some (py_add (PFloat 1) q)
  | None => None
  end.

(** ** class BusinessLocation *)

Definition free (j : nat) : M unit :=
  l <- get_location j ;; put_location j (with_available l true).

Definition fill (j : nat) : M unit :=
  l <- get_location j ;; put_location j (with_available l false).

(** ** class BusinessType *)

Definition startup_score (bt : BusinessType) (bl : BusinessLocation) : M num :=
  c <- get_city ;;
  local_demand <-
    fold_m (people c) (PFloat 0)
      (fun local_demand p =>
         if inside (p_location p) (bl_location bl) (initial_need_radius bt)
         then n <- lift KeyError (dict_get (needs p) (bname bt)) ;;
              ret (py_add local_demand n)
         else ret local_demand) ;;
  lift ZeroDivisionError (py_div local_demand (initial_need_threshold bt)).

(** [Business.__init__] followed by [city.businesses.append]. *)
Definition startup (bt : BusinessType) (j : nat) (nm : string) : M unit :=
  l <- get_location j ;;
  fill j ;;;
  c <- get_city ;;
  let b := mkBusiness nm j (bl_location l) bt (bname bt) (initial_cash bt)
             (age c) None None in
  modify (fun c => with_businesses (with_heap c (heap c ++ [b]))
                     (businesses c ++ [length (heap c)])).

(** ** class Person *)

Definition init_needs (c : City) : dict num :=
  fold_left (fun nd n => dict_set nd n (PInt 0)) (dict_keys (dtypes c)) [].

Definition generate (i : nat) : M unit :=
  c <- get_city ;;
  for_each (dict_keys (dtypes c))
    (fun n =>
       p <- get_person i ;;
       old <- lift KeyError (dict_get (needs p) n) ;;
       c <- get_city ;;
       dt <- lift KeyError (dict_get (dtypes c) n) ;;
       k <- poisson_rvs (dlambda dt) ;;
       put_person i
         (with_needs p
            (dict_set (needs p) n
               (py_add old (py_mul (PInt (Z.of_nat k)) (dprice dt)))))).

Definition give_biz (i : nat) (need : string) (b : nat) : M unit :=
  p <- get_person i ;;
  amt <- lift KeyError (dict_get (needs p) need) ;;
  c <- get_city ;;
  dt <- lift KeyError (dict_get (dtypes c) need) ;;
  let payment := py_mul amt (dprice dt) in
  biz <- get_business b ;;
  put_business b (with_cash biz (py_add (cash biz) payment)) ;;;
  put_person i (with_needs p (dict_set (needs p) need (PInt 0))).

(** The businesses a person reaches for one need: [pos_biz]. *)
Definition pos_biz (c : City) (p : Person) (r : num) : list nat :=
  filter (fun b =>
            match nth_error (heap c) b with
            | Some biz =>
                py_ltb (distance (b_location biz) (p_location p)) (to_R r)
            | None => false
            end)
         (businesses c).

(** The body of the loop of [fulfill], for one entry of [self.needs]. *)
Definition fulfill_need (i : nat) (need : string) : M unit :=
  p <- get_person i ;;
  amt <- lift KeyError (dict_get (needs p) need) ;;
  c <- get_city ;;
  dt <- lift KeyError (dict_get (dtypes c) need) ;;
  r <- lift ZeroDivisionError (demand_radius dt amt) ;;
  if (0 <? length (pos_biz c p r))%nat
  then b <- choice (pos_biz c p r) ;; give_biz i need b
  else ret tt.

Definition fulfill (i : nat) : M unit :=
  p <- get_person i ;;
  for_each (dict_keys (needs p)) (fulfill_need i).

(** [Person.cycle] *)
Definition cycle (i : nat) : M unit :=
  generate i ;;; fulfill i.

(** ** class Business *)

(** [city.bizfail] *)
Definition bizfail (b : nat) : M unit :=
  modify (fun c => with_failed_businesses c (failed_businesses c ++ [b])) ;;;
  c <- get_city ;;
  bs <- lift ValueError (list_remove (businesses c) b) ;;
  modify (fun c => with_businesses c bs) ;;;
  biz <- get_business b ;;
  free (blocation biz).

Definition die (b : nat) : M unit :=
  biz <- get_business b ;;
  c <- get_city ;;
  put_business b
    (with_death biz (Some (age c)) (Some (age c - birthday biz)%Z)) ;;;
  bizfail b.

Definition burn (b : nat) : M unit :=
  biz <- get_business b ;;
  put_business b (with_cash biz (py_sub (cash biz) (burnrate (btype biz)))) ;;;
  biz' <- get_business b ;;
  if py_ltb (to_R (cash biz')) 0 then die b else ret tt.

(** [Business.age]; the method and the field [age] of the city share a
    name in the source. *)
Definition Business_age (b : nat) : M Z :=
  biz <- get_business b ;;
  match deathday biz with
  | None => c <- get_city ;; ret (age c - birthday biz)%Z
  | Some d => ret (d - birthday biz)%Z
  end.

(** ** class City *)

(** The two tables read from [demand_types.json] and [business_types.json];
    the files are not part of the sources, so the tables are arguments. *)
Record DemandRaw : Type := mkDemandRaw { raw_dlambda : num; raw_dprice : num }.
Record BusinessRaw : Type := mkBusinessRaw {
  raw_init_cash : num;
  raw_init_need_threshold : num;
  raw_init_need_radius : num;
  raw_burnrate : num
}.

Definition compile_dtypes (dtraw : dict DemandRaw) : dict DemandType :=
  fold_left
    (fun dt tr =>
       dict_set dt (fst tr)
         (mkDemandType (fst tr) (raw_dlambda (snd tr)) (raw_dprice (snd tr))))
    dtraw [].

Definition compile_btypes (btraw : dict BusinessRaw) : dict BusinessType :=
  fold_left
    (fun bt tr =>
       dict_set bt (fst tr)
         (mkBusinessType (fst tr) (raw_init_cash (snd tr))
            (raw_init_need_threshold (snd tr))
            (raw_init_need_radius (snd tr)) (raw_burnrate (snd tr))))
    btraw [].

(** The [while] loop of [pop_density_rand]: one unit of fuel per pass through
    the body.  The starting point [(size + 1, 0)] is computed exactly; on
    doubles [size + 1] is [size] again from [2 ^ 53] on. *)
Fixpoint pop_density_loop (fuel : nat) (sz : R) (loc : Loc) : M Loc :=
  if py_gtb (distance loc (PInt 0, PInt 0)) sz
  then match fuel with
       | O => raise StillRunning
       | S fuel' =>
           x <- norm_rvs sz ;;
           y <- norm_rvs sz ;;
           pop_density_loop fuel' sz (PFloat x, PFloat y)
       end
  else ret loc.

Definition pop_density_rand (fuel : nat) : M Loc :=
  c <- get_city ;;
  pop_density_loop fuel (size c) (PFloat (size c + 1), PInt 0).

(** [Person.__init__] *)
Definition new_person (fuel : nat) (nm : string) : M Person :=
  loc <- pop_density_rand fuel ;;
  c <- get_city ;;
  ret (mkPerson nm loc (init_needs c)).

Definition populate (fuel : nat) (n : Z) : M unit :=
  for_each (py_range 0 n)
    (fun _ =>
       p <- new_person fuel generate_person_name ;;
       modify (fun c => with_people c (people c ++ [p]))).

Definition generate_business_locations (sz : R) : list BusinessLocation :=
  flat_map
    (fun x =>
       flat_map
         (fun y =>
            if inside (PInt x, PInt y) (PInt 0, PInt 0) (PFloat sz)
            then [mkBusinessLocation (PInt x, PInt y) true]
            else [])
         (py_range (- py_int sz) (py_int sz + 1)))
    (py_range (- py_int sz) (py_int sz + 1)).

Definition business_populate (ratio : R) : M unit :=
  c <- get_city ;;
  let nl := length (business_locations c) in
  fill_indices <- sample (seq 0 nl) (Z.to_nat (py_int (INR nl * ratio))) ;;
  for_each fill_indices
    (fun i =>
       c <- get_city ;;
       bt <- choice (dict_keys (btypes c)) ;;
       b_obj <- lift KeyError (dict_get (btypes c) bt) ;;
       startup b_obj i generate_business_name).

Definition bizreport : M (dict BizRow) :=
  c <- get_city ;;
  let bd := fold_left (fun bd b_type => dict_set bd b_type (mkBizRow 0 (PFloat 0)))
              (dict_keys (btypes c)) [] in
  fold_m (businesses c) bd
    (fun bd b =>
       biz <- get_business b ;;
       row <- lift KeyError (dict_get bd (b_type biz)) ;;
       ret (dict_set bd (b_type biz)
              (mkBizRow (count row + 1) (py_add (totalcash row) (cash biz))))).

Definition popreport : M (dict PopRow) :=
  c <- get_city ;;
  let pd := fold_left (fun pd d_type => dict_set pd d_type (mkPopRow 0 (PFloat 0)))
              (dict_keys (dtypes c)) [] in
  fold_m (people c) pd
    (fun pd p =>
       fold_m (needs p) pd
         (fun pd na =>
            if py_gtb (to_R (snd na)) 0
            then row <- lift KeyError (dict_get pd (fst na)) ;;
                 ret (dict_set pd (fst na)
                        (mkPopRow (demand_count row + 1)
                           (py_add (total_demand row) (snd na))))
            else ret pd)).

(** Phase 2, the body of the loop over [self.business_locations]. *)
Definition best_startup (bl : BusinessLocation)
  : M (num * option BusinessType) :=
  c <- get_city ;;
  fold_m (btypes c) (PInt 0, None)
    (fun acc nb =>
       s <- startup_score (snd nb) bl ;;
       if py_gtb (to_R s) (to_R (fst acc))
       then ret (s, Some (snd nb))
       else ret acc).

Definition try_startup (j : nat) : M unit :=
  bl <- get_location j ;;
  if available bl
  then
    bb <- best_startup bl ;;
    if py_geb (to_R (fst bb)) 1
    then match snd bb with
         | Some best_type => startup best_type j generate_business_name
         | None => raise AttributeError
         end
    else ret tt
  else ret tt.

(** Phase 4, [for b in self.businesses: b.burn()].  The body removes from the
    list that is being iterated, so the loop is the list iterator itself: an
    index that advances by one per pass and stops when it is past the end of
    the list as it is then. *)
Fixpoint scan_businesses (fuel i : nat) (body : nat -> M unit) : M unit :=
  c <- get_city ;;
  match nth_error (businesses c) i with
  | None => ret tt
  | Some b =>
      match fuel with
      | O => raise StillRunning
      | S fuel' => body b ;;; scan_businesses fuel' (S i) body
      end
  end.

Definition city_cycle : M unit :=
  modify (fun c => with_age c (age c + 1)%Z) ;;;
  c <- get_city ;;
  for_each (seq 0 (length (people c))) generate ;;;
  c <- get_city ;;
  for_each (seq 0 (length (business_locations c))) try_startup ;;;
  c <- get_city ;;
  for_each (seq 0 (length (people c))) fulfill ;;;
  c <- get_city ;;
  scan_businesses (length (businesses c)) 0 burn ;;;
  pr <- popreport ;;
  modify (fun c => with_pophistory c (pophistory c ++ [pr])) ;;;
  br <- bizreport ;;
  modify (fun c => with_bizhistory c (bizhistory c ++ [br])).

Definition life (ncycles : Z) : M unit :=
  for_each (py_range 0 ncycles) (fun _ => city_cycle).

(** [City.__init__]; [fuel] bounds each placement loop. *)
Definition City_init (dtraw : dict DemandRaw) (btraw : dict BusinessRaw)
    (fuel : nat) (nm : string) (sz : num) (n_people : Z) : M unit :=
  modify (fun _ => mkCity nm (to_R sz) 0 (compile_dtypes dtraw)
                     (compile_btypes btraw) [] [] [] [] [] [] []) ;;;
  populate fuel n_people ;;;
  modify (fun c => with_businesses c []) ;;;
  modify (fun c => with_business_locations c
                     (generate_business_locations (size c))) ;;;
  business_populate (3 / 4) ;;;
  modify (fun c => with_failed_businesses c []) ;;;
  pr <- popreport ;;
  modify (fun c => with_pophistory c [pr]) ;;;
  br <- bizreport ;;
  modify (fun c => with_bizhistory c [br]).

(** * Specification

    The predicates, the invariants and the concrete cities that the
    properties below are stated with. *)

(** ** The placement loop *)

(** The [k]-th pair of draws that the loop reads from a tape. *)
Definition draw (reals : nat -> R) (k : nat) : Loc :=
  (PFloat (reals (2 * k)%nat), PFloat (reals (2 * k + 1)%nat)).

(** A point that the loop rejects. *)
Definition outside (sz : R) (loc : Loc) : Prop :=
  sz < distance loc (PInt 0, PInt 0).

(** The radii for which the loop runs as modelled: positive, so that [norm]
    accepts the scale and draws, and below [2 ^ 53], so that [size + 1] is a
    larger double than [size] and the starting point lies outside. *)
Definition placeable (sz : R) : Prop := 0 < sz < IZR (2 ^ 53).

(** ** The city after each straight-line method *)

(** The city after [bizfail]. *)
Definition city_after_bizfail (c : City) (b : nat) (bs : list nat)
    (biz : Business) (l : BusinessLocation) : City :=
  with_business_locations
    (with_businesses
       (with_failed_businesses c (failed_businesses c ++ [b])) bs)
    (list_set (business_locations c) (blocation biz) (with_available l true)).

(** A business after [die], and after the subtraction in [burn]. *)
Definition dead (c : City) (biz : Business) : Business :=
  with_death biz (Some (age c)) (Some (age c - birthday biz)%Z).

Definition burned (biz : Business) : Business :=
  with_cash biz (py_sub (cash biz) (burnrate (btype biz))).

(** The body of the loop of [generate], for one demand type. *)
Definition generate_step (i : nat) (n : string) : M unit :=
  p <- get_person i ;;
  old <- lift KeyError (dict_get (needs p) n) ;;
  c <- get_city ;;
  dt <- lift KeyError (dict_get (dtypes c) n) ;;
  k <- poisson_rvs (dlambda dt) ;;
  put_person i
    (with_needs p
       (dict_set (needs p) n
          (py_add old (py_mul (PInt (Z.of_nat k)) (dprice dt))))).

(** The city after [give_biz]. *)
Definition city_after_give_biz (c : City) (i : nat) (p : Person)
    (need : string) (b : nat) (biz : Business) (payment : num) : City :=
  with_people
    (with_heap c
       (list_set (heap c) b (with_cash biz (py_add (cash biz) payment))))
    (list_set (people c) i (with_needs p (dict_set (needs p) need (PInt 0)))).

(** The business that [startup] creates, and the city after it. *)
Definition new_business (c : City) (bt : BusinessType) (j : nat)
    (l : BusinessLocation) (nm : string) : Business :=
  mkBusiness nm j (bl_location l) bt (bname bt) (initial_cash bt)
    (age c) None None.

Definition city_after_startup (c : City) (bt : BusinessType) (j : nat)
    (l : BusinessLocation) (nm : string) : City :=
  with_businesses
    (with_heap
       (with_business_locations c
          (list_set (business_locations c) j (with_available l false)))
       (heap c ++ [new_business c bt j l nm]))
    (businesses c ++ [length (heap c)]).

(** ** A program logic for the loops *)

(** [hoare P m Q E]: from a city satisfying [P], the computation [m] either
    returns [a] in a city satisfying [Q a], or raises in a city satisfying
    [E]. *)
Definition hoare {A} (P : City -> Prop) (m : M A) (Q : A -> City -> Prop)
    (E : City -> Prop) : Prop :=
  forall w, P (w_city w) ->
            match m w with
            | Ok a w' => Q a (w_city w')
            | Raise _ w' => E (w_city w')
            end.

(** A computation that leaves the city alone preserves anything. *)
Definition pure_m {A} (m : M A) : Prop :=
  forall w, w_city (final (m w)) = w_city w.

(** ** Invariants of a city *)

(** What stays fixed between two states of a city while a phase runs. *)
Definition frame (c0 c : City) : Prop :=
  size c = size c0 /\ age c = age c0 /\ dtypes c = dtypes c0
  /\ btypes c = btypes c0 /\ pophistory c = pophistory c0
  /\ bizhistory c = bizhistory c0
  /\ map bl_location (business_locations c)
     = map bl_location (business_locations c0).

(** Every active business sits on a location of the city, that location is
    marked as taken, and two active businesses never sit on the same one. *)
Definition sited (c : City) (b : nat) : Prop :=
  exists biz l,
    nth_error (heap c) b = Some biz
    /\ nth_error (business_locations c) (blocation biz) = Some l
    /\ b_location biz = bl_location l
    /\ available l = false.

Definition apart (c : City) : Prop :=
  forall b1 b2 biz1 biz2,
    In b1 (businesses c) -> In b2 (businesses c) ->
    nth_error (heap c) b1 = Some biz1 ->
    nth_error (heap c) b2 = Some biz2 ->
    blocation biz1 = blocation biz2 -> b1 = b2.

Definition placed (c : City) : Prop :=
  NoDup (businesses c)
  /\ (forall b, In b (businesses c) -> sited c b)
  /\ apart c.

(** Unmet needs are never negative, as long as no unit price is. *)
Definition prices_nonneg (c : City) : Prop :=
  Forall (fun kv => 0 <= to_R (dprice (snd kv))) (dtypes c).

Definition needs_nonneg_person (p : Person) : Prop :=
  Forall (fun kv => 0 <= to_R (snd kv)) (needs p).

Definition needs_nonneg (c : City) : Prop :=
  Forall needs_nonneg_person (people c).

Definition solvent_needs (c : City) : Prop :=
  prices_nonneg c -> needs_nonneg c.

(** [Inv k c0 c]: the city [c] has the fixed parts of [c0] and non-negative
    needs; with [k = true] its active businesses are moreover well placed. *)
Definition Inv (k : bool) (c0 c : City) : Prop :=
  frame c0 c /\ (k = true -> placed c) /\ solvent_needs c.

(** A computation that preserves [Inv], whether it returns or raises. *)
Definition keeps (k : bool) (c0 : City) {A} (m : M A) : Prop :=
  hoare (Inv k c0) m (fun _ => Inv k c0) (Inv k c0).

(** What no method ever changes after construction. *)
Definition stable (c0 c : City) : Prop :=
  size c = size c0 /\ dtypes c = dtypes c0 /\ btypes c = btypes c0
  /\ map bl_location (business_locations c)
     = map bl_location (business_locations c0).

(** A city of the run that started from [c0]. *)
Definition Run (c0 c : City) : Prop :=
  stable c0 c /\ placed c /\ solvent_needs c.

(** One more cycle on the clock, one more record in each history. *)
Definition ticked (cs : City) (pr : dict PopRow) (br : dict BizRow)
    (c : City) : Prop :=
  age c = (age cs + 1)%Z
  /\ pophistory c = pophistory cs ++ [pr]
  /\ bizhistory c = bizhistory cs ++ [br].

(** Between cycles the two histories have one record per cycle, plus the
    one taken at construction. *)
Definition Steady (c0 c : City) : Prop :=
  Run c0 c
  /\ Z.of_nat (length (pophistory c)) = (age c + 1)%Z
  /\ Z.of_nat (length (bizhistory c)) = (age c + 1)%Z.

(** The coordinates of the locations generated for the radius [sz]. *)
Definition lattice (sz : R) : list Loc :=
  map bl_location (generate_business_locations sz).

(** The location at index [i] is vacant. *)
Definition free_at (c : City) (i : nat) : Prop :=
  exists l, nth_error (business_locations c) i = Some l /\ available l = true.

(** While the constructor runs, and once it has returned. *)
Definition Building (c : City) : Prop :=
  placed c /\ solvent_needs c
  /\ (business_locations c = []
      \/ map bl_location (business_locations c) = lattice (size c)).

Definition Ready (c : City) : Prop :=
  placed c /\ solvent_needs c
  /\ map bl_location (business_locations c) = lattice (size c)
  /\ age c = 0%Z
  /\ length (pophistory c) = 1%nat
  /\ length (bizhistory c) = 1%nat.

(** Every active business sits on a point of the lattice generated from the
    radius of the city, and two distinct active businesses sit on two
    distinct points. *)
Definition one_per_location (c : City) : Prop :=
  NoDup (businesses c)
  /\ (forall b, In b (businesses c) ->
        exists biz, nth_error (heap c) b = Some biz
                    /\ In (b_location biz) (lattice (size c)))
  /\ (forall b1 b2 biz1 biz2,
        In b1 (businesses c) -> In b2 (businesses c) ->
        nth_error (heap c) b1 = Some biz1 ->
        nth_error (heap c) b2 = Some biz2 ->
        b_location biz1 = b_location biz2 -> b1 = b2).

(** A run: the constructor, then [life]. *)
Definition simulation (dtraw : dict DemandRaw) (btraw : dict BusinessRaw)
    (fuel : nat) (nm : string) (sz : num) (n_people ncycles : Z) : M unit :=
  City_init dtraw btraw fuel nm sz n_people ;;; life ncycles.

(** ** Concrete cities and the readings of the claims that fail *)

(** A city of radius [sz] with nothing in it, and a tape of draws that all
    fall far outside the unit disk. *)
Definition bare_city (sz : R) : City :=
  mkCity "Dmotopia" sz 0 [] [] [] [] [] [] [] [] [].

Definition far_world : World :=
  mkWorld (bare_city 1) (fun _ => 0%nat) (fun _ => 5).

(** The reading of C4 that fails: some number [N] of passes is enough for
    every tape, so that the loop is never still running after [N] passes. *)
Definition retries_bounded : Prop :=
  exists N : nat,
    forall w, size (w_city w) = 1 ->
              forall w', pop_density_rand N w <> Raise StillRunning w'.

(** A tape whose first pair of draws misses the unit disk and whose second
    pair is the origin. *)
Definition second_try_world : World :=
  mkWorld (bare_city 1) (fun _ => 0%nat)
    (fun n => match n with 0%nat | 1%nat => 5 | _ => 0 end).

(** How the city [c'] at the end of the scan relates to the city [c] in
    which the iterator stands at index [i]. *)
Definition scanned (i : nat) (c c' : City) : Prop :=
  (forall x, ~ In x (skipn i (businesses c)) ->
     nth_error (heap c') x = nth_error (heap c) x)
  /\ (forall x biz,
        In x (skipn i (businesses c)) -> nth_error (heap c) x = Some biz ->
        (nth_error (heap c') x = Some biz /\ In x (businesses c'))
        \/ (nth_error (heap c') x = Some (burned biz)
            /\ 0 <= to_R (cash (burned biz)) /\ In x (businesses c'))
        \/ (nth_error (heap c') x = Some (dead c (burned biz))
            /\ to_R (cash (burned biz)) < 0
            /\ ~ In x (businesses c') /\ In x (failed_businesses c')))
  /\ (forall x, In x (businesses c) -> ~ In x (skipn i (businesses c)) ->
        In x (businesses c'))
  /\ incl (businesses c') (businesses c)
  /\ incl (failed_businesses c) (failed_businesses c')
  /\ age c' = age c
  /\ placed c'
  /\ people c' = people c
  /\ ((forall x biz, In x (skipn i (businesses c)) ->
         nth_error (heap c) x = Some biz -> 0 <= to_R (cash (burned biz))) ->
      businesses c' = businesses c
      /\ forall x biz, In x (skipn i (businesses c)) ->
           nth_error (heap c) x = Some biz ->
           nth_error (heap c') x = Some (burned biz)).

(** Two shops of one type, the first of which cannot pay its bills. *)
Definition diner : BusinessType :=
  mkBusinessType "food" (PInt 10) (PInt 2) (PInt 2) (PInt 1).

Definition shop (j : nat) (x : Z) (c : num) : Business :=
  mkBusiness generate_business_name j (PInt x, PInt 0) diner "food" c 3 None None.

Definition two_shops_city : City :=
  mkCity "Dmotopia" 2 7 [] [("food"%string, diner)] []
    [shop 0 0 (PFloat (1 / 2)); shop 1 1 (PInt 5)]
    [0%nat; 1%nat]
    [mkBusinessLocation (PInt 0, PInt 0) false;
     mkBusinessLocation (PInt 1, PInt 0) false]
    [] [] [].

Definition two_shops : World :=
  mkWorld two_shops_city (fun _ => 0%nat) (fun _ => 0).

(** The city after phase 4 on [two_shops]: the first shop is dead and off
    the list, the second one has not been touched. *)
Definition two_shops_after : City :=
  city_after_bizfail
    (with_heap two_shops_city
       (list_set (heap two_shops_city) 0
          (dead two_shops_city (burned (shop 0 0 (PFloat (1 / 2)))))))
    0 [1%nat] (dead two_shops_city (burned (shop 0 0 (PFloat (1 / 2)))))
    (mkBusinessLocation (PInt 0, PInt 0) false).

(** What C2 asks of phase 4: it decreases the cash of every business that
    is active when it begins by the burn rate of its type. *)
Definition burns_every_active_business (w : World) : Prop :=
  forall w',
    scan_businesses (length (businesses (w_city w))) 0 burn w = Ok tt w' ->
    forall b biz,
      In b (businesses (w_city w)) ->
      nth_error (heap (w_city w)) b = Some biz ->
      exists biz',
        nth_error (heap (w_city w')) b = Some biz'
        /\ to_R (cash biz') = to_R (cash biz) - to_R (burnrate (btype biz)).

(** A person at the origin with an unmet need of 6 for food (three units at
    the price of 2), and one shop at the origin with a cash of 10. *)
Definition grocer : DemandType := mkDemandType "food" (PInt 3) (PInt 2).

Definition hungry : Person :=
  mkPerson generate_person_name (PFloat 0, PFloat 0) [("food"%string, PInt 6)].

Definition hungry_city : City :=
  mkCity "Dmotopia" 1 1 [("food"%string, grocer)] [("food"%string, diner)]
    [hungry] [shop 0 0 (PInt 10)] [0%nat]
    [mkBusinessLocation (PInt 0, PInt 0) false] [] [] [].

Definition hungry_world : World :=
  mkWorld hungry_city (fun _ => 0%nat) (fun _ => 0).

(** The reading of C1 that fails: when the candidate set of a need is not
    empty, some candidate has its cash credited with exactly the need. *)
Definition credits_the_need (w : World) (i : nat) (need : string) : Prop :=
  forall p amt dt r w',
    nth_error (people (w_city w)) i = Some p ->
    dict_get (needs p) need = Some amt ->
    dict_get (dtypes (w_city w)) need = Some dt ->
    demand_radius dt amt = Some r ->
    pos_biz (w_city w) p r <> [] ->
    fulfill_need i need w = Ok tt w' ->
    exists b biz biz',
      In b (pos_biz (w_city w) p r)
      /\ nth_error (heap (w_city w)) b = Some biz
      /\ nth_error (heap (w_city w')) b = Some biz'
      /\ to_R (cash biz') = to_R (cash biz) + to_R amt.

(** The value of [startup_score], when it returns one. *)
Fixpoint sum_needs (ps : list Person) (bt : BusinessType)
    (bl : BusinessLocation) (acc : num) : option num :=
  match ps with
  | [] => Some acc
  | p :: ps' =>
      if inside (p_location p) (bl_location bl) (initial_need_radius bt)
      then match dict_get (needs p) (bname bt) with
           | Some n => sum_needs ps' bt bl (py_add acc n)
           | None => None
           end
      else sum_needs ps' bt bl acc
  end.

Definition score (c : City) (bt : BusinessType) (bl : BusinessLocation)
  : option num :=
  match sum_needs (people c) bt bl (PFloat 0) with
  | Some d => py_div d (initial_need_threshold bt)
  | None => None
  end.

(** The type [nb] has a score at [bl], below [x]; at most [x]. *)
Definition score_below (c : City) (bl : BusinessLocation) (x : R)
    (nb : string * BusinessType) : Prop :=
  exists s, score c (snd nb) bl = Some s /\ to_R s < x.

Definition score_at_most (c : City) (bl : BusinessLocation) (x : R)
    (nb : string * BusinessType) : Prop :=
  exists s, score c (snd nb) bl = Some s /\ to_R s <= x.

(** What the loop over the registry leaves in [(best, best_type)]: either
    nothing beat the initial [best], or the winner is the first type, in
    iteration order, whose score is the largest. *)
Definition best_found (c : City) (bl : BusinessLocation)
    (types : dict BusinessType) (acc res : num * option BusinessType)
  : Prop :=
  (res = acc /\ Forall (score_at_most c bl (to_R (fst acc))) types)
  \/ (exists pre n bt post s,
        types = pre ++ (n, bt) :: post
        /\ res = (s, Some bt)
        /\ score c bt bl = Some s
        /\ to_R (fst acc) < to_R s
        /\ Forall (score_below c bl (to_R s)) pre
        /\ Forall (score_at_most c bl (to_R s)) post).

(** Scenario A, with the business type named after the demand it serves: a
    city of radius 1, one person at the origin with an unmet need of 3 for
    food, and one vacant location at the origin. *)
Definition corner : BusinessLocation :=
  mkBusinessLocation (PInt 0, PInt 0) true.

Definition scenario_A : City :=
  mkCity "Dmotopia" 1 1
    [("food"%string, mkDemandType "food" (PInt 1) (PInt 1))]
    [("food"%string, diner)]
    [mkPerson generate_person_name (PFloat 0, PFloat 0)
       [("food"%string, PInt 3)]]
    [] [] [corner] [] [] [].

Definition scenario_A_world : World :=
  mkWorld scenario_A (fun _ => 0%nat) (fun _ => 0).

(** Two types with the same parameters, hence the same score at [corner],
    in a registry that is iterated in one order or the other. *)
Definition type_a : BusinessType :=
  mkBusinessType "a" (PInt 10) (PInt 2) (PInt 2) (PInt 1).
Definition type_b : BusinessType :=
  mkBusinessType "b" (PInt 10) (PInt 2) (PInt 2) (PInt 1).

Definition tie_city (registry : dict BusinessType) : City :=
  mkCity "Dmotopia" 1 1
    [("a"%string, mkDemandType "a" (PInt 1) (PInt 1));
     ("b"%string, mkDemandType "b" (PInt 1) (PInt 1))]
    registry
    [mkPerson generate_person_name (PFloat 0, PFloat 0)
       [("a"%string, PInt 3); ("b"%string, PInt 3)]]
    [] [] [corner] [] [] [].

Definition tie_world (registry : dict BusinessType) : World :=
  mkWorld (tie_city registry) (fun _ => 0%nat) (fun _ => 0).

(** The reading of C3 that fails: the type that the loop selects does not
    depend on the order in which the registry is iterated. *)
Definition choice_ignores_iteration_order : Prop :=
  forall reg1 reg2 r1 r2 w1 w2,
    Permutation reg1 reg2 ->
    best_startup corner (tie_world reg1) = Ok r1 w1 ->
    best_startup corner (tie_world reg2) = Ok r2 w2 ->
    snd r1 = snd r2.

(** The two operations of a person, in any order and on any person. *)
Inductive person_op : Type :=
| Generate (i : nat)
| Fulfill (i : nat).

Definition run_op (o : person_op) : M unit :=
  match o with
  | Generate i => generate i
  | Fulfill i => fulfill i
  end.

(** The tables of Scenario A, with the business type named after the demand
    it serves, and a world whose draws put the person on the origin and give
    3 for every integer draw. *)
Definition food_demand : dict DemandRaw :=
  [("food"%string, mkDemandRaw (PInt 1) (PInt 1))].
Definition food_business : dict BusinessRaw :=
  [("food"%string, mkBusinessRaw (PInt 10) (PInt 2) (PInt 2) (PInt 1))].

Definition blank_world : World :=
  mkWorld (bare_city 0) (fun _ => 3%nat) (fun _ => 0).

(** The city that the constructor returns on these inputs. *)
Definition built_world : World :=
  mkWorld
    (mkCity "Dmotopia" 1 0
       [("food"%string, mkDemandType "food" (PInt 1) (PInt 1))]
       [("food"%string, diner)]
       [mkPerson "Dmo" (PFloat 0, PFloat 0) [("food"%string, PInt 0)]]
       [] [] [corner] []
       [[("food"%string, mkPopRow 0 (PFloat 0))]]
       [[("food"%string, mkBizRow 0 (PFloat 0))]])
    (fun _ => 3%nat) (fun _ => 0).

(** The city after one cycle: the person drew a need of 3, a diner started
    at the origin with a cash of 10, was paid 3 and burned 1. *)
Definition cycled_world : World :=
  mkWorld
    (mkCity "Dmotopia" 1 1
       [("food"%string, mkDemandType "food" (PInt 1) (PInt 1))]
       [("food"%string, diner)]
       [mkPerson "Dmo" (PFloat 0, PFloat 0) [("food"%string, PInt 0)]]
       [mkBusiness "Dmo's Chicken and Waffles" 0 (PInt 0, PInt 0) diner
          "food" (PInt 12) 1 None None]
       [0%nat]
       [mkBusinessLocation (PInt 0, PInt 0) false] []
       [[("food"%string, mkPopRow 0 (PFloat 0))];
        [("food"%string, mkPopRow 0 (PFloat 0))]]
       [[("food"%string, mkBizRow 0 (PFloat 0))];
        [("food"%string, mkBizRow 1 (PFloat (0 + 12)))]])
    (fun _ => 3%nat) (fun _ => 0).

(** ** Registries *)

(** The type objects that the two registries are made of. *)
Definition demand_of_raw (tr : string * DemandRaw) : DemandType :=
  mkDemandType (fst tr) (raw_dlambda (snd tr)) (raw_dprice (snd tr)).

Definition business_of_raw (tr : string * BusinessRaw) : BusinessType :=
  mkBusinessType (fst tr) (raw_init_cash (snd tr))
    (raw_init_need_threshold (snd tr)) (raw_init_need_radius (snd tr))
    (raw_burnrate (snd tr)).

(** ** The books of a city *)

(** A business that has not died, and one that has: [die] dated its death
    within the life of the city, and its cash was negative then. *)
Definition alive (biz : Business) : Prop :=
  deathday biz = None /\ lifespan biz = None.

Definition buried (c : City) (biz : Business) : Prop :=
  exists d, deathday biz = Some d
            /\ lifespan biz = Some (d - birthday biz)%Z
            /\ (birthday biz <= d <= age c)%Z
            /\ to_R (cash biz) < 0.

(** The type of a business is an object of the registry, and [type] is its
    name. *)
Definition from_registry (c : City) (biz : Business) : Prop :=
  b_type biz = bname (btype biz) /\ exists n, In (n, btype biz) (btypes c).

(** [Books c]: every active business is alive and was born in the past;
    every failed business is buried and no longer active; no business
    failed twice; every business ever created is active or failed; every
    business has a type of the registry; and a location that is marked as
    taken holds an active business. *)
Definition Books (c : City) : Prop :=
  (forall b, In b (businesses c) ->
     exists biz, nth_error (heap c) b = Some biz
                 /\ alive biz /\ (birthday biz <= age c)%Z)
  /\ (forall b, In b (failed_businesses c) ->
        exists biz, nth_error (heap c) b = Some biz
                    /\ buried c biz /\ ~ In b (businesses c))
  /\ NoDup (failed_businesses c)
  /\ (forall b, (b < length (heap c))%nat ->
        In b (businesses c) \/ In b (failed_businesses c))
  /\ Forall (from_registry c) (heap c)
  /\ (forall j l,
        nth_error (business_locations c) j = Some l -> available l = false ->
        exists b biz, In b (businesses c)
                      /\ nth_error (heap c) b = Some biz
                      /\ blocation biz = j).

(** Every person holds one need per demand type, and no other. *)
Definition keyed (c : City) : Prop :=
  Forall (fun p => forall n, In n (dict_keys (needs p))
                             <-> In n (dict_keys (dtypes c)))
    (people c).

(** The people of [c] are those of [c0], where they were. *)
Definition same_people (c0 c : City) : Prop :=
  map p_name (people c) = map p_name (people c0)
  /\ map p_location (people c) = map p_location (people c0).

(** [Sound c0 c]: the invariant of a phase that started in [c0]. *)
Definition Sound (c0 c : City) : Prop :=
  Inv true c0 c /\ Books c /\ keyed c /\ same_people c0 c.

Definition sound {A} (c0 : City) (m : M A) : Prop :=
  hoare (Sound c0) m (fun _ => Sound c0) (Sound c0).

(** The part of [Sound] that [Inv] does not hold already. *)
Definition Rest (c0 c : City) : Prop :=
  Books c /\ keyed c /\ same_people c0 c.

(** The tables with which no method of a cycle raises: no arrival rate and
    no threshold is zero, every business type is stored under its name, and
    that name is the name of a demand type. *)
Definition rates_ok (c : City) : Prop :=
  Forall (fun kv => to_R (dlambda (snd kv)) <> 0) (dtypes c).

Definition types_ok (c : City) : Prop :=
  Forall (fun kv => bname (snd kv) = fst kv
                    /\ In (fst kv) (dict_keys (dtypes c))
                    /\ to_R (initial_need_threshold (snd kv)) <> 0)
    (btypes c).

Definition well_formed (c : City) : Prop := rates_ok c /\ types_ok c.

(** Raw tables that give such registries: every arrival rate is positive,
    as [poisson.rvs] wants it, no threshold is zero, and every business
    type is named after a demand type. *)
Definition rates_positive (dtraw : dict DemandRaw) : Prop :=
  Forall (fun kv => 0 < to_R (raw_dlambda (snd kv))) dtraw.

Definition tables_ok (dtraw : dict DemandRaw) (btraw : dict BusinessRaw)
  : Prop :=
  rates_positive dtraw
  /\ Forall (fun kv => In (fst kv) (dict_keys dtraw)
                       /\ to_R (raw_init_need_threshold (snd kv)) <> 0)
       btraw.

(** A computation that returns. *)
Definition returns {A} (m : M A) (w : World) : Prop :=
  exists a w', m w = Ok a w'.

(** A computation that leaves the whole state alone, tapes included. *)
Definition quiet {A} (m : M A) : Prop :=
  forall w, final (m w) = w.

(** A computation whose exceptions all lie in [S]. *)
Definition raises_only {A} (S : Exn -> Prop) (m : M A) : Prop :=
  forall w e w', m w = Raise e w' -> S e.

(** The exceptions of a score. *)
Definition score_errors (e : Exn) : Prop :=
  e = KeyError \/ e = ZeroDivisionError.

(** ** Construction *)

(** A person as [Person.__init__] makes one for the city [c]. *)
Definition newcomer (c : City) (p : Person) : Prop :=
  p_name p = generate_person_name
  /\ distance (p_location p) (PInt 0, PInt 0) <= size c
  /\ needs p = init_needs c.

(** A business as [startup] leaves it, before anybody paid it and before it
    paid any bill. *)
Definition untouched (c : City) (biz : Business) : Prop :=
  b_name biz = generate_business_name
  /\ cash biz = initial_cash (btype biz)
  /\ birthday biz = age c
  /\ alive biz.

(** Every type of the registry is stored under its name. *)
Definition named (c : City) : Prop :=
  Forall (fun kv => bname (snd kv) = fst kv) (btypes c).

(** Between two cycles: the invariant of a run that started in [c0]. *)
Definition Whole (c0 c : City) : Prop :=
  Run c0 c /\ Books c /\ keyed c /\ same_people c0 c.

(** The body of the loop of [business_populate]. *)
Definition populate_body (i : nat) : M unit :=
  c <- get_city ;;
  bt <- choice (dict_keys (btypes c)) ;;
  b_obj <- lift KeyError (dict_get (btypes c) bt) ;;
  startup b_obj i generate_business_name.

(** While [business_populate] runs: nobody has failed, the active
    businesses are all the businesses, in the order of their creation, and
    each of them is as [startup] left it. *)
Definition Site (c0 c : City) : Prop :=
  Sound c0 c
  /\ failed_businesses c = []
  /\ businesses c = seq 0 (length (heap c))
  /\ Forall (untouched c) (heap c)
  /\ people c = people c0.

(** A computation that, from a sound city, returns in a sound city. *)
Definition total {A} (c0 : City) (m : M A) : Prop :=
  hoare (Sound c0) m (fun _ => Sound c0) (fun _ => False).

(** The four phases of a cycle, and the two reports that end it. *)
Definition phases : M unit :=
  c <- get_city ;;
  for_each (seq 0 (length (people c))) generate ;;;
  c <- get_city ;;
  for_each (seq 0 (length (business_locations c))) try_startup ;;;
  c <- get_city ;;
  for_each (seq 0 (length (people c))) fulfill ;;;
  c <- get_city ;;
  scan_businesses (length (businesses c)) 0 burn.

Definition reports : M unit :=
  pr <- popreport ;;
  modify (fun c => with_pophistory c (pophistory c ++ [pr])) ;;;
  br <- bizreport ;;
  modify (fun c => with_bizhistory c (bizhistory c ++ [br])).

Definition tick : M unit := modify (fun c => with_age c (age c + 1)%Z).

(** The city after one step of [generate] that drew [k]. *)
Definition city_after_generate_step (c : City) (i : nat) (p : Person)
    (n : string) (old : num) (dt : DemandType) (k : nat) : City :=
  with_people c
    (list_set (people c) i
       (with_needs p
          (dict_set (needs p) n
             (py_add old (py_mul (PInt (Z.of_nat k)) (dprice dt)))))).

(** The tape of naturals after one draw. *)
Definition drawn (w : World) (c : City) : World :=
  mkWorld c (fun n => w_ints w (S n)) (w_reals w).

(** What [best_startup] returns: a type of the registry, or nothing together
    with the initial [best]. *)
Definition best_of (types : dict BusinessType)
    (bb : num * option BusinessType) : Prop :=
  match snd bb with
  | Some bt => exists n, In (n, bt) types
  | None => fst bb = PInt 0
  end.

(** What the constructor builds from the two tables, a radius and a number
    of people: the two registries, that many people placed in the disk with
    needs of zero, the lattice of locations, and on three quarters of the
    locations, rounded down, a business that nobody has paid yet. *)
Definition Built (dtraw : dict DemandRaw) (btraw : dict BusinessRaw)
    (sz : num) (n : Z) (c : City) : Prop :=
  size c = to_R sz /\ age c = 0%Z
  /\ dtypes c = compile_dtypes dtraw /\ btypes c = compile_btypes btraw
  /\ length (people c) = Z.to_nat n
  /\ Forall (newcomer c) (people c)
  /\ map bl_location (business_locations c) = lattice (size c)
  /\ failed_businesses c = []
  /\ businesses c = seq 0 (length (heap c))
  /\ Forall (untouched c) (heap c)
  /\ length (heap c)
     = Z.to_nat (py_int (INR (length (business_locations c)) * (3 / 4))).

(** The city in which a run stops, whether it returns or raises. *)
Definition end_of_run (dtraw : dict DemandRaw) (btraw : dict BusinessRaw)
    (fuel : nat) (nm : string) (sz : num) (n_people ncycles : Z) (w : World)
  : City :=
  w_city (final (simulation dtraw btraw fuel nm sz n_people ncycles w)).

(** ** The value of [startup_score] *)

(** The people strictly within the need radius of [bt] around [bl]. *)
Definition neighbours (c : City) (bt : BusinessType) (bl : BusinessLocation)
  : list Person :=
  filter (fun p => inside (p_location p) (bl_location bl)
                     (initial_need_radius bt))
    (people c).

(** The need of a person for the demand called [n], as a real; a person
    without that need counts for nothing. *)
Definition need_of (n : string) (p : Person) : R :=
  match dict_get (needs p) n with
  | Some v => to_R v
  | None => 0
  end.

Definition sum_R (l : list R) : R := fold_right Rplus 0 l.

(** Scenario A as the specification words it: the business type is called
    "diner" and the demand is called "food". *)
Definition diner_by_name : BusinessType :=
  mkBusinessType "diner" (PInt 10) (PInt 2) (PInt 2) (PInt 1).

Definition mismatch_city : City :=
  mkCity "Dmotopia" 1 1
    [("food"%string, mkDemandType "food" (PInt 1) (PInt 1))]
    [("diner"%string, diner_by_name)]
    [mkPerson generate_person_name (PFloat 0, PFloat 0)
       [("food"%string, PInt 3)]]
    [] [] [corner] [] [] [].

Definition mismatch_world : World :=
  mkWorld mismatch_city (fun _ => 0%nat) (fun _ => 0).

(** ** The demand radius *)

(** Two numbers of the same Python type. *)
Definition same_kind (a b : num) : Prop :=
  match a, b with
  | PInt _, PInt _ => True
  | PFloat _, PFloat _ => True
  | _, _ => False
  end.

(** A demand whose arrival rate is zero: nothing ever arrives, and the
    radius cannot be computed. *)
Definition idle_city : City :=
  mkCity "Dmotopia" 1 1
    [("food"%string, mkDemandType "food" (PInt 0) (PInt 1))]
    [] [mkPerson generate_person_name (PFloat 0, PFloat 0)
          [("food"%string, PInt 0)]]
    [] [] [] [] [] [].

Definition idle_world : World :=
  mkWorld idle_city (fun _ => 0%nat) (fun _ => 0).

(** ** The two reports *)

(** The businesses that the active list refers to, in its order. *)
Definition active_records (c : City) : list Business :=
  flat_map (fun b => match nth_error (heap c) b with
                     | Some biz => [biz]
                     | None => []
                     end)
    (businesses c).

Definition of_type (t : string) (bs : list Business) : list Business :=
  filter (fun biz => String.eqb (b_type biz) t) bs.

(** The entries of the needs of everybody, and those for the demand [t]
    that are positive. *)
Definition all_needs (c : City) : list (string * num) :=
  flat_map needs (people c).

Definition unmet (t : string) (entries : list (string * num))
  : list (string * num) :=
  filter (fun na => String.eqb (fst na) t && py_gtb (to_R (snd na)) 0) entries.

(** The rows of a business report after the businesses [done]. *)
Definition biz_rows (keys : list string) (bd : dict BizRow)
    (done : list Business) : Prop :=
  (forall k, In k (dict_keys bd) <-> In k keys)
  /\ forall t, In t keys ->
       exists row,
         dict_get bd t = Some row
         /\ count row = Z.of_nat (length (of_type t done))
         /\ to_R (totalcash row)
            = sum_R (map (fun biz => to_R (cash biz)) (of_type t done)).

(** The body of the loop of [bizreport]. *)
Definition bizreport_body (bd : dict BizRow) (b : nat) : M (dict BizRow) :=
  biz <- get_business b ;;
  row <- lift KeyError (dict_get bd (b_type biz)) ;;
  ret (dict_set bd (b_type biz)
         (mkBizRow (count row + 1) (py_add (totalcash row) (cash biz)))).

(** The rows of a population report after the entries [done]. *)
Definition pop_rows (keys : list string) (pd : dict PopRow)
    (done : list (string * num)) : Prop :=
  (forall k, In k (dict_keys pd) <-> In k keys)
  /\ forall t, In t keys ->
       exists row,
         dict_get pd t = Some row
         /\ demand_count row = Z.of_nat (length (unmet t done))
         /\ to_R (total_demand row)
            = sum_R (map (fun na => to_R (snd na)) (unmet t done)).

(** The body of the inner loop of [popreport]. *)
Definition popreport_body (pd : dict PopRow) (na : string * num)
  : M (dict PopRow) :=
  if py_gtb (to_R (snd na)) 0
  then row <- lift KeyError (dict_get pd (fst na)) ;;
       ret (dict_set pd (fst na)
              (mkPopRow (demand_count row + 1)
                 (py_add (total_demand row) (snd na))))
  else ret pd.

(** ** The needs after [generate] *)

(** The needs [nd] after one pass over the demand types [ks], the draws
    being read from [ints]; [None] when a name is missing. *)
Fixpoint generated (dts : dict DemandType) (ks : list string) (nd : dict num)
    (ints : nat -> nat) : option (dict num) :=
  match ks with
  | [] => Some nd
  | n :: ks' =>
      match dict_get nd n, dict_get dts n with
      | Some old, Some dt =>
          generated dts ks'
            (dict_set nd n
               (py_add old (py_mul (PInt (Z.of_nat (ints 0%nat))) (dprice dt))))
            (fun m => ints (S m))
      | _, _ => None
      end
  end.

(** ** One person's cycle *)

(** What [Person.cycle] never touches: who is active and who has failed,
    the locations, the age of the city and the number of businesses. *)
Definition shops_fixed (c0 c : City) : Prop :=
  businesses c = businesses c0
  /\ failed_businesses c = failed_businesses c0
  /\ business_locations c = business_locations c0
  /\ age c = age c0
  /\ length (heap c) = length (heap c0).

(** ** What is never undone *)

(** The same business at two moments: only its cash and the record of its
    death may differ. *)
Definition same_business (biz biz' : Business) : Prop :=
  b_name biz' = b_name biz /\ blocation biz' = blocation biz
  /\ b_location biz' = b_location biz /\ btype biz' = btype biz
  /\ b_type biz' = b_type biz /\ birthday biz' = birthday biz.

(** [frozen c0 c]: from [c0] to [c] the failed list has only been appended
    to, no business has disappeared or changed its identity, and the
    businesses that had failed are exactly as they were. *)
Definition frozen (c0 c : City) : Prop :=
  (exists extra, failed_businesses c = failed_businesses c0 ++ extra)
  /\ (forall x biz,
        nth_error (heap c0) x = Some biz ->
        exists biz', nth_error (heap c) x = Some biz'
                     /\ same_business biz biz')
  /\ (forall x, In x (failed_businesses c0) ->
                nth_error (heap c) x = nth_error (heap c0) x).

Definition freezes {A} (s : City) (m : M A) : Prop :=
  forall w, Sound s (w_city w) ->
            frozen (w_city w) (w_city (final (m w))).

(** Scenario A with bills that no diner can pay: the burn rate is 20, more
    than the initial cash of 10 and one payment of 3.  The constructor
    builds the same city as before.  In each cycle a diner starts at the
    origin, is paid 3, burns 20 and dies with a cash of -7. *)
Definition costly_diner : BusinessType :=
  mkBusinessType "food" (PInt 10) (PInt 2) (PInt 2) (PInt 20).

Definition costly_business : dict BusinessRaw :=
  [("food"%string, mkBusinessRaw (PInt 10) (PInt 2) (PInt 2) (PInt 20))].

Definition costly_built_world : World :=
  mkWorld
    (mkCity "Dmotopia" 1 0
       [("food"%string, mkDemandType "food" (PInt 1) (PInt 1))]
       [("food"%string, costly_diner)]
       [mkPerson "Dmo" (PFloat 0, PFloat 0) [("food"%string, PInt 0)]]
       [] [] [corner] []
       [[("food"%string, mkPopRow 0 (PFloat 0))]]
       [[("food"%string, mkBizRow 0 (PFloat 0))]])
    (fun _ => 3%nat) (fun _ => 0).

(** After one cycle: the first diner has failed. *)
Definition bankrupt_world : World :=
  mkWorld
    (mkCity "Dmotopia" 1 1
       [("food"%string, mkDemandType "food" (PInt 1) (PInt 1))]
       [("food"%string, costly_diner)]
       [mkPerson "Dmo" (PFloat 0, PFloat 0) [("food"%string, PInt 0)]]
       [mkBusiness "Dmo's Chicken and Waffles" 0 (PInt 0, PInt 0) costly_diner
          "food" (PInt (-7)) 1 (Some 1%Z) (Some 0%Z)]
       []
       [mkBusinessLocation (PInt 0, PInt 0) true]
       [0%nat]
       [[("food"%string, mkPopRow 0 (PFloat 0))];
        [("food"%string, mkPopRow 0 (PFloat 0))]]
       [[("food"%string, mkBizRow 0 (PFloat 0))];
        [("food"%string, mkBizRow 0 (PFloat 0))]])
    (fun _ => 3%nat) (fun _ => 0).

(** After two cycles: a second diner has started on the vacant location and
    has failed in its turn; the first one is as it was. *)
Definition twice_bankrupt_world : World :=
  mkWorld
    (mkCity "Dmotopia" 1 2
       [("food"%string, mkDemandType "food" (PInt 1) (PInt 1))]
       [("food"%string, costly_diner)]
       [mkPerson "Dmo" (PFloat 0, PFloat 0) [("food"%string, PInt 0)]]
       [mkBusiness "Dmo's Chicken and Waffles" 0 (PInt 0, PInt 0) costly_diner
          "food" (PInt (-7)) 1 (Some 1%Z) (Some 0%Z);
        mkBusiness "Dmo's Chicken and Waffles" 0 (PInt 0, PInt 0) costly_diner
          "food" (PInt (-7)) 2 (Some 2%Z) (Some 0%Z)]
       []
       [mkBusinessLocation (PInt 0, PInt 0) true]
       [0%nat; 1%nat]
       [[("food"%string, mkPopRow 0 (PFloat 0))];
        [("food"%string, mkPopRow 0 (PFloat 0))];
        [("food"%string, mkPopRow 0 (PFloat 0))]]
       [[("food"%string, mkBizRow 0 (PFloat 0))];
        [("food"%string, mkBizRow 0 (PFloat 0))];
        [("food"%string, mkBizRow 0 (PFloat 0))]])
    (fun _ => 3%nat) (fun _ => 0).

(** * Properties *)

(** ** Arithmetic of Python numbers *)

Lemma to_R_add a b : to_R (py_add a b) = to_R a + to_R b.
Proof. destruct a, b; simpl; try reflexivity. apply plus_IZR. Qed.

Lemma to_R_sub a b : to_R (py_sub a b) = to_R a - to_R b.
Proof. destruct a, b; simpl; try reflexivity. apply minus_IZR. Qed.

Lemma to_R_mul a b : to_R (py_mul a b) = to_R a * to_R b.
Proof. destruct a, b; simpl; try reflexivity. apply mult_IZR. Qed.

Lemma to_R_sqr a : to_R (py_sqr a) = to_R a * to_R a.
Proof. apply to_R_mul. Qed.

Lemma ltb_true x y : x < y -> py_ltb x y = true.
Proof. unfold py_ltb. destruct (Rlt_dec x y); [reflexivity | contradiction]. Qed.

Lemma ltb_false x y : y <= x -> py_ltb x y = false.
Proof. unfold py_ltb. destruct (Rlt_dec x y); [lra | reflexivity]. Qed.

Lemma ltb_iff x y : py_ltb x y = true <-> x < y.
Proof.
  unfold py_ltb. destruct (Rlt_dec x y); split; intro; try assumption;
    try reflexivity; try discriminate; contradiction.
Qed.

Lemma ltb_iff_false x y : py_ltb x y = false <-> y <= x.
Proof.
  unfold py_ltb. destruct (Rlt_dec x y); split; intro; try discriminate;
    try reflexivity; lra.
Qed.

Lemma leb_true x y : x <= y -> py_leb x y = true.
Proof. unfold py_leb. destruct (Rle_dec x y); [reflexivity | contradiction]. Qed.

Lemma leb_false x y : y < x -> py_leb x y = false.
Proof. unfold py_leb. destruct (Rle_dec x y); [lra | reflexivity]. Qed.

Lemma leb_iff x y : py_leb x y = true <-> x <= y.
Proof.
  unfold py_leb. destruct (Rle_dec x y); split; intro; try assumption;
    try reflexivity; try discriminate; contradiction.
Qed.

Lemma gtb_iff x y : py_gtb x y = true <-> y < x.
Proof. apply ltb_iff. Qed.

Lemma geb_iff x y : py_geb x y = true <-> y <= x.
Proof. apply leb_iff. Qed.

Lemma gtb_true x y : y < x -> py_gtb x y = true.
Proof. apply ltb_true. Qed.

Lemma gtb_false x y : x <= y -> py_gtb x y = false.
Proof. apply ltb_false. Qed.

Lemma geb_true x y : y <= x -> py_geb x y = true.
Proof. apply leb_true. Qed.

Lemma geb_false x y : x < y -> py_geb x y = false.
Proof. apply leb_false. Qed.

(** ** Geometry *)

Lemma sum_sq_nonneg (x y : R) : 0 <= x * x + y * y.
Proof.
  pose proof (Rle_0_sqr x) as Hx. pose proof (Rle_0_sqr y) as Hy.
  unfold Rsqr in *. lra.
Qed.

Lemma distance_sqrt a b :
  distance a b =
  sqrt ((to_R (fst a) - to_R (fst b)) * (to_R (fst a) - to_R (fst b))
        + (to_R (snd a) - to_R (snd b)) * (to_R (snd a) - to_R (snd b))).
Proof.
  unfold distance. now rewrite to_R_add, !to_R_sqr, !to_R_sub.
Qed.

Lemma distance_nonneg a b : 0 <= distance a b.
Proof. unfold distance. apply sqrt_pos. Qed.

Lemma distance_sym a b : distance a b = distance b a.
Proof. rewrite !distance_sqrt. f_equal. ring. Qed.

(** A distance below [r] compares through the squares. *)
Lemma distance_lt_iff a b r :
  0 < r ->
  (distance a b < r <->
   (to_R (fst a) - to_R (fst b)) * (to_R (fst a) - to_R (fst b))
   + (to_R (snd a) - to_R (snd b)) * (to_R (snd a) - to_R (snd b)) < r * r).
Proof.
  intro Hr. rewrite distance_sqrt.
  set (s := _ + _).
  assert (Hs : 0 <= s) by (subst s; apply sum_sq_nonneg).
  rewrite <- (sqrt_square r) at 1 by lra.
  split; intro H.
  - apply sqrt_lt_0_alt in H. exact H.
  - apply sqrt_lt_1_alt. split; assumption.
Qed.

Lemma distance_le_iff a b r :
  0 <= r ->
  (distance a b <= r <->
   (to_R (fst a) - to_R (fst b)) * (to_R (fst a) - to_R (fst b))
   + (to_R (snd a) - to_R (snd b)) * (to_R (snd a) - to_R (snd b)) <= r * r).
Proof.
  intro Hr. rewrite distance_sqrt.
  set (s := _ + _).
  assert (Hs : 0 <= s) by (subst s; apply sum_sq_nonneg).
  rewrite <- (sqrt_square r) at 1 by lra.
  split; intro H.
  - apply sqrt_le_0 in H; [exact H | exact Hs | apply Rmult_le_pos; lra].
  - apply sqrt_le_1; [exact Hs | apply Rmult_le_pos; lra | exact H].
Qed.

(** Each coordinate difference is bounded by the distance. *)
Lemma abs_dx_le_distance a b :
  Rabs (to_R (fst b) - to_R (fst a)) <= distance a b.
Proof.
  rewrite distance_sqrt. rewrite <- sqrt_Rsqr_abs.
  apply sqrt_le_1_alt. unfold Rsqr.
  pose proof (Rle_0_sqr (to_R (snd a) - to_R (snd b))) as H. unfold Rsqr in H.
  lra.
Qed.

Lemma abs_dy_le_distance a b :
  Rabs (to_R (snd b) - to_R (snd a)) <= distance a b.
Proof.
  rewrite distance_sqrt. rewrite <- sqrt_Rsqr_abs.
  apply sqrt_le_1_alt. unfold Rsqr.
  pose proof (Rle_0_sqr (to_R (fst a) - to_R (fst b))) as H. unfold Rsqr in H.
  lra.
Qed.

(** The bounding-box tests of [inside] are implied by the distance test. *)
Lemma inside_strictly_within (a b : Loc) (r : num) :
  inside a b r = strictly_within a b r.
Proof.
  unfold inside, strictly_within.
  pose proof (abs_dx_le_distance a b) as Hx.
  pose proof (abs_dy_le_distance a b) as Hy.
  rewrite !to_R_sub.
  destruct (py_gtb _ _ || py_ltb _ _) eqn:E1.
  - symmetry. apply ltb_false.
    apply orb_true_iff in E1. destruct E1 as [E1 | E1].
    + apply gtb_iff in E1.
      pose proof (Rle_abs (to_R (fst b) - to_R (fst a))). lra.
    + apply ltb_iff in E1.
      pose proof (Rle_abs (- (to_R (fst b) - to_R (fst a)))) as H.
      rewrite Rabs_Ropp in H. lra.
  - destruct (py_gtb (to_R (snd b) - _) _ || py_ltb _ _) eqn:E2.
    + symmetry. apply ltb_false.
      apply orb_true_iff in E2. destruct E2 as [E2 | E2].
      * apply gtb_iff in E2.
        pose proof (Rle_abs (to_R (snd b) - to_R (snd a))). lra.
      * apply ltb_iff in E2.
        pose proof (Rle_abs (- (to_R (snd b) - to_R (snd a)))) as H.
        rewrite Rabs_Ropp in H. lra.
    + destruct (py_ltb (distance a b) (to_R r)); reflexivity.
Qed.

Lemma inside_iff (a b : Loc) (r : num) :
  inside a b r = true <-> distance a b < to_R r.
Proof.
  rewrite inside_strictly_within. unfold strictly_within. apply ltb_iff.
Qed.

Arguments distance : simpl never.
Arguments inside : simpl never.
Arguments py_add : simpl never.
Arguments py_sub : simpl never.
Arguments py_mul : simpl never.
Arguments py_ltb : simpl never.
Arguments py_leb : simpl never.
Arguments py_gtb : simpl never.
Arguments py_geb : simpl never.

(** ** Lists and dicts *)

Lemma length_list_set {A} (l : list A) i v : length (list_set l i v) = length l.
Proof.
  revert i; induction l as [|h t IH]; intros [|i]; simpl; auto.
Qed.

Lemma nth_error_list_set_eq {A} (l : list A) i v :
  (i < length l)%nat -> nth_error (list_set l i v) i = Some v.
Proof.
  revert i; induction l as [|h t IH]; intros [|i] H; simpl in *; try lia; auto.
  apply IH; lia.
Qed.

Lemma nth_error_list_set_neq {A} (l : list A) i j v :
  i <> j -> nth_error (list_set l i v) j = nth_error l j.
Proof.
  revert i j; induction l as [|h t IH]; intros [|i] [|j] H; simpl; auto.
  congruence.
Qed.

Lemma list_set_twice {A} (l : list A) i a b :
  list_set (list_set l i a) i b = list_set l i b.
Proof.
  revert i; induction l as [|h t IH]; intros [|i]; simpl; auto.
  now rewrite IH.
Qed.

Lemma nth_error_list_set_same {A} (l : list A) i v x :
  nth_error l i = Some x -> nth_error (list_set l i v) i = Some v.
Proof.
  intro H. apply nth_error_list_set_eq. apply nth_error_Some. congruence.
Qed.

Lemma list_remove_In l x : In x l -> exists l', list_remove l x = Some l'.
Proof.
  induction l as [|h t IH]; simpl; [tauto |].
  intros [-> | H].
  - rewrite Nat.eqb_refl. eauto.
  - destruct (Nat.eqb h x); [eauto |].
    destruct (IH H) as [l' ->]. eauto.
Qed.

Lemma list_remove_In_iff l x l' :
  list_remove l x = Some l' -> NoDup l ->
  forall y, In y l' <-> In y l /\ y <> x.
Proof.
  revert l'; induction l as [|h t IH]; simpl; intros l' H ND y; [discriminate |].
  inversion ND as [|? ? Hh ND']; subst.
  destruct (Nat.eqb h x) eqn:E.
  - apply Nat.eqb_eq in E. subst h. inversion H; subst l'.
    split.
    + intro Hy. split; [now right |]. intros ->. contradiction.
    + intros [[<- | Hy] Hne]; [congruence | assumption].
  - apply Nat.eqb_neq in E.
    destruct (list_remove t x) as [t'|] eqn:Et; [| discriminate].
    inversion H; subst l'. simpl.
    specialize (IH t' eq_refl ND' y).
    split.
    + intros [<- | Hy]; [split; [now left | assumption] |].
      apply IH in Hy. tauto.
    + intros [[<- | Hy] Hne]; [now left | right; apply IH; tauto].
Qed.

Lemma list_remove_NoDup l x l' :
  list_remove l x = Some l' -> NoDup l -> NoDup l'.
Proof.
  revert l'; induction l as [|h t IH]; simpl; intros l' H ND; [discriminate |].
  inversion ND as [|? ? Hh ND']; subst.
  destruct (Nat.eqb h x) eqn:E.
  - inversion H; subst; assumption.
  - destruct (list_remove t x) as [t'|] eqn:Et; [| discriminate].
    inversion H; subst l'. constructor; [| now apply IH].
    intro Hin. apply (list_remove_In_iff _ _ _ Et ND') in Hin. tauto.
Qed.

Lemma list_remove_length l x l' :
  list_remove l x = Some l' -> length l = S (length l').
Proof.
  revert l'; induction l as [|h t IH]; simpl; intros l' H; [discriminate |].
  destruct (Nat.eqb h x).
  - now inversion H.
  - destruct (list_remove t x) as [t'|]; [| discriminate].
    inversion H; subst. simpl. f_equal. now apply IH.
Qed.

Lemma dict_get_set_eq {V} (d : dict V) k v : dict_get (dict_set d k v) k = Some v.
Proof.
  induction d as [|[k' v'] d IH]; simpl.
  - now rewrite String.eqb_refl.
  - destruct (String.eqb k' k) eqn:E; simpl; rewrite E; auto.
Qed.

Lemma dict_get_set_neq {V} (d : dict V) k k' v :
  k <> k' -> dict_get (dict_set d k v) k' = dict_get d k'.
Proof.
  intro Hne. induction d as [|[k0 v0] d IH]; simpl.
  - destruct (String.eqb k k') eqn:E; [apply String.eqb_eq in E; contradiction | reflexivity].
  - destruct (String.eqb k0 k) eqn:E; simpl.
    + apply String.eqb_eq in E. subst k0.
      destruct (String.eqb k k') eqn:E'; [apply String.eqb_eq in E'; contradiction | reflexivity].
    + now rewrite IH.
Qed.

Lemma dict_keys_set_in {V} (d : dict V) k v :
  In k (dict_keys d) -> dict_keys (dict_set d k v) = dict_keys d.
Proof.
  unfold dict_keys. induction d as [|[k' v'] d IH]; simpl; [tauto |].
  intros [-> | H].
  - now rewrite String.eqb_refl.
  - destruct (String.eqb k' k) eqn:E; simpl; [reflexivity |].
    now rewrite IH.
Qed.

Lemma dict_get_in_keys {V} (d : dict V) k :
  In k (dict_keys d) <-> exists v, dict_get d k = Some v.
Proof.
  unfold dict_keys. induction d as [|[k' v'] d IH]; simpl.
  - split; [tauto | intros [v H]; discriminate].
  - destruct (String.eqb k' k) eqn:E.
    + apply String.eqb_eq in E. split; eauto.
    + apply String.eqb_neq in E. rewrite <- IH. split; [intros [?|?]; [contradiction | assumption] | now right].
Qed.

Lemma dict_get_In {V} (d : dict V) k v : dict_get d k = Some v -> In (k, v) d.
Proof.
  induction d as [|[k' v'] d IH]; simpl; [discriminate |].
  destruct (String.eqb k' k) eqn:E.
  - apply String.eqb_eq in E. intros [= ->]. subst. now left.
  - intro H. right. auto.
Qed.

(** The values of a dict after an assignment: the new value, or old ones. *)
Lemma dict_set_values {V} (P : V -> Prop) (d : dict V) k v :
  Forall (fun kv => P (snd kv)) d -> P v ->
  Forall (fun kv => P (snd kv)) (dict_set d k v).
Proof.
  intros H Hv. induction d as [|[k' v'] d IH]; simpl.
  - constructor; [exact Hv | constructor].
  - inversion H; subst. destruct (String.eqb k' k).
    + constructor; assumption.
    + constructor; [assumption | now apply IH].
Qed.

(** ** The demand radius *)

Lemma demand_radius_float_need (dt : DemandType) (x : R) :
  to_R (dlambda dt) <> 0 ->
  demand_radius dt (PFloat x) = Some (PFloat (1 + x / to_R (dlambda dt))).
Proof.
  intro H. unfold demand_radius, py_div.
  destruct (Req_dec_T (to_R (dlambda dt)) 0) as [E | _]; [contradiction |].
  reflexivity.
Qed.

Lemma demand_radius_float_rate (l p : num) (nm : string) (lam : R) (a : num) :
  lam <> 0 ->
  exists r, demand_radius (mkDemandType nm (PFloat lam) p) a = Some r
            /\ to_R r = 1 + to_R a / lam.
Proof.
  intro H. unfold demand_radius, py_div. simpl.
  destruct (Req_dec_T lam 0) as [E | _]; [contradiction |].
  destruct a; eexists; split; reflexivity.
Qed.

Lemma demand_radius_int_int (nm : string) (p : num) (lam a : Z) :
  lam <> 0%Z ->
  demand_radius (mkDemandType nm (PInt lam) p) (PInt a)
  = Some (PFloat (1 + IZR (a / lam))).
Proof.
  intro H. unfold demand_radius, py_div. simpl.
  destruct (lam =? 0)%Z eqn:E; [apply Z.eqb_eq in E; contradiction |].
  reflexivity.
Qed.

(** With a positive rate the radius at need 0 is 1, whatever the types. *)
Lemma demand_radius_zero_need (dt : DemandType) (a : num) :
  0 < to_R (dlambda dt) -> to_R a = 0 ->
  exists r, demand_radius dt a = Some r /\ to_R r = 1.
Proof.
  intros Hl Ha. unfold demand_radius, py_div.
  destruct a as [z | x], (dlambda dt) as [lz | lx] eqn:El; simpl in *.
  - apply eq_IZR_R0 in Ha. subst z.
    destruct (lz =? 0)%Z eqn:E.
    + apply Z.eqb_eq in E. subst lz. simpl in Hl. lra.
    + eexists; split; [reflexivity |]. simpl. rewrite Z.div_0_l.
      * lra.
      * now apply Z.eqb_neq.
  - destruct (Req_dec_T lx 0); [lra |].
    eexists; split; [reflexivity |]. simpl. rewrite Ha. unfold Rdiv. lra.
  - destruct (Req_dec_T (IZR lz) 0); [lra |].
    eexists; split; [reflexivity |]. simpl. subst x. unfold Rdiv. lra.
  - destruct (Req_dec_T lx 0); [lra |].
    eexists; split; [reflexivity |]. simpl. subst x. unfold Rdiv. lra.
Qed.

(** When the need or the rate is a float the quotient is the true one, and
    the radius grows strictly with the need. *)
Lemma demand_radius_true_division (dt : DemandType) (a r : num) :
  0 < to_R (dlambda dt) ->
  (forall z lz, ~ (a = PInt z /\ dlambda dt = PInt lz)) ->
  demand_radius dt a = Some r ->
  to_R r = 1 + to_R a / to_R (dlambda dt).
Proof.
  intros Hl Hfl. unfold demand_radius, py_div.
  destruct a as [z | x], (dlambda dt) as [lz | lx] eqn:El; simpl in *.
  - exfalso. eapply Hfl; eauto.
  - destruct (Req_dec_T lx 0); [lra |]. intros [= <-]. reflexivity.
  - destruct (Req_dec_T (IZR lz) 0); [lra |]. intros [= <-]. reflexivity.
  - destruct (Req_dec_T lx 0); [lra |]. intros [= <-]. reflexivity.
Qed.

(** ** The placement loop *)

Lemma initial_loc_outside (sz : R) : outside sz (PFloat (sz + 1), PInt 0).
Proof.
  unfold outside. rewrite distance_sqrt. simpl.
  replace ((sz + 1 - 0) * (sz + 1 - 0) + (0 - 0) * (0 - 0))
    with (Rsqr (sz + 1)) by (unfold Rsqr; ring).
  rewrite sqrt_Rsqr_abs.
  pose proof (Rle_abs (sz + 1)). lra.
Qed.

Lemma pop_density_loop_Ok_or_running fuel sz loc w :
  (exists l w', pop_density_loop fuel sz loc w = Ok l w')
  \/ (exists w', pop_density_loop fuel sz loc w = Raise StillRunning w').
Proof.
  revert loc w. induction fuel as [|f IH]; intros loc w; simpl.
  - destruct (py_gtb _ _); [right | left]; eexists; try eexists; reflexivity.
  - destruct (py_gtb _ _); [| left; eexists; eexists; reflexivity].
    unfold bind, norm_rvs, rand_real. apply IH.
Qed.

(** The loop returns the first draw that is not outside, after one pass per
    draw read; with less fuel than that it is still running. *)
Lemma pop_density_loop_first_inside k :
  forall fuel sz loc w,
    outside sz loc ->
    (forall m, (m < k)%nat -> outside sz (draw (w_reals w) m)) ->
    ~ outside sz (draw (w_reals w) k) ->
    ((k < fuel)%nat ->
     exists w', pop_density_loop fuel sz loc w = Ok (draw (w_reals w) k) w'
                /\ w_city w' = w_city w
                /\ (forall n, w_ints w' n = w_ints w n)
                /\ (forall n, w_reals w' n = w_reals w (n + 2 * (k + 1))%nat))
    /\ ((fuel <= k)%nat ->
        exists w', pop_density_loop fuel sz loc w = Raise StillRunning w').
Proof.
  induction k as [|k IH]; intros fuel sz loc w Hloc Hout Hin.
  - split; intro Hf.
    + destruct fuel as [|f]; [lia |]. simpl.
      rewrite (proj2 (gtb_iff _ _) Hloc).
      unfold bind, norm_rvs, rand_real. simpl.
      destruct f; simpl.
      * unfold outside, draw in Hin. simpl in Hin.
        rewrite gtb_false by (apply Rnot_lt_le; exact Hin).
        eexists. split; [reflexivity |]. simpl.
        repeat split; intros; f_equal; lia.
      * unfold outside, draw in Hin. simpl in Hin.
        rewrite gtb_false by (apply Rnot_lt_le; exact Hin).
        eexists. split; [reflexivity |]. simpl.
        repeat split; intros; f_equal; lia.
    + destruct fuel; [| lia]. simpl.
      rewrite (proj2 (gtb_iff _ _) Hloc). eexists; reflexivity.
  - assert (H0 : outside sz (draw (w_reals w) 0)) by (apply Hout; lia).
    set (w1 := mkWorld (w_city w) (w_ints w)
                 (fun n => (fun n => w_reals w (S n)) (S n))).
    assert (Hd : forall m, draw (w_reals w1) m = draw (w_reals w) (S m)).
    { intro m. unfold draw, w1. simpl. repeat f_equal; lia. }
    specialize (IH (pred fuel) sz (draw (w_reals w) 0) w1 H0).
    destruct IH as [IH1 IH2].
    { intros m Hm. rewrite Hd. apply Hout. lia. }
    { rewrite Hd. exact Hin. }
    split; intro Hf.
    + destruct fuel as [|f]; [lia |]. simpl in IH1.
      destruct IH1 as (w' & E & Hc & Hi & Hr); [lia |].
      exists w'. simpl. rewrite (proj2 (gtb_iff _ _) Hloc).
      unfold bind, norm_rvs, rand_real. simpl.
      split.
      * rewrite <- Hd. exact E.
      * split; [exact Hc |]. split; [exact Hi |].
        intro n. rewrite Hr. unfold w1. simpl. f_equal. lia.
    + destruct fuel as [|f]; simpl.
      * rewrite (proj2 (gtb_iff _ _) Hloc). eexists; reflexivity.
      * rewrite (proj2 (gtb_iff _ _) Hloc).
        unfold bind, norm_rvs, rand_real. simpl.
        simpl in IH2. apply IH2. lia.
Qed.

(** ** Straight-line methods *)

Ltac unfold_m :=
  unfold get_person, get_business, get_location, put_person, put_business,
    put_location, bind, get_city, modify, lift, ret, raise in *.

Lemma free_eq (j : nat) (w : World) (l : BusinessLocation) :
  nth_error (business_locations (w_city w)) j = Some l ->
  free j w =
  Ok tt (mkWorld
           (with_business_locations (w_city w)
              (list_set (business_locations (w_city w)) j
                 (with_available l true)))
           (w_ints w) (w_reals w)).
Proof. intro H. unfold free. unfold_m. rewrite H. reflexivity. Qed.

Lemma fill_eq (j : nat) (w : World) (l : BusinessLocation) :
  nth_error (business_locations (w_city w)) j = Some l ->
  fill j w =
  Ok tt (mkWorld
           (with_business_locations (w_city w)
              (list_set (business_locations (w_city w)) j
                 (with_available l false)))
           (w_ints w) (w_reals w)).
Proof. intro H. unfold fill. unfold_m. rewrite H. reflexivity. Qed.

Lemma bizfail_eq (b : nat) (w : World) bs biz l :
  list_remove (businesses (w_city w)) b = Some bs ->
  nth_error (heap (w_city w)) b = Some biz ->
  nth_error (business_locations (w_city w)) (blocation biz) = Some l ->
  bizfail b w =
  Ok tt (mkWorld (city_after_bizfail (w_city w) b bs biz l)
           (w_ints w) (w_reals w)).
Proof.
  intros Hr Hb Hl. unfold bizfail, free. unfold_m. simpl.
  rewrite Hr. simpl. rewrite Hb. simpl. rewrite Hl. reflexivity.
Qed.

Lemma die_eq (b : nat) (w : World) bs biz l :
  list_remove (businesses (w_city w)) b = Some bs ->
  nth_error (heap (w_city w)) b = Some biz ->
  nth_error (business_locations (w_city w)) (blocation biz) = Some l ->
  die b w =
  Ok tt (mkWorld
           (city_after_bizfail
              (with_heap (w_city w)
                 (list_set (heap (w_city w)) b (dead (w_city w) biz)))
              b bs (dead (w_city w) biz) l)
           (w_ints w) (w_reals w)).
Proof.
  intros Hr Hb Hl. unfold die.
  unfold bind at 1. unfold get_business at 1. unfold_m. rewrite Hb.
  change (bizfail b ?w') with (bizfail b w').
  erewrite bizfail_eq; simpl; eauto.
  eapply nth_error_list_set_same; eauto.
Qed.

Lemma burn_alive_eq (b : nat) (w : World) biz :
  nth_error (heap (w_city w)) b = Some biz ->
  0 <= to_R (cash (burned biz)) ->
  burn b w =
  Ok tt (mkWorld
           (with_heap (w_city w) (list_set (heap (w_city w)) b (burned biz)))
           (w_ints w) (w_reals w)).
Proof.
  intros Hb Hc. unfold burn. unfold_m. rewrite Hb. simpl.
  erewrite nth_error_list_set_same by eauto.
  fold (burned biz). rewrite ltb_false by exact Hc. reflexivity.
Qed.

Lemma burn_dead_eq (b : nat) (w : World) bs biz l :
  list_remove (businesses (w_city w)) b = Some bs ->
  nth_error (heap (w_city w)) b = Some biz ->
  nth_error (business_locations (w_city w)) (blocation biz) = Some l ->
  to_R (cash (burned biz)) < 0 ->
  burn b w =
  Ok tt (mkWorld
           (city_after_bizfail
              (with_heap (w_city w)
                 (list_set (heap (w_city w)) b
                    (dead (w_city w) (burned biz))))
              b bs (dead (w_city w) (burned biz)) l)
           (w_ints w) (w_reals w)).
Proof.
  intros Hr Hb Hl Hc. unfold burn.
  unfold bind at 1. unfold get_business at 1. unfold_m. rewrite Hb. simpl.
  erewrite nth_error_list_set_same by eauto.
  fold (burned biz). rewrite ltb_true by exact Hc.
  rewrite (die_eq b _ bs (burned biz) l); simpl.
  - rewrite list_set_twice. reflexivity.
  - exact Hr.
  - eapply nth_error_list_set_same; eauto.
  - exact Hl.
Qed.

Lemma give_biz_eq (i : nat) (need : string) (b : nat) (w : World)
    p amt dt biz :
  nth_error (people (w_city w)) i = Some p ->
  dict_get (needs p) need = Some amt ->
  dict_get (dtypes (w_city w)) need = Some dt ->
  nth_error (heap (w_city w)) b = Some biz ->
  give_biz i need b w =
  Ok tt (mkWorld
           (city_after_give_biz (w_city w) i p need b biz
              (py_mul amt (dprice dt)))
           (w_ints w) (w_reals w)).
Proof.
  intros Hp Ha Hd Hb. unfold give_biz. unfold_m.
  rewrite Hp, Ha, Hd, Hb. reflexivity.
Qed.

Lemma startup_eq (bt : BusinessType) (j : nat) (nm : string) (w : World) l :
  nth_error (business_locations (w_city w)) j = Some l ->
  startup bt j nm w =
  Ok tt (mkWorld (city_after_startup (w_city w) bt j l nm)
           (w_ints w) (w_reals w)).
Proof.
  intro Hl. unfold startup, fill. unfold_m. rewrite Hl. simpl.
  rewrite Hl. reflexivity.
Qed.

(** ** The rules of the program logic *)

Lemma hoare_conseq {A} (P P' : City -> Prop) (m : M A)
    (Q Q' : A -> City -> Prop) (E E' : City -> Prop) :
  hoare P' m Q' E' ->
  (forall c, P c -> P' c) ->
  (forall a c, Q' a c -> Q a c) ->
  (forall c, E' c -> E c) ->
  hoare P m Q E.
Proof.
  intros H HP HQ HE w Hw. specialize (H w (HP _ Hw)).
  destruct (m w); auto.
Qed.

Lemma hoare_ret {A} (a : A) (Q : A -> City -> Prop) E :
  hoare (Q a) (ret a) Q E.
Proof. intros w H. exact H. Qed.

Lemma hoare_raise {A} (e : Exn) (Q : A -> City -> Prop) (E : City -> Prop) :
  hoare E (raise e) Q E.
Proof. intros w H. exact H. Qed.

Lemma hoare_bind {A B} (P : City -> Prop) (m : M A) (R : A -> City -> Prop)
    (f : A -> M B) (Q : B -> City -> Prop) (E : City -> Prop) :
  hoare P m R E ->
  (forall a, hoare (R a) (f a) Q E) ->
  hoare P (bind m f) Q E.
Proof.
  intros Hm Hf w Hw. unfold bind. specialize (Hm w Hw).
  destruct (m w) as [a w' | e w']; [| exact Hm].
  apply (Hf a w' Hm).
Qed.

Lemma hoare_get_city (P : City -> Prop) E :
  hoare P get_city (fun a c => a = c /\ P c) E.
Proof. intros w H. simpl. auto. Qed.

Lemma hoare_modify (f : City -> City) (Q : unit -> City -> Prop) E :
  hoare (fun c => Q tt (f c)) (modify f) Q E.
Proof. intros w H. exact H. Qed.

Lemma hoare_lift {A} (e : Exn) (o : option A) (P : City -> Prop) :
  hoare P (lift e o) (fun a c => o = Some a /\ P c) P.
Proof. intros w H. destruct o; simpl; auto. Qed.

Lemma hoare_rand_int (P : City -> Prop) E :
  hoare P rand_int (fun _ c => P c) E.
Proof. intros w H. exact H. Qed.

Lemma hoare_rand_real (P : City -> Prop) E :
  hoare P rand_real (fun _ c => P c) E.
Proof. intros w H. exact H. Qed.

Lemma hoare_get_person (i : nat) (P : City -> Prop) :
  hoare P (get_person i)
    (fun p c => nth_error (people c) i = Some p /\ P c) P.
Proof.
  intros w H. unfold get_person. unfold_m.
  destruct (nth_error (people (w_city w)) i) eqn:Hn; simpl; auto.
Qed.

Lemma hoare_get_business (b : nat) (P : City -> Prop) :
  hoare P (get_business b)
    (fun biz c => nth_error (heap c) b = Some biz /\ P c) P.
Proof.
  intros w H. unfold get_business. unfold_m.
  destruct (nth_error (heap (w_city w)) b) eqn:Hn; simpl; auto.
Qed.

Lemma hoare_get_location (j : nat) (P : City -> Prop) :
  hoare P (get_location j)
    (fun l c => nth_error (business_locations c) j = Some l /\ P c) P.
Proof.
  intros w H. unfold get_location. unfold_m.
  destruct (nth_error (business_locations (w_city w)) j) eqn:Hn; simpl; auto.
Qed.

Lemma hoare_for_each {A} (xs : list A) (body : A -> M unit)
    (I : City -> Prop) (E : City -> Prop) :
  (forall x, In x xs -> hoare I (body x) (fun _ => I) E) ->
  hoare I (for_each xs body) (fun _ => I) E.
Proof.
  induction xs as [|x xs IH]; intro H; simpl.
  - intros w Hw. exact Hw.
  - eapply hoare_bind.
    + apply H. now left.
    + intros u. apply IH. intros y Hy. apply H. now right.
Qed.

Lemma hoare_fold_m {A S} (xs : list A) (body : S -> A -> M S) (a0 : S)
    (I : S -> City -> Prop) (E : City -> Prop) :
  (forall acc x, In x xs -> hoare (I acc) (body acc x) I E) ->
  hoare (I a0) (fold_m xs a0 body) I E.
Proof.
  revert a0. induction xs as [|x xs IH]; intros a0 H; simpl.
  - intros w Hw. exact Hw.
  - eapply hoare_bind.
    + apply H. now left.
    + intros acc. apply IH. intros acc' y Hy. apply H. now right.
Qed.

Lemma hoare_choice {A} (xs : list A) (P : City -> Prop) :
  hoare P (choice xs) (fun a c => In a xs /\ P c) P.
Proof.
  intros w H. unfold choice. destruct xs as [|x xs]; [exact H |].
  unfold bind, rand_int, lift. simpl w_city.
  destruct (nth_error (x :: xs) _) eqn:E; simpl.
  - split; [| exact H]. apply (nth_error_In (x :: xs) _ E).
  - exact H.
Qed.

Lemma hoare_pure {A} (m : M A) (P : City -> Prop) :
  pure_m m -> hoare P m (fun _ => P) P.
Proof.
  intros H w Hw. specialize (H w). destruct (m w); simpl in H; now rewrite H.
Qed.

(** ** The invariants under each update *)

Lemma frame_refl c : frame c c.
Proof. unfold frame. tauto. Qed.

Lemma Forall_list_set {A} (P : A -> Prop) (l : list A) i v :
  Forall P l -> P v -> Forall P (list_set l i v).
Proof.
  intros H Hv. revert i. induction H as [|h t Hh Ht IH]; intros [|i]; simpl;
    constructor; auto.
Qed.

Lemma map_list_set_same {A B} (f : A -> B) (l : list A) i v x :
  nth_error l i = Some x -> f v = f x ->
  map f (list_set l i v) = map f l.
Proof.
  revert i. induction l as [|h t IH]; intros [|i] H Hf; simpl in *;
    try discriminate.
  - inversion H; subst. now rewrite Hf.
  - f_equal. eauto.
Qed.

Lemma list_remove_Some_In l x l' : list_remove l x = Some l' -> In x l.
Proof.
  revert l'. induction l as [|h t IH]; simpl; intros l' H; [discriminate |].
  destruct (Nat.eqb h x) eqn:E.
  - apply Nat.eqb_eq in E. now left.
  - destruct (list_remove t x) eqn:Et; [| discriminate]. right. eauto.
Qed.

(** Updating a business without moving it. *)
Lemma placed_update_business c b biz biz' :
  placed c ->
  nth_error (heap c) b = Some biz ->
  blocation biz' = blocation biz ->
  b_location biz' = b_location biz ->
  placed (with_heap c (list_set (heap c) b biz')).
Proof.
  intros (ND & Hs & Ha) Hb Hl Hc. unfold placed, sited, apart in *. simpl.
  assert (Hget : forall x y, nth_error (list_set (heap c) b biz') x = Some y ->
            exists y0, nth_error (heap c) x = Some y0
                       /\ blocation y = blocation y0
                       /\ b_location y = b_location y0).
  { intros x y Hx. destruct (Nat.eq_dec b x) as [<- | Hne].
    - erewrite nth_error_list_set_same in Hx by eauto.
      inversion Hx; subst. eauto.
    - rewrite nth_error_list_set_neq in Hx by assumption. eauto. }
  split; [exact ND |]. split.
  - intros x Hx. destruct (Hs x Hx) as (y & l & H1 & H2 & H3 & H4).
    destruct (Nat.eq_dec b x) as [<- | Hne].
    + exists biz', l. erewrite nth_error_list_set_same by eauto.
      rewrite Hb in H1. inversion H1; subst y.
      rewrite Hl, Hc. auto.
    + exists y, l. rewrite nth_error_list_set_neq by assumption. auto.
  - intros b1 b2 y1 y2 I1 I2 H1 H2 E.
    destruct (Hget _ _ H1) as (z1 & G1 & L1 & _).
    destruct (Hget _ _ H2) as (z2 & G2 & L2 & _).
    eapply Ha; eauto. congruence.
Qed.

(** A start-up on a free location. *)
Lemma placed_startup c bt j l nm :
  placed c ->
  nth_error (business_locations c) j = Some l ->
  available l = true ->
  placed (city_after_startup c bt j l nm).
Proof.
  intros (ND & Hs & Ha) Hj Hav. unfold placed, sited, apart in *. simpl.
  assert (Hlt : forall b, In b (businesses c) -> (b < length (heap c))%nat).
  { intros b Hb. destruct (Hs b Hb) as (y & _ & H1 & _).
    apply nth_error_Some. congruence. }
  assert (Hfree : forall b y, In b (businesses c) ->
            nth_error (heap c) b = Some y -> blocation y <> j).
  { intros b y Hb Hy E. destruct (Hs b Hb) as (y' & l' & H1 & H2 & _ & H4).
    rewrite Hy in H1. inversion H1; subst y'. rewrite E, Hj in H2.
    inversion H2; subst. congruence. }
  assert (Hnew : nth_error (heap c ++ [new_business c bt j l nm])
                   (length (heap c)) = Some (new_business c bt j l nm)).
  { rewrite nth_error_app2 by lia. now rewrite Nat.sub_diag. }
  split; [| split].
  - apply NoDup_app; [exact ND | repeat constructor; simpl; tauto |].
    intros x Hx [<- | []]. apply Hlt in Hx. lia.
  - intros b Hb. apply in_app_or in Hb. destruct Hb as [Hb | [<- | []]].
    + destruct (Hs b Hb) as (y & l' & H1 & H2 & H3 & H4).
      exists y, l'. rewrite nth_error_app1 by (apply Hlt; exact Hb).
      rewrite nth_error_list_set_neq by (intro; eapply Hfree; eauto).
      auto.
    + exists (new_business c bt j l nm), (with_available l false).
      rewrite Hnew. simpl. erewrite nth_error_list_set_same by eauto. auto.
  - intros b1 b2 y1 y2 I1 I2 H1 H2 E.
    apply in_app_or in I1. apply in_app_or in I2.
    destruct I1 as [I1 | [<- | []]], I2 as [I2 | [<- | []]].
    + rewrite nth_error_app1 in H1 by (apply Hlt; exact I1).
      rewrite nth_error_app1 in H2 by (apply Hlt; exact I2).
      eapply Ha; eauto.
    + rewrite nth_error_app1 in H1 by (apply Hlt; exact I1).
      rewrite Hnew in H2. inversion H2; subst y2. simpl in E.
      exfalso. eapply Hfree; eauto.
    + rewrite nth_error_app1 in H2 by (apply Hlt; exact I2).
      rewrite Hnew in H1. inversion H1; subst y1. simpl in E.
      exfalso. eapply Hfree; eauto.
    + reflexivity.
Qed.

(** Taking a business off the active list, and freeing a location that no
    remaining active business sits on. *)
Lemma placed_remove c b bs :
  placed c -> list_remove (businesses c) b = Some bs ->
  placed (with_businesses c bs).
Proof.
  intros (ND & Hs & Ha) Hr. unfold placed, sited, apart in *. simpl.
  pose proof (list_remove_In_iff _ _ _ Hr ND) as Hin.
  split; [eapply list_remove_NoDup; eauto |]. split.
  - intros x Hx. apply Hin in Hx. apply Hs. tauto.
  - intros b1 b2 y1 y2 I1 I2. apply Hin in I1. apply Hin in I2.
    apply Ha; tauto.
Qed.

Lemma placed_free c j l :
  placed c ->
  nth_error (business_locations c) j = Some l ->
  (forall b y, In b (businesses c) -> nth_error (heap c) b = Some y ->
               blocation y <> j) ->
  placed (with_business_locations c
            (list_set (business_locations c) j (with_available l true))).
Proof.
  intros (ND & Hs & Ha) Hj Hfree. unfold placed, sited, apart in *. simpl.
  split; [exact ND |]. split; [| exact Ha].
  intros b Hb. destruct (Hs b Hb) as (y & l' & H1 & H2 & H3 & H4).
  exists y, l'. rewrite nth_error_list_set_neq; [auto |].
  intro E. eapply Hfree; eauto.
Qed.

(** *** How each update of the city acts on [Inv] *)

Lemma Inv_people k c0 c ps :
  Inv k c0 c -> (prices_nonneg c -> Forall needs_nonneg_person ps) ->
  Inv k c0 (with_people c ps).
Proof. intros (F & P & S) H. split; [exact F |]. split; [exact P | exact H]. Qed.

Lemma Inv_update_business k c0 c b biz biz' :
  Inv k c0 c ->
  nth_error (heap c) b = Some biz ->
  blocation biz' = blocation biz ->
  b_location biz' = b_location biz ->
  Inv k c0 (with_heap c (list_set (heap c) b biz')).
Proof.
  intros (F & P & S) Hb Hl Hc. split; [exact F |]. split; [| exact S].
  intro Hk. eapply placed_update_business; eauto.
Qed.

Lemma Inv_failed k c0 c v :
  Inv k c0 c -> Inv k c0 (with_failed_businesses c v).
Proof. intro H. exact H. Qed.

Lemma frame_set_location c0 c j l v :
  frame c0 c -> nth_error (business_locations c) j = Some l ->
  frame c0 (with_business_locations c
              (list_set (business_locations c) j (with_available l v))).
Proof.
  intros (F1 & F2 & F3 & F4 & F5 & F6 & F7) Hj.
  unfold frame. simpl. repeat (split; [assumption |]).
  rewrite <- F7. eapply map_list_set_same; eauto.
Qed.

Lemma Inv_startup k c0 c bt j l nm :
  Inv k c0 c ->
  nth_error (business_locations c) j = Some l ->
  available l = true ->
  Inv k c0 (city_after_startup c bt j l nm).
Proof.
  intros (F & P & S) Hj Hav. split; [| split].
  - apply (frame_set_location c0 c j l false F Hj).
  - intro Hk. apply placed_startup; auto.
  - exact S.
Qed.

Lemma Inv_remove k c0 c b bs :
  Inv k c0 c -> list_remove (businesses c) b = Some bs ->
  Inv k c0 (with_businesses c bs).
Proof.
  intros (F & P & S) Hr. split; [exact F |]. split; [| exact S].
  intro Hk. eapply placed_remove; eauto.
Qed.

Lemma Inv_free k c0 c j l :
  Inv k c0 c ->
  nth_error (business_locations c) j = Some l ->
  (k = true ->
   forall b y, In b (businesses c) -> nth_error (heap c) b = Some y ->
               blocation y <> j) ->
  Inv k c0 (with_business_locations c
              (list_set (business_locations c) j (with_available l true))).
Proof.
  intros (F & P & S) Hj Hfree. split; [| split].
  - now apply frame_set_location.
  - intro Hk. apply (placed_free c j l (P Hk) Hj (Hfree Hk)).
  - exact S.
Qed.

(** Once [b] is off the active list, nobody active sits on its location. *)
Lemma removed_location_free c b bs biz :
  placed c -> list_remove (businesses c) b = Some bs ->
  nth_error (heap c) b = Some biz ->
  forall x y, In x bs -> nth_error (heap c) x = Some y ->
              blocation y <> blocation biz.
Proof.
  intros (ND & Hs & Ha) Hr Hb x y Hx Hy E.
  apply (list_remove_In_iff _ _ _ Hr ND) in Hx. destruct Hx as [Hx Hne].
  apply Hne. eapply Ha; eauto. eapply list_remove_Some_In; eauto.
Qed.

Lemma Inv_bizfail k c0 c b bs biz l :
  Inv k c0 c ->
  list_remove (businesses c) b = Some bs ->
  nth_error (heap c) b = Some biz ->
  nth_error (business_locations c) (blocation biz) = Some l ->
  Inv k c0 (city_after_bizfail c b bs biz l).
Proof.
  intros H Hr Hb Hl. unfold city_after_bizfail.
  apply (Inv_free k c0
           (with_businesses
              (with_failed_businesses c (failed_businesses c ++ [b])) bs)
           (blocation biz) l).
  - apply (Inv_remove k c0
             (with_failed_businesses c (failed_businesses c ++ [b]))
             b bs); [apply Inv_failed; exact H | exact Hr].
  - exact Hl.
  - simpl. intro Hk. destruct H as (_ & P & _).
    eapply removed_location_free; eauto.
Qed.

(** *** The methods preserve [Inv], whether they return or raise *)

Lemma keeps_bind k c0 {A B} (m : M A) (f : A -> M B) :
  keeps k c0 m -> (forall a, keeps k c0 (f a)) -> keeps k c0 (bind m f).
Proof. intros Hm Hf. eapply hoare_bind; [exact Hm | exact Hf]. Qed.

Lemma keeps_pure k c0 {A} (m : M A) : pure_m m -> keeps k c0 m.
Proof. intro H. apply hoare_pure. exact H. Qed.

Lemma keeps_for_each k c0 {A} (xs : list A) (body : A -> M unit) :
  (forall x, keeps k c0 (body x)) -> keeps k c0 (for_each xs body).
Proof. intro H. apply hoare_for_each. intros x _. apply H. Qed.

Lemma pure_ret {A} (a : A) : pure_m (ret a).
Proof. intro w. reflexivity. Qed.

Lemma pure_raise {A} (e : Exn) : pure_m (@raise A e).
Proof. intro w. reflexivity. Qed.

Lemma pure_lift {A} (e : Exn) (o : option A) : pure_m (lift e o).
Proof. intro w. destruct o; reflexivity. Qed.

Lemma pure_get_city : pure_m get_city.
Proof. intro w. reflexivity. Qed.

Lemma pure_rand_int : pure_m rand_int.
Proof. intro w. reflexivity. Qed.

Lemma pure_rand_real : pure_m rand_real.
Proof. intro w. reflexivity. Qed.

Lemma pure_bind {A B} (m : M A) (f : A -> M B) :
  pure_m m -> (forall a, pure_m (f a)) -> pure_m (bind m f).
Proof.
  intros Hm Hf w. unfold bind. specialize (Hm w).
  destruct (m w) as [a w' | e w']; simpl in *; [| exact Hm].
  rewrite Hf. exact Hm.
Qed.

Lemma pure_fold_m {A S} (xs : list A) (body : S -> A -> M S) (a0 : S) :
  (forall acc x, pure_m (body acc x)) -> pure_m (fold_m xs a0 body).
Proof.
  intro H. revert a0. induction xs as [|x xs IH]; intro a0; simpl.
  - apply pure_ret.
  - apply pure_bind; [apply H | intro; apply IH].
Qed.

Lemma pure_choice {A} (xs : list A) : pure_m (choice xs).
Proof.
  destruct xs; simpl; [apply pure_raise |].
  apply pure_bind; [apply pure_rand_int | intro; apply pure_lift].
Qed.

Lemma pure_sample {A} (k : nat) : forall pool : list A, pure_m (sample pool k).
Proof.
  induction k as [|k IH]; intro pool; simpl; [apply pure_ret |].
  destruct pool; [apply pure_raise |].
  apply pure_bind; [apply pure_rand_int | intro j].
  apply pure_bind; [apply pure_lift | intro x].
  apply pure_bind; [apply IH | intro; apply pure_ret].
Qed.

Lemma pure_get_person i : pure_m (get_person i).
Proof. apply pure_bind; [apply pure_get_city | intro; apply pure_lift]. Qed.

Lemma pure_get_business b : pure_m (get_business b).
Proof. apply pure_bind; [apply pure_get_city | intro; apply pure_lift]. Qed.

Lemma pure_get_location j : pure_m (get_location j).
Proof. apply pure_bind; [apply pure_get_city | intro; apply pure_lift]. Qed.

Lemma pure_startup_score bt bl : pure_m (startup_score bt bl).
Proof.
  apply pure_bind; [apply pure_get_city | intro c].
  apply pure_bind; [| intro; apply pure_lift].
  apply pure_fold_m. intros acc p.
  destruct (inside _ _ _); [| apply pure_ret].
  apply pure_bind; [apply pure_lift | intro; apply pure_ret].
Qed.

Lemma pure_best_startup bl : pure_m (best_startup bl).
Proof.
  apply pure_bind; [apply pure_get_city | intro c].
  apply pure_fold_m. intros acc nb.
  apply pure_bind; [apply pure_startup_score | intro s].
  destruct (py_gtb _ _); apply pure_ret.
Qed.

Lemma pure_bizreport : pure_m bizreport.
Proof.
  apply pure_bind; [apply pure_get_city | intro c].
  apply pure_fold_m. intros acc b.
  apply pure_bind; [apply pure_get_business | intro biz].
  apply pure_bind; [apply pure_lift | intro; apply pure_ret].
Qed.

Lemma pure_popreport : pure_m popreport.
Proof.
  apply pure_bind; [apply pure_get_city | intro c].
  apply pure_fold_m. intros acc p.
  apply pure_fold_m. intros acc' na.
  destruct (py_gtb _ _); [| apply pure_ret].
  apply pure_bind; [apply pure_lift | intro; apply pure_ret].
Qed.

Lemma pure_pop_density_loop fuel : forall sz loc, pure_m (pop_density_loop fuel sz loc).
Proof.
  induction fuel as [|f IH]; intros sz loc; simpl;
    destruct (py_gtb _ _); try apply pure_ret; try apply pure_raise.
  apply pure_bind; [apply pure_rand_real | intro x].
  apply pure_bind; [apply pure_rand_real | intro y]. apply IH.
Qed.

Lemma pure_new_person fuel nm : pure_m (new_person fuel nm).
Proof.
  apply pure_bind.
  - apply pure_bind; [apply pure_get_city | intro; apply pure_pop_density_loop].
  - intro loc. apply pure_bind; [apply pure_get_city | intro; apply pure_ret].
Qed.

Lemma needs_value_nonneg p n v :
  needs_nonneg_person p -> dict_get (needs p) n = Some v -> 0 <= to_R v.
Proof.
  intros H Hg. apply dict_get_In in Hg.
  unfold needs_nonneg_person in H. rewrite Forall_forall in H.
  apply (H _ Hg).
Qed.

Lemma price_nonneg c n dt :
  prices_nonneg c -> dict_get (dtypes c) n = Some dt -> 0 <= to_R (dprice dt).
Proof.
  intros H Hg. apply dict_get_In in Hg.
  unfold prices_nonneg in H. rewrite Forall_forall in H.
  apply (H _ Hg).
Qed.

Lemma person_nonneg c i p :
  needs_nonneg c -> nth_error (people c) i = Some p -> needs_nonneg_person p.
Proof.
  intros H Hp. unfold needs_nonneg in H. rewrite Forall_forall in H.
  apply H. eapply nth_error_In; eauto.
Qed.

Lemma generate_eq i :
  generate i =
  (c <- get_city ;; for_each (dict_keys (dtypes c)) (generate_step i)).
Proof. reflexivity. Qed.

Lemma keeps_generate_step k c0 i n : keeps k c0 (generate_step i n).
Proof.
  intros w H. unfold generate_step, poisson_rvs, rand_int. unfold_m.
  destruct (nth_error (people (w_city w)) i) as [p |] eqn:Hp; simpl;
    [| exact H].
  destruct (dict_get (needs p) n) as [old |] eqn:Ho; simpl; [| exact H].
  destruct (dict_get (dtypes (w_city w)) n) as [dt |] eqn:Hd; simpl;
    [| exact H].
  apply (Inv_people k c0 (w_city w)); [exact H |].
  intro Hpr. destruct H as (_ & _ & S). specialize (S Hpr).
  apply Forall_list_set; [exact S |].
  unfold needs_nonneg_person. simpl.
  apply (dict_set_values (fun v => 0 <= to_R v)).
  - apply (person_nonneg _ _ _ S Hp).
  - rewrite to_R_add, to_R_mul. simpl.
    pose proof (needs_value_nonneg _ _ _ (person_nonneg _ _ _ S Hp) Ho).
    pose proof (price_nonneg _ _ _ Hpr Hd).
    pose proof (IZR_le 0 (Z.of_nat (w_ints w 0%nat)) (Zle_0_nat _)).
    assert (0 <= IZR (Z.of_nat (w_ints w 0%nat)) * to_R (dprice dt))
      by (apply Rmult_le_pos; assumption).
    lra.
Qed.

Lemma keeps_generate k c0 i : keeps k c0 (generate i).
Proof.
  rewrite generate_eq. apply keeps_bind; [apply keeps_pure, pure_get_city |].
  intro c. apply keeps_for_each. intro n. apply keeps_generate_step.
Qed.

Lemma Inv_give_biz k c0 c i p need b biz payment :
  Inv k c0 c ->
  nth_error (people c) i = Some p ->
  nth_error (heap c) b = Some biz ->
  Inv k c0 (city_after_give_biz c i p need b biz payment).
Proof.
  intros H Hp Hb. unfold city_after_give_biz.
  apply (Inv_people k c0 (with_heap c _)).
  - apply (Inv_update_business k c0 c b biz); auto.
  - intro Hpr. destruct H as (_ & _ & S). specialize (S Hpr).
    apply Forall_list_set; [exact S |].
    unfold needs_nonneg_person. simpl.
    apply (dict_set_values (fun v => 0 <= to_R v)).
    + apply (person_nonneg _ _ _ S Hp).
    + simpl. lra.
Qed.

Lemma keeps_give_biz k c0 i need b : keeps k c0 (give_biz i need b).
Proof.
  intros w H. unfold give_biz. unfold_m.
  destruct (nth_error (people (w_city w)) i) as [p |] eqn:Hp; simpl;
    [| exact H].
  destruct (dict_get (needs p) need) as [amt |] eqn:Ha; simpl; [| exact H].
  destruct (dict_get (dtypes (w_city w)) need) as [dt |] eqn:Hd; simpl;
    [| exact H].
  destruct (nth_error (heap (w_city w)) b) as [biz |] eqn:Hb; simpl;
    [| exact H].
  apply (Inv_give_biz k c0 (w_city w) i p need b biz); assumption.
Qed.

Lemma keeps_fulfill_need k c0 i need : keeps k c0 (fulfill_need i need).
Proof.
  unfold fulfill_need.
  apply keeps_bind; [apply keeps_pure, pure_get_person | intro p].
  apply keeps_bind; [apply keeps_pure, pure_lift | intro amt].
  apply keeps_bind; [apply keeps_pure, pure_get_city | intro c].
  apply keeps_bind; [apply keeps_pure, pure_lift | intro dt].
  apply keeps_bind; [apply keeps_pure, pure_lift | intro r].
  destruct (0 <? _)%nat; [| apply keeps_pure, pure_ret].
  apply keeps_bind; [apply keeps_pure, pure_choice | intro b].
  apply keeps_give_biz.
Qed.

Lemma keeps_fulfill k c0 i : keeps k c0 (fulfill i).
Proof.
  unfold fulfill.
  apply keeps_bind; [apply keeps_pure, pure_get_person | intro p].
  apply keeps_for_each. intro need. apply keeps_fulfill_need.
Qed.

Lemma keeps_try_startup k c0 j : keeps k c0 (try_startup j).
Proof.
  intros w H. unfold try_startup. unfold bind at 1.
  unfold get_location. unfold_m.
  destruct (nth_error (business_locations (w_city w)) j) as [bl |] eqn:Hj;
    simpl; [| exact H].
  destruct (available bl) eqn:Hav; [| exact H].
  pose proof (pure_best_startup bl w) as Hpure.
  destruct (best_startup bl w) as [bb w1 | e w1]; simpl in Hpure;
    [| rewrite Hpure; exact H].
  destruct (py_geb _ _); [| simpl; rewrite Hpure; exact H].
  destruct (snd bb) as [best_type |]; [| simpl; rewrite Hpure; exact H].
  rewrite (startup_eq best_type j _ w1 bl) by (rewrite Hpure; exact Hj).
  simpl. rewrite Hpure. apply Inv_startup; assumption.
Qed.

Lemma keeps_burn c0 b :
  hoare (fun c => Inv true c0 c /\ In b (businesses c)) (burn b)
    (fun _ => Inv true c0) (Inv true c0).
Proof.
  intros w [H Hin]. pose proof H as (_ & P & _).
  destruct (P eq_refl) as (ND & Hs & Ha).
  destruct (Hs b Hin) as (biz & l & Hb & Hl & _ & _).
  destruct (Rlt_le_dec (to_R (cash (burned biz))) 0) as [Hneg | Hpos].
  - destruct (list_remove_In _ _ Hin) as [bs Hr].
    rewrite (burn_dead_eq b w bs biz l) by assumption. simpl.
    apply Inv_bizfail; simpl.
    + apply (Inv_update_business true c0 (w_city w) b biz); auto.
    + exact Hr.
    + eapply nth_error_list_set_same; eauto.
    + exact Hl.
  - rewrite (burn_alive_eq b w biz) by assumption. simpl.
    apply (Inv_update_business true c0 (w_city w) b biz); auto.
Qed.

Lemma keeps_scan k c0 (body : nat -> M unit) :
  (forall b, hoare (fun c => Inv k c0 c /\ In b (businesses c)) (body b)
               (fun _ => Inv k c0) (Inv k c0)) ->
  forall fuel i, keeps k c0 (scan_businesses fuel i body).
Proof.
  intros Hbody fuel. induction fuel as [|f IH]; intros i w H.
  - simpl. unfold_m.
    destruct (nth_error (businesses (w_city w)) i); exact H.
  - simpl. unfold bind at 1. unfold get_city.
    destruct (nth_error (businesses (w_city w)) i) as [b |] eqn:Hb;
      [| exact H].
    unfold bind. specialize (Hbody b w).
    destruct (body b w) as [[] w1 | e w1].
    + apply IH. apply Hbody. split; [exact H |]. eapply nth_error_In; eauto.
    + apply Hbody. split; [exact H |]. eapply nth_error_In; eauto.
Qed.

(** *** A whole cycle *)

Lemma stable_refl c : stable c c.
Proof. unfold stable. tauto. Qed.

Lemma Inv_Run c0 c1 c : stable c0 c1 -> Inv true c1 c -> Run c0 c.
Proof.
  intros (S1 & S2 & S3 & S4) ((F1 & F2 & F3 & F4 & F5 & F6 & F7) & P & N).
  split; [| split; [apply P; reflexivity | assumption]].
  unfold stable. repeat split; congruence.
Qed.

Lemma Run_Inv c0 c : Run c0 c -> Inv true c c.
Proof.
  intros (_ & P & N). split; [apply frame_refl | split; [intros _ |]; assumption].
Qed.

Lemma keeps_run c0 c1 {A} (m : M A) :
  stable c0 c1 -> keeps true c1 m ->
  hoare (Inv true c1) m (fun _ => Inv true c1) (Run c0).
Proof.
  intros Hs Hk. eapply hoare_conseq; [exact Hk | | |]; auto.
  intros c. apply Inv_Run. exact Hs.
Qed.

Lemma city_cycle_spec c0 cs :
  hoare (fun c => c = cs /\ Run c0 c) city_cycle
    (fun _ c => Run c0 c /\ exists pr br, ticked cs pr br c)
    (Run c0).
Proof.
  set (c1 := with_age cs (age cs + 1)%Z).
  assert (Hst : Run c0 cs -> stable c0 c1).
  { intros (S & _). exact S. }
  unfold city_cycle.
  eapply hoare_bind with (R := fun _ c => Inv true c1 c /\ Run c0 cs).
  { intros w [E HR]. simpl. rewrite E in *. fold c1. split; [| exact HR].
    destruct HR as (_ & P & N). split; [apply frame_refl |].
    split; [intros _ |]; assumption. }
  intros _.
  assert (step : forall (m : M unit) (k : M unit) Q,
             keeps true c1 m ->
             hoare (fun c => Inv true c1 c /\ Run c0 cs) k Q (Run c0) ->
             hoare (fun c => Inv true c1 c /\ Run c0 cs)
               (c <- get_city ;; m ;;; k) Q (Run c0)).
  { intros m k Q Hm Hk w [H HR]. unfold bind at 1. unfold get_city.
    unfold bind. specialize (Hm w H).
    destruct (m w) as [[] w1 | e w1].
    - apply Hk. split; assumption.
    - eapply Inv_Run; [| exact Hm]. apply (Hst HR). }
  assert (step' : forall (f : City -> M unit) (k : M unit) Q,
             (forall c, keeps true c1 (f c)) ->
             hoare (fun c => Inv true c1 c /\ Run c0 cs) k Q (Run c0) ->
             hoare (fun c => Inv true c1 c /\ Run c0 cs)
               (c <- get_city ;; f c ;;; k) Q (Run c0)).
  { intros f k Q Hm Hk w [H HR]. unfold bind at 1. unfold get_city.
    unfold bind. specialize (Hm (w_city w) w H).
    destruct (f (w_city w) w) as [[] w1 | e w1].
    - apply Hk. split; assumption.
    - eapply Inv_Run; [| exact Hm]. apply (Hst HR). }
  apply (step' (fun c => for_each (seq 0 (length (people c))) generate)).
  { intro c. apply keeps_for_each. intro. apply keeps_generate. }
  apply (step' (fun c => for_each (seq 0 (length (business_locations c)))
                           try_startup)).
  { intro c. apply keeps_for_each. intro. apply keeps_try_startup. }
  apply (step' (fun c => for_each (seq 0 (length (people c))) fulfill)).
  { intro c. apply keeps_for_each. intro. apply keeps_fulfill. }
  apply (step' (fun c => scan_businesses (length (businesses c)) 0 burn)).
  { intro c. apply keeps_scan. intro b. apply keeps_burn. }
  intros w [H HR].
  pose proof (Hst HR) as Hs.
  unfold bind at 1. pose proof (pure_popreport w) as Hp.
  destruct (popreport w) as [pr w1 | e w1]; simpl in Hp;
    [| rewrite Hp; eapply Inv_Run; eauto].
  unfold bind at 1. unfold modify at 1.
  unfold bind at 1. 
  match goal with |- context [bizreport ?w'] =>
    pose proof (pure_bizreport w') as Hb;
    destruct (bizreport w') as [br w2 | e w2]; simpl in Hb
  end.
  - unfold modify. simpl. rewrite Hb, Hp.
    destruct H as ((F1 & F2 & F3 & F4 & F5 & F6 & F7) & P & N).
    destruct Hs as (S1 & S2 & S3 & S4).
    split.
    + split; [| split; [apply P; reflexivity | assumption]].
      unfold stable. simpl. repeat split; congruence.
    + exists pr, br. unfold ticked. simpl.
      rewrite F2, F5, F6. simpl. auto.
  - rewrite Hb, Hp.
    destruct H as ((F1 & F2 & F3 & F4 & F5 & F6 & F7) & P & N).
    destruct Hs as (S1 & S2 & S3 & S4).
    split; [| split; [apply P; reflexivity | assumption]].
    unfold stable. simpl. repeat split; congruence.
Qed.

Lemma city_cycle_steady c0 :
  hoare (Steady c0) city_cycle (fun _ => Steady c0) (Run c0).
Proof.
  intros w (HR & Hp & Hb).
  pose proof (city_cycle_spec c0 (w_city w) w (conj eq_refl HR)) as H.
  destruct (city_cycle w) as [[] w' | e w']; [| exact H].
  destruct H as (HR' & pr & br & Ha & Hpp & Hbb).
  split; [exact HR' |].
  rewrite Hpp, Hbb, Ha, !length_app. simpl. lia.
Qed.

Lemma life_steady c0 n :
  hoare (Steady c0) (life n) (fun _ => Steady c0) (Run c0).
Proof.
  unfold life. generalize (py_range 0 n). intro xs.
  induction xs as [|x xs IH]; simpl.
  - intros w H. exact H.
  - eapply hoare_bind; [apply city_cycle_steady | intro; exact IH].
Qed.

(** *** Sampling without replacement *)

Lemma drop_nth_incl {A} (l : list A) i : incl (drop_nth l i) l.
Proof.
  revert i. induction l as [|h t IH]; intros [|i]; simpl;
    try apply incl_refl.
  - apply incl_tl, incl_refl.
  - intros x [<- | Hx]; [now left | right; eapply IH; eauto].
Qed.

Lemma drop_nth_NoDup {A} (l : list A) i : NoDup l -> NoDup (drop_nth l i).
Proof.
  revert i. induction l as [|h t IH]; intros [|i] H; simpl; auto.
  - now inversion H.
  - inversion H; subst. constructor; [| now apply IH].
    intro Hin. apply drop_nth_incl in Hin. contradiction.
Qed.

Lemma drop_nth_not_In {A} (l : list A) i x :
  NoDup l -> nth_error l i = Some x -> ~ In x (drop_nth l i).
Proof.
  revert i. induction l as [|h t IH]; intros [|i] H Hn; simpl in *;
    try discriminate.
  - inversion Hn; subst. now inversion H.
  - inversion H; subst. intros [-> | Hin].
    + apply nth_error_In in Hn. contradiction.
    + eapply IH; eauto.
Qed.

Lemma sample_spec {A} (k : nat) (P : City -> Prop) :
  forall pool : list A,
    NoDup pool ->
    hoare P (sample pool k) (fun l c => P c /\ NoDup l /\ incl l pool) P.
Proof.
  induction k as [|k IH]; intros pool ND w H; simpl.
  - split; [exact H |]. split; [constructor | intros x []].
  - destruct pool as [|a pool']; [exact H |].
    set (pool := a :: pool') in *.
    unfold bind at 1. unfold rand_int at 1.
    set (i := (w_ints w 0 mod length pool)%nat).
    unfold bind at 1.
    destruct (nth_error pool i) as [x |] eqn:Hx; simpl; [| exact H].
    unfold bind.
    match goal with |- context [sample ?p k ?w'] =>
      specialize (IH p (drop_nth_NoDup pool i ND) w' H);
      destruct (sample p k w') as [rest w2 | e w2]
    end; [| exact IH].
    simpl. destruct IH as (HP & NDr & Hincl).
    split; [exact HP |]. split.
    + constructor; [| exact NDr].
      intro Hin. apply Hincl in Hin.
      eapply drop_nth_not_In; eauto.
    + intros y [<- | Hy].
      * eapply nth_error_In; eauto.
      * eapply drop_nth_incl. apply Hincl. exact Hy.
Qed.

(** *** The lattice of business locations *)

Lemma NoDup_map_inj {A B} (f : A -> B) (l : list A) :
  (forall x y, f x = f y -> x = y) -> NoDup l -> NoDup (map f l).
Proof.
  intros Hf H. induction H as [|x l Hx Hl IH]; simpl; constructor; auto.
  intro Hin. apply in_map_iff in Hin. destruct Hin as (y & Hy & Hin).
  apply Hf in Hy. subst. contradiction.
Qed.

Lemma py_range_NoDup a b : NoDup (py_range a b).
Proof.
  unfold py_range. apply NoDup_map_inj.
  - intros x y H. lia.
  - apply seq_NoDup.
Qed.

Lemma NoDup_flat_map {A B} (f : A -> list B) (xs : list A) :
  NoDup xs ->
  (forall x, In x xs -> NoDup (f x)) ->
  (forall x1 x2 y, In x1 xs -> In x2 xs -> In y (f x1) -> In y (f x2) ->
                   x1 = x2) ->
  NoDup (flat_map f xs).
Proof.
  induction xs as [|x xs IH]; intros ND Hf Hd; simpl; [constructor |].
  inversion ND as [|? ? Hx ND']; subst.
  apply NoDup_app.
  - apply Hf. now left.
  - apply IH; auto.
    + intros; apply Hf; now right.
    + intros x1 x2 y I1 I2. apply Hd; now right.
  - intros y Hy Hy'. apply in_flat_map in Hy'. destruct Hy' as (x' & Hx' & Hy').
    assert (x = x') by (eapply Hd; eauto; [now left | now right]).
    subst. contradiction.
Qed.

Lemma map_of_flat_map {A B C} (g : B -> C) (f : A -> list B) (xs : list A) :
  map g (flat_map f xs) = flat_map (fun x => map g (f x)) xs.
Proof.
  induction xs as [|x xs IH]; simpl; [reflexivity |].
  now rewrite map_app, IH.
Qed.

Lemma lattice_eq (sz : R) :
  lattice sz =
  flat_map
    (fun x =>
       flat_map
         (fun y =>
            if inside (PInt x, PInt y) (PInt 0, PInt 0) (PFloat sz)
            then [(PInt x, PInt y)] else [])
         (py_range (- py_int sz) (py_int sz + 1)))
    (py_range (- py_int sz) (py_int sz + 1)).
Proof.
  unfold lattice, generate_business_locations.
  rewrite map_of_flat_map. apply flat_map_ext. intro x.
  rewrite map_of_flat_map. apply flat_map_ext. intro y.
  destruct (inside _ _ _); reflexivity.
Qed.

Lemma lattice_NoDup (sz : R) : NoDup (lattice sz).
Proof.
  rewrite lattice_eq.
  assert (Hin : forall (ys : list Z) x p,
             In p (flat_map
                     (fun y =>
                        if inside (PInt x, PInt y) (PInt 0, PInt 0) (PFloat sz)
                        then [(PInt x, PInt y)] else []) ys) ->
             exists y, In y ys /\ p = (PInt x, PInt y)).
  { intros ys x p Hp. apply in_flat_map in Hp. destruct Hp as (y & Hy & Hp).
    destruct (inside _ _ _); [| contradiction].
    destruct Hp as [<- | []]. eauto. }
  apply NoDup_flat_map.
  - apply py_range_NoDup.
  - intros x _. apply NoDup_flat_map.
    + apply py_range_NoDup.
    + intros y _. destruct (inside _ _ _); repeat constructor. simpl. tauto.
    + intros y1 y2 p _ _ H1 H2.
      destruct (inside _ (PInt 0, PInt 0) _); [| contradiction].
      destruct (inside _ (PInt 0, PInt 0) _); [| contradiction].
      destruct H1 as [<- | []]. destruct H2 as [H2 | []]. congruence.
  - intros x1 x2 p _ _ H1 H2.
    apply Hin in H1. apply Hin in H2.
    destruct H1 as (y1 & _ & ->). destruct H2 as (y2 & _ & H2). congruence.
Qed.

Lemma generated_available (sz : R) :
  Forall (fun l => available l = true) (generate_business_locations sz).
Proof.
  unfold generate_business_locations. apply Forall_forall. intros l Hl.
  apply in_flat_map in Hl. destruct Hl as (x & _ & Hl).
  apply in_flat_map in Hl. destruct Hl as (y & _ & Hl).
  destruct (inside _ _ _); [| contradiction].
  destruct Hl as [<- | []]. reflexivity.
Qed.

(** *** Construction *)

Lemma init_needs_nonneg (c : City) (nm : string) (loc : Loc) :
  needs_nonneg_person (mkPerson nm loc (init_needs c)).
Proof.
  unfold needs_nonneg_person, init_needs. simpl.
  generalize (dict_keys (dtypes c)) as ks.
  assert (H : Forall (fun kv : string * num => 0 <= to_R (snd kv)) [])
    by constructor.
  revert H. generalize (@nil (string * num)) as d.
  intros d H ks. revert d H. induction ks as [|k ks IH]; intros d H; simpl.
  - exact H.
  - apply IH. apply (dict_set_values (fun v => 0 <= to_R v)); [exact H |].
    simpl. lra.
Qed.

Lemma new_person_spec fuel nm w :
  match new_person fuel nm w with
  | Ok p w' => w_city w' = w_city w /\ needs p = init_needs (w_city w)
  | Raise _ w' => w_city w' = w_city w
  end.
Proof.
  unfold new_person. unfold bind at 1.
  assert (Hp : pure_m (pop_density_rand fuel)).
  { apply pure_bind; [apply pure_get_city | intro; apply pure_pop_density_loop]. }
  specialize (Hp w).
  destruct (pop_density_rand fuel w) as [loc w1 | e w1]; simpl in Hp;
    [| exact Hp].
  unfold_m. simpl. rewrite Hp. auto.
Qed.

Lemma keeps_populate k c0 fuel n : keeps k c0 (populate fuel n).
Proof.
  unfold populate. apply keeps_for_each. intros _ w H.
  unfold bind. pose proof (new_person_spec fuel generate_person_name w) as Hn.
  destruct (new_person fuel generate_person_name w) as [p w1 | e w1].
  - destruct Hn as [Hc Hnd]. unfold modify. simpl. rewrite Hc.
    apply Inv_people; [exact H |].
    intro Hpr. destruct H as (_ & _ & S). specialize (S Hpr).
    apply Forall_app. split; [exact S |].
    constructor; [| constructor].
    unfold needs_nonneg_person. rewrite Hnd.
    apply (init_needs_nonneg (w_city w) "" (PInt 0, PInt 0)).
  - rewrite Hn. exact H.
Qed.

Lemma populate_loop c0 (idxs : list nat) :
  NoDup idxs ->
  hoare (fun c => Inv true c0 c /\ forall i, In i idxs -> free_at c i)
    (for_each idxs
       (fun i =>
          c <- get_city ;;
          bt <- choice (dict_keys (btypes c)) ;;
          b_obj <- lift KeyError (dict_get (btypes c) bt) ;;
          startup b_obj i generate_business_name))
    (fun _ => Inv true c0) (Inv true c0).
Proof.
  induction idxs as [|i idxs IH]; intros ND w [H Hfree]; simpl.
  - exact H.
  - inversion ND as [|? ? Hi ND']; subst.
    unfold bind at 1. unfold bind at 1. unfold get_city at 1.
    unfold bind at 1.
    pose proof (pure_choice (dict_keys (btypes (w_city w))) w) as Hc.
    destruct (choice (dict_keys (btypes (w_city w))) w) as [bt w1 | e w1];
      simpl in Hc; [| rewrite Hc; exact H].
    unfold bind at 1.
    destruct (dict_get (btypes (w_city w)) bt) as [b_obj |]; simpl;
      [| rewrite Hc; exact H].
    destruct (Hfree i (or_introl eq_refl)) as (l & Hl & Hav).
    rewrite (startup_eq b_obj i _ w1 l) by (rewrite Hc; exact Hl).
    apply IH; [exact ND' |]. simpl. rewrite Hc. split.
    + apply Inv_startup; assumption.
    + intros i' Hi'. destruct (Hfree i' (or_intror Hi')) as (l' & Hl' & Hav').
      exists l'. split; [| exact Hav']. simpl.
      rewrite nth_error_list_set_neq; [exact Hl' |].
      intros ->. contradiction.
Qed.

Lemma business_populate_spec c0 ratio :
  hoare (fun c => Inv true c0 c
                  /\ Forall (fun l => available l = true)
                       (business_locations c))
    (business_populate ratio) (fun _ => Inv true c0) (Inv true c0).
Proof.
  intros w [H Hav]. unfold business_populate.
  unfold bind at 1. unfold get_city at 1. unfold bind at 1.
  set (nl := length (business_locations (w_city w))).
  set (k := Z.to_nat (py_int (INR nl * ratio))).
  pose proof (sample_spec k (Inv true c0) (seq 0 nl) (seq_NoDup nl 0) w H)
    as Hs.
  pose proof (pure_sample k (seq 0 nl) w) as Hp.
  destruct (sample (seq 0 nl) k w) as [idxs w1 | e w1]; simpl in Hp;
    [| exact Hs].
  destruct Hs as (HI & ND & Hincl).
  apply populate_loop; [exact ND |]. split; [exact HI |].
  intros i Hi. apply Hincl in Hi. apply in_seq in Hi.
  rewrite Hp. unfold free_at.
  destruct (nth_error (business_locations (w_city w)) i) as [l |] eqn:Hl.
  - exists l. split; [reflexivity |].
    rewrite Forall_forall in Hav. apply Hav. eapply nth_error_In; eauto.
  - apply nth_error_None in Hl. fold nl in Hl. lia.
Qed.

Lemma Ready_Building c : Ready c -> Building c.
Proof. intros (P & S & L & _). split; [| split]; auto. Qed.

Lemma City_init_spec dtraw btraw fuel nm sz n :
  hoare (fun _ => True) (City_init dtraw btraw fuel nm sz n)
    (fun _ c => Ready c /\ size c = to_R sz)
    (fun c => Building c /\ size c = to_R sz).
Proof.
  intros w _. unfold City_init.
  unfold bind at 1. unfold modify at 1.
  set (ca := mkCity nm (to_R sz) 0 (compile_dtypes dtraw)
               (compile_btypes btraw) [] [] [] [] [] [] []).
  set (wa := mkWorld ca (w_ints w) (w_reals w)).
  assert (Ha : Inv true ca (w_city wa)).
  { split; [apply frame_refl |]. split.
    - intros _. split; [constructor |]. split.
      + intros b [].
      + intros b1 b2 y1 y2 [].
    - intros _. constructor. }
  assert (toB : forall c, Inv true ca c -> Building c /\ size c = to_R sz).
  { intros c ((F1 & F2 & F3 & F4 & F5 & F6 & F7) & P & S).
    split; [| exact F1].
    split; [apply P; reflexivity |]. split; [exact S |].
    left. simpl in F7. apply map_eq_nil in F7. exact F7. }
  unfold bind at 1.
  pose proof (keeps_populate true ca fuel n wa Ha) as Hpop.
  destruct (populate fuel n wa) as [[] w2 | e w2]; [| apply toB; exact Hpop].
  unfold bind at 1. unfold modify at 1.
  unfold bind at 1. unfold modify at 1. simpl w_city.
  set (cc := with_business_locations (with_businesses (w_city w2) [])
               (generate_business_locations
                  (size (with_businesses (w_city w2) [])))).
  assert (Hsz : size cc = size (w_city w2)) by reflexivity.
  assert (Hc : Inv true cc cc).
  { destruct Hpop as (_ & _ & S).
    split; [apply frame_refl |]. split.
    - intros _. split; [constructor |]. split.
      + intros b [].
      + intros b1 b2 y1 y2 [].
    - exact S. }
  assert (Hsz' : size cc = to_R sz).
  { rewrite Hsz. destruct Hpop as ((G1 & _) & _). exact G1. }
  assert (toB' : forall c, Inv true cc c -> Building c /\ size c = to_R sz).
  { intros c ((F1 & F2 & F3 & F4 & F5 & F6 & F7) & P & S).
    split; [| congruence].
    split; [apply P; reflexivity |]. split; [exact S |].
    right. rewrite F7, F1. reflexivity. }
  unfold bind at 1.
  match goal with |- context [business_populate ?r ?w'] =>
    pose proof (business_populate_spec cc r w') as Hbp;
    destruct (business_populate r w') as [[] w3 | e w3]
  end; simpl in Hbp;
    [| apply toB'; apply Hbp; split;
       [exact Hc | apply generated_available]].
  assert (H3 : Inv true cc (w_city w3)).
  { apply Hbp. split; [exact Hc | apply generated_available]. }
  clear Hbp.
  unfold bind at 1. unfold modify at 1.
  unfold bind at 1.
  match goal with |- context [popreport ?w'] =>
    pose proof (pure_popreport w') as Hp;
    destruct (popreport w') as [pr w4 | e w4]; simpl in Hp
  end; [| rewrite Hp; apply toB'; exact H3].
  unfold bind at 1. unfold modify at 1.
  unfold bind at 1.
  match goal with |- context [bizreport ?w'] =>
    pose proof (pure_bizreport w') as Hb;
    destruct (bizreport w') as [br w5 | e w5]; simpl in Hb
  end.
  - unfold modify. simpl. rewrite Hb, Hp.
    destruct H3 as ((F1 & F2 & F3 & F4 & F5 & F6 & F7) & P & S).
    split; [| simpl; congruence].
    split; [apply P; reflexivity |]. split; [exact S |].
    split; [simpl; rewrite F7, F1; reflexivity |].
    split; [| split; reflexivity].
    simpl. rewrite F2. simpl.
    destruct Hpop as ((G1 & G2 & _) & _). exact G2.
  - rewrite Hb, Hp. exact (toB' _ H3).
Qed.

(** *** One business per location, on the lattice *)

Lemma Building_one_per_location c : Building c -> one_per_location c.
Proof.
  intros ((ND & Hs & Ha) & _ & HL).
  assert (Hco : forall b biz, In b (businesses c) ->
            nth_error (heap c) b = Some biz ->
            nth_error (map bl_location (business_locations c)) (blocation biz)
            = Some (b_location biz)).
  { intros b biz Hb Hbiz. destruct (Hs b Hb) as (y & l & H1 & H2 & H3 & _).
    rewrite Hbiz in H1. inversion H1; subst y.
    rewrite nth_error_map, H2. simpl. now rewrite H3. }
  assert (HND : NoDup (map bl_location (business_locations c))).
  { destruct HL as [-> | ->]; [constructor | apply lattice_NoDup]. }
  split; [exact ND |]. split.
  - intros b Hb. destruct (Hs b Hb) as (biz & l & H1 & H2 & H3 & _).
    exists biz. split; [exact H1 |].
    pose proof (Hco b biz Hb H1) as Hn. apply nth_error_In in Hn.
    destruct HL as [E | E].
    + rewrite E in Hn. contradiction.
    + rewrite E in Hn. exact Hn.
  - intros b1 b2 y1 y2 I1 I2 H1 H2 E.
    apply (Ha b1 b2 y1 y2 I1 I2 H1 H2).
    pose proof (Hco b1 y1 I1 H1) as N1.
    pose proof (Hco b2 y2 I2 H2) as N2.
    rewrite E in N1.
    assert (L1 : (blocation y1 < length (map bl_location (business_locations c)))%nat)
      by (apply nth_error_Some; congruence).
    apply (proj1 (NoDup_nth_error _) HND _ _ L1). congruence.
Qed.

Lemma Ready_Run_Building c0 c : Ready c0 -> Run c0 c -> Building c.
Proof.
  intros (_ & _ & L & _) ((S1 & _ & _ & S4) & P & N).
  split; [exact P |]. split; [exact N |]. right. congruence.
Qed.

Lemma Ready_Steady c : Ready c -> Steady c c.
Proof.
  intros (P & S & L & A & Hp & Hb).
  split; [split; [apply stable_refl | split; assumption] |].
  rewrite Hp, Hb, A. simpl. lia.
Qed.

Lemma simulation_Building dtraw btraw fuel nm sz n ncycles w :
  Building (w_city (final (simulation dtraw btraw fuel nm sz n ncycles w)))
  /\ size (w_city (final (simulation dtraw btraw fuel nm sz n ncycles w)))
     = to_R sz.
Proof.
  unfold simulation, bind.
  pose proof (City_init_spec dtraw btraw fuel nm sz n w I) as Hi.
  destruct (City_init dtraw btraw fuel nm sz n w) as [[] w1 | e w1];
    [| exact Hi].
  destruct Hi as [Hi Hsz].
  pose proof (life_steady (w_city w1) ncycles w1 (Ready_Steady _ Hi)) as Hl.
  destruct (life ncycles w1) as [[] w2 | e w2]; simpl.
  - destruct Hl as (HR & _). split.
    + eapply Ready_Run_Building; [exact Hi | exact HR].
    + destruct HR as ((S1 & _) & _). congruence.
  - split.
    + eapply Ready_Run_Building; [exact Hi | exact Hl].
    + destruct Hl as ((S1 & _) & _). congruence.
Qed.

(** From a city that is being built or has been built, each method called
    during a cycle leaves such a city, whether it returns or raises. *)
Lemma Building_step {A} (m : M A) (w : World) :
  keeps true (w_city w) m -> Building (w_city w) ->
  Building (w_city (final (m w))).
Proof.
  intros Hk (P & S & L).
  assert (Hi : Inv true (w_city w) (w_city w)).
  { split; [apply frame_refl |]. split; [intros _ |]; assumption. }
  specialize (Hk w Hi).
  assert (Hb : forall c, Inv true (w_city w) c -> Building c).
  { intros c ((F1 & F2 & F3 & F4 & F5 & F6 & F7) & P' & S').
    split; [apply P'; reflexivity |]. split; [exact S' |].
    destruct L as [L | L].
    - left. rewrite L in F7. simpl in F7. apply map_eq_nil in F7. exact F7.
    - right. congruence. }
  destruct (m w); simpl; apply Hb; exact Hk.
Qed.

Lemma Building_burn (b : nat) (w : World) :
  Building (w_city w) -> In b (businesses (w_city w)) ->
  Building (w_city (final (burn b w))).
Proof.
  intros (P & S & L) Hin.
  assert (Hi : Inv true (w_city w) (w_city w)).
  { split; [apply frame_refl |]. split; [intros _ |]; assumption. }
  pose proof (keeps_burn (w_city w) b w (conj Hi Hin)) as Hk.
  assert (Hb : forall c, Inv true (w_city w) c -> Building c).
  { intros c ((F1 & F2 & F3 & F4 & F5 & F6 & F7) & P' & S').
    split; [apply P'; reflexivity |]. split; [exact S' |].
    destruct L as [L | L].
    - left. rewrite L in F7. simpl in F7. apply map_eq_nil in F7. exact F7.
    - right. congruence. }
  destruct (burn b w); simpl; apply Hb; exact Hk.
Qed.

(** *** The placement loop never gives up *)

Lemma pop_density_loop_never_inside fuel :
  forall sz loc w,
    outside sz loc ->
    (forall m, outside sz (draw (w_reals w) m)) ->
    exists w', pop_density_loop fuel sz loc w = Raise StillRunning w'.
Proof.
  induction fuel as [|f IH]; intros sz loc w Hloc Hall; simpl;
    rewrite (gtb_true _ _ Hloc).
  - eexists; reflexivity.
  - unfold bind, norm_rvs, rand_real. simpl.
    apply IH.
    + apply (Hall 0%nat).
    + intro m. simpl.
      replace (draw (fun n => w_reals w (S (S n))) m)
        with (draw (w_reals w) (S m)); [apply Hall |].
      unfold draw. repeat f_equal; lia.
Qed.

Lemma pop_density_loop_accepts fuel :
  forall sz loc w l w',
    pop_density_loop fuel sz loc w = Ok l w' -> ~ outside sz l.
Proof.
  induction fuel as [|f IH]; intros sz loc w l w'; simpl.
  - destruct (py_gtb _ _) eqn:E; [discriminate |].
    intros [= <- <-]. unfold outside. intro H.
    apply gtb_true in H. congruence.
  - destruct (py_gtb _ _) eqn:E.
    + unfold bind, norm_rvs, rand_real. simpl. apply IH.
    + intros [= <- <-]. unfold outside. intro H.
      apply gtb_true in H. congruence.
Qed.

Lemma far_draws_outside m : outside 1 (draw (w_reals far_world) m).
Proof.
  unfold outside, draw, far_world. simpl.
  apply Rnot_le_lt. intro H.
  apply distance_le_iff in H; [| lra]. simpl in H. lra.
Qed.

(** ** functions.py: [inside] against the distance test *)

(** C9, counterexample.  On doubles, from the origin to the point
    [(1e-200, 0)] with the radius [1e-201]: the abscissa is above the radius,
    so the first bounding-box test returns [False]; its square underflows to
    zero, so the distance is [0.0], which is below the radius.  [inside]
    returns [False] where the plain strict-distance test returns [True]. *)
Lemma precheck_changes_result :
  Double.inside Double.origin Double.speck Double.speck_radius = false
  /\ Double.strictly_within Double.origin Double.speck Double.speck_radius
     = true
  /\ Double.distance Double.origin Double.speck = PrimFloat.zero.
Proof. repeat split; vm_compute; reflexivity. Qed.

(** C9, amended.  On doubles, for all points [a], [b] and every radius [r],
    [inside a b r] is the conjunction of the two bounding-box tests and of
    the strict-distance test on the distance that [distance] computes: it is
    never true unless that distance is strictly below [r], and it is false
    where the strict-distance test is true exactly when a bounding-box test
    rejects the point.  In exact arithmetic, and only there, the
    bounding-box tests never change the answer: on real numbers [inside]
    coincides with the plain strict-distance test [strictly_within]. *)
Theorem inside_is_box_and_strict_distance
    (a b : Double.point) (r : PrimFloat.float) :
  Double.inside a b r = Double.in_box a b r && Double.strictly_within a b r
  /\ (Double.inside a b r = true -> Double.strictly_within a b r = true)
  /\ (Double.inside a b r = false -> Double.strictly_within a b r = true ->
      Double.in_box a b r = false)
  /\ (forall (a' b' : Loc) (r' : num),
        inside a' b' r' = strictly_within a' b' r'
        /\ (inside a' b' r' = true <-> distance a' b' < to_R r')).
Proof.
  assert (E : Double.inside a b r
              = Double.in_box a b r && Double.strictly_within a b r).
  { unfold Double.inside, Double.in_box, Double.strictly_within.
    destruct (PrimFloat.ltb r _ || PrimFloat.ltb _ (PrimFloat.opp r));
      [reflexivity |].
    destruct (PrimFloat.ltb r _ || PrimFloat.ltb _ (PrimFloat.opp r));
      [reflexivity |].
    destruct (PrimFloat.ltb (Double.distance a b) r); reflexivity. }
  split; [exact E |]. split; [| split].
  - rewrite E. intro H. apply andb_true_iff in H. apply H.
  - rewrite E. intros H1 H2. rewrite H2, andb_true_r in H1. exact H1.
  - intros a' b' r'.
    split; [apply inside_strictly_within | apply inside_iff].
Qed.

(** ** [City.pop_density_rand] *)

(** C4, counterexample. In a city of radius 1, on the tape whose draws are
    all [(5, 5)], the loop is still running after any number of passes. *)
Lemma retries_unbounded : ~ retries_bounded.
Proof.
  intros [N H].
  destruct (pop_density_loop_never_inside N 1 (PFloat (1 + 1), PInt 0)
              far_world (initial_loc_outside 1) far_draws_outside)
    as [w' E].
  apply (H far_world eq_refl w'). exact E.
Qed.

(** C4, amended.  In a city whose radius is positive and below [2 ^ 53],
    [pop_density_rand] redraws until a draw lies in the closed disk of the
    city (distance from the origin at most the radius) and returns the
    first such draw.  Nothing bounds the number of redraws and
    no error is raised: when the first [k] draws fall outside and the next
    one does not, the loop returns that draw after exactly [k + 1] passes,
    and it is still running after any smaller number of passes; whatever the
    tape, the only outcomes are a returned point of the disk or a loop that
    is still running. *)
Theorem pop_density_rand_first_accepted (w : World) (k : nat) :
  placeable (size (w_city w)) ->
  (forall m, (m < k)%nat -> outside (size (w_city w)) (draw (w_reals w) m)) ->
  ~ outside (size (w_city w)) (draw (w_reals w) k) ->
  (forall fuel, (k < fuel)%nat ->
     exists w', pop_density_rand fuel w = Ok (draw (w_reals w) k) w'
                /\ w_city w' = w_city w)
  /\ (forall fuel, (fuel <= k)%nat ->
        exists w', pop_density_rand fuel w = Raise StillRunning w')
  /\ (forall fuel v,
        placeable (size (w_city v)) ->
        (exists l v', pop_density_rand fuel v = Ok l v'
                      /\ distance l (PInt 0, PInt 0) <= size (w_city v))
        \/ (exists v', pop_density_rand fuel v = Raise StillRunning v')).
Proof.
  intros _ Hout Hin. split; [| split].
  - intros fuel Hf. unfold pop_density_rand, bind, get_city.
    destruct (pop_density_loop_first_inside k fuel (size (w_city w))
                (PFloat (size (w_city w) + 1), PInt 0) w
                (initial_loc_outside _) Hout Hin) as [H1 _].
    destruct (H1 Hf) as (w' & E & Hc & _). exists w'. split; assumption.
  - intros fuel Hf. unfold pop_density_rand, bind, get_city.
    destruct (pop_density_loop_first_inside k fuel (size (w_city w))
                (PFloat (size (w_city w) + 1), PInt 0) w
                (initial_loc_outside _) Hout Hin) as [_ H2].
    apply H2. exact Hf.
  - intros fuel v _. unfold pop_density_rand, bind, get_city.
    destruct (pop_density_loop_Ok_or_running fuel (size (w_city v))
                (PFloat (size (w_city v) + 1), PInt 0) v)
      as [(l & v' & E) | H]; [left | right; exact H].
    exists l, v'. split; [exact E |].
    apply Rnot_lt_le. apply (pop_density_loop_accepts _ _ _ _ _ _ E).
Qed.

(** A city of radius 1: the first pair of draws, [(5, 5)], misses the disk,
    the second one is the origin, and the loop returns it at the second
    pass. *)
Lemma pop_density_rand_first_accepted_witness :
  placeable (size (w_city second_try_world))
  /\ exists w', pop_density_rand 2 second_try_world
                = Ok (PFloat 0, PFloat 0) w'
                /\ w_city w' = bare_city 1.
Proof.
  assert (Hp : placeable (size (w_city second_try_world))).
  { unfold placeable. simpl. split; [lra |]. apply IZR_lt. reflexivity. }
  split; [exact Hp |].
  assert (H0 : forall m, (m < 1)%nat ->
             outside (size (w_city second_try_world))
               (draw (w_reals second_try_world) m)).
  { intros m Hm. assert (m = 0%nat) by lia. subst m.
    unfold outside, draw. simpl.
    apply Rnot_le_lt. intro H.
    apply distance_le_iff in H; [| lra]. simpl in H. lra. }
  assert (H1 : ~ outside (size (w_city second_try_world))
                 (draw (w_reals second_try_world) 1)).
  { unfold outside, draw. simpl. apply Rle_not_lt.
    apply distance_le_iff; [lra |]. simpl. lra. }
  destruct (pop_density_rand_first_accepted second_try_world 1 Hp H0 H1)
    as (Hret & _ & _).
  exact (Hret 2%nat (Nat.lt_succ_diag_r 1)).
Defined.

(** ** [DemandType.demand_radius] *)

(** C8, at the failing input.  With the arrival rate 2 and the unit price 1
    read as ints, the needs 0 and 1 are ints and [need_amount / self.dlambda]
    is a floor division: both needs give the radius 1, which is not
    [1 + 1/2], so the radius is not strictly increasing there.  With a float
    rate the same need gives [1 + 1/2]. *)
Theorem demand_radius_int_division :
  demand_radius (mkDemandType "food" (PInt 2) (PInt 1)) (PInt 0)
  = Some (PFloat (1 + IZR 0))
  /\ demand_radius (mkDemandType "food" (PInt 2) (PInt 1)) (PInt 1)
     = Some (PFloat (1 + IZR 0))
  /\ 1 + IZR 0 <> 1 + 1 / 2
  /\ demand_radius (mkDemandType "food" (PFloat 2) (PInt 1)) (PInt 1)
     = Some (PFloat (1 + 1 / 2)).
Proof.
  split; [reflexivity |]. split; [reflexivity |]. split; [lra |].
  unfold demand_radius, py_div. simpl.
  destruct (Req_dec_T 2 0) as [E | _]; [lra | reflexivity].
Qed.

(** ** Phase 4: the scan over the active businesses *)

Lemma skipn_nth_cons {A} (l : list A) i x :
  nth_error l i = Some x -> skipn i l = x :: skipn (S i) l.
Proof.
  revert i. induction l as [|h t IH]; intros [|i] H; simpl in *;
    try discriminate.
  - now inversion H.
  - rewrite (IH i H). destruct t; reflexivity.
Qed.

Lemma In_skipn_S {A} (l : list A) n x : In x (skipn (S n) l) -> In x (skipn n l).
Proof.
  revert n. induction l as [|h t IH]; intros n H; [destruct n; exact H |].
  destruct n; simpl in *.
  - now right.
  - apply IH. exact H.
Qed.

Lemma In_skipn {A} (l : list A) n x : In x (skipn n l) -> In x l.
Proof.
  revert l. induction n as [|n IH]; intros l H; [exact H |].
  destruct l as [|h t]; [exact H |]. right. apply IH. exact H.
Qed.

Lemma NoDup_nth_not_later {A} (l : list A) i x :
  NoDup l -> nth_error l i = Some x -> ~ In x (skipn (S i) l).
Proof.
  revert i. induction l as [|h t IH]; intros [|i] ND H; simpl in *;
    try discriminate; inversion ND; subst.
  - inversion H; subst. assumption.
  - apply IH; assumption.
Qed.

Lemma list_remove_nth (l : list nat) i x :
  NoDup l -> nth_error l i = Some x ->
  list_remove l x = Some (firstn i l ++ skipn (S i) l).
Proof.
  revert i. induction l as [|h t IH]; intros [|i] ND H; simpl in *;
    try discriminate; inversion ND as [|? ? Hh ND']; subst.
  - inversion H; subst. now rewrite Nat.eqb_refl.
  - destruct (Nat.eqb h x) eqn:E.
    + apply Nat.eqb_eq in E. subst h. apply nth_error_In in H. contradiction.
    + rewrite (IH i ND' H). reflexivity.
Qed.

Lemma skipn_after_removal {A} (l : list A) i :
  (i < length l)%nat ->
  skipn (S i) (firstn i l ++ skipn (S i) l) = skipn (S (S i)) l.
Proof.
  intro H. rewrite skipn_app.
  rewrite firstn_length_le by lia.
  rewrite skipn_all2 by (rewrite firstn_length_le; lia).
  replace (S i - i)%nat with 1%nat by lia.
  rewrite skipn_skipn. reflexivity.
Qed.

Lemma placed_bizfail c b bs biz l :
  placed c ->
  list_remove (businesses c) b = Some bs ->
  nth_error (heap c) b = Some biz ->
  nth_error (business_locations c) (blocation biz) = Some l ->
  placed (city_after_bizfail c b bs biz l).
Proof.
  intros P Hr Hb Hl. unfold city_after_bizfail.
  apply (placed_free
           (with_businesses
              (with_failed_businesses c (failed_businesses c ++ [b])) bs)
           (blocation biz) l).
  - apply (placed_remove
             (with_failed_businesses c (failed_businesses c ++ [b])) b bs);
      [exact P | exact Hr].
  - exact Hl.
  - simpl. eapply removed_location_free; eauto.
Qed.

Lemma scanned_done c i :
  placed c -> nth_error (businesses c) i = None -> scanned i c c.
Proof.
  intros P Hn. apply nth_error_None in Hn.
  assert (E : skipn i (businesses c) = []) by (apply skipn_all2; exact Hn).
  unfold scanned. rewrite E. simpl.
  split; [reflexivity |].
  split; [intros x biz [] |].
  split; [intros x Hx _; exact Hx |].
  split; [apply incl_refl |].
  split; [apply incl_refl |].
  split; [reflexivity |].
  split; [exact P |].
  split; [reflexivity |].
  intros _. split; [reflexivity | intros x biz []].
Qed.

Lemma scanned_step_alive c c' i b biz :
  placed c ->
  nth_error (businesses c) i = Some b ->
  nth_error (heap c) b = Some biz ->
  0 <= to_R (cash (burned biz)) ->
  scanned (S i) (with_heap c (list_set (heap c) b (burned biz))) c' ->
  scanned i c c'.
Proof.
  intros (ND & Hs & Ha) Hi Hb Hpos
    (S1 & S2 & S3 & S4 & S5 & S6 & S7 & S9 & S8).
  simpl in *.
  pose proof (skipn_nth_cons _ _ _ Hi) as Hsk.
  pose proof (NoDup_nth_not_later _ _ _ ND Hi) as Hnb.
  assert (Hhb : nth_error (list_set (heap c) b (burned biz)) b
                = Some (burned biz))
    by (eapply nth_error_list_set_same; eauto).
  assert (Hh : forall x, x <> b ->
             nth_error (list_set (heap c) b (burned biz)) x
             = nth_error (heap c) x)
    by (intros x Hx; apply nth_error_list_set_neq; congruence).
  unfold scanned. rewrite Hsk. simpl.
  split; [| split; [| split; [| split; [| split; [| split; [| split;
    [| split]]]]]]].
  - intros x Hx. rewrite S1 by tauto. apply Hh. intros ->. tauto.
  - intros x bx [<- | Hx] Hbx.
    + rewrite Hb in Hbx. inversion Hbx; subst bx.
      right. left. rewrite (S1 b Hnb). split; [exact Hhb |].
      split; [exact Hpos |]. apply S3; [| exact Hnb].
      eapply nth_error_In; eauto.
    + assert (Hxb : x <> b) by (intros ->; contradiction).
      rewrite <- (Hh x) in Hbx by assumption.
      destruct (S2 x bx Hx Hbx) as [H | [H | H]]; auto.
  - intros x Hx Hn. apply S3; tauto.
  - exact S4.
  - exact S5.
  - exact S6.
  - exact S7.
  - exact S9.
  - intro Hall.
    destruct S8 as [E Hb'].
    { intros x bx Hx Hbx.
      assert (Hxb : x <> b) by (intros ->; contradiction).
      rewrite Hh in Hbx by assumption. eapply Hall; eauto. }
    split; [exact E |].
    intros x bx [<- | Hx] Hbx.
    + rewrite Hb in Hbx. inversion Hbx; subst bx.
      rewrite (S1 b Hnb). exact Hhb.
    + assert (Hxb : x <> b) by (intros ->; contradiction).
      apply Hb'; [exact Hx |]. rewrite Hh by assumption. exact Hbx.
Qed.

Lemma scanned_step_dead c c' i b bs biz l :
  placed c ->
  nth_error (businesses c) i = Some b ->
  nth_error (heap c) b = Some biz ->
  list_remove (businesses c) b = Some bs ->
  to_R (cash (burned biz)) < 0 ->
  scanned (S i)
    (city_after_bizfail
       (with_heap c (list_set (heap c) b (dead c (burned biz))))
       b bs (dead c (burned biz)) l) c' ->
  scanned i c c'.
Proof.
  intros (ND & Hs & Ha) Hi Hb Hr Hneg
    (S1 & S2 & S3 & S4 & S5 & S6 & S7 & S9 & S8).
  unfold city_after_bizfail, dead in *.
  cbn [businesses heap failed_businesses age people with_business_locations
         with_businesses with_failed_businesses with_heap] in *.
  pose proof (skipn_nth_cons _ _ _ Hi) as Hsk.
  pose proof (NoDup_nth_not_later _ _ _ ND Hi) as Hnb.
  assert (Hlt : (i < length (businesses c))%nat)
    by (apply nth_error_Some; congruence).
  assert (Ebs : bs = firstn i (businesses c) ++ skipn (S i) (businesses c)).
  { rewrite (list_remove_nth _ _ _ ND Hi) in Hr. now inversion Hr. }
  assert (Esk : skipn (S i) bs = skipn (S (S i)) (businesses c)).
  { rewrite Ebs. apply skipn_after_removal. exact Hlt. }
  rewrite Esk in *.
  pose proof (list_remove_In_iff _ _ _ Hr ND) as Hin.
  assert (Hhb : nth_error (list_set (heap c) b (dead c (burned biz))) b
                = Some (dead c (burned biz)))
    by (eapply nth_error_list_set_same; eauto).
  assert (Hh : forall x, x <> b ->
             nth_error (list_set (heap c) b (dead c (burned biz))) x
             = nth_error (heap c) x)
    by (intros x Hx; apply nth_error_list_set_neq; congruence).
  assert (Hnb2 : ~ In b (skipn (S (S i)) (businesses c)))
    by (intro H; apply Hnb; apply In_skipn_S; exact H).
  unfold scanned. rewrite Hsk. cbn [In].
  split; [| split; [| split; [| split; [| split; [| split; [| split;
    [| split]]]]]]].
  - intros x Hx. rewrite S1.
    + apply Hh. intros ->. tauto.
    + intro H. apply Hx. right. apply In_skipn_S. exact H.
  - intros x bx [<- | Hx] Hbx.
    + rewrite Hb in Hbx. inversion Hbx; subst bx.
      right. right. rewrite (S1 b Hnb2). split; [exact Hhb |].
      split; [exact Hneg |]. split.
      * intro H. apply S4 in H. apply Hin in H. tauto.
      * apply S5. apply in_or_app. right. now left.
    + assert (Hxb : x <> b) by (intros ->; contradiction).
      destruct (in_dec Nat.eq_dec x (skipn (S (S i)) (businesses c)))
        as [Hx2 | Hx2].
      * rewrite <- (Hh x) in Hbx by assumption.
        destruct (S2 x bx Hx2 Hbx) as [H | [H | H]]; auto.
      * left. rewrite (S1 x Hx2), Hh by assumption. split; [exact Hbx |].
        apply S3; [| exact Hx2]. apply Hin. split; [| exact Hxb].
        eapply In_skipn; eauto.
  - intros x Hx Hn. apply S3.
    + apply Hin. split; [exact Hx |]. intros ->. tauto.
    + intro H. apply Hn. right. apply In_skipn_S. exact H.
  - intros x Hx. apply S4 in Hx. apply Hin in Hx. tauto.
  - intros x Hx. apply S5. apply in_or_app. now left.
  - exact S6.
  - exact S7.
  - exact S9.
  - intro Hall. exfalso.
    specialize (Hall b biz (or_introl eq_refl) Hb). lra.
Qed.

(** The scan returns: the fuel it is given in [city_cycle], the length of
    the list when the phase begins, is always enough. *)
Lemma scan_burn_spec fuel :
  forall i w,
    placed (w_city w) ->
    (length (businesses (w_city w)) - i <= fuel)%nat ->
    exists w', scan_businesses fuel i burn w = Ok tt w'
               /\ scanned i (w_city w) (w_city w').
Proof.
  induction fuel as [|f IH]; intros i w P Hf.
  - simpl. unfold bind, get_city.
    destruct (nth_error (businesses (w_city w)) i) as [b |] eqn:E.
    + exfalso.
      assert (i < length (businesses (w_city w)))%nat
        by (apply nth_error_Some; congruence).
      lia.
    + exists w. split; [reflexivity | now apply scanned_done].
  - simpl. unfold bind at 1. unfold get_city.
    destruct (nth_error (businesses (w_city w)) i) as [b |] eqn:E;
      [| exists w; split; [reflexivity | now apply scanned_done]].
    assert (Hin : In b (businesses (w_city w)))
      by (eapply nth_error_In; eauto).
    assert (Hlt : (i < length (businesses (w_city w)))%nat)
      by (apply nth_error_Some; congruence).
    pose proof P as (ND & Hs & Ha).
    destruct (Hs b Hin) as (biz & l & Hb & Hl & _ & _).
    unfold bind.
    destruct (Rlt_le_dec (to_R (cash (burned biz))) 0) as [Hneg | Hpos].
    + destruct (list_remove_In _ _ Hin) as [bs Hr].
      rewrite (burn_dead_eq b w bs biz l) by assumption.
      match goal with |- context [scan_businesses f (S i) burn ?w1] =>
        destruct (IH (S i) w1) as (w' & Erun & Hsc)
      end.
      * simpl. apply placed_bizfail; simpl.
        -- eapply placed_update_business; eauto.
        -- exact Hr.
        -- eapply nth_error_list_set_same; eauto.
        -- exact Hl.
      * simpl. apply list_remove_length in Hr. lia.
      * exists w'. split; [exact Erun |].
        simpl in Hsc. eapply scanned_step_dead; eauto.
    + rewrite (burn_alive_eq b w biz) by assumption.
      match goal with |- context [scan_businesses f (S i) burn ?w1] =>
        destruct (IH (S i) w1) as (w' & Erun & Hsc)
      end.
      * simpl. eapply placed_update_business; eauto.
      * simpl. lia.
      * exists w'. split; [exact Erun |].
        simpl in Hsc. eapply scanned_step_alive; eauto.
Qed.

(** ** Two shops, the first of which cannot pay its bills *)

Lemma two_shops_placed : placed two_shops_city.
Proof.
  split; [| split].
  - repeat constructor; simpl; intuition discriminate.
  - intros b [<- | [<- | []]]; unfold sited; simpl;
      eexists; eexists; repeat split; reflexivity.
  - intros b1 b2 y1 y2 [<- | [<- | []]] [<- | [<- | []]]; simpl;
      intros [= <-] [= <-]; simpl; congruence.
Qed.

Lemma first_shop_goes_under :
  to_R (cash (burned (shop 0 0 (PFloat (1 / 2))))) < 0.
Proof. unfold burned, py_sub. simpl. lra. Qed.

Lemma two_shops_scan :
  scan_businesses (length (businesses (w_city two_shops))) 0 burn two_shops
  = Ok tt (mkWorld two_shops_after (w_ints two_shops) (w_reals two_shops)).
Proof.
  change (length (businesses (w_city two_shops))) with 2%nat.
  cbn [scan_businesses]. unfold bind at 1. unfold get_city.
  change (nth_error (businesses (w_city two_shops)) 0) with (Some 0%nat).
  cbv iota. unfold bind.
  rewrite (burn_dead_eq 0 two_shops [1%nat] (shop 0 0 (PFloat (1 / 2)))
             (mkBusinessLocation (PInt 0, PInt 0) false));
    [| reflexivity | reflexivity | reflexivity | exact first_shop_goes_under].
  reflexivity.
Qed.

(** ** Claims on [Business.burn] and on phase 4 *)

(** C2, at the failing input.  Two active shops with burn rate 1, the first
    with cash 0.5 and the second with cash 5.  Phase 4 returns; the first
    shop pays, dies and is removed from the active list while the list is
    being iterated; the iterator moves on to index 1 of a list that now has
    one element, and the loop ends.  The second shop is still active and
    still holds its cash of 5: it has paid nothing in this phase, so not
    every business that was active when the phase began has had its cash
    decreased by the burn rate. *)
Theorem second_shop_not_burned :
  scan_businesses (length (businesses (w_city two_shops))) 0 burn two_shops
  = Ok tt (mkWorld two_shops_after (w_ints two_shops) (w_reals two_shops))
  /\ businesses two_shops_city = [0%nat; 1%nat]
  /\ nth_error (heap two_shops_city) 1 = Some (shop 1 1 (PInt 5))
  /\ businesses two_shops_after = [1%nat]
  /\ failed_businesses two_shops_after = [0%nat]
  /\ nth_error (heap two_shops_after) 1 = Some (shop 1 1 (PInt 5))
  /\ ~ burns_every_active_business two_shops.
Proof.
  split; [exact two_shops_scan |].
  do 5 (split; [reflexivity |]).
  intro H.
  destruct (H _ two_shops_scan 1%nat (shop 1 1 (PInt 5)))
    as (biz' & Hb & Hc).
  - simpl. auto.
  - reflexivity.
  - simpl in Hb. inversion Hb; subst biz'. simpl in Hc. lra.
Qed.

(** Phase 4 as the code runs it.  From a city whose active businesses are
    well placed, the scan returns, with the fuel that [city_cycle] gives it.
    Every business that is active when the phase begins has its cash
    decreased by the burn rate of its type at most once: it is left as it
    was and stays active, or it is decreased once to a non-negative cash and
    stays active, or it is decreased once to a negative cash, is removed
    from the active list and is recorded as failed.  When no cash would
    become negative, every active business is decreased exactly once and the
    active list is unchanged.  The [burn] call that makes the cash negative
    removes the business at once, and the scan goes on, at the next index,
    over the list without it: this is how the business that followed the
    dead one is passed over. *)
Lemma scan_burns_at_most_once (w : World) :
  placed (w_city w) ->
  (exists w',
     scan_businesses (length (businesses (w_city w))) 0 burn w = Ok tt w'
     /\ (forall b biz,
           In b (businesses (w_city w)) ->
           nth_error (heap (w_city w)) b = Some biz ->
           (nth_error (heap (w_city w')) b = Some biz
            /\ In b (businesses (w_city w')))
           \/ (nth_error (heap (w_city w')) b = Some (burned biz)
               /\ 0 <= to_R (cash (burned biz))
               /\ In b (businesses (w_city w')))
           \/ (nth_error (heap (w_city w')) b
               = Some (dead (w_city w) (burned biz))
               /\ to_R (cash (burned biz)) < 0
               /\ ~ In b (businesses (w_city w'))
               /\ In b (failed_businesses (w_city w'))))
     /\ ((forall b biz,
            In b (businesses (w_city w)) ->
            nth_error (heap (w_city w)) b = Some biz ->
            0 <= to_R (cash (burned biz))) ->
         businesses (w_city w') = businesses (w_city w)
         /\ forall b biz,
              In b (businesses (w_city w)) ->
              nth_error (heap (w_city w)) b = Some biz ->
              nth_error (heap (w_city w')) b = Some (burned biz)))
  /\ (forall fuel i b biz,
        nth_error (businesses (w_city w)) i = Some b ->
        nth_error (heap (w_city w)) b = Some biz ->
        to_R (cash (burned biz)) < 0 ->
        exists w1,
          burn b w = Ok tt w1
          /\ ~ In b (businesses (w_city w1))
          /\ scan_businesses (S fuel) i burn w
             = scan_businesses fuel (S i) burn w1).
Proof.
  intro P. split.
  - destruct (scan_burn_spec (length (businesses (w_city w))) 0 w P)
      as (w' & E & S1 & S2 & S3 & S4 & S5 & S6 & S7 & S9 & S8); [lia |].
    exists w'. split; [exact E |]. split.
    + intros b biz Hb Hbiz. apply S2; assumption.
    + intro Hall. apply S8. exact Hall.
  - intros fuel i b biz Hi Hbiz Hneg.
    pose proof P as (ND & Hs & Ha).
    assert (Hin : In b (businesses (w_city w)))
      by (eapply nth_error_In; eauto).
    destruct (Hs b Hin) as (biz0 & l & Hb & Hl & _ & _).
    rewrite Hbiz in Hb. inversion Hb; subst biz0.
    destruct (list_remove_In _ _ Hin) as [bs Hr].
    eexists. split; [apply (burn_dead_eq b w bs biz l); assumption |].
    split.
    + simpl. intro H. apply (list_remove_In_iff _ _ _ Hr ND) in H. tauto.
    + simpl. unfold bind at 1. unfold get_city. rewrite Hi.
      unfold bind. rewrite (burn_dead_eq b w bs biz l) by assumption.
      reflexivity.
Qed.

Lemma scan_two_shops :
  exists w',
    scan_businesses (length (businesses (w_city two_shops))) 0 burn two_shops
    = Ok tt w'
    /\ ~ In 0%nat (businesses (w_city w'))
    /\ In 0%nat (failed_businesses (w_city w')).
Proof.
  destruct (scan_burns_at_most_once two_shops two_shops_placed)
    as [(w' & E & Hall & _) _].
  exists w'. split; [exact E |].
  destruct (Hall 0%nat (shop 0 0 (PFloat (1 / 2))) (or_introl eq_refl) eq_refl)
    as [[H _] | [(_ & H & _) | (_ & _ & H1 & H2)]].
  - rewrite two_shops_scan in E. inversion E; subst w'.
    simpl in H. discriminate.
  - pose proof first_shop_goes_under. lra.
  - split; assumption.
Qed.

(** C5. For every active business of a city whose active businesses are well
    placed, [burn] returns and leaves the business with its former cash
    minus the burn rate of its type, exactly.  If that cash is negative the
    business dies in this very call: its death-cycle is the current age of
    the city, its lifespan is the death-cycle minus the birth-cycle, its
    location is free again, it is no longer on the active list and it is
    appended to the failed list.  If that cash is not negative nothing else
    changes: the business stays active, with no death-cycle recorded by the
    call. *)
Theorem burn_pays_or_dies (w : World) (b : nat) (biz : Business) :
  placed (w_city w) ->
  In b (businesses (w_city w)) ->
  nth_error (heap (w_city w)) b = Some biz ->
  exists w' biz',
    burn b w = Ok tt w'
    /\ nth_error (heap (w_city w')) b = Some biz'
    /\ cash biz' = py_sub (cash biz) (burnrate (btype biz))
    /\ to_R (cash biz') = to_R (cash biz) - to_R (burnrate (btype biz))
    /\ age (w_city w') = age (w_city w)
    /\ (to_R (cash biz') < 0 ->
        deathday biz' = Some (age (w_city w))
        /\ lifespan biz' = Some (age (w_city w) - birthday biz)%Z
        /\ (exists l,
              nth_error (business_locations (w_city w')) (blocation biz)
              = Some l /\ available l = true)
        /\ ~ In b (businesses (w_city w'))
        /\ failed_businesses (w_city w')
           = failed_businesses (w_city w) ++ [b])
    /\ (0 <= to_R (cash biz') ->
        deathday biz' = deathday biz
        /\ lifespan biz' = lifespan biz
        /\ businesses (w_city w') = businesses (w_city w)
        /\ failed_businesses (w_city w') = failed_businesses (w_city w)
        /\ business_locations (w_city w')
           = business_locations (w_city w)).
Proof.
  intros P Hin Hbiz. pose proof P as (ND & Hs & Ha).
  destruct (Hs b Hin) as (biz0 & l & Hb & Hl & _ & _).
  rewrite Hbiz in Hb. inversion Hb; subst biz0.
  destruct (Rlt_le_dec (to_R (cash (burned biz))) 0) as [Hneg | Hpos].
  - destruct (list_remove_In _ _ Hin) as [bs Hr].
    eexists. exists (dead (w_city w) (burned biz)).
    split; [apply (burn_dead_eq b w bs biz l); assumption |].
    split; [simpl; eapply nth_error_list_set_same; eauto |].
    split; [reflexivity |].
    split; [simpl; apply to_R_sub |].
    split; [reflexivity |]. split.
    + intros _. split; [reflexivity |]. split; [reflexivity |]. split.
      * exists (with_available l true). simpl.
        split; [eapply nth_error_list_set_same; eauto | reflexivity].
      * split; [| reflexivity]. simpl. intro H.
        apply (list_remove_In_iff _ _ _ Hr ND) in H. tauto.
    + intro H. simpl in H. simpl in Hneg. lra.
  - eexists. exists (burned biz).
    split; [apply (burn_alive_eq b w biz); assumption |].
    split; [simpl; eapply nth_error_list_set_same; eauto |].
    split; [reflexivity |].
    split; [simpl; apply to_R_sub |].
    split; [reflexivity |]. split.
    + intro H. simpl in H. simpl in Hpos. lra.
    + intros _. repeat split; reflexivity.
Qed.

(** Scenario B: cash 0.5 and burn rate 1, in a city of age 7, for a business
    born in cycle 3. *)
Lemma burn_pays_or_dies_witness :
  exists w' biz',
    burn 0 two_shops = Ok tt w'
    /\ nth_error (heap (w_city w')) 0 = Some biz'
    /\ to_R (cash biz') = 1 / 2 - 1
    /\ deathday biz' = Some 7%Z
    /\ lifespan biz' = Some 4%Z
    /\ ~ In 0%nat (businesses (w_city w')).
Proof.
  destruct (burn_pays_or_dies two_shops 0 (shop 0 0 (PFloat (1 / 2)))
              two_shops_placed (or_introl eq_refl) eq_refl)
    as (w' & biz' & E & Hb & _ & Hc & _ & Hdead & _).
  exists w', biz'. split; [exact E |]. split; [exact Hb |].
  simpl in Hc. split; [exact Hc |].
  destruct Hdead as (Hd & Hl & _ & Hn & _); [rewrite Hc; lra |].
  split; [exact Hd |]. split; [exact Hl | exact Hn].
Defined.

(** ** Phase 3: one need of one person *)

Lemma choice_eq {A} (xs : list A) (w : World) (x : A) :
  nth_error xs (w_ints w 0 mod length xs) = Some x ->
  choice xs w
  = Ok x (mkWorld (w_city w) (fun n => w_ints w (S n)) (w_reals w)).
Proof.
  intro H. destruct xs as [|a xs]; [destruct (w_ints w 0 mod _); discriminate |].
  unfold choice, bind, rand_int, lift.
  cbn [w_ints]. rewrite H. reflexivity.
Qed.

Lemma fulfill_need_served i need w p amt dt r :
  nth_error (people (w_city w)) i = Some p ->
  dict_get (needs p) need = Some amt ->
  dict_get (dtypes (w_city w)) need = Some dt ->
  demand_radius dt amt = Some r ->
  pos_biz (w_city w) p r <> [] ->
  exists b biz,
    nth_error (pos_biz (w_city w) p r)
      (w_ints w 0 mod length (pos_biz (w_city w) p r)) = Some b
    /\ nth_error (heap (w_city w)) b = Some biz
    /\ fulfill_need i need w =
       Ok tt (mkWorld
                (city_after_give_biz (w_city w) i p need b biz
                   (py_mul amt (dprice dt)))
                (fun n => w_ints w (S n)) (w_reals w)).
Proof.
  intros Hp Ha Hd Hr Hne.
  set (cands := pos_biz (w_city w) p r) in *.
  assert (Hlen : (0 < length cands)%nat).
  { destruct cands; [contradiction | simpl; lia]. }
  destruct (nth_error cands (w_ints w 0 mod length cands)) as [b |] eqn:Hb.
  2:{ apply nth_error_None in Hb.
      pose proof (Nat.mod_upper_bound (w_ints w 0) (length cands)). lia. }
  assert (Hin : In b cands) by (eapply nth_error_In; eauto).
  unfold cands, pos_biz in Hin. apply filter_In in Hin.
  destruct Hin as [_ Hin].
  destruct (nth_error (heap (w_city w)) b) as [biz |] eqn:Hbiz;
    [| discriminate].
  exists b, biz. split; [reflexivity |]. split; [exact Hbiz |].
  unfold fulfill_need. unfold bind at 1. unfold get_person at 1.
  unfold_m. rewrite Hp, Ha, Hd, Hr. fold cands.
  destruct (0 <? length cands)%nat eqn:E;
    [| apply Nat.ltb_ge in E; lia].
  rewrite (choice_eq cands w b Hb).
  rewrite (give_biz_eq i need b _ p amt dt biz); auto.
Qed.

Lemma fulfill_need_unserved i need w p amt dt r :
  nth_error (people (w_city w)) i = Some p ->
  dict_get (needs p) need = Some amt ->
  dict_get (dtypes (w_city w)) need = Some dt ->
  demand_radius dt amt = Some r ->
  pos_biz (w_city w) p r = [] ->
  fulfill_need i need w = Ok tt w.
Proof.
  intros Hp Ha Hd Hr He.
  unfold fulfill_need. unfold bind at 1. unfold get_person at 1.
  unfold_m. rewrite Hp, Ha, Hd, Hr, He. reflexivity.
Qed.

Lemma hungry_radius : demand_radius grocer (PInt 6) = Some (PFloat (1 + IZR 2)).
Proof. reflexivity. Qed.

Lemma hungry_pos_biz :
  pos_biz hungry_city hungry (PFloat (1 + IZR 2)) = [0%nat].
Proof.
  unfold pos_biz. simpl.
  rewrite ltb_true; [reflexivity |].
  apply distance_lt_iff; simpl; lra.
Qed.

Lemma hungry_served :
  fulfill_need 0 "food" hungry_world =
  Ok tt (mkWorld
           (city_after_give_biz hungry_city 0 hungry "food" 0
              (shop 0 0 (PInt 10)) (PInt 12))
           (fun n => w_ints hungry_world (S n)) (w_reals hungry_world)).
Proof.
  destruct (fulfill_need_served 0 "food" hungry_world hungry (PInt 6) grocer
              (PFloat (1 + IZR 2)) eq_refl eq_refl eq_refl hungry_radius)
    as (b & biz & Hb & Hbiz & E).
  - change (w_city hungry_world) with hungry_city.
    rewrite hungry_pos_biz. discriminate.
  - change (w_city hungry_world) with hungry_city in Hb.
    rewrite hungry_pos_biz in Hb. simpl in Hb. inversion Hb; subst b.
    simpl in Hbiz. inversion Hbiz; subst biz. exact E.
Qed.

(** ** Claims on the fulfillment transaction *)

(** C1, counterexample. A need of 6 for a type whose unit price is 2, and
    one shop in reach with a cash of 10: the shop ends with 22, not 16. *)
Lemma price_applied_twice : ~ credits_the_need hungry_world 0 "food".
Proof.
  intro H.
  destruct (H hungry (PInt 6) grocer (PFloat (1 + IZR 2))
              (mkWorld
                 (city_after_give_biz hungry_city 0 hungry "food" 0
                    (shop 0 0 (PInt 10)) (PInt 12))
                 (fun n => w_ints hungry_world (S n)) (w_reals hungry_world))
              eq_refl eq_refl eq_refl hungry_radius)
    as (b & biz & biz' & Hin & Hb & Hb' & Hc).
  - change (w_city hungry_world) with hungry_city.
    rewrite hungry_pos_biz. discriminate.
  - exact hungry_served.
  - change (w_city hungry_world) with hungry_city in Hin.
    rewrite hungry_pos_biz in Hin. destruct Hin as [<- | []].
    simpl in Hb. inversion Hb; subst biz.
    simpl in Hb'. inversion Hb'; subst biz'.
    simpl in Hc. lra.
Qed.

(** C1, amended. In the fulfillment phase, for every person and every demand
    type whose candidate set is not empty, [fulfill_need] returns, and the
    transaction credits the cash of the chosen candidate with the person's
    accumulated need for that type multiplied by the unit price of the type,
    resets that need to 0, and leaves every other business as it was. *)
Theorem fulfill_need_pays_need_times_price
    (w : World) (i : nat) (need : string) (p : Person) (amt : num)
    (dt : DemandType) (r : num) :
  nth_error (people (w_city w)) i = Some p ->
  dict_get (needs p) need = Some amt ->
  dict_get (dtypes (w_city w)) need = Some dt ->
  demand_radius dt amt = Some r ->
  pos_biz (w_city w) p r <> [] ->
  exists b biz w' biz' p',
    In b (pos_biz (w_city w) p r)
    /\ nth_error (heap (w_city w)) b = Some biz
    /\ fulfill_need i need w = Ok tt w'
    /\ nth_error (heap (w_city w')) b = Some biz'
    /\ cash biz' = py_add (cash biz) (py_mul amt (dprice dt))
    /\ to_R (cash biz') = to_R (cash biz) + to_R amt * to_R (dprice dt)
    /\ nth_error (people (w_city w')) i = Some p'
    /\ dict_get (needs p') need = Some (PInt 0)
    /\ (forall b', b' <> b ->
          nth_error (heap (w_city w')) b' = nth_error (heap (w_city w)) b').
Proof.
  intros Hp Ha Hd Hr Hne.
  destruct (fulfill_need_served i need w p amt dt r Hp Ha Hd Hr Hne)
    as (b & biz & Hb & Hbiz & E).
  exists b, biz. eexists.
  exists (with_cash biz (py_add (cash biz) (py_mul amt (dprice dt)))).
  exists (with_needs p (dict_set (needs p) need (PInt 0))).
  split; [eapply nth_error_In; eauto |].
  split; [exact Hbiz |].
  split; [exact E |].
  split; [simpl; eapply nth_error_list_set_same; eauto |].
  split; [reflexivity |].
  split; [simpl; rewrite to_R_add, to_R_mul; reflexivity |].
  split; [simpl; eapply nth_error_list_set_same; eauto |].
  split; [simpl; apply dict_get_set_eq |].
  intros b' Hne'. simpl. apply nth_error_list_set_neq. congruence.
Qed.

Lemma fulfill_need_pays_need_times_price_witness :
  exists w' biz',
    fulfill_need 0 "food" hungry_world = Ok tt w'
    /\ nth_error (heap (w_city w')) 0 = Some biz'
    /\ to_R (cash biz') = 10 + 6 * 2.
Proof.
  assert (Hne : pos_biz (w_city hungry_world) hungry (PFloat (1 + IZR 2))
                <> []).
  { change (w_city hungry_world) with hungry_city.
    rewrite hungry_pos_biz. discriminate. }
  destruct (fulfill_need_pays_need_times_price hungry_world 0 "food" hungry
              (PInt 6) grocer (PFloat (1 + IZR 2))
              eq_refl eq_refl eq_refl hungry_radius Hne)
    as (b & biz & w' & biz' & p' & Hin & Hb & E & Hb' & _ & Hc & _).
  change (w_city hungry_world) with hungry_city in Hin.
  rewrite hungry_pos_biz in Hin. destruct Hin as [<- | []].
  simpl in Hb. inversion Hb; subst biz.
  exists w', biz'. split; [exact E |]. split; [exact Hb' |].
  simpl in Hc. exact Hc.
Defined.

(** ** Phase 2: the best type for a vacant location *)

Lemma sum_needs_fold ps bt bl :
  forall acc d w,
    sum_needs ps bt bl acc = Some d ->
    fold_m ps acc
      (fun local_demand p =>
         if inside (p_location p) (bl_location bl) (initial_need_radius bt)
         then n <- lift KeyError (dict_get (needs p) (bname bt)) ;;
              ret (py_add local_demand n)
         else ret local_demand) w
    = Ok d w.
Proof.
  induction ps as [|p ps IH]; intros acc d w H; simpl in *.
  - now inversion H.
  - unfold bind at 1. destruct (inside _ _ _).
    + destruct (dict_get (needs p) (bname bt)) as [n |]; [| discriminate].
      unfold bind, lift, ret. apply IH. exact H.
    + unfold ret. apply IH. exact H.
Qed.

Lemma startup_score_eq bt bl w s :
  score (w_city w) bt bl = Some s -> startup_score bt bl w = Ok s w.
Proof.
  unfold score, startup_score. intro H.
  destruct (sum_needs (people (w_city w)) bt bl (PFloat 0)) as [d |] eqn:E;
    [| discriminate].
  unfold bind at 1. unfold get_city. unfold bind.
  rewrite (sum_needs_fold _ _ _ _ _ _ E). rewrite H. reflexivity.
Qed.

Lemma best_scan c bl (types : dict BusinessType) :
  forall acc w,
    w_city w = c ->
    Forall (fun nb => exists s, score c (snd nb) bl = Some s) types ->
    exists res,
      fold_m types acc
        (fun acc nb =>
           s <- startup_score (snd nb) bl ;;
           if py_gtb (to_R s) (to_R (fst acc))
           then ret (s, Some (snd nb))
           else ret acc) w
      = Ok res w
      /\ best_found c bl types acc res.
Proof.
  induction types as [|[n bt] types IH]; intros acc w Hw Hall; simpl.
  - exists acc. split; [reflexivity |]. left. split; [reflexivity | constructor].
  - inversion Hall as [|? ? [s Hs] Hall']; subst. simpl in Hs.
    unfold bind at 1. unfold bind at 1.
    rewrite (startup_score_eq bt bl w s) by exact Hs.
    destruct (py_gtb (to_R s) (to_R (fst acc))) eqn:E.
    + apply gtb_iff in E. unfold ret.
      destruct (IH (s, Some bt) w eq_refl Hall') as (res & Er & Hr).
      exists res. split; [exact Er |]. right.
      destruct Hr as [[-> Hle] | (pre & n' & bt' & post & s' & Ht & -> & Hs' & Hlt & Hpre & Hpost)].
      * exists [], n, bt, types, s. simpl. repeat split; auto.
      * exists ((n, bt) :: pre), n', bt', post, s'. simpl in *.
        rewrite Ht. repeat split; auto; try lra.
        constructor; [| exact Hpre]. exists s. simpl. split; [exact Hs | exact Hlt].
    + apply ltb_iff_false in E. unfold ret.
      destruct (IH acc w eq_refl Hall') as (res & Er & Hr).
      exists res. split; [exact Er |].
      destruct Hr as [[-> Hle] | (pre & n' & bt' & post & s' & Ht & -> & Hs' & Hlt & Hpre & Hpost)].
      * left. split; [reflexivity |]. constructor; [| exact Hle].
        exists s. simpl. split; [exact Hs | exact E].
      * right. exists ((n, bt) :: pre), n', bt', post, s'.
        rewrite Ht. repeat split; auto.
        constructor; [| exact Hpre]. exists s. simpl. split; [exact Hs | lra].
Qed.

Lemma Forall_score_weaken c bl x y (types : dict BusinessType) :
  x <= y ->
  Forall (score_at_most c bl x) types -> Forall (score_at_most c bl y) types.
Proof.
  intros Hxy H. eapply Forall_impl; [| exact H].
  intros nb (s & Hs & Hle). exists s. split; [exact Hs | lra].
Qed.

Lemma Forall_score_below_of_at_most c bl x y (types : dict BusinessType) :
  x < y ->
  Forall (score_at_most c bl x) types -> Forall (score_below c bl y) types.
Proof.
  intros Hxy H. eapply Forall_impl; [| exact H].
  intros nb (s & Hs & Hle). exists s. split; [exact Hs | lra].
Qed.

Lemma Forall_score_below_weaken c bl x y (types : dict BusinessType) :
  x <= y ->
  Forall (score_below c bl x) types -> Forall (score_below c bl y) types.
Proof.
  intros Hxy H. eapply Forall_impl; [| exact H].
  intros nb (s & Hs & Hle). exists s. split; [exact Hs | lra].
Qed.

Lemma try_startup_spec (w : World) (j : nat) (bl : BusinessLocation) :
  nth_error (business_locations (w_city w)) j = Some bl ->
  available bl = true ->
  Forall (fun nb => exists s, score (w_city w) (snd nb) bl = Some s)
    (btypes (w_city w)) ->
  (exists pre n bt post s,
     btypes (w_city w) = pre ++ (n, bt) :: post
     /\ score (w_city w) bt bl = Some s
     /\ 1 <= to_R s
     /\ Forall (score_below (w_city w) bl (to_R s)) pre
     /\ Forall (score_at_most (w_city w) bl (to_R s)) post
     /\ try_startup j w =
        Ok tt (mkWorld
                 (city_after_startup (w_city w) bt j bl
                    generate_business_name)
                 (w_ints w) (w_reals w)))
  \/ (Forall (score_below (w_city w) bl 1) (btypes (w_city w))
      /\ try_startup j w = Ok tt w).
Proof.
  intros Hj Hav Hall.
  destruct (best_scan (w_city w) bl (btypes (w_city w)) (PInt 0, None) w
              eq_refl Hall) as (res & Er & Hr).
  assert (Hbest : best_startup bl w = Ok res w).
  { unfold best_startup. unfold bind at 1. unfold get_city. exact Er. }
  assert (Hrun : try_startup j w =
                 if py_geb (to_R (fst res)) 1
                 then match snd res with
                      | Some best_type =>
                          startup best_type j generate_business_name w
                      | None => Raise AttributeError w
                      end
                 else Ok tt w).
  { unfold try_startup. unfold bind at 1. unfold get_location.
    unfold_m. rewrite Hj. rewrite Hav. rewrite Hbest.
    destruct (py_geb _ _); [| reflexivity].
    destruct (snd res); reflexivity. }
  destruct Hr as [[-> Hle] | (pre & n & bt & post & s & Ht & -> & Hs & Hlt & Hpre & Hpost)].
  - right. simpl in *. split.
    + eapply Forall_score_below_of_at_most; [| exact Hle]. lra.
    + rewrite Hrun. rewrite geb_false by (simpl; lra). reflexivity.
  - simpl in *. destruct (Rle_lt_dec 1 (to_R s)) as [Hge | Hlt1].
    + left. exists pre, n, bt, post, s.
      repeat (split; [assumption |]).
      rewrite Hrun. rewrite geb_true by exact Hge.
      apply startup_eq. exact Hj.
    + right. split.
      * rewrite Ht. apply Forall_app. split.
        -- eapply Forall_score_below_weaken; [| exact Hpre]. lra.
        -- constructor.
           ++ exists s. split; [exact Hs | exact Hlt1].
           ++ eapply Forall_score_below_of_at_most; [| exact Hpost]. exact Hlt1.
      * rewrite Hrun. rewrite geb_false by exact Hlt1. reflexivity.
Qed.

Lemma at_origin_inside (x y : num) (r : num) :
  to_R x = 0 -> to_R y = 0 -> 0 < to_R r ->
  inside (x, y) (PInt 0, PInt 0) r = true.
Proof.
  intros Hx Hy Hr. apply inside_iff. apply distance_lt_iff; [exact Hr |].
  simpl. rewrite Hx, Hy. nra.
Qed.

Lemma scenario_A_score :
  score scenario_A diner corner = Some (PFloat ((0 + 3) / 2)).
Proof.
  unfold score. cbn [people scenario_A sum_needs p_location bl_location corner
                      initial_need_radius diner].
  rewrite at_origin_inside by (simpl; lra).
  cbn [needs bname dict_get]. simpl String.eqb. cbv iota.
  cbn [sum_needs initial_need_threshold]. unfold py_div, py_add. simpl.
  destruct (Req_dec_T 2 0) as [E | _]; [lra | reflexivity].
Qed.

Lemma tie_score_a registry :
  score (tie_city registry) type_a corner = Some (PFloat ((0 + 3) / 2)).
Proof.
  unfold score. cbn [people tie_city sum_needs p_location bl_location corner
                      initial_need_radius type_a].
  rewrite at_origin_inside by (simpl; lra).
  cbn [needs bname dict_get]. simpl String.eqb. cbv iota.
  cbn [sum_needs initial_need_threshold]. unfold py_div, py_add. simpl.
  destruct (Req_dec_T 2 0) as [E | _]; [lra | reflexivity].
Qed.

Lemma tie_score_b registry :
  score (tie_city registry) type_b corner = Some (PFloat ((0 + 3) / 2)).
Proof.
  unfold score. cbn [people tie_city sum_needs p_location bl_location corner
                      initial_need_radius type_b].
  rewrite at_origin_inside by (simpl; lra).
  cbn [needs bname dict_get]. simpl String.eqb. cbv iota.
  cbn [sum_needs initial_need_threshold]. unfold py_div, py_add. simpl.
  destruct (Req_dec_T 2 0) as [E | _]; [lra | reflexivity].
Qed.

Lemma tie_startup_score_a registry :
  startup_score type_a corner (tie_world registry)
  = Ok (PFloat ((0 + 3) / 2)) (tie_world registry).
Proof. apply startup_score_eq. apply tie_score_a. Qed.

Lemma tie_startup_score_b registry :
  startup_score type_b corner (tie_world registry)
  = Ok (PFloat ((0 + 3) / 2)) (tie_world registry).
Proof. apply startup_score_eq. apply tie_score_b. Qed.

Lemma tie_a_first :
  best_startup corner (tie_world [("a"%string, type_a); ("b"%string, type_b)])
  = Ok (PFloat ((0 + 3) / 2), Some type_a)
       (tie_world [("a"%string, type_a); ("b"%string, type_b)]).
Proof.
  unfold best_startup. unfold bind at 1. unfold get_city.
  change (btypes (w_city (tie_world ?r))) with r.
  cbn [fold_m snd].
  unfold bind at 1. unfold bind at 1.
  rewrite tie_startup_score_a.
  rewrite gtb_true by (simpl; lra). unfold ret at 1.
  unfold bind at 1. unfold bind at 1.
  rewrite tie_startup_score_b.
  rewrite gtb_false by (simpl; lra). reflexivity.
Qed.

Lemma tie_b_first :
  best_startup corner (tie_world [("b"%string, type_b); ("a"%string, type_a)])
  = Ok (PFloat ((0 + 3) / 2), Some type_b)
       (tie_world [("b"%string, type_b); ("a"%string, type_a)]).
Proof.
  unfold best_startup. unfold bind at 1. unfold get_city.
  change (btypes (w_city (tie_world ?r))) with r.
  cbn [fold_m snd].
  unfold bind at 1. unfold bind at 1.
  rewrite tie_startup_score_b.
  rewrite gtb_true by (simpl; lra). unfold ret at 1.
  unfold bind at 1. unfold bind at 1.
  rewrite tie_startup_score_a.
  rewrite gtb_false by (simpl; lra). reflexivity.
Qed.

(** ** Claims on the start-up evaluation *)

(** C3, counterexample. Two types ["a"] and ["b"] with the same score 1.5 at
    a vacant location: iterated as [a, b] the loop selects ["a"], iterated
    as [b, a] it selects ["b"]. *)
Lemma tie_follows_iteration_order : ~ choice_ignores_iteration_order.
Proof.
  intro H.
  specialize (H _ _ _ _ _ _ (perm_swap _ _ []) tie_b_first tie_a_first).
  simpl in H. discriminate.
Qed.

(** C3, amended. At a vacant location where every registered type has a
    score, [try_startup] returns, and a business is started there if and
    only if some type's score is at least 1.  The type started has the
    largest score of all types, and when several types share that score it
    is the one that comes first in the iteration order of the registry:
    every type before it has a strictly smaller score, every type after it a
    smaller or equal one.  When every score is below 1 nothing changes. *)
Theorem startup_picks_first_best (w : World) (j : nat)
    (bl : BusinessLocation) :
  nth_error (business_locations (w_city w)) j = Some bl ->
  available bl = true ->
  Forall (fun nb => exists s, score (w_city w) (snd nb) bl = Some s)
    (btypes (w_city w)) ->
  (exists pre n bt post s,
     btypes (w_city w) = pre ++ (n, bt) :: post
     /\ score (w_city w) bt bl = Some s
     /\ 1 <= to_R s
     /\ Forall (score_below (w_city w) bl (to_R s)) pre
     /\ Forall (score_at_most (w_city w) bl (to_R s)) post
     /\ try_startup j w =
        Ok tt (mkWorld
                 (city_after_startup (w_city w) bt j bl
                    generate_business_name)
                 (w_ints w) (w_reals w)))
  \/ (Forall (score_below (w_city w) bl 1) (btypes (w_city w))
      /\ try_startup j w = Ok tt w).
Proof. apply try_startup_spec. Qed.

(** Scenario A: the score of the diner at the origin is 3 / 2, and a diner
    is started there. *)
Lemma startup_picks_first_best_witness :
  try_startup 0 scenario_A_world =
  Ok tt (mkWorld
           (city_after_startup scenario_A diner 0 corner
              generate_business_name)
           (w_ints scenario_A_world) (w_reals scenario_A_world)).
Proof.
  assert (Hall : Forall (fun nb => exists s,
                           score (w_city scenario_A_world) (snd nb) corner
                           = Some s)
                   (btypes (w_city scenario_A_world))).
  { constructor; [| constructor]. eexists. exact scenario_A_score. }
  destruct (startup_picks_first_best scenario_A_world 0 corner
              eq_refl eq_refl Hall)
    as [(pre & n & bt & post & s & Ht & Hs & Hge & _ & _ & E)
       | [Hlow _]].
  - destruct pre as [|x pre]; simpl in Ht.
    + inversion Ht; subst. exact E.
    + inversion Ht as [[Hx Hnil]]. destruct pre; discriminate.
  - exfalso. inversion Hlow as [|? ? (s & Hs & Hlt) _]; subst.
    simpl in Hs. change (w_city scenario_A_world) with scenario_A in Hs.
    rewrite scenario_A_score in Hs. inversion Hs; subst s.
    simpl in Hlt. lra.
Defined.

(** ** Claims on the unmet needs *)

Lemma keeps_run_op k c0 o : keeps k c0 (run_op o).
Proof. destruct o; [apply keeps_generate | apply keeps_fulfill]. Qed.

(** C6. If no unit price is negative and no unmet need is negative, then no
    unmet need is negative after any sequence of [generate] and [fulfill]
    operations, on any persons and with any draws, whether the sequence runs
    to its end or stops on an exception; the unit prices are the same as
    before.  And whenever the candidate set of a need is not empty,
    [fulfill_need] returns with that need at exactly 0. *)
Theorem needs_never_negative (ops : list person_op) (w : World) :
  prices_nonneg (w_city w) ->
  needs_nonneg (w_city w) ->
  needs_nonneg (w_city (final (for_each ops run_op w)))
  /\ dtypes (w_city (final (for_each ops run_op w))) = dtypes (w_city w)
  /\ (forall v i need p amt dt r,
        nth_error (people (w_city v)) i = Some p ->
        dict_get (needs p) need = Some amt ->
        dict_get (dtypes (w_city v)) need = Some dt ->
        demand_radius dt amt = Some r ->
        pos_biz (w_city v) p r <> [] ->
        exists v' p',
          fulfill_need i need v = Ok tt v'
          /\ nth_error (people (w_city v')) i = Some p'
          /\ dict_get (needs p') need = Some (PInt 0)).
Proof.
  intros Hpr Hn.
  assert (Hi : Inv false (w_city w) (w_city w)).
  { split; [apply frame_refl |]. split; [discriminate |]. intros _. exact Hn. }
  assert (Hk : keeps false (w_city w) (for_each ops run_op)).
  { apply keeps_for_each. intro o. apply keeps_run_op. }
  specialize (Hk w Hi).
  assert (Hf : Inv false (w_city w) (w_city (final (for_each ops run_op w)))).
  { destruct (for_each ops run_op w); exact Hk. }
  destruct Hf as ((_ & _ & Hd & _) & _ & S).
  split; [| split; [exact Hd |]].
  - apply S. unfold prices_nonneg. rewrite Hd. exact Hpr.
  - intros v i need p amt dt r Hp Ha Hdt Hr Hne.
    destruct (fulfill_need_served i need v p amt dt r Hp Ha Hdt Hr Hne)
      as (b & biz & _ & _ & E).
    eexists. exists (with_needs p (dict_set (needs p) need (PInt 0))).
    split; [exact E |]. simpl.
    split; [eapply nth_error_list_set_same; eauto | apply dict_get_set_eq].
Qed.

Lemma hungry_prices : prices_nonneg (w_city hungry_world).
Proof. repeat constructor. simpl. lra. Qed.

Lemma hungry_needs : needs_nonneg (w_city hungry_world).
Proof. repeat constructor. simpl. lra. Qed.

Lemma needs_never_negative_witness :
  needs_nonneg
    (w_city (final (for_each [Generate 0; Fulfill 0; Generate 0] run_op
                      hungry_world))).
Proof.
  exact (proj1 (needs_never_negative [Generate 0; Fulfill 0; Generate 0]
                  hungry_world hungry_prices hungry_needs)).
Defined.

(** ** Claims on the locations of the active businesses *)

(** C7. Whatever the tables, the radius, the population, the draws and the
    number of cycles, in the city that a run ends in, whether the run
    completes, stops on an exception or is still placing a person, every
    active business sits on a point of the fixed lattice generated from the
    radius given to the constructor, and no two active businesses sit on the
    same point.  The same holds after every method called during a cycle
    ([generate], [try_startup], [fulfill], and [burn] on an active
    business), returning or raising, from any city that a run can be in. *)
Theorem one_business_per_lattice_point
    (dtraw : dict DemandRaw) (btraw : dict BusinessRaw) (fuel : nat)
    (nm : string) (sz : num) (n_people ncycles : Z) (w : World) :
  (one_per_location
     (w_city (final (simulation dtraw btraw fuel nm sz n_people ncycles w)))
   /\ size (w_city
              (final (simulation dtraw btraw fuel nm sz n_people ncycles w)))
      = to_R sz)
  /\ (forall v : World,
        Building (w_city v) ->
        one_per_location (w_city v)
        /\ (forall i, Building (w_city (final (generate i v))))
        /\ (forall j, Building (w_city (final (try_startup j v))))
        /\ (forall i, Building (w_city (final (fulfill i v))))
        /\ (forall b, In b (businesses (w_city v)) ->
                      Building (w_city (final (burn b v))))).
Proof.
  split.
  - destruct (simulation_Building dtraw btraw fuel nm sz n_people ncycles w)
      as [HB Hsz].
    split; [apply Building_one_per_location; exact HB | exact Hsz].
  - intros v HB.
    split; [apply Building_one_per_location; exact HB |].
    split; [intro i; apply Building_step; [apply keeps_generate | exact HB] |].
    split; [intro j; apply Building_step;
            [apply keeps_try_startup | exact HB] |].
    split; [intro i; apply Building_step; [apply keeps_fulfill | exact HB] |].
    intros b Hb. apply Building_burn; assumption.
Qed.

(** ** Claims on the histories *)

Lemma py_range_length a b : length (py_range a b) = Z.to_nat (b - a).
Proof. unfold py_range. now rewrite length_map, length_seq. Qed.

Lemma cycles_count c0 (xs : list Z) :
  forall a p q,
    hoare (fun c => Run c0 c /\ age c = a
                    /\ length (pophistory c) = p
                    /\ length (bizhistory c) = q)
      (for_each xs (fun _ => city_cycle))
      (fun _ c => Run c0 c /\ age c = (a + Z.of_nat (length xs))%Z
                  /\ length (pophistory c) = (p + length xs)%nat
                  /\ length (bizhistory c) = (q + length xs)%nat)
      (fun _ => True).
Proof.
  induction xs as [|x xs IH]; intros a p q; simpl.
  - intros w (HR & Ha & Hp & Hq). simpl.
    split; [exact HR | split; [lia | split; lia]].
  - eapply hoare_bind with
      (R := fun _ c => Run c0 c /\ age c = (a + 1)%Z
                       /\ length (pophistory c) = S p
                       /\ length (bizhistory c) = S q).
    + intros w (HR & Ha & Hp & Hq).
      pose proof (city_cycle_spec c0 (w_city w) w (conj eq_refl HR)) as H.
      destruct (city_cycle w) as [[] w' | e w']; [| exact I].
      destruct H as (HR' & pr & br & Ha' & Hpp & Hbb).
      split; [exact HR' |].
      rewrite Ha', Hpp, Hbb, !length_app, Ha, Hp, Hq. simpl.
      split; [reflexivity | split; lia].
    + intros u. eapply hoare_conseq; [apply (IH (a + 1)%Z (S p) (S q)) | | |];
        auto.
      intros _ c (HR & Ha & Hp & Hq).
      split; [exact HR | split; [lia | split; lia]].
Qed.

(** ** Running the program on a concrete input *)

Lemma py_int_IZR (z : Z) : py_int (IZR z) = z.
Proof.
  unfold py_int, Int_part.
  destruct (Rle_dec 0 (IZR z)).
  - assert (H : (z + 1)%Z = up (IZR z)).
    { apply tech_up; rewrite plus_IZR; lra. }
    rewrite <- H. lia.
  - rewrite <- opp_IZR.
    assert (H : (- z + 1)%Z = up (IZR (- z))).
    { apply tech_up; rewrite plus_IZR; lra. }
    rewrite <- H. lia.
Qed.

Lemma py_int_small (r : R) : 0 <= r < 1 -> py_int r = 0%Z.
Proof.
  intros [H0 H1]. unfold py_int, Int_part.
  destruct (Rle_dec 0 r); [| contradiction].
  assert (H : 1%Z = up r) by (apply tech_up; simpl; lra).
  rewrite <- H. reflexivity.
Qed.

Lemma inside_true (a b : Loc) (r : num) :
  distance a b < to_R r -> inside a b r = true.
Proof. apply inside_iff. Qed.

Lemma inside_false (a b : Loc) (r : num) :
  to_R r <= distance a b -> inside a b r = false.
Proof.
  intro H. destruct (inside a b r) eqn:E; [| reflexivity].
  apply inside_iff in E. lra.
Qed.

Lemma lattice_point_inside (x y : Z) (sz : R) :
  0 < sz -> IZR (x * x + y * y) < sz * sz ->
  inside (PInt x, PInt y) (PInt 0, PInt 0) (PFloat sz) = true.
Proof.
  intros Hs H. apply inside_iff. apply distance_lt_iff; [exact Hs |].
  simpl. rewrite plus_IZR, !mult_IZR in H. lra.
Qed.

Lemma lattice_point_outside (x y : Z) (sz : R) :
  0 < sz -> sz * sz <= IZR (x * x + y * y) ->
  inside (PInt x, PInt y) (PInt 0, PInt 0) (PFloat sz) = false.
Proof.
  intros Hs H. apply inside_false. simpl.
  apply Rnot_lt_le. intro Hd. apply distance_lt_iff in Hd; [| exact Hs].
  simpl in Hd. rewrite plus_IZR, !mult_IZR in H. lra.
Qed.

(** In a city of radius 1 the only lattice point strictly inside the disk is
    the origin. *)
Lemma unit_lattice : generate_business_locations 1 = [corner].
Proof.
  unfold generate_business_locations.
  rewrite (py_int_IZR 1).
  change (py_range (- (1)) (1 + 1)) with [(-1)%Z; 0%Z; 1%Z].
  cbn [flat_map app].
  rewrite (lattice_point_inside 0 0) by (simpl; lra).
  repeat rewrite lattice_point_outside by (simpl; lra).
  reflexivity.
Qed.

Lemma py_div_float_l x b :
  to_R b <> 0 -> py_div (PFloat x) b = Some (PFloat (x / to_R b)).
Proof.
  intro H. unfold py_div.
  destruct (Req_dec_T (to_R b) 0); [contradiction | reflexivity].
Qed.

Lemma py_div_float_r a y :
  y <> 0 -> py_div a (PFloat y) = Some (PFloat (to_R a / y)).
Proof.
  intro H. unfold py_div. simpl.
  destruct (Req_dec_T y 0); [contradiction |]. destruct a; reflexivity.
Qed.

Lemma py_div_int x y :
  (y <> 0)%Z -> py_div (PInt x) (PInt y) = Some (PInt (x / y)).
Proof.
  intro H. unfold py_div.
  destruct (y =? 0)%Z eqn:E; [apply Z.eqb_eq in E; contradiction | reflexivity].
Qed.

Lemma bind_Ok {A B} (m : M A) (f : A -> M B) w a w1 r :
  m w = Ok a w1 -> f a w1 = r -> bind m f w = r.
Proof. intros H1 H2. unfold bind. rewrite H1. exact H2. Qed.

Arguments with_age !c v /.
Arguments with_people !c v /.
Arguments with_heap !c v /.
Arguments with_businesses !c v /.
Arguments with_business_locations !c v /.
Arguments with_failed_businesses !c v /.
Arguments with_pophistory !c v /.
Arguments with_bizhistory !c v /.
Arguments with_cash !b v /.
Arguments with_death !b d l /.
Arguments with_available !l v /.
Arguments with_needs !p v /.

(** Symbolic execution of a computation on a concrete world: [norm] reduces
    the state, [decide_cmp] settles one comparison of reals, and [run] walks
    through the binds. *)
Ltac norm :=
  cbn [w_city w_ints w_reals name size age dtypes btypes people heap
       businesses business_locations failed_businesses pophistory bizhistory
       with_age with_people with_heap with_businesses
       with_business_locations with_failed_businesses with_pophistory
       with_bizhistory with_cash with_death with_available with_needs
       p_name p_location needs b_name blocation b_location btype b_type cash
       birthday deathday lifespan bl_location available
       dname dlambda dprice bname initial_cash initial_need_threshold
       initial_need_radius burnrate raw_dlambda raw_dprice raw_init_cash
       raw_init_need_threshold raw_init_need_radius raw_burnrate
       demand_count total_demand count totalcash
       fst snd app length seq map nth_error list_set list_remove fold_left
       filter Nat.eqb Nat.ltb Nat.leb Nat.modulo Nat.divmod Nat.sub Nat.add
       dict_get dict_set dict_keys String.eqb Ascii.eqb Bool.eqb andb
       for_each fold_m lift to_R scan_businesses sample drop_nth
       pop_density_loop blank_world built_world bare_city corner].

Ltac arith :=
  unfold py_add, py_sub, py_mul; cbn;
  first
    [ lra
    | apply distance_lt_iff; [cbn; lra | cbn; lra]
    | apply distance_le_iff; [cbn; lra | cbn; lra]
    | apply Rnot_lt_le; let H := fresh in
      intro H; apply distance_lt_iff in H; [cbn in H; lra | cbn; lra]
    | apply Rnot_le_lt; let H := fresh in
      intro H; apply distance_le_iff in H; [cbn in H; lra | cbn; lra] ].

Ltac decide_cmp :=
  match goal with
  | |- context [inside ?a ?b ?r] =>
      first [ rewrite (inside_true a b r) by arith
            | rewrite (inside_false a b r) by arith ]
  | |- context [py_div (PInt ?x) (PInt ?y)] =>
      rewrite (py_div_int x y) by (cbn; lia)
  | |- context [py_div (PFloat ?x) ?b] =>
      rewrite (py_div_float_l x b) by arith
  | |- context [py_div ?a (PFloat ?y)] =>
      rewrite (py_div_float_r a y) by arith
  | |- context [py_ltb ?a ?b] =>
      first [ rewrite (ltb_true a b) by arith
            | rewrite (ltb_false a b) by arith ]
  | |- context [py_gtb ?a ?b] =>
      first [ rewrite (gtb_true a b) by arith
            | rewrite (gtb_false a b) by arith ]
  | |- context [py_geb ?a ?b] =>
      first [ rewrite (geb_true a b) by arith
            | rewrite (geb_false a b) by arith ]
  end.

Ltac unfold_head :=
  lazymatch goal with
  | |- ?lhs = _ =>
      lazymatch lhs with
      | new_person _ _ _ => unfold new_person
      | pop_density_rand _ _ => unfold pop_density_rand
      | popreport _ => unfold popreport
      | bizreport _ => unfold bizreport
      | city_cycle _ => unfold city_cycle
      | try_startup _ _ => unfold try_startup
      | best_startup _ _ => unfold best_startup
      | startup_score _ _ _ => unfold startup_score
      | startup _ _ _ _ => unfold startup
      | fill _ _ => unfold fill
      | free _ _ => unfold free
      | generate _ _ => unfold generate
      | fulfill _ _ => unfold fulfill
      | fulfill_need _ _ _ => unfold fulfill_need
      | give_biz _ _ _ _ => unfold give_biz
      | burn _ _ => unfold burn
      | die _ _ => unfold die
      | bizfail _ _ => unfold bizfail
      | get_person _ _ => unfold get_person
      | get_business _ _ => unfold get_business
      | get_location _ _ => unfold get_location
      | put_person _ _ _ => unfold put_person
      | put_business _ _ _ => unfold put_business
      | put_location _ _ _ => unfold put_location
      | choice _ _ => unfold choice
      | City_init _ _ _ _ _ _ _ => unfold City_init
      end
  end.

Ltac expose :=
  unfold init_needs, compile_dtypes, compile_btypes, food_demand,
    food_business, generate_person_name, generate_business_name,
    demand_radius, pos_biz, diner, py_add, py_sub, py_mul.

Ltac run :=
  expose; norm;
  lazymatch goal with
  | |- ret _ _ = _ => reflexivity
  | |- get_city _ = _ => reflexivity
  | |- modify _ _ = _ => reflexivity
  | |- rand_int _ = _ => reflexivity
  | |- rand_real _ = _ => reflexivity
  | |- norm_rvs _ _ = _ => reflexivity
  | |- poisson_rvs _ _ = _ => reflexivity
  | |- bind _ _ _ = _ =>
      first [ eapply bind_Ok; [solve [run] | cbv beta; run] | idtac ]
  | |- _ => first [ unfold_head; run | decide_cmp; run | idtac ]
  end.

(** The constructor on Scenario A. *)
Lemma built_world_eq :
  City_init food_demand food_business 1 "Dmotopia" (PInt 1) 1 blank_world
  = Ok tt built_world.
Proof.
  run.
  eapply bind_Ok.
  { unfold populate. change (py_range 0 1) with [0%Z]. run. }
  cbv beta. run.
  rewrite unit_lattice.
  eapply bind_Ok.
  { unfold business_populate. eapply bind_Ok; [run | cbv beta; norm].
    rewrite (py_int_small (INR 1 * (3 / 4))) by (simpl; lra).
    change (Z.to_nat 0) with 0%nat. run. }
  cbv beta. run.
Qed.

(** One cycle on the city just built. *)
Lemma cycled_world_eq : city_cycle built_world = Ok tt cycled_world.
Proof. unfold cycled_world. run. Qed.

Lemma life_one_cycle : life 1 built_world = Ok tt cycled_world.
Proof.
  unfold life. change (py_range 0 1) with [0%Z]. cbn [for_each].
  eapply bind_Ok; [apply cycled_world_eq | reflexivity].
Qed.

Lemma Building_Run c : Building c -> Run c c.
Proof.
  intros (P & S & _). split; [apply stable_refl | split; assumption].
Qed.

(** C10. When the constructor returns, the population history and the
    business history hold one record each and the age is 0.  When [life]
    then returns after [ncycles] cycles, the age is the number of cycles
    run and each history holds one record more than that: both histories
    have length [age + 1] and the same length.  And every call of
    [city_cycle] that returns, from a city that a run can be in, appends
    exactly one record to each history and adds 1 to the age. *)
Theorem histories_grow_together
    (dtraw : dict DemandRaw) (btraw : dict BusinessRaw) (fuel : nat)
    (nm : string) (sz : num) (n_people ncycles : Z) (w w1 w2 : World) :
  City_init dtraw btraw fuel nm sz n_people w = Ok tt w1 ->
  life ncycles w1 = Ok tt w2 ->
  (length (pophistory (w_city w1)) = 1%nat
   /\ length (bizhistory (w_city w1)) = 1%nat
   /\ age (w_city w1) = 0%Z)
  /\ (age (w_city w2) = Z.of_nat (Z.to_nat ncycles)
      /\ length (pophistory (w_city w2)) = S (Z.to_nat ncycles)
      /\ length (bizhistory (w_city w2)) = S (Z.to_nat ncycles)
      /\ Z.of_nat (length (pophistory (w_city w2))) = (age (w_city w2) + 1)%Z
      /\ length (pophistory (w_city w2)) = length (bizhistory (w_city w2)))
  /\ (forall v v',
        Building (w_city v) -> city_cycle v = Ok tt v' ->
        exists pr br,
          pophistory (w_city v') = pophistory (w_city v) ++ [pr]
          /\ bizhistory (w_city v') = bizhistory (w_city v) ++ [br]
          /\ age (w_city v') = (age (w_city v) + 1)%Z).
Proof.
  intros Hi Hl.
  pose proof (City_init_spec dtraw btraw fuel nm sz n_people w I) as Hr.
  rewrite Hi in Hr. destruct Hr as [Hr _].
  pose proof Hr as (P & S & L & Ha & Hp & Hb).
  split; [auto |]. split.
  - pose proof (cycles_count (w_city w1) (py_range 0 ncycles) 0%Z 1%nat 1%nat
                  w1) as Hc.
    unfold life in Hl. rewrite Hl in Hc.
    destruct Hc as (_ & Ha2 & Hp2 & Hb2).
    { split; [apply Building_Run, Ready_Building; exact Hr | auto]. }
    rewrite py_range_length, Z.sub_0_r in *.
    rewrite Ha2, Hp2, Hb2. repeat split; lia.
  - intros v v' HB Hc.
    pose proof (city_cycle_spec (w_city v) (w_city v) v
                  (conj eq_refl (Building_Run _ HB))) as H.
    rewrite Hc in H. destruct H as (_ & pr & br & Ha' & Hp' & Hb').
    exists pr, br. auto.
Qed.

(** Scenario A: the constructor, then one cycle. *)
Lemma histories_grow_together_witness :
  length (pophistory (w_city cycled_world)) = 2%nat
  /\ length (bizhistory (w_city cycled_world)) = 2%nat
  /\ age (w_city cycled_world) = 1%Z.
Proof.
  destruct (histories_grow_together food_demand food_business 1 "Dmotopia"
              (PInt 1) 1 1 blank_world built_world cycled_world
              built_world_eq life_one_cycle)
    as (_ & (Ha & Hp & Hb & _) & _).
  split; [exact Hp |]. split; [exact Hb | exact Ha].
Defined.

(** ** functions.py: [inside] in its two points and in the radius *)

(** X2.  [inside] does not depend on the order of the two points, is false
    for every radius that is not positive, also between a point and itself,
    and stays true when the radius grows. *)
Theorem inside_symmetric_monotone (a b : Loc) (r r' : num) :
  inside a b r = inside b a r
  /\ (to_R r <= 0 -> inside a b r = false)
  /\ (inside a b r = true -> to_R r <= to_R r' -> inside a b r' = true)
  /\ (inside a a r = true <-> 0 < to_R r).
Proof.
  split.
  - destruct (inside a b r) eqn:E1, (inside b a r) eqn:E2; try reflexivity.
    + apply inside_iff in E1. rewrite distance_sym in E1.
      apply inside_iff in E1. congruence.
    + apply inside_iff in E2. rewrite distance_sym in E2.
      apply inside_iff in E2. congruence.
  - split.
    + intro H. apply inside_false. pose proof (distance_nonneg a b). lra.
    + split.
      * intros H Hr. apply inside_iff in H. apply inside_true. lra.
      * rewrite inside_iff.
        assert (distance a a = 0) as ->.
        { rewrite distance_sqrt.
          replace ((to_R (fst a) - to_R (fst a)) * (to_R (fst a) - to_R (fst a))
                   + (to_R (snd a) - to_R (snd a)) * (to_R (snd a) - to_R (snd a)))
            with 0 by ring.
          apply sqrt_0. }
        tauto.
Qed.

(** ** The two registries *)

Lemma dict_set_new {V} (d : dict V) k v :
  ~ In k (dict_keys d) -> dict_set d k v = d ++ [(k, v)].
Proof.
  unfold dict_keys. induction d as [|[k0 v0] d IH]; simpl; intro H.
  - reflexivity.
  - destruct (String.eqb k0 k) eqn:E.
    + apply String.eqb_eq in E. tauto.
    + f_equal. apply IH. tauto.
Qed.

Lemma dict_keys_set {V} (d : dict V) k v :
  dict_keys (dict_set d k v) = dict_keys d
  \/ (~ In k (dict_keys d) /\ dict_keys (dict_set d k v) = dict_keys d ++ [k]).
Proof.
  destruct (in_dec string_dec k (dict_keys d)) as [H | H].
  - left. apply dict_keys_set_in. exact H.
  - right. split; [exact H |]. rewrite dict_set_new by exact H.
    unfold dict_keys. rewrite map_app. reflexivity.
Qed.

Lemma dict_keys_set_NoDup {V} (d : dict V) k v :
  NoDup (dict_keys d) -> NoDup (dict_keys (dict_set d k v)).
Proof.
  intro H. destruct (dict_keys_set d k v) as [-> | [Hn ->]]; [exact H |].
  apply NoDup_app; [exact H | repeat constructor; simpl; tauto |].
  intros x Hx [<- | []]. auto.
Qed.

Lemma dict_keys_set_iff {V} (d : dict V) k v x :
  In x (dict_keys (dict_set d k v)) <-> x = k \/ In x (dict_keys d).
Proof.
  destruct (dict_keys_set d k v) as [E | [Hn E]]; rewrite E.
  - split; [tauto |]. intros [-> | H]; [| exact H].
    destruct (in_dec string_dec k (dict_keys d)) as [Hi | Hi]; [exact Hi |].
    exfalso. rewrite dict_set_new in E by exact Hi.
    unfold dict_keys in E. rewrite map_app in E. simpl in E.
    apply (f_equal (@length string)) in E. rewrite length_app in E.
    simpl in E. lia.
  - rewrite in_app_iff. simpl. intuition congruence.
Qed.

Lemma dict_set_named {V} (P : string -> V -> Prop) (d : dict V) k v :
  Forall (fun kv => P (fst kv) (snd kv)) d -> P k v ->
  Forall (fun kv => P (fst kv) (snd kv)) (dict_set d k v).
Proof.
  intros H Hv. induction H as [|[k0 v0] d Hh Ht IH]; simpl.
  - repeat constructor. exact Hv.
  - destruct (String.eqb k0 k) eqn:E.
    + apply String.eqb_eq in E. subst k0. constructor; [exact Hv | exact Ht].
    + constructor; [exact Hh | exact IH].
Qed.

Lemma compile_keys_NoDup {A V} (f : string * A -> V) (raw : dict A) :
  forall acc, NoDup (dict_keys acc) ->
              NoDup (dict_keys
                       (fold_left (fun d tr => dict_set d (fst tr) (f tr))
                          raw acc)).
Proof.
  induction raw as [|tr raw IH]; intros acc H; simpl; [exact H |].
  apply IH. apply dict_keys_set_NoDup. exact H.
Qed.

Lemma compile_keys_iff {A V} (f : string * A -> V) (raw : dict A) :
  forall acc x,
    In x (dict_keys (fold_left (fun d tr => dict_set d (fst tr) (f tr))
                       raw acc))
    <-> In x (dict_keys acc) \/ In x (dict_keys raw).
Proof.
  induction raw as [|tr raw IH]; intros acc x; simpl; [tauto |].
  rewrite IH. rewrite dict_keys_set_iff.
  intuition congruence.
Qed.

Lemma compile_values {A V} (f : string * A -> V) (P : string -> V -> Prop)
    (raw : dict A) :
  Forall (fun tr => P (fst tr) (f tr)) raw ->
  forall acc, Forall (fun kv => P (fst kv) (snd kv)) acc ->
              Forall (fun kv => P (fst kv) (snd kv))
                (fold_left (fun d tr => dict_set d (fst tr) (f tr)) raw acc).
Proof.
  intro HP. induction HP as [|tr raw Htr Hraw IH]; intros acc H; simpl;
    [exact H |].
  apply IH. apply dict_set_named; [exact H | exact Htr].
Qed.

Lemma compile_named {A V} (f : string * A -> V) (P : string -> V -> Prop)
    (raw : dict A) :
  (forall tr, P (fst tr) (f tr)) ->
  forall acc, Forall (fun kv => P (fst kv) (snd kv)) acc ->
              Forall (fun kv => P (fst kv) (snd kv))
                (fold_left (fun d tr => dict_set d (fst tr) (f tr)) raw acc).
Proof.
  intro HP. apply compile_values. apply Forall_forall. intros tr _. apply HP.
Qed.

Lemma compile_distinct {A V} (f : string * A -> V) (raw : dict A) :
  forall acc, NoDup (dict_keys acc ++ dict_keys raw) ->
              fold_left (fun d tr => dict_set d (fst tr) (f tr)) raw acc
              = acc ++ map (fun tr => (fst tr, f tr)) raw.
Proof.
  induction raw as [|tr raw IH]; intros acc H; simpl.
  - now rewrite app_nil_r.
  - rewrite dict_set_new.
    + rewrite IH.
      * rewrite <- app_assoc. reflexivity.
      * unfold dict_keys in *. rewrite map_app. simpl.
        rewrite <- app_assoc. exact H.
    + simpl in H. apply NoDup_remove_2 in H. rewrite in_app_iff in H. tauto.
Qed.

Lemma dict_get_map {A V} (f : string * A -> V) (raw : dict A) (t : string) :
  dict_get (map (fun tr => (fst tr, f tr)) raw) t
  = option_map (fun r => f (t, r)) (dict_get raw t).
Proof.
  induction raw as [|[k r] raw IH]; simpl; [reflexivity |].
  destruct (String.eqb k t) eqn:E; [| exact IH].
  apply String.eqb_eq in E. subst k. reflexivity.
Qed.

Lemma compile_get {A V} (f : string * A -> V) (raw : dict A) (t : string) :
  NoDup (dict_keys raw) ->
  dict_get (fold_left (fun d tr => dict_set d (fst tr) (f tr)) raw []) t
  = option_map (fun r => f (t, r)) (dict_get raw t).
Proof.
  intro H. rewrite (compile_distinct f raw []) by exact H.
  apply dict_get_map.
Qed.

(** X3.  Both registries are keyed by type name: whatever the raw table
    holds, the compiled table has no key twice, has the keys of the raw table,
    and stores under each key a type object whose name is that key.  From a
    raw table without repeated keys, looking a name up in the compiled table
    gives the type object made of the raw entry of that name, with the name
    and every parameter of the entry, and gives nothing for a name that the
    raw table does not have.  Nothing is said of the order in which either
    table is iterated. *)
Theorem registries_keyed_by_name
    (dtraw : dict DemandRaw) (btraw : dict BusinessRaw) :
  (NoDup (dict_keys (compile_dtypes dtraw))
   /\ (forall t, In t (dict_keys (compile_dtypes dtraw))
                 <-> In t (dict_keys dtraw))
   /\ Forall (fun kv => dname (snd kv) = fst kv) (compile_dtypes dtraw)
   /\ (NoDup (dict_keys dtraw) ->
       forall t, dict_get (compile_dtypes dtraw) t
                 = option_map (fun r => demand_of_raw (t, r))
                     (dict_get dtraw t)))
  /\ (NoDup (dict_keys (compile_btypes btraw))
      /\ (forall t, In t (dict_keys (compile_btypes btraw))
                    <-> In t (dict_keys btraw))
      /\ Forall (fun kv => bname (snd kv) = fst kv) (compile_btypes btraw)
      /\ (NoDup (dict_keys btraw) ->
          forall t, dict_get (compile_btypes btraw) t
                    = option_map (fun r => business_of_raw (t, r))
                        (dict_get btraw t))).
Proof.
  split.
  - split; [apply (compile_keys_NoDup demand_of_raw); constructor |].
    split.
    { intro t. unfold compile_dtypes.
      rewrite (compile_keys_iff demand_of_raw). simpl. tauto. }
    split.
    { apply (compile_named demand_of_raw (fun k v => dname v = k));
        [reflexivity | constructor]. }
    intros H t. apply (compile_get demand_of_raw dtraw t H).
  - split; [apply (compile_keys_NoDup business_of_raw); constructor |].
    split.
    { intro t. unfold compile_btypes.
      rewrite (compile_keys_iff business_of_raw). simpl. tauto. }
    split.
    { apply (compile_named business_of_raw (fun k v => bname v = k));
        [reflexivity | constructor]. }
    intros H t. apply (compile_get business_of_raw btraw t H).
Qed.

(** ** The books under each update *)

Ltac fields :=
  unfold city_after_give_biz, city_after_startup, city_after_bizfail,
    with_age, with_people, with_heap, with_businesses,
    with_business_locations, with_failed_businesses, with_pophistory,
    with_bizhistory in *;
  cbn [name size age dtypes btypes people heap businesses business_locations
       failed_businesses pophistory bizhistory] in *.

Lemma Books_people c ps : Books c -> Books (with_people c ps).
Proof. intro H. exact H. Qed.

Lemma Books_pophistory c v : Books c -> Books (with_pophistory c v).
Proof. intro H. exact H. Qed.

Lemma Books_bizhistory c v : Books c -> Books (with_bizhistory c v).
Proof. intro H. exact H. Qed.

Lemma buried_later c biz a :
  (age c <= a)%Z -> buried c biz -> buried (with_age c a) biz.
Proof.
  intros Ha (d & H1 & H2 & H3 & H4). exists d. fields. repeat split; auto; lia.
Qed.

Lemma Books_tick c : Books c -> Books (with_age c (age c + 1)).
Proof.
  intros (B1 & B2 & B3 & B4 & B5 & B6).
  split; [| split; [| split; [| split; [| split]]]]; fields; auto.
  - intros b Hb. destruct (B1 b Hb) as (biz & H1 & H2 & H3).
    exists biz. repeat split; auto; try apply H2. lia.
  - intros b Hb. destruct (B2 b Hb) as (biz & H1 & H2 & H3).
    exists biz. split; [exact H1 |]. split; [| exact H3].
    apply (buried_later c biz (age c + 1)); [lia | exact H2].
Qed.

(** An update of an active business that leaves its dates, its type and its
    location alone. *)
Lemma Books_update c b biz biz' :
  Books c ->
  In b (businesses c) ->
  nth_error (heap c) b = Some biz ->
  birthday biz' = birthday biz ->
  deathday biz' = deathday biz ->
  lifespan biz' = lifespan biz ->
  btype biz' = btype biz ->
  b_type biz' = b_type biz ->
  blocation biz' = blocation biz ->
  Books (with_heap c (list_set (heap c) b biz')).
Proof.
  intros (B1 & B2 & B3 & B4 & B5 & B6) Hin Hb E1 E2 E3 E4 E5 E6.
  split; [| split; [| split; [| split; [| split]]]]; fields; auto.
  - intros x Hx. destruct (Nat.eq_dec b x) as [<- | Hne].
    + exists biz'. split; [eapply nth_error_list_set_same; eauto |].
      destruct (B1 b Hin) as (y & Hy & (A1 & A2) & A3).
      rewrite Hb in Hy. inversion Hy; subst y.
      unfold alive. rewrite E1, E2, E3. auto.
    + rewrite nth_error_list_set_neq by exact Hne. apply B1. exact Hx.
  - intros x Hx. destruct (B2 x Hx) as (y & Hy & Hbur & Hn).
    exists y. split; [| split; assumption].
    rewrite nth_error_list_set_neq; [exact Hy |].
    intros ->. contradiction.
  - intro x. rewrite length_list_set. apply B4.
  - apply Forall_list_set; [exact B5 |].
    rewrite Forall_forall in B5.
    destruct (B5 biz (nth_error_In _ _ Hb)) as (F1 & n & F2).
    split; [congruence |]. exists n. rewrite E4. exact F2.
  - intros j l Hl Hav. destruct (B6 j l Hl Hav) as (x & y & I1 & I2 & I3).
    destruct (Nat.eq_dec b x) as [<- | Hne].
    + exists b, biz'. split; [exact Hin |].
      split; [eapply nth_error_list_set_same; eauto |].
      rewrite Hb in I2. inversion I2; subst y. congruence.
    + exists x, y. split; [exact I1 |]. split; [| exact I3].
      rewrite nth_error_list_set_neq by exact Hne. exact I2.
Qed.

Lemma Books_refs_in_range c b :
  Books c -> In b (businesses c) \/ In b (failed_businesses c) ->
  (b < length (heap c))%nat.
Proof.
  intros (B1 & B2 & _) [H | H].
  - destruct (B1 b H) as (biz & Hb & _). apply nth_error_Some. congruence.
  - destruct (B2 b H) as (biz & Hb & _). apply nth_error_Some. congruence.
Qed.

Lemma Books_startup c bt j l nm n :
  Books c ->
  nth_error (business_locations c) j = Some l ->
  In (n, bt) (btypes c) ->
  Books (city_after_startup c bt j l nm).
Proof.
  intros HB Hl Hbt. pose proof HB as (B1 & B2 & B3 & B4 & B5 & B6).
  assert (Hfresh : ~ In (length (heap c)) (businesses c)
                   /\ ~ In (length (heap c)) (failed_businesses c)).
  { split; intro H.
    - pose proof (Books_refs_in_range c _ HB (or_introl H)). lia.
    - pose proof (Books_refs_in_range c _ HB (or_intror H)). lia. }
  destruct Hfresh as [Hf1 Hf2].
  split; [| split; [| split; [| split; [| split]]]]; fields; auto.
  - intros x Hx. apply in_app_iff in Hx. destruct Hx as [Hx | [<- | []]].
    + destruct (B1 x Hx) as (y & Hy & A).
      exists y. split; [| exact A].
      rewrite nth_error_app1; [exact Hy |].
      apply nth_error_Some. congruence.
    + exists (new_business c bt j l nm).
      split; [rewrite nth_error_app2, Nat.sub_diag by lia; reflexivity |].
      unfold new_business, alive. simpl. repeat split. lia.
  - intros x Hx. destruct (B2 x Hx) as (y & Hy & Hbur & Hn).
    exists y. split; [| split].
    + rewrite nth_error_app1; [exact Hy |]. apply nth_error_Some. congruence.
    + exact Hbur.
    + rewrite in_app_iff. simpl. intros [H | [<- | []]]; contradiction.
  - intros x Hx. rewrite length_app in Hx. simpl in Hx.
    destruct (Nat.eq_dec x (length (heap c))) as [-> | Hne].
    + left. apply in_app_iff. right. now left.
    + destruct (B4 x) as [H | H]; [lia | |]; [left | right; exact H].
      apply in_app_iff. now left.
  - apply Forall_app. split; [exact B5 |]. constructor; [| constructor].
    split; [reflexivity |]. exists n. exact Hbt.
  - intros j' l' Hl' Hav.
    destruct (Nat.eq_dec j j') as [<- | Hne].
    + exists (length (heap c)), (new_business c bt j l nm).
      split; [apply in_app_iff; right; now left |].
      split; [rewrite nth_error_app2, Nat.sub_diag by lia; reflexivity |].
      reflexivity.
    + rewrite nth_error_list_set_neq in Hl' by exact Hne.
      destruct (B6 j' l' Hl' Hav) as (x & y & I1 & I2 & I3).
      exists x, y. split; [apply in_app_iff; now left |].
      split; [| exact I3].
      rewrite nth_error_app1; [exact I2 |]. apply nth_error_Some. congruence.
Qed.

(** The death of an active business whose cash is negative. *)
Lemma Books_die c b bs biz0 biz l :
  Books c -> placed c ->
  list_remove (businesses c) b = Some bs ->
  nth_error (heap c) b = Some biz0 ->
  nth_error (business_locations c) (blocation biz0) = Some l ->
  birthday biz = birthday biz0 ->
  btype biz = btype biz0 ->
  b_type biz = b_type biz0 ->
  blocation biz = blocation biz0 ->
  to_R (cash biz) < 0 ->
  Books (city_after_bizfail
           (with_heap c (list_set (heap c) b (dead c biz)))
           b bs (dead c biz) l).
Proof.
  intros HB HP Hr Hb Hl E1 E4 E5 E6 Hneg.
  pose proof HB as (B1 & B2 & B3 & B4 & B5 & B6).
  pose proof HP as (ND & Hs & Ha).
  pose proof (list_remove_Some_In _ _ _ Hr) as Hin.
  pose proof (list_remove_In_iff _ _ _ Hr ND) as Hbs.
  assert (Hnf : ~ In b (failed_businesses c)).
  { intro H. destruct (B2 b H) as (_ & _ & _ & Hn). contradiction. }
  destruct (B1 b Hin) as (y0 & Hy0 & _ & Hborn).
  rewrite Hb in Hy0. inversion Hy0; subst y0.
  assert (Ebl : blocation (dead c biz) = blocation biz0) by exact E6.
  split; [| split; [| split; [| split; [| split]]]]; fields;
    try rewrite Ebl in *.
  - intros x Hx. apply Hbs in Hx. destruct Hx as [Hx Hne].
    rewrite nth_error_list_set_neq by congruence. apply B1. exact Hx.
  - intros x Hx. apply in_app_iff in Hx. destruct Hx as [Hx | [<- | []]].
    + destruct (B2 x Hx) as (y & Hy & Hbur & Hn).
      exists y. split; [| split].
      * rewrite nth_error_list_set_neq; [exact Hy |]. intros ->. contradiction.
      * exact Hbur.
      * intro H. apply Hbs in H. tauto.
    + exists (dead c biz).
      split; [eapply nth_error_list_set_same; eauto |].
      split.
      * exists (age c). unfold dead. simpl. repeat split; auto; lia.
      * intro H. apply Hbs in H. tauto.
  - apply NoDup_app; [exact B3 | repeat constructor; simpl; tauto |].
    intros x Hx [<- | []]. contradiction.
  - intros x Hx. rewrite length_list_set in Hx.
    destruct (Nat.eq_dec x b) as [-> | Hne].
    + right. apply in_app_iff. right. now left.
    + destruct (B4 x Hx) as [H | H].
      * left. apply Hbs. tauto.
      * right. apply in_app_iff. now left.
  - apply Forall_list_set; [exact B5 |].
    rewrite Forall_forall in B5.
    destruct (B5 biz0 (nth_error_In _ _ Hb)) as (F1 & n & F2).
    split; [unfold dead; simpl; congruence |].
    exists n. unfold dead. simpl. rewrite E4. exact F2.
  - intros j l' Hl' Hav.
    destruct (Nat.eq_dec (blocation biz) j) as [Hj | Hne].
    + subst j. rewrite E6 in Hl'.
      rewrite (nth_error_list_set_same _ _ _ _ Hl) in Hl'.
      unfold with_available in Hl'.
      inversion Hl'; subst l'. simpl in Hav. discriminate.
    + rewrite nth_error_list_set_neq in Hl' by congruence.
      destruct (B6 j l' Hl' Hav) as (x & y & I1 & I2 & I3).
      assert (x <> b).
      { intros ->. rewrite Hb in I2. inversion I2; subst y. congruence. }
      exists x, y. split; [apply Hbs; tauto |]. split; [| exact I3].
      rewrite nth_error_list_set_neq by congruence. exact I2.
Qed.

(** ** What each method of a cycle does to the city *)

Lemma generate_step_eq i n w p old dt :
  nth_error (people (w_city w)) i = Some p ->
  dict_get (needs p) n = Some old ->
  dict_get (dtypes (w_city w)) n = Some dt ->
  generate_step i n w
  = Ok tt (drawn w (city_after_generate_step (w_city w) i p n old dt
                      (w_ints w 0%nat))).
Proof.
  intros Hp Ho Hd. unfold generate_step, poisson_rvs, rand_int. unfold_m.
  rewrite Hp. simpl. rewrite Ho. simpl. rewrite Hd. reflexivity.
Qed.

Lemma generate_step_cases i n w :
  (exists p old dt,
     nth_error (people (w_city w)) i = Some p
     /\ dict_get (needs p) n = Some old
     /\ dict_get (dtypes (w_city w)) n = Some dt
     /\ generate_step i n w
        = Ok tt (drawn w (city_after_generate_step (w_city w) i p n old dt
                            (w_ints w 0%nat))))
  \/ (exists e, generate_step i n w = Raise e w).
Proof.
  destruct (nth_error (people (w_city w)) i) as [p |] eqn:Hp.
  - destruct (dict_get (needs p) n) as [old |] eqn:Ho.
    + destruct (dict_get (dtypes (w_city w)) n) as [dt |] eqn:Hd.
      * left. exists p, old, dt. repeat split; auto.
        apply generate_step_eq; assumption.
      * right. exists KeyError.
        unfold generate_step. unfold_m. rewrite Hp. simpl. rewrite Ho. simpl.
        rewrite Hd. reflexivity.
    + right. exists KeyError.
      unfold generate_step. unfold_m. rewrite Hp. simpl. rewrite Ho.
      reflexivity.
  - right. exists IndexError.
    unfold generate_step. unfold_m. rewrite Hp. reflexivity.
Qed.

Lemma pos_biz_active c p r b :
  In b (pos_biz c p r) ->
  In b (businesses c) /\ exists biz, nth_error (heap c) b = Some biz.
Proof.
  unfold pos_biz. intro H. apply filter_In in H. destruct H as [H1 H2].
  split; [exact H1 |].
  destruct (nth_error (heap c) b) as [biz |]; [eauto | discriminate].
Qed.

Lemma fulfill_need_cases i need w :
  (exists p amt dt r b biz,
     nth_error (people (w_city w)) i = Some p
     /\ dict_get (needs p) need = Some amt
     /\ dict_get (dtypes (w_city w)) need = Some dt
     /\ demand_radius dt amt = Some r
     /\ In b (pos_biz (w_city w) p r)
     /\ nth_error (heap (w_city w)) b = Some biz
     /\ fulfill_need i need w
        = Ok tt (drawn w (city_after_give_biz (w_city w) i p need b biz
                            (py_mul amt (dprice dt)))))
  \/ fulfill_need i need w = Ok tt w
  \/ (exists e, fulfill_need i need w = Raise e w).
Proof.
  destruct (nth_error (people (w_city w)) i) as [p |] eqn:Hp.
  2:{ right. right. exists IndexError.
      unfold fulfill_need. unfold_m. rewrite Hp. reflexivity. }
  destruct (dict_get (needs p) need) as [amt |] eqn:Ha.
  2:{ right. right. exists KeyError.
      unfold fulfill_need. unfold_m. rewrite Hp. simpl. rewrite Ha.
      reflexivity. }
  destruct (dict_get (dtypes (w_city w)) need) as [dt |] eqn:Hd.
  2:{ right. right. exists KeyError.
      unfold fulfill_need. unfold_m. rewrite Hp. simpl. rewrite Ha. simpl.
      rewrite Hd. reflexivity. }
  destruct (demand_radius dt amt) as [r |] eqn:Hr.
  2:{ right. right. exists ZeroDivisionError.
      unfold fulfill_need. unfold_m. rewrite Hp. simpl. rewrite Ha. simpl.
      rewrite Hd. simpl. rewrite Hr. reflexivity. }
  destruct (pos_biz (w_city w) p r) as [|b0 bs] eqn:Hpos.
  - right. left. eapply fulfill_need_unserved; eauto.
  - left.
    destruct (fulfill_need_served i need w p amt dt r Hp Ha Hd Hr)
      as (b & biz & Hb & Hbiz & E).
    { rewrite Hpos. discriminate. }
    exists p, amt, dt, r, b, biz.
    repeat split; auto.
    eapply nth_error_In; eauto.
Qed.

(** The computations that only read. *)
Lemma quiet_ret {A} (a : A) : quiet (ret a).
Proof. intro w. reflexivity. Qed.

Lemma quiet_lift {A} (e : Exn) (o : option A) : quiet (lift e o).
Proof. intro w. destruct o; reflexivity. Qed.

Lemma quiet_get_city : quiet get_city.
Proof. intro w. reflexivity. Qed.

Lemma quiet_bind {A B} (m : M A) (f : A -> M B) :
  quiet m -> (forall a, quiet (f a)) -> quiet (bind m f).
Proof.
  intros Hm Hf w. unfold bind. specialize (Hm w).
  destruct (m w) as [a w' | e w']; simpl in *; [| exact Hm].
  subst w'. apply Hf.
Qed.

Lemma quiet_fold_m {A S} (xs : list A) (body : S -> A -> M S) (a0 : S) :
  (forall acc x, quiet (body acc x)) -> quiet (fold_m xs a0 body).
Proof.
  intro H. revert a0. induction xs as [|x xs IH]; intro a0; simpl.
  - apply quiet_ret.
  - apply quiet_bind; [apply H | intro; apply IH].
Qed.

Lemma quiet_get_person i : quiet (get_person i).
Proof. apply quiet_bind; [apply quiet_get_city | intro; apply quiet_lift]. Qed.

Lemma quiet_get_business b : quiet (get_business b).
Proof. apply quiet_bind; [apply quiet_get_city | intro; apply quiet_lift]. Qed.

Lemma quiet_get_location j : quiet (get_location j).
Proof. apply quiet_bind; [apply quiet_get_city | intro; apply quiet_lift]. Qed.

Lemma quiet_startup_score bt bl : quiet (startup_score bt bl).
Proof.
  apply quiet_bind; [apply quiet_get_city | intro c].
  apply quiet_bind; [| intro; apply quiet_lift].
  apply quiet_fold_m. intros acc p.
  destruct (inside _ _ _); [| apply quiet_ret].
  apply quiet_bind; [apply quiet_lift | intro; apply quiet_ret].
Qed.

Lemma quiet_best_startup bl : quiet (best_startup bl).
Proof.
  apply quiet_bind; [apply quiet_get_city | intro c].
  apply quiet_fold_m. intros acc nb.
  apply quiet_bind; [apply quiet_startup_score | intro s].
  destruct (py_gtb _ _); apply quiet_ret.
Qed.

Lemma quiet_bizreport : quiet bizreport.
Proof.
  apply quiet_bind; [apply quiet_get_city | intro c].
  apply quiet_fold_m. intros acc b.
  apply quiet_bind; [apply quiet_get_business | intro biz].
  apply quiet_bind; [apply quiet_lift | intro; apply quiet_ret].
Qed.

Lemma quiet_popreport : quiet popreport.
Proof.
  apply quiet_bind; [apply quiet_get_city | intro c].
  apply quiet_fold_m. intros acc p.
  apply quiet_fold_m. intros acc' na.
  destruct (py_gtb _ _); [| apply quiet_ret].
  apply quiet_bind; [apply quiet_lift | intro; apply quiet_ret].
Qed.

Lemma quiet_Ok {A} (m : M A) w a w' : quiet m -> m w = Ok a w' -> w' = w.
Proof. intros H E. specialize (H w). rewrite E in H. exact H. Qed.

Lemma quiet_Raise {A} (m : M A) w e w' :
  quiet m -> m w = Raise e w' -> w' = w.
Proof. intros H E. specialize (H w). rewrite E in H. exact H. Qed.

Lemma best_startup_member bl w bb w' :
  best_startup bl w = Ok bb w' -> best_of (btypes (w_city w)) bb.
Proof.
  unfold best_startup. unfold bind at 1. unfold get_city.
  set (types := btypes (w_city w)).
  intro E.
  pose proof (hoare_fold_m types
                (fun acc nb =>
                   s <- startup_score (snd nb) bl ;;
                   if py_gtb (to_R s) (to_R (fst acc))
                   then ret (s, Some (snd nb))
                   else ret acc)
                (PInt 0, None)
                (fun acc _ => best_of types acc) (fun _ => True)) as H.
  cbv beta in H. specialize (fun Hb => H Hb w). rewrite E in H.
  apply H; [| reflexivity].
  intros acc [n bt] Hin v Hacc. unfold bind.
  destruct (startup_score _ bl v) as [s v1 | e v1]; [| exact I].
  destruct (py_gtb _ _); simpl; [| exact Hacc].
  exists n. exact Hin.
Qed.

Lemma try_startup_cases j w :
  (exists bl bt n,
     nth_error (business_locations (w_city w)) j = Some bl
     /\ available bl = true
     /\ In (n, bt) (btypes (w_city w))
     /\ try_startup j w
        = Ok tt (mkWorld (city_after_startup (w_city w) bt j bl
                            generate_business_name)
                   (w_ints w) (w_reals w)))
  \/ try_startup j w = Ok tt w
  \/ (exists e, try_startup j w = Raise e w).
Proof.
  unfold try_startup. unfold bind at 1. unfold get_location. unfold_m.
  destruct (nth_error (business_locations (w_city w)) j) as [bl |] eqn:Hj;
    simpl; [| right; right; eauto].
  destruct (available bl) eqn:Hav; [| right; left; reflexivity].
  destruct (best_startup bl w) as [bb w1 | e w1] eqn:Eb.
  - pose proof (quiet_Ok _ _ _ _ (quiet_best_startup bl) Eb) as ->.
    pose proof (best_startup_member _ _ _ _ Eb) as Hm.
    destruct (py_geb _ _); [| right; left; reflexivity].
    unfold best_of in Hm.
    destruct (snd bb) as [bt |]; [| right; right; eauto].
    destruct Hm as [n Hn]. left. exists bl, bt, n.
    repeat split; auto. apply startup_eq. exact Hj.
  - pose proof (quiet_Raise _ _ _ _ (quiet_best_startup bl) Eb) as ->.
    right. right. eauto.
Qed.

(** The exceptions of the computations that only read. *)
Lemma ro_ret {A} (S : Exn -> Prop) (a : A) : raises_only S (ret a).
Proof. intros w e w' H. discriminate. Qed.

Lemma ro_lift {A} (S : Exn -> Prop) (e : Exn) (o : option A) :
  S e -> raises_only S (lift e o).
Proof. intros He w e' w' H. destruct o; simpl in H; inversion H. subst. exact He. Qed.

Lemma ro_get_city (S : Exn -> Prop) : raises_only S get_city.
Proof. intros w e w' H. discriminate. Qed.

Lemma ro_bind {A B} (S : Exn -> Prop) (m : M A) (f : A -> M B) :
  raises_only S m -> (forall a, raises_only S (f a)) ->
  raises_only S (bind m f).
Proof.
  intros Hm Hf w e w' H. unfold bind in H.
  destruct (m w) as [a w1 | e1 w1] eqn:E.
  - eapply Hf; eauto.
  - inversion H; subst. eapply Hm; eauto.
Qed.

Lemma ro_fold_m {A T} (S : Exn -> Prop) (xs : list A) (body : T -> A -> M T)
    (a0 : T) :
  (forall acc x, raises_only S (body acc x)) ->
  raises_only S (fold_m xs a0 body).
Proof.
  intro H. revert a0. induction xs as [|x xs IH]; intro a0; simpl.
  - apply ro_ret.
  - apply ro_bind; [apply H | intro; apply IH].
Qed.

Lemma ro_startup_score bt bl : raises_only score_errors (startup_score bt bl).
Proof.
  apply ro_bind; [apply ro_get_city | intro c].
  apply ro_bind; [| intro; apply ro_lift; now right].
  apply ro_fold_m. intros acc p.
  destruct (inside _ _ _); [| apply ro_ret].
  apply ro_bind; [apply ro_lift; now left | intro; apply ro_ret].
Qed.

Lemma ro_best_startup bl : raises_only score_errors (best_startup bl).
Proof.
  apply ro_bind; [apply ro_get_city | intro c].
  apply ro_fold_m. intros acc nb.
  apply ro_bind; [apply ro_startup_score | intro s].
  destruct (py_gtb _ _); apply ro_ret.
Qed.

(** ** The methods of a cycle preserve [Sound] *)

Lemma keyed_put c i p nd :
  keyed c ->
  nth_error (people c) i = Some p ->
  (forall n, In n (dict_keys nd) <-> In n (dict_keys (needs p))) ->
  keyed (with_people c (list_set (people c) i (with_needs p nd))).
Proof.
  intros HK Hp Hn. unfold keyed in *. fields.
  apply Forall_list_set; [exact HK |].
  rewrite Forall_forall in HK. specialize (HK p (nth_error_In _ _ Hp)).
  intro n. unfold with_needs. simpl. rewrite Hn. apply HK.
Qed.

Lemma same_people_put c0 c i p nd :
  same_people c0 c ->
  nth_error (people c) i = Some p ->
  same_people c0 (with_people c (list_set (people c) i (with_needs p nd))).
Proof.
  intros [H1 H2] Hp. unfold same_people. fields.
  rewrite (map_list_set_same p_name _ i _ p Hp) by reflexivity.
  rewrite (map_list_set_same p_location _ i _ p Hp) by reflexivity.
  auto.
Qed.

Lemma dict_keys_set_same {V} (d : dict V) k v v0 :
  dict_get d k = Some v0 ->
  forall n, In n (dict_keys (dict_set d k v)) <-> In n (dict_keys d).
Proof.
  intros H n. rewrite dict_keys_set_in; [tauto |].
  apply dict_get_in_keys. eauto.
Qed.

Lemma sound_intro c0 {A} (m : M A) :
  keeps true c0 m ->
  (forall w, Sound c0 (w_city w) -> Rest c0 (w_city (final (m w)))) ->
  sound c0 m.
Proof.
  intros Hk Hr w H. pose proof H as (HI & _).
  specialize (Hk w HI). specialize (Hr w H).
  destruct (m w); simpl in Hr; split; assumption.
Qed.

Lemma sound_bind c0 {A B} (m : M A) (f : A -> M B) :
  sound c0 m -> (forall a, sound c0 (f a)) -> sound c0 (bind m f).
Proof. intros Hm Hf. eapply hoare_bind; [exact Hm | exact Hf]. Qed.

Lemma sound_pure c0 {A} (m : M A) : pure_m m -> sound c0 m.
Proof. intro H. apply hoare_pure. exact H. Qed.

Lemma sound_for_each c0 {A} (xs : list A) (body : A -> M unit) :
  (forall x, sound c0 (body x)) -> sound c0 (for_each xs body).
Proof. intro H. apply hoare_for_each. intros x _. apply H. Qed.

Lemma sound_generate_step c0 i n : sound c0 (generate_step i n).
Proof.
  apply sound_intro; [apply keeps_generate_step |].
  intros w (HI & HB & HK & HP).
  destruct (generate_step_cases i n w)
    as [(p & old & dt & Hp & Ho & Hd & E) | [e E]]; rewrite E; simpl;
    [| split; [| split]; assumption].
  unfold city_after_generate_step. split; [| split].
  - apply Books_people. exact HB.
  - apply keyed_put; [exact HK | exact Hp |].
    eapply dict_keys_set_same; eauto.
  - apply same_people_put; assumption.
Qed.

Lemma sound_generate c0 i : sound c0 (generate i).
Proof.
  rewrite generate_eq. apply sound_bind; [apply sound_pure, pure_get_city |].
  intro c. apply sound_for_each. intro n. apply sound_generate_step.
Qed.

Lemma sound_fulfill_need c0 i need : sound c0 (fulfill_need i need).
Proof.
  apply sound_intro; [apply keeps_fulfill_need |].
  intros w (HI & HB & HK & HP).
  destruct (fulfill_need_cases i need w)
    as [(p & amt & dt & r & b & biz & Hp & Ha & Hd & Hr & Hb & Hbiz & E)
       | [E | [e E]]]; rewrite E; simpl;
    try (split; [| split]; assumption).
  unfold city_after_give_biz.
  destruct (pos_biz_active _ _ _ _ Hb) as [Hact _].
  split; [| split].
  - apply Books_people.
    apply (Books_update (w_city w) b biz); auto.
  - apply (keyed_put (with_heap (w_city w) _)); [exact HK | exact Hp |].
    eapply dict_keys_set_same; eauto.
  - apply (same_people_put c0 (with_heap (w_city w) _)); assumption.
Qed.

Lemma sound_fulfill c0 i : sound c0 (fulfill i).
Proof.
  unfold fulfill.
  apply sound_bind; [apply sound_pure, pure_get_person | intro p].
  apply sound_for_each. intro need. apply sound_fulfill_need.
Qed.

Lemma sound_try_startup c0 j : sound c0 (try_startup j).
Proof.
  apply sound_intro; [apply keeps_try_startup |].
  intros w (HI & HB & HK & HP).
  destruct (try_startup_cases j w)
    as [(bl & bt & n & Hj & Hav & Hn & E) | [E | [e E]]]; rewrite E; simpl;
    try (split; [| split]; assumption).
  split; [| split].
  - eapply Books_startup; eauto.
  - exact HK.
  - exact HP.
Qed.

Lemma sound_burn c0 b :
  hoare (fun c => Sound c0 c /\ In b (businesses c)) (burn b)
    (fun _ => Sound c0) (Sound c0).
Proof.
  intros w [(HI & HB & HK & HP) Hin].
  pose proof (keeps_burn c0 b w (conj HI Hin)) as KI.
  pose proof HI as (_ & P & _).
  pose proof (P eq_refl) as HPl. destruct HPl as (ND & Hs & Ha).
  destruct (Hs b Hin) as (biz & l & Hb & Hl & _ & _).
  destruct (Rlt_le_dec (to_R (cash (burned biz))) 0) as [Hneg | Hpos].
  - destruct (list_remove_In _ _ Hin) as [bs Hr].
    rewrite (burn_dead_eq b w bs biz l) in * by assumption. simpl in *.
    split; [exact KI |]. split; [| split; [exact HK | exact HP]].
    apply (Books_die (w_city w) b bs biz (burned biz) l); auto.
  - rewrite (burn_alive_eq b w biz) in * by assumption. simpl in *.
    split; [exact KI |]. split; [| split; [exact HK | exact HP]].
    apply (Books_update (w_city w) b biz); auto.
Qed.

Lemma hoare_scan (I : City -> Prop) (body : nat -> M unit) :
  (forall b, hoare (fun c => I c /\ In b (businesses c)) (body b)
               (fun _ => I) I) ->
  forall fuel i, hoare I (scan_businesses fuel i body) (fun _ => I) I.
Proof.
  intros Hbody fuel. induction fuel as [|f IH]; intros i w H.
  - simpl. unfold_m.
    destruct (nth_error (businesses (w_city w)) i); exact H.
  - simpl. unfold bind at 1. unfold get_city.
    destruct (nth_error (businesses (w_city w)) i) as [b |] eqn:Hb;
      [| exact H].
    unfold bind. specialize (Hbody b w).
    destruct (body b w) as [[] w1 | e w1].
    + apply IH. apply Hbody. split; [exact H |]. eapply nth_error_In; eauto.
    + apply Hbody. split; [exact H |]. eapply nth_error_In; eauto.
Qed.

Lemma sound_scan c0 fuel i : sound c0 (scan_businesses fuel i burn).
Proof. apply hoare_scan. intro b. apply sound_burn. Qed.

Lemma sound_cycle c0 i : sound c0 (cycle i).
Proof.
  unfold cycle. apply sound_bind; [apply sound_generate |].
  intros _. apply sound_fulfill.
Qed.

(** ** Construction: the people *)

Lemma init_fold_keys {V} (v : V) (ks : list string) :
  forall d x,
    In x (dict_keys (fold_left (fun nd n => dict_set nd n v) ks d))
    <-> In x (dict_keys d) \/ In x ks.
Proof.
  induction ks as [|k ks IH]; intros d x; simpl; [tauto |].
  rewrite IH, dict_keys_set_iff. intuition congruence.
Qed.

Lemma init_fold_values {V} (v : V) (ks : list string) :
  forall d, Forall (fun kv => snd kv = v) d ->
            Forall (fun kv => snd kv = v)
              (fold_left (fun nd n => dict_set nd n v) ks d).
Proof.
  induction ks as [|k ks IH]; intros d H; simpl; [exact H |].
  apply IH. apply (dict_set_values (fun x => x = v)); auto.
Qed.

Lemma init_needs_keys c n :
  In n (dict_keys (init_needs c)) <-> In n (dict_keys (dtypes c)).
Proof. unfold init_needs. rewrite init_fold_keys. simpl. tauto. Qed.

Lemma init_needs_get c n :
  (In n (dict_keys (dtypes c)) -> dict_get (init_needs c) n = Some (PInt 0))
  /\ (~ In n (dict_keys (dtypes c)) -> dict_get (init_needs c) n = None).
Proof.
  split; intro H.
  - apply init_needs_keys in H. apply dict_get_in_keys in H.
    destruct H as [v Hv]. rewrite Hv. f_equal.
    pose proof (init_fold_values (PInt 0) (dict_keys (dtypes c)) []
                  (Forall_nil _)) as F.
    rewrite Forall_forall in F. apply (F (n, v)).
    apply dict_get_In. exact Hv.
  - destruct (dict_get (init_needs c) n) as [v |] eqn:E; [| reflexivity].
    exfalso. apply H. apply init_needs_keys. apply dict_get_in_keys. eauto.
Qed.

Lemma pop_density_rand_cases fuel w :
  (exists loc w', pop_density_rand fuel w = Ok loc w'
                  /\ w_city w' = w_city w
                  /\ distance loc (PInt 0, PInt 0) <= size (w_city w))
  \/ (exists w', pop_density_rand fuel w = Raise StillRunning w'
                 /\ w_city w' = w_city w).
Proof.
  assert (Hp : pure_m (pop_density_rand fuel)).
  { apply pure_bind; [apply pure_get_city | intro; apply pure_pop_density_loop]. }
  specialize (Hp w).
  unfold pop_density_rand in *. unfold bind, get_city in *.
  destruct (pop_density_loop_Ok_or_running fuel (size (w_city w))
              (PFloat (size (w_city w) + 1), PInt 0) w)
    as [(l & w' & E) | (w' & E)]; rewrite E in *; simpl in Hp.
  - left. exists l, w'. split; [reflexivity |]. split; [exact Hp |].
    apply pop_density_loop_accepts in E. unfold outside in E. lra.
  - right. exists w'. split; [reflexivity | exact Hp].
Qed.

Lemma new_person_cases fuel nm w :
  (exists p w', new_person fuel nm w = Ok p w'
                /\ w_city w' = w_city w
                /\ p_name p = nm
                /\ distance (p_location p) (PInt 0, PInt 0) <= size (w_city w)
                /\ needs p = init_needs (w_city w))
  \/ (exists w', new_person fuel nm w = Raise StillRunning w'
                 /\ w_city w' = w_city w).
Proof.
  unfold new_person. unfold bind at 1.
  destruct (pop_density_rand_cases fuel w)
    as [(loc & w' & E & Hc & Hd) | (w' & E & Hc)]; rewrite E.
  - left. unfold_m.
    exists (mkPerson nm loc (init_needs (w_city w'))), w'.
    split; [reflexivity |]. simpl. rewrite Hc. repeat split. exact Hd.
  - right. exists w'.
    split; [unfold new_person, bind; rewrite E; reflexivity | exact Hc].
Qed.

(** The loop of [populate]: the newcomers are appended, nothing else
    changes; the loop stops early only while a placement is still running. *)
Lemma populate_run fuel (xs : list Z) :
  forall w,
    exists ps,
      w_city (final (for_each xs
                       (fun _ =>
                          p <- new_person fuel generate_person_name ;;
                          modify (fun c => with_people c (people c ++ [p])))
                       w))
      = with_people (w_city w) (people (w_city w) ++ ps)
      /\ Forall (newcomer (w_city w)) ps
      /\ match for_each xs
                 (fun _ =>
                    p <- new_person fuel generate_person_name ;;
                    modify (fun c => with_people c (people c ++ [p])))
                 w with
         | Ok _ _ => length ps = length xs
         | Raise e _ => e = StillRunning /\ (length ps < length xs)%nat
         end.
Proof.
  set (body := fun _ : Z =>
                 p <- new_person fuel generate_person_name ;;
                 modify (fun c => with_people c (people c ++ [p]))).
  induction xs as [|x xs IH]; intro w; simpl.
  - exists []. rewrite app_nil_r. destruct (w_city w). simpl. auto.
  - unfold bind at 1 2. unfold body at 1 3. unfold bind at 1 2.
    destruct (new_person_cases fuel generate_person_name w)
      as [(p & w' & E & Hc & Hn & Hd & Hi) | (w' & E & Hc)]; rewrite E.
    + unfold modify at 1 2.
      set (w1 := mkWorld _ (w_ints w') (w_reals w')).
      destruct (IH w1) as (ps & Hf & Hps & Hr).
      exists (p :: ps). split; [| split].
      * rewrite Hf. unfold w1. simpl. rewrite Hc. fields.
        rewrite <- app_assoc. reflexivity.
      * constructor; [split; [exact Hn | split; assumption] |].
        unfold w1 in Hps. simpl in Hps. rewrite Hc in Hps. exact Hps.
      * destruct (for_each xs body w1); simpl; [lia |].
        destruct Hr. split; [assumption | lia].
    + exists []. simpl. rewrite app_nil_r, Hc.
      split; [destruct (w_city w); reflexivity |].
      split; [constructor |]. split; [reflexivity | lia].
Qed.

Lemma newcomer_keyed c p n :
  newcomer c p ->
  (In n (dict_keys (needs p)) <-> In n (dict_keys (dtypes c))).
Proof. intros (_ & _ & ->). apply init_needs_keys. Qed.

(** ** The two reports return *)

Lemma dict_keys_set_mono {V} (d : dict V) k k' v :
  In k (dict_keys d) -> In k (dict_keys (dict_set d k' v)).
Proof. intro H. apply dict_keys_set_iff. now right. Qed.

Lemma fold_m_returns {A T} (xs : list A) (body : T -> A -> M T)
    (J : T -> Prop) (w : World) :
  (forall a x, In x xs -> J a -> exists a', body a x w = Ok a' w /\ J a') ->
  forall acc, J acc -> exists r, fold_m xs acc body w = Ok r w /\ J r.
Proof.
  induction xs as [|x xs IH]; intros Hb acc Hacc; simpl.
  - exists acc. split; [reflexivity | exact Hacc].
  - destruct (Hb acc x (or_introl eq_refl) Hacc) as (a' & E & Ha').
    unfold bind. rewrite E. apply IH; [| exact Ha'].
    intros a y Hy. apply Hb. now right.
Qed.

Lemma popreport_returns (w : World) :
  keyed (w_city w) -> exists pr, popreport w = Ok pr w.
Proof.
  intro Hk. unfold popreport. unfold bind at 1. unfold get_city.
  set (J := fun pd : dict PopRow =>
              forall k, In k (dict_keys (dtypes (w_city w))) ->
                        In k (dict_keys pd)).
  match goal with |- context [fold_m _ ?pd0 ?body _] =>
    destruct (fold_m_returns (people (w_city w)) body J w) with (acc := pd0)
      as (r & E & _)
  end.
  - intros pd p Hp HJ.
    unfold keyed in Hk. rewrite Forall_forall in Hk. specialize (Hk p Hp).
    apply (fold_m_returns (needs p) _ J w); [| exact HJ].
    intros pd' na Hna HJ'.
    destruct (py_gtb _ _); [| exists pd'; split; [reflexivity | exact HJ']].
    assert (Hin : In (fst na) (dict_keys pd')).
    { apply HJ'. apply Hk. unfold dict_keys. apply in_map. exact Hna. }
    apply dict_get_in_keys in Hin. destruct Hin as [row Hrow].
    unfold bind, lift. rewrite Hrow. eexists. split; [reflexivity |].
    intros k Hkk. apply dict_keys_set_mono. apply HJ'. exact Hkk.
  - intros k Hkk. apply init_fold_keys. now right.
  - exists r. exact E.
Qed.

Lemma registry_key c biz :
  named c -> from_registry c biz -> In (b_type biz) (dict_keys (btypes c)).
Proof.
  intros Hn (E & n & Hin). unfold named in Hn. rewrite Forall_forall in Hn.
  specialize (Hn _ Hin). simpl in Hn. rewrite E, Hn.
  unfold dict_keys. apply (in_map fst _ _ Hin).
Qed.

Lemma bizreport_returns (w : World) :
  Books (w_city w) -> named (w_city w) -> exists br, bizreport w = Ok br w.
Proof.
  intros (B1 & _ & _ & _ & B5 & _) Hn.
  unfold bizreport. unfold bind at 1. unfold get_city.
  set (J := fun bd : dict BizRow =>
              forall k, In k (dict_keys (btypes (w_city w))) ->
                        In k (dict_keys bd)).
  match goal with |- context [fold_m _ ?bd0 ?body _] =>
    destruct (fold_m_returns (businesses (w_city w)) body J w) with (acc := bd0)
      as (r & E & _)
  end.
  - intros bd b Hb HJ.
    destruct (B1 b Hb) as (biz & Hbiz & _).
    unfold bind at 1. unfold get_business. unfold bind at 1.
    unfold get_city, lift. rewrite Hbiz. unfold ret.
    assert (Hin : In (b_type biz) (dict_keys bd)).
    { apply HJ. apply registry_key; [exact Hn |].
      rewrite Forall_forall in B5. apply B5. eapply nth_error_In; eauto. }
    apply dict_get_in_keys in Hin. destruct Hin as [row Hrow].
    unfold bind. rewrite Hrow. eexists. split; [reflexivity |].
    intros k Hkk. apply dict_keys_set_mono. apply HJ. exact Hkk.
  - intros k Hkk. apply init_fold_keys. now right.
  - exists r. exact E.
Qed.

(** ** With well-formed tables no method of a cycle raises *)

Lemma total_intro c0 {A} (m : M A) :
  sound c0 m ->
  (forall w, Sound c0 (w_city w) -> returns m w) ->
  total c0 m.
Proof.
  intros Hs Hr w H. specialize (Hs w H). destruct (Hr w H) as (a & w' & E).
  rewrite E in *. exact Hs.
Qed.

Lemma total_bind c0 {A B} (m : M A) (f : A -> M B) :
  total c0 m -> (forall a, total c0 (f a)) -> total c0 (bind m f).
Proof. intros Hm Hf. eapply hoare_bind; [exact Hm | exact Hf]. Qed.

Lemma total_for_each c0 {A} (xs : list A) (body : A -> M unit) :
  (forall x, In x xs -> total c0 (body x)) -> total c0 (for_each xs body).
Proof. intro H. apply hoare_for_each. exact H. Qed.

Lemma total_returns c0 {A} (m : M A) w :
  total c0 m -> Sound c0 (w_city w) ->
  exists a w', m w = Ok a w' /\ Sound c0 (w_city w').
Proof.
  intros Ht H. specialize (Ht w H).
  destruct (m w) as [a w' | e w']; [eauto | contradiction].
Qed.

Lemma Sound_dtypes c0 c : Sound c0 c -> dtypes c = dtypes c0.
Proof. intros (((_ & _ & F & _) & _) & _). exact F. Qed.

Lemma Sound_btypes c0 c : Sound c0 c -> btypes c = btypes c0.
Proof. intros (((_ & _ & _ & F & _) & _) & _). exact F. Qed.

Lemma Sound_person c0 c i :
  Sound c0 c -> (i < length (people c0))%nat ->
  exists p, nth_error (people c) i = Some p
            /\ forall n, In n (dict_keys (needs p))
                         <-> In n (dict_keys (dtypes c0)).
Proof.
  intros H Hi. pose proof (Sound_dtypes _ _ H) as Hd.
  destruct H as (_ & _ & HK & (HP & _)).
  assert (Hl : (i < length (people c))%nat).
  { rewrite <- (length_map p_name), HP, length_map. exact Hi. }
  destruct (nth_error (people c) i) as [p |] eqn:Hp.
  - exists p. split; [reflexivity |].
    unfold keyed in HK. rewrite Forall_forall in HK.
    rewrite <- Hd. apply HK. eapply nth_error_In; eauto.
  - apply nth_error_None in Hp. lia.
Qed.

Lemma Sound_location c0 c j :
  Sound c0 c -> (j < length (business_locations c0))%nat ->
  exists l, nth_error (business_locations c) j = Some l.
Proof.
  intros ((F & _) & _) Hj. destruct F as (_ & _ & _ & _ & _ & _ & F7).
  assert (Hl : (j < length (business_locations c))%nat).
  { rewrite <- (length_map bl_location), F7, length_map. exact Hj. }
  destruct (nth_error (business_locations c) j) as [l |] eqn:E; [eauto |].
  apply nth_error_None in E. lia.
Qed.

Lemma total_generate_step c0 i n :
  (i < length (people c0))%nat -> In n (dict_keys (dtypes c0)) ->
  total c0 (generate_step i n).
Proof.
  intros Hi Hn. apply total_intro; [apply sound_generate_step |].
  intros w H. destruct (Sound_person c0 _ i H Hi) as (p & Hp & Hk).
  apply Hk in Hn as Hn'. apply dict_get_in_keys in Hn'.
  destruct Hn' as [old Ho].
  rewrite <- (Sound_dtypes _ _ H) in Hn. apply dict_get_in_keys in Hn.
  destruct Hn as [dt Hd].
  eexists. eexists. apply (generate_step_eq i n w p old dt); assumption.
Qed.

Lemma total_get_city c0 : total c0 get_city.
Proof. intros w H. exact H. Qed.

Lemma total_generate c0 i :
  (i < length (people c0))%nat -> total c0 (generate i).
Proof.
  intro Hi. rewrite generate_eq.
  intros w H. unfold bind, get_city.
  apply total_for_each; [| exact H].
  intros n Hn. apply total_generate_step; [exact Hi |].
  rewrite <- (Sound_dtypes _ _ H). exact Hn.
Qed.

Lemma demand_radius_defined dt amt :
  to_R (dlambda dt) <> 0 -> exists r, demand_radius dt amt = Some r.
Proof.
  intro H. unfold demand_radius.
  destruct amt as [x | x], (dlambda dt) as [y | y] eqn:E; simpl in H.
  - rewrite py_div_int; [eauto |]. intros ->. apply H. reflexivity.
  - rewrite py_div_float_r by exact H. eauto.
  - rewrite py_div_float_l by exact H. eauto.
  - rewrite py_div_float_l by exact H. eauto.
Qed.

Lemma rate_nonzero c n dt :
  rates_ok c -> dict_get (dtypes c) n = Some dt -> to_R (dlambda dt) <> 0.
Proof.
  intros H Hg. apply dict_get_In in Hg.
  unfold rates_ok in H. rewrite Forall_forall in H. apply (H _ Hg).
Qed.

Lemma total_fulfill_need c0 i need :
  rates_ok c0 ->
  (i < length (people c0))%nat -> In need (dict_keys (dtypes c0)) ->
  total c0 (fulfill_need i need).
Proof.
  intros Hr Hi Hn. apply total_intro; [apply sound_fulfill_need |].
  intros w H. destruct (Sound_person c0 _ i H Hi) as (p & Hp & Hk).
  apply Hk in Hn as Hn'. apply dict_get_in_keys in Hn'.
  destruct Hn' as [amt Ha].
  pose proof (Sound_dtypes _ _ H) as Ed.
  apply dict_get_in_keys in Hn. destruct Hn as [dt Hd]. rewrite <- Ed in Hd.
  destruct (demand_radius_defined dt amt) as [r Hrad].
  { apply (rate_nonzero c0 need); [exact Hr | rewrite <- Ed; exact Hd]. }
  destruct (pos_biz (w_city w) p r) as [|b0 bs] eqn:Hpos.
  - exists tt, w. eapply fulfill_need_unserved; eauto.
  - destruct (fulfill_need_served i need w p amt dt r Hp Ha Hd Hrad)
      as (b & biz & _ & _ & E).
    { rewrite Hpos. discriminate. }
    eexists. eexists. exact E.
Qed.

Lemma total_fulfill c0 i :
  rates_ok c0 -> (i < length (people c0))%nat -> total c0 (fulfill i).
Proof.
  intros Hr Hi w H. unfold fulfill. unfold bind at 1.
  unfold get_person. unfold bind at 1. unfold get_city, lift.
  destruct (Sound_person c0 _ i H Hi) as (p & Hp & Hk). rewrite Hp.
  unfold ret.
  apply total_for_each; [| exact H].
  intros need Hn. apply total_fulfill_need; auto. apply Hk. exact Hn.
Qed.

Lemma sum_needs_float ps bt bl :
  forall x d, sum_needs ps bt bl (PFloat x) = Some d -> exists y, d = PFloat y.
Proof.
  induction ps as [|p ps IH]; intros x d H; simpl in H.
  - inversion H. eauto.
  - destruct (inside _ _ _); [| eauto].
    destruct (dict_get (needs p) (bname bt)) as [n |]; [| discriminate].
    unfold py_add in H. destruct n; apply (IH _ _ H).
Qed.

Lemma sum_needs_defined ps bt bl :
  Forall (fun p => In (bname bt) (dict_keys (needs p))) ps ->
  forall acc, exists d, sum_needs ps bt bl acc = Some d.
Proof.
  intros Hk. induction Hk as [|p ps Hp Hps IH]; intro acc; simpl.
  - eauto.
  - destruct (inside _ _ _); [| apply IH].
    apply dict_get_in_keys in Hp. destruct Hp as [n ->]. apply IH.
Qed.

Lemma score_defined c bt bl n :
  keyed c -> types_ok c -> In (n, bt) (btypes c) ->
  exists s, score c bt bl = Some s.
Proof.
  intros Hk Ht Hin. unfold types_ok in Ht. rewrite Forall_forall in Ht.
  destruct (Ht _ Hin) as (Hn & Hd & Hz). simpl in *.
  unfold score.
  destruct (sum_needs_defined (people c) bt bl) with (acc := PFloat 0)
    as [d Hd'].
  { unfold keyed in Hk. rewrite Forall_forall in *. intros p Hp.
    apply (Hk p Hp). rewrite Hn. exact Hd. }
  rewrite Hd'. destruct (sum_needs_float _ _ _ _ _ Hd') as [y ->].
  rewrite py_div_float_l by exact Hz. eauto.
Qed.

Lemma well_formed_frame c0 c :
  Sound c0 c -> well_formed c0 -> well_formed c.
Proof.
  intros H [Hr Ht]. unfold well_formed, rates_ok, types_ok.
  rewrite (Sound_dtypes _ _ H), (Sound_btypes _ _ H). split; assumption.
Qed.

Lemma total_try_startup c0 j :
  well_formed c0 ->
  (j < length (business_locations c0))%nat -> total c0 (try_startup j).
Proof.
  intros Hwf Hj. apply total_intro; [apply sound_try_startup |].
  intros w H. destruct (Sound_location c0 _ j H Hj) as [bl Hbl].
  destruct (available bl) eqn:Hav.
  - destruct (well_formed_frame _ _ H Hwf) as [_ Ht].
    pose proof H as (_ & _ & HK & _).
    destruct (try_startup_spec w j bl Hbl Hav)
      as [(pre & n & bt & post & s & _ & _ & _ & _ & _ & E) | [_ E]].
    + apply Forall_forall. intros [n bt] Hin. simpl.
      eapply score_defined; eauto.
    + eexists. eexists. exact E.
    + eexists. eexists. exact E.
  - exists tt, w. unfold try_startup. unfold bind at 1.
    unfold get_location. unfold_m. rewrite Hbl. simpl. rewrite Hav.
    reflexivity.
Qed.

Lemma total_scan c0 w :
  Sound c0 (w_city w) ->
  exists w', scan_businesses (length (businesses (w_city w))) 0 burn w
             = Ok tt w'
             /\ Sound c0 (w_city w').
Proof.
  intro H. pose proof H as ((_ & P & _) & _).
  destruct (scan_burn_spec (length (businesses (w_city w))) 0 w
              (P eq_refl)) as (w' & E & _); [lia |].
  exists w'. split; [exact E |].
  pose proof (sound_scan c0 (length (businesses (w_city w))) 0 w H) as Hs.
  rewrite E in Hs. exact Hs.
Qed.

(** ** A whole cycle *)

Lemma bind_assoc {A B C} (m : M A) (f : A -> M B) (g : B -> M C) w :
  bind (bind m f) g w = bind m (fun a => bind (f a) g) w.
Proof. unfold bind. destruct (m w); reflexivity. Qed.

Lemma bind_ext {A B} (m : M A) (f g : A -> M B) w :
  (forall a v, f a v = g a v) -> bind m f w = bind m g w.
Proof. intro H. unfold bind. destruct (m w); [apply H | reflexivity]. Qed.

Lemma city_cycle_eq w : city_cycle w = (tick ;;; phases ;;; reports) w.
Proof.
  unfold city_cycle, tick. apply bind_ext. intros _ v.
  unfold phases. rewrite bind_assoc. apply bind_ext. intros c v1.
  rewrite bind_assoc. apply bind_ext. intros _ v2.
  rewrite bind_assoc. apply bind_ext. intros c2 v3.
  rewrite bind_assoc. apply bind_ext. intros _ v4.
  rewrite bind_assoc. apply bind_ext. intros c3 v5.
  rewrite bind_assoc. apply bind_ext. intros _ v6.
  rewrite bind_assoc. apply bind_ext. intros c4 v7.
  reflexivity.
Qed.

Lemma sound_phases c1 : sound c1 phases.
Proof.
  unfold phases.
  apply sound_bind; [apply sound_pure, pure_get_city | intro c].
  apply sound_bind;
    [apply sound_for_each; intro; apply sound_generate | intros _].
  apply sound_bind; [apply sound_pure, pure_get_city | intro c2].
  apply sound_bind;
    [apply sound_for_each; intro; apply sound_try_startup | intros _].
  apply sound_bind; [apply sound_pure, pure_get_city | intro c3].
  apply sound_bind;
    [apply sound_for_each; intro; apply sound_fulfill | intros _].
  apply sound_bind; [apply sound_pure, pure_get_city | intro c4].
  apply sound_scan.
Qed.

Lemma Sound_people_length c0 c :
  Sound c0 c -> length (people c) = length (people c0).
Proof.
  intros (_ & _ & _ & (HP & _)).
  rewrite <- (length_map p_name), HP, length_map. reflexivity.
Qed.

Lemma Sound_locations_length c0 c :
  Sound c0 c ->
  length (business_locations c) = length (business_locations c0).
Proof.
  intros ((F & _) & _). destruct F as (_ & _ & _ & _ & _ & _ & F7).
  rewrite <- (length_map bl_location), F7, length_map. reflexivity.
Qed.

Lemma total_phases c1 : well_formed c1 -> total c1 phases.
Proof.
  intros Hwf w H. unfold phases.
  unfold bind at 1. unfold get_city at 1.
  apply total_bind; [| | exact H].
  { apply total_for_each. intros i Hi. apply total_generate.
    apply in_seq in Hi. rewrite (Sound_people_length _ _ H) in Hi. lia. }
  intros _ w2 H2. unfold bind at 1. unfold get_city at 1.
  apply total_bind; [| | exact H2].
  { apply total_for_each. intros j Hj. apply total_try_startup; [exact Hwf |].
    apply in_seq in Hj. rewrite (Sound_locations_length _ _ H2) in Hj. lia. }
  intros _ w3 H3. unfold bind at 1. unfold get_city at 1.
  apply total_bind; [| | exact H3].
  { apply total_for_each. intros i Hi.
    apply total_fulfill; [apply Hwf |].
    apply in_seq in Hi. rewrite (Sound_people_length _ _ H3) in Hi. lia. }
  intros _ w4 H4. unfold bind at 1. unfold get_city at 1.
  destruct (total_scan c1 w4 H4) as (w5 & E & H5). rewrite E. exact H5.
Qed.

(** From one cycle to the next. *)
Lemma same_people_refl c : same_people c c.
Proof. split; reflexivity. Qed.

Lemma Whole_tick c0 c :
  Whole c0 c -> Sound (with_age c (age c + 1)) (with_age c (age c + 1)).
Proof.
  intros ((S & P & N) & HB & HK & HP).
  split; [| split; [| split]].
  - split; [apply frame_refl |]. split; [intros _; exact P | exact N].
  - apply Books_tick. exact HB.
  - exact HK.
  - apply same_people_refl.
Qed.

Lemma Sound_Whole c0 c1 c :
  stable c0 c1 -> same_people c0 c1 -> Sound c1 c -> Whole c0 c.
Proof.
  intros Hs [P1 P2] (HI & HB & HK & [Q1 Q2]).
  split; [eapply Inv_Run; eauto |].
  split; [exact HB |]. split; [exact HK |].
  split; congruence.
Qed.

Lemma Whole_histories c0 c pr br :
  Whole c0 c ->
  Whole c0 (with_bizhistory (with_pophistory c pr) br).
Proof. intro H. exact H. Qed.

Lemma well_formed_stable c0 c :
  stable c0 c -> well_formed c0 -> well_formed c.
Proof.
  intros (_ & S2 & S3 & _) [Hr Ht].
  unfold well_formed, rates_ok, types_ok. rewrite S2, S3. split; assumption.
Qed.

Lemma named_of_types_ok c : types_ok c -> named c.
Proof.
  unfold types_ok, named. intro H. eapply Forall_impl; [| exact H].
  simpl. tauto.
Qed.

Lemma reports_Whole c0 w :
  Whole c0 (w_city w) -> Whole c0 (w_city (final (reports w))).
Proof.
  intro H. unfold reports. unfold bind at 1.
  destruct (popreport w) as [pr w1 | e w1] eqn:Ep.
  - pose proof (quiet_Ok _ _ _ _ quiet_popreport Ep) as ->.
    unfold bind at 1. unfold modify at 1. unfold bind at 1.
    match goal with |- context [bizreport ?v] =>
      destruct (bizreport v) as [br w2 | e w2] eqn:Eb
    end.
    + pose proof (quiet_Ok _ _ _ _ quiet_bizreport Eb) as ->.
      unfold modify. simpl. exact H.
    + pose proof (quiet_Raise _ _ _ _ quiet_bizreport Eb) as ->.
      simpl. exact H.
  - pose proof (quiet_Raise _ _ _ _ quiet_popreport Ep) as ->.
    simpl. exact H.
Qed.

Lemma reports_returns c0 w :
  Whole c0 (w_city w) -> named (w_city w) ->
  exists pr br,
    reports w
    = Ok tt (mkWorld
               (with_bizhistory
                  (with_pophistory (w_city w) (pophistory (w_city w) ++ [pr]))
                  (bizhistory (w_city w) ++ [br]))
               (w_ints w) (w_reals w)).
Proof.
  intros (_ & HB & HK & _) Hn.
  destruct (popreport_returns w HK) as [pr Ep].
  set (w1 := mkWorld (with_pophistory (w_city w) (pophistory (w_city w) ++ [pr]))
               (w_ints w) (w_reals w)).
  destruct (bizreport_returns w1) as [br Eb]; [exact HB | exact Hn |].
  exists pr, br. unfold reports. unfold bind at 1. rewrite Ep.
  unfold bind at 1. unfold modify at 1. fold w1.
  unfold bind at 1. rewrite Eb. reflexivity.
Qed.

Lemma city_cycle_Whole c0 w :
  Whole c0 (w_city w) -> Whole c0 (w_city (final (city_cycle w))).
Proof.
  intro H. rewrite city_cycle_eq.
  unfold bind at 1. unfold tick, modify.
  set (c1 := with_age (w_city w) (age (w_city w) + 1)).
  set (w1 := mkWorld c1 (w_ints w) (w_reals w)).
  assert (Hs : stable c0 c1) by (destruct H as ((S & _) & _); exact S).
  assert (Hp : same_people c0 c1) by (destruct H as (_ & _ & _ & P); exact P).
  pose proof (sound_phases c1 w1 (Whole_tick c0 _ H)) as H1.
  unfold bind at 1.
  destruct (phases w1) as [[] w2 | e w2].
  - apply reports_Whole. eapply Sound_Whole; eauto.
  - simpl. eapply Sound_Whole; eauto.
Qed.

Lemma city_cycle_returns c0 w :
  Whole c0 (w_city w) -> well_formed c0 ->
  exists w', city_cycle w = Ok tt w' /\ Whole c0 (w_city w').
Proof.
  intros H Hwf. pose proof (city_cycle_Whole c0 w H) as HW.
  rewrite city_cycle_eq in *.
  unfold bind at 1 in HW. unfold bind at 1. unfold tick, modify in *.
  set (c1 := with_age (w_city w) (age (w_city w) + 1)) in *.
  set (w1 := mkWorld c1 (w_ints w) (w_reals w)) in *.
  assert (Hs : stable c0 c1) by (destruct H as ((S & _) & _); exact S).
  assert (Hp : same_people c0 c1) by (destruct H as (_ & _ & _ & P); exact P).
  assert (Hwf1 : well_formed c1) by (eapply well_formed_stable; eauto).
  destruct (total_returns c1 phases w1 (total_phases c1 Hwf1)
              (Whole_tick c0 _ H)) as ([] & w2 & E2 & H2).
  unfold bind at 1 in HW. unfold bind at 1. rewrite E2 in *.
  assert (HW2 : Whole c0 (w_city w2)) by (eapply Sound_Whole; eauto).
  destruct (reports_returns c0 w2 HW2) as (pr & br & Er).
  { apply named_of_types_ok. eapply well_formed_stable; [| exact Hwf].
    destruct HW2 as ((S & _) & _). exact S. }
  rewrite Er in *. eexists. split; [reflexivity | exact HW].
Qed.

Lemma life_Whole c0 n w :
  Whole c0 (w_city w) -> Whole c0 (w_city (final (life n w))).
Proof.
  unfold life. generalize (py_range 0 n). intro xs. revert w.
  induction xs as [|x xs IH]; intros w H; simpl; [exact H |].
  unfold bind. pose proof (city_cycle_Whole c0 w H) as H1.
  destruct (city_cycle w) as [[] w1 | e w1]; simpl in H1.
  - apply IH. exact H1.
  - exact H1.
Qed.

Lemma life_returns c0 n w :
  Whole c0 (w_city w) -> well_formed c0 ->
  exists w', life n w = Ok tt w' /\ Whole c0 (w_city w').
Proof.
  intros H Hwf. unfold life. generalize (py_range 0 n). intro xs. revert w H.
  induction xs as [|x xs IH]; intros w H; simpl.
  - exists w. split; [reflexivity | exact H].
  - destruct (city_cycle_returns c0 w H Hwf) as (w1 & E & H1).
    unfold bind. rewrite E. apply IH. exact H1.
Qed.

(** ** Construction: the businesses *)

Lemma length_drop_nth {A} (l : list A) i :
  (i < length l)%nat -> length l = S (length (drop_nth l i)).
Proof.
  revert i. induction l as [|h t IH]; intros [|i] H; simpl in *; try lia.
  rewrite <- IH by lia. reflexivity.
Qed.

(** [sample] returns as many elements as it is asked for, as long as the
    pool holds that many. *)
Lemma sample_returns {A} (k : nat) :
  forall (pool : list A) w,
    (k <= length pool)%nat ->
    exists l w', sample pool k w = Ok l w'
                 /\ w_city w' = w_city w /\ length l = k.
Proof.
  induction k as [|k IH]; intros pool w Hk; simpl.
  - exists [], w. auto.
  - destruct pool as [|a pool']; [simpl in Hk; lia |].
    set (pool := a :: pool') in *.
    unfold bind at 1. unfold rand_int at 1.
    set (i := (w_ints w 0 mod length pool)%nat).
    assert (Hi : (i < length pool)%nat).
    { apply Nat.mod_upper_bound. simpl. lia. }
    unfold bind at 1.
    destruct (nth_error pool i) as [x |] eqn:Hx;
      [| apply nth_error_None in Hx; lia].
    simpl lift. unfold ret at 1. unfold bind.
    match goal with |- context [sample ?p k ?v] =>
      destruct (IH p v) as (l & w' & E & Hc & Hl)
    end.
    { pose proof (length_drop_nth pool i Hi). lia. }
    rewrite E. exists (x :: l), w'. simpl. auto.
Qed.

Lemma py_int_nonneg_le (r : R) : 0 <= r -> (0 <= py_int r)%Z /\ IZR (py_int r) <= r.
Proof.
  intro H. unfold py_int. destruct (Rle_dec 0 r) as [_ | N]; [| contradiction].
  destruct (base_Int_part r) as [H1 H2]. split; [| exact H1].
  apply le_IZR. apply Rnot_lt_le. intro Hlt.
  assert (IZR (Int_part r) + 1 <= 0).
  { rewrite <- plus_IZR. apply IZR_le.
    apply lt_IZR in Hlt. lia. }
  lra.
Qed.

Lemma fill_count (nl : nat) :
  (Z.to_nat (py_int (INR nl * (3 / 4))) <= nl)%nat.
Proof.
  assert (H0 : 0 <= INR nl * (3 / 4)).
  { pose proof (pos_INR nl). lra. }
  destruct (py_int_nonneg_le _ H0) as [H1 H2].
  assert (IZR (py_int (INR nl * (3 / 4))) <= IZR (Z.of_nat nl)).
  { rewrite <- INR_IZR_INZ. pose proof (pos_INR nl). lra. }
  apply le_IZR in H. lia.
Qed.

Lemma choice_nonempty {A} (xs : list A) w :
  xs <> [] ->
  exists x, In x xs /\ choice xs w = Ok x (drawn w (w_city w)).
Proof.
  intro H.
  assert (Hl : (w_ints w 0 mod length xs < length xs)%nat).
  { apply Nat.mod_upper_bound. destruct xs; [contradiction | simpl; lia]. }
  destruct (nth_error xs (w_ints w 0 mod length xs)) as [x |] eqn:E.
  - exists x. split; [eapply nth_error_In; eauto |].
    apply choice_eq. exact E.
  - apply nth_error_None in E. lia.
Qed.

Lemma startup_missing bt j nm w :
  nth_error (business_locations (w_city w)) j = None ->
  startup bt j nm w = Raise IndexError w.
Proof.
  intro H. unfold startup. unfold bind at 1. unfold get_location. unfold_m.
  rewrite H. reflexivity.
Qed.

Lemma populate_body_unfold i w key bt :
  choice (dict_keys (btypes (w_city w))) w = Ok key (drawn w (w_city w)) ->
  dict_get (btypes (w_city w)) key = Some bt ->
  populate_body i w
  = startup bt i generate_business_name (drawn w (w_city w)).
Proof.
  intros E Hbt. unfold populate_body. unfold bind, get_city.
  rewrite E, Hbt. reflexivity.
Qed.

Lemma populate_body_cases i w :
  (btypes (w_city w) = [] /\ populate_body i w = Raise IndexError w)
  \/ (btypes (w_city w) <> []
      /\ ((exists key bt l,
             In (key, bt) (btypes (w_city w))
             /\ nth_error (business_locations (w_city w)) i = Some l
             /\ populate_body i w
                = Ok tt (drawn w (city_after_startup (w_city w) bt i l
                                    generate_business_name)))
          \/ (nth_error (business_locations (w_city w)) i = None
              /\ populate_body i w = Raise IndexError (drawn w (w_city w))))).
Proof.
  destruct (btypes (w_city w)) as [|kv types] eqn:Eb.
  - left. split; [reflexivity |].
    unfold populate_body. unfold bind, get_city. rewrite Eb. reflexivity.
  - right. split; [discriminate |]. rewrite <- Eb.
    destruct (choice_nonempty (dict_keys (btypes (w_city w))) w)
      as (key & Hk & E).
    { rewrite Eb. discriminate. }
    apply dict_get_in_keys in Hk. destruct Hk as [bt Hbt].
    rewrite (populate_body_unfold i w key bt E Hbt).
    destruct (nth_error (business_locations (w_city w)) i) as [l |] eqn:Hl.
    + left. exists key, bt, l. split; [apply dict_get_In; exact Hbt |].
      split; [reflexivity |].
      rewrite (startup_eq bt i _ (drawn w (w_city w)) l) by exact Hl.
      reflexivity.
    + right. split; [reflexivity |].
      apply startup_missing. exact Hl.
Qed.

Lemma untouched_startup c bt j l nm :
  nm = generate_business_name ->
  Forall (untouched c) (heap c) ->
  Forall (untouched (city_after_startup c bt j l nm))
    (heap (city_after_startup c bt j l nm)).
Proof.
  intros -> H. fields. apply Forall_app. split; [exact H |].
  constructor; [| constructor].
  unfold untouched, new_business, alive. simpl. auto.
Qed.

Lemma Site_startup c0 c key bt j l :
  Site c0 c ->
  In (key, bt) (btypes c) ->
  nth_error (business_locations c) j = Some l ->
  available l = true ->
  Site c0 (city_after_startup c bt j l generate_business_name)
  /\ length (heap (city_after_startup c bt j l generate_business_name))
     = S (length (heap c)).
Proof.
  intros ((HI & HB & HK & HP) & Hf & Hb & Hfr & Hpe) Hin Hl Hav.
  split.
  - split; [| split; [| split; [| split]]].
    + split; [apply Inv_startup; assumption |].
      split; [eapply Books_startup; eauto |].
      split; [exact HK | exact HP].
    + exact Hf.
    + fields. rewrite length_app. simpl. rewrite Nat.add_1_r, seq_S, Hb.
      reflexivity.
    + apply untouched_startup; [reflexivity | exact Hfr].
    + exact Hpe.
  - fields. rewrite length_app. simpl. lia.
Qed.

Lemma populate_loop_run c0 (idxs : list nat) :
  NoDup idxs ->
  forall w,
    Site c0 (w_city w) ->
    (forall i, In i idxs -> free_at (w_city w) i) ->
    match for_each idxs populate_body w with
    | Ok _ w' =>
        Site c0 (w_city w')
        /\ length (heap (w_city w'))
           = (length (heap (w_city w)) + length idxs)%nat
    | Raise e w' =>
        Site c0 (w_city w') /\ e = IndexError /\ btypes (w_city w') = []
    end.
Proof.
  induction idxs as [|i idxs IH]; intros ND w H Hfree; simpl.
  - split; [exact H | lia].
  - inversion ND as [|? ? Hi ND']; subst.
    destruct (Hfree i (or_introl eq_refl)) as (l & Hl & Hav).
    unfold bind.
    destruct (populate_body_cases i w)
      as [[Eb E] | [Hne [(key & bt & l' & Hin & Hl' & E) | [Hl' _]]]].
    + rewrite E. auto.
    + rewrite E. rewrite Hl in Hl'. inversion Hl'; subst l'.
      destruct (Site_startup c0 _ key bt i l H Hin Hl Hav) as [HS Hlen].
      specialize (IH ND' (drawn w (city_after_startup (w_city w) bt i l
                                     generate_business_name)) HS).
      simpl w_city in IH.
      match goal with |- match ?X with _ => _ end =>
        destruct X as [[] w' | e w']
      end.
      * destruct IH as [IH1 IH2].
        { intros i' Hi'.
          destruct (Hfree i' (or_intror Hi')) as (l1 & Hl1 & Hav1).
          exists l1. split; [| exact Hav1]. fields.
          rewrite nth_error_list_set_neq; [exact Hl1 |].
          intros ->. contradiction. }
        split; [exact IH1 |]. rewrite IH2, Hlen. lia.
      * apply IH.
        intros i' Hi'.
        destruct (Hfree i' (or_intror Hi')) as (l1 & Hl1 & Hav1).
        exists l1. split; [| exact Hav1]. fields.
        rewrite nth_error_list_set_neq; [exact Hl1 |].
        intros ->. contradiction.
    + congruence.
Qed.

Lemma business_populate_eq ratio w :
  business_populate ratio w
  = (fill_indices <-
       sample (seq 0 (length (business_locations (w_city w))))
         (Z.to_nat
            (py_int (INR (length (business_locations (w_city w))) * ratio))) ;;
     for_each fill_indices populate_body) w.
Proof. reflexivity. Qed.

(** [business_populate] with the ratio of the constructor. *)
Lemma business_populate_run c0 w :
  Site c0 (w_city w) ->
  Forall (fun l => available l = true) (business_locations (w_city w)) ->
  match business_populate (3 / 4) w with
  | Ok _ w' =>
      Site c0 (w_city w')
      /\ length (heap (w_city w'))
         = (length (heap (w_city w))
            + Z.to_nat
                (py_int (INR (length (business_locations (w_city w)))
                         * (3 / 4))))%nat
  | Raise e w' =>
      Site c0 (w_city w') /\ e = IndexError /\ btypes (w_city w') = []
  end.
Proof.
  intros H Hav. rewrite business_populate_eq.
  set (nl := length (business_locations (w_city w))).
  set (k := Z.to_nat (py_int (INR nl * (3 / 4)))).
  destruct (sample_returns k (seq 0 nl) w) as (idxs & w1 & E & Hc & Hlen).
  { rewrite length_seq. apply fill_count. }
  pose proof (sample_spec k (fun _ => True) (seq 0 nl) (seq_NoDup nl 0) w I)
    as Hs.
  unfold bind. rewrite E in *. destruct Hs as (_ & ND & Hincl).
  pose proof (populate_loop_run c0 idxs ND w1) as Hrun.
  rewrite Hc in Hrun. rewrite <- Hlen.
  apply Hrun; [exact H |].
  intros i Hi. apply Hincl in Hi. apply in_seq in Hi.
  destruct (nth_error (business_locations (w_city w)) i) as [l |] eqn:Hl.
  - exists l. split; [exact Hl |].
    rewrite Forall_forall in Hav. apply Hav. eapply nth_error_In; eauto.
  - apply nth_error_None in Hl. fold nl in Hl. lia.
Qed.

(** ** Construction: the whole constructor *)

Lemma compile_btypes_named btraw c :
  btypes c = compile_btypes btraw -> named c.
Proof.
  intro E. unfold named. rewrite E.
  apply (compile_named business_of_raw (fun k v => bname v = k));
    [reflexivity | constructor].
Qed.

Lemma compile_btypes_nil btraw : compile_btypes btraw = [] -> btraw = [].
Proof.
  intro E. destruct btraw as [|[k v] t]; [reflexivity |]. exfalso.
  assert (H : In k (dict_keys (compile_btypes ((k, v) :: t)))).
  { unfold compile_btypes. apply (compile_keys_iff business_of_raw).
    right. now left. }
  rewrite E in H. exact H.
Qed.

Lemma newcomers_nonneg c ps :
  Forall (newcomer c) ps -> Forall needs_nonneg_person ps.
Proof.
  intro H. eapply Forall_impl; [| exact H].
  intros p (_ & _ & Hn). unfold needs_nonneg_person. rewrite Hn.
  apply (init_needs_nonneg c "food" (PInt 0, PInt 0)).
Qed.

Lemma Books_failed c v :
  failed_businesses c = v -> Books c -> Books (with_failed_businesses c v).
Proof. intros <- H. exact H. Qed.

Lemma untouched_frame c c' biz :
  age c' = age c -> untouched c biz -> untouched c' biz.
Proof. intros E (H1 & H2 & H3 & H4). unfold untouched. rewrite E. auto. Qed.

Lemma City_init_run dtraw btraw fuel nm sz n w :
  match City_init dtraw btraw fuel nm sz n w with
  | Ok _ w' =>
      Whole (w_city w') (w_city w') /\ Built dtraw btraw sz n (w_city w')
  | Raise e w' =>
      Books (w_city w') /\ keyed (w_city w')
      /\ (e = StillRunning \/ (e = IndexError /\ btraw = []))
  end.
Proof.
  unfold City_init.
  unfold bind at 1. unfold modify at 1.
  set (ca := mkCity nm (to_R sz) 0 (compile_dtypes dtraw)
               (compile_btypes btraw) [] [] [] [] [] [] []).
  set (wa := mkWorld ca (w_ints w) (w_reals w)).
  unfold bind at 1. unfold populate.
  destruct (populate_run fuel (py_range 0 n) wa) as (ps & Hf & Hps & Hr).
  simpl in Hf.
  assert (Bp : Books (with_people ca ps)).
  { split; [| split; [| split; [| split; [| split]]]]; simpl.
    - intros b [].
    - intros b [].
    - constructor.
    - intros b Hb. lia.
    - constructor.
    - intros j l Hl. destruct j; discriminate. }
  assert (Kp : keyed (with_people ca ps)).
  { unfold keyed. simpl. eapply Forall_impl; [| exact Hps].
    intros p Hp k. apply (newcomer_keyed ca p k Hp). }
  match goal with |- match match ?X with _ => _ end with _ => _ end =>
    destruct X as [[] w2 | e w2]
  end; simpl in Hf.
  2:{ rewrite Hf. destruct Hr as [-> _]. auto. }
  rewrite py_range_length, Z.sub_0_r in Hr.
  unfold bind at 1. unfold modify at 1.
  unfold bind at 1. unfold modify at 1.
  cbn [w_city w_ints w_reals]. rewrite Hf.
  set (cb := with_business_locations (with_businesses (with_people ca ps) [])
               (generate_business_locations
                  (size (with_businesses (with_people ca ps) [])))).
  set (wb := mkWorld cb (w_ints w2) (w_reals w2)).
  assert (Sb : Site cb cb).
  { unfold Site.
    split; [| split; [reflexivity | split; [reflexivity |
      split; [constructor | reflexivity]]]].
    split; [| split; [| split]].
    - split; [apply frame_refl |]. split.
      + intros _. split; [constructor |]. split.
        * intros b [].
        * intros b1 b2 y1 y2 [].
      + intros _. apply (newcomers_nonneg ca). exact Hps.
    - split; [| split; [| split; [| split; [| split]]]]; simpl.
      + intros b [].
      + intros b [].
      + constructor.
      + intros b Hb. lia.
      + constructor.
      + intros j l Hl Hav.
        pose proof (generated_available (to_R sz)) as Ha.
        rewrite Forall_forall in Ha.
        rewrite (Ha l (nth_error_In _ _ Hl)) in Hav. discriminate.
    - exact Kp.
    - apply same_people_refl. }
  pose proof (business_populate_run cb wb Sb (generated_available _)) as Hbp.
  unfold bind at 1.
  match goal with |- context [business_populate _ ?v] => change v with wb end.
  destruct (business_populate (3 / 4) wb) as [[] w3 | e w3].
  2:{ destruct Hbp as ((HS & _) & -> & Hb).
      destruct HS as (HI & HB & HK & _). cbv beta iota.
      split; [exact HB |]. split; [exact HK |]. right. split; [reflexivity |].
      apply compile_btypes_nil.
      destruct HI as ((_ & _ & _ & F4 & _) & _).
      change (btypes cb = []). rewrite <- F4. exact Hb. }
  destruct Hbp as (((HI & HB & HK & HP) & Hfl & Hbs & Hfr & Hpe) & Hlen).
  pose proof HI as ((F1 & F2 & F3 & F4 & F5 & F6 & F7) & P & N).
  unfold bind at 1. unfold modify at 1.
  set (c4 := with_failed_businesses (w_city w3) []).
  set (w4 := mkWorld c4 (w_ints w3) (w_reals w3)).
  assert (B4 : Books c4) by (apply Books_failed; assumption).
  destruct (popreport_returns w4 HK) as [pr Ep].
  unfold bind at 1. fold c4. fold w4. rewrite Ep.
  unfold bind at 1. unfold modify at 1. unfold bind at 1.
  match goal with |- context [bizreport ?v] =>
    destruct (bizreport_returns v) as [br Eb]
  end.
  { exact B4. }
  { apply (compile_btypes_named btraw). simpl. rewrite F4. reflexivity. }
  rewrite Eb. unfold modify. simpl w_city.
  unfold Built.
  split; [| split; [| split; [| split; [| split; [| split; [| split;
    [| split; [| split; [| split; [| split]]]]]]]]]]; simpl.
  - split; [| split; [| split]].
    + split; [apply stable_refl |]. split; [apply P; reflexivity | exact N].
    + exact B4.
    + exact HK.
    + apply same_people_refl.
  - rewrite F1. reflexivity.
  - rewrite F2. reflexivity.
  - rewrite F3. reflexivity.
  - rewrite F4. reflexivity.
  - rewrite Hpe. simpl. exact Hr.
  - rewrite Hpe. simpl. eapply Forall_impl; [| exact Hps].
    intros p (H1 & H2 & H3). split; [exact H1 |].
    split; [rewrite F1; exact H2 |].
    rewrite H3. unfold init_needs. rewrite F3. reflexivity.
  - rewrite F7, F1. reflexivity.
  - reflexivity.
  - exact Hbs.
  - eapply Forall_impl; [| exact Hfr]. intros biz Hb. exact Hb.
  - rewrite Hlen. simpl.
    rewrite <- (length_map bl_location (business_locations (w_city w3))), F7.
    rewrite length_map. reflexivity.
Qed.

(** ** Whole runs *)

Lemma tables_well_formed dtraw btraw c :
  dtypes c = compile_dtypes dtraw -> btypes c = compile_btypes btraw ->
  tables_ok dtraw btraw -> well_formed c.
Proof.
  intros Ed Eb [Hr Ht]. split.
  - unfold rates_ok. rewrite Ed.
    apply (compile_values demand_of_raw
             (fun _ v => to_R (dlambda v) <> 0)); [| constructor].
    eapply Forall_impl; [| exact Hr]. intros kv H. simpl in *. lra.
  - unfold types_ok. rewrite Eb, Ed.
    apply (compile_values business_of_raw
             (fun k v => bname v = k
                         /\ In k (dict_keys (compile_dtypes dtraw))
                         /\ to_R (initial_need_threshold v) <> 0));
      [| constructor].
    eapply Forall_impl; [| exact Ht]. intros [k v] [H1 H2]. simpl in *.
    split; [reflexivity |]. split; [| exact H2].
    unfold compile_dtypes. apply (compile_keys_iff demand_of_raw). now right.
Qed.

Lemma end_of_run_Books dtraw btraw fuel nm sz n ncycles w :
  Books (end_of_run dtraw btraw fuel nm sz n ncycles w)
  /\ keyed (end_of_run dtraw btraw fuel nm sz n ncycles w)
  /\ placed (end_of_run dtraw btraw fuel nm sz n ncycles w).
Proof.
  pose proof (simulation_Building dtraw btraw fuel nm sz n ncycles w)
    as ((P & _) & _).
  unfold end_of_run. split; [| split; [| exact P]];
    unfold simulation, bind in *;
    pose proof (City_init_run dtraw btraw fuel nm sz n w) as Hi;
    destruct (City_init dtraw btraw fuel nm sz n w) as [[] w1 | e w1];
    try (simpl; tauto);
    destruct Hi as [HW _];
    pose proof (life_Whole (w_city w1) ncycles w1 HW) as (_ & HB & HK & _);
    assumption.
Qed.

(** X4.  At the end of every run, completed or aborted: each active
    business is alive and was born no later than the age of the city; each
    failed business is off the active list, with a death day between its
    birthday and the age of the city, a lifespan that is their difference,
    and a negative cash; no business is recorded as failed twice; and every
    business that was ever created is active or failed. *)
Theorem failed_businesses_stay_dead
    (dtraw : dict DemandRaw) (btraw : dict BusinessRaw) (fuel : nat)
    (nm : string) (sz : num) (n_people ncycles : Z) (w : World) :
  (forall b,
     In b (businesses (end_of_run dtraw btraw fuel nm sz n_people ncycles w)) ->
     exists biz,
       nth_error (heap (end_of_run dtraw btraw fuel nm sz n_people ncycles w)) b
       = Some biz
       /\ alive biz
       /\ (birthday biz
           <= age (end_of_run dtraw btraw fuel nm sz n_people ncycles w))%Z)
  /\ (forall b,
        In b (failed_businesses
                (end_of_run dtraw btraw fuel nm sz n_people ncycles w)) ->
        exists biz,
          nth_error
            (heap (end_of_run dtraw btraw fuel nm sz n_people ncycles w)) b
          = Some biz
          /\ buried (end_of_run dtraw btraw fuel nm sz n_people ncycles w) biz
          /\ ~ In b (businesses
                       (end_of_run dtraw btraw fuel nm sz n_people ncycles w)))
  /\ NoDup (failed_businesses
              (end_of_run dtraw btraw fuel nm sz n_people ncycles w))
  /\ (forall b,
        (b < length
               (heap (end_of_run dtraw btraw fuel nm sz n_people ncycles w)))%nat ->
        In b (businesses
                (end_of_run dtraw btraw fuel nm sz n_people ncycles w))
        \/ In b (failed_businesses
                   (end_of_run dtraw btraw fuel nm sz n_people ncycles w))).
Proof.
  destruct (end_of_run_Books dtraw btraw fuel nm sz n_people ncycles w)
    as ((B1 & B2 & B3 & B4 & _) & _).
  auto.
Qed.

(** X5.  At the end of every run, completed or aborted, a location is
    marked as taken exactly when an active business sits on it. *)
Theorem taken_iff_occupied
    (dtraw : dict DemandRaw) (btraw : dict BusinessRaw) (fuel : nat)
    (nm : string) (sz : num) (n_people ncycles : Z) (w : World)
    (j : nat) (l : BusinessLocation) :
  nth_error
    (business_locations (end_of_run dtraw btraw fuel nm sz n_people ncycles w))
    j = Some l ->
  (available l = false
   <-> exists b biz,
         In b (businesses
                 (end_of_run dtraw btraw fuel nm sz n_people ncycles w))
         /\ nth_error
              (heap (end_of_run dtraw btraw fuel nm sz n_people ncycles w)) b
            = Some biz
         /\ blocation biz = j).
Proof.
  destruct (end_of_run_Books dtraw btraw fuel nm sz n_people ncycles w)
    as ((_ & _ & _ & _ & _ & B6) & _ & (_ & Hs & _)).
  intro Hl. split.
  - apply B6. exact Hl.
  - intros (b & biz & Hb & Hbiz & <-).
    destruct (Hs b Hb) as (y & l' & H1 & H2 & _ & H4).
    rewrite Hbiz in H1. inversion H1; subst y. congruence.
Qed.

Lemma scenario_end :
  end_of_run food_demand food_business 1 "Dmotopia" (PInt 1) 1 1 blank_world
  = w_city cycled_world.
Proof.
  unfold end_of_run, simulation, bind.
  rewrite built_world_eq, life_one_cycle. reflexivity.
Qed.

Lemma taken_iff_occupied_witness :
  exists b biz,
    In b (businesses (w_city cycled_world))
    /\ nth_error (heap (w_city cycled_world)) b = Some biz
    /\ blocation biz = 0%nat.
Proof.
  pose proof (taken_iff_occupied food_demand food_business 1 "Dmotopia"
                (PInt 1) 1 1 blank_world 0
                (mkBusinessLocation (PInt 0, PInt 0) false)) as H.
  rewrite scenario_end in H. apply H; reflexivity.
Defined.

(** X6.  When the constructor returns, the city holds as many people as
    asked for, each of them named by [generate_person_name], inside the
    closed disk of the city and with the needs [init_needs] gives; and
    whatever [life] then does, completed or aborted, the people keep their
    names and their places, and each of them keeps exactly one need per
    demand type. *)
Theorem people_stay_put
    (dtraw : dict DemandRaw) (btraw : dict BusinessRaw) (fuel : nat)
    (nm : string) (sz : num) (n_people ncycles : Z) (w w1 : World) :
  City_init dtraw btraw fuel nm sz n_people w = Ok tt w1 ->
  length (people (w_city w1)) = Z.to_nat n_people
  /\ Forall (newcomer (w_city w1)) (people (w_city w1))
  /\ map p_name (people (w_city (final (life ncycles w1))))
     = map p_name (people (w_city w1))
  /\ map p_location (people (w_city (final (life ncycles w1))))
     = map p_location (people (w_city w1))
  /\ keyed (w_city (final (life ncycles w1))).
Proof.
  intro Hi. pose proof (City_init_run dtraw btraw fuel nm sz n_people w) as H.
  rewrite Hi in H. destruct H as [HW HB].
  destruct HB as (_ & _ & _ & _ & Hn & Hnew & _).
  pose proof (life_Whole (w_city w1) ncycles w1 HW) as (_ & _ & HK & [P1 P2]).
  auto.
Qed.

Lemma people_stay_put_witness :
  map p_location (people (w_city (final (life 1 built_world))))
  = map p_location (people (w_city built_world)).
Proof.
  apply (people_stay_put food_demand food_business 1 "Dmotopia" (PInt 1) 1 1
           blank_world built_world built_world_eq).
Defined.

(** X7.  With tables in which every arrival rate is positive, no threshold
    is zero and every business type is named after a demand type, [life]
    returns from the city that the constructor returned, for every number
    of cycles and whatever the draws: no lookup, no division and no removal
    fails, and the scan of phase 4 ends. *)
Theorem life_returns_with_sound_tables
    (dtraw : dict DemandRaw) (btraw : dict BusinessRaw) (fuel : nat)
    (nm : string) (sz : num) (n_people ncycles : Z) (w w1 : World) :
  tables_ok dtraw btraw ->
  City_init dtraw btraw fuel nm sz n_people w = Ok tt w1 ->
  exists w2, life ncycles w1 = Ok tt w2.
Proof.
  intros Ht Hi.
  pose proof (City_init_run dtraw btraw fuel nm sz n_people w) as H.
  rewrite Hi in H. destruct H as [HW HB].
  destruct HB as (_ & _ & Ed & Eb & _).
  destruct (life_returns (w_city w1) ncycles w1 HW) as (w2 & E & _).
  - eapply tables_well_formed; eauto.
  - exists w2. exact E.
Qed.

Lemma food_tables_ok : tables_ok food_demand food_business.
Proof.
  split; repeat constructor; simpl; lra.
Qed.

Lemma life_returns_with_sound_tables_witness :
  exists w2, life 3 built_world = Ok tt w2.
Proof.
  apply (life_returns_with_sound_tables food_demand food_business 1
           "Dmotopia" (PInt 1) 1 3 blank_world built_world
           food_tables_ok built_world_eq).
Defined.



(** ** [BusinessType.startup_score] *)

Lemma score_fold_missing ps bt bl w :
  (exists p, In p ps
             /\ inside (p_location p) (bl_location bl) (initial_need_radius bt)
                = true
             /\ dict_get (needs p) (bname bt) = None) ->
  forall acc,
    fold_m ps acc
      (fun local_demand p =>
         if inside (p_location p) (bl_location bl) (initial_need_radius bt)
         then n <- lift KeyError (dict_get (needs p) (bname bt)) ;;
              ret (py_add local_demand n)
         else ret local_demand) w
    = Raise KeyError w.
Proof.
  induction ps as [|q ps IH]; intros (p & Hin & Hi & Hn) acc.
  - destruct Hin.
  - simpl. unfold bind at 1.
    destruct (inside (p_location q) _ _) eqn:Eq.
    + unfold bind at 1.
      destruct (dict_get (needs q) (bname bt)) as [v |] eqn:Ev; simpl.
      * apply IH. destruct Hin as [<- | Hin]; [congruence |].
        exists p. auto.
      * reflexivity.
    + simpl. apply IH. destruct Hin as [<- | Hin]; [congruence |].
      exists p. auto.
Qed.

Lemma sum_needs_value ps bt bl :
  Forall (fun p => inside (p_location p) (bl_location bl)
                     (initial_need_radius bt) = true ->
                   dict_get (needs p) (bname bt) <> None) ps ->
  forall x,
    exists y,
      sum_needs ps bt bl (PFloat x) = Some (PFloat y)
      /\ y = x + sum_R (map (need_of (bname bt))
                          (filter (fun p => inside (p_location p)
                                              (bl_location bl)
                                              (initial_need_radius bt)) ps)).
Proof.
  intro H. induction H as [|p ps Hp Hps IH]; intro x; simpl.
  - exists x. split; [reflexivity |]. unfold sum_R. simpl. lra.
  - destruct (inside (p_location p) _ _) eqn:Ei.
    + destruct (dict_get (needs p) (bname bt)) as [v |] eqn:Ev;
        [| exfalso; apply (Hp eq_refl); reflexivity].
      assert (Ea : py_add (PFloat x) v = PFloat (x + to_R v)).
      { unfold py_add. destruct v; reflexivity. }
      rewrite Ea. destruct (IH (x + to_R v)) as (y & E & Hy).
      exists y. split; [exact E |]. rewrite Hy. simpl.
      unfold need_of at 2. rewrite Ev. unfold sum_R. simpl. lra.
    + apply IH.
Qed.

Lemma neighbours_In c bt bl p :
  In p (neighbours c bt bl)
  <-> In p (people c)
      /\ inside (p_location p) (bl_location bl) (initial_need_radius bt) = true.
Proof. unfold neighbours. apply filter_In. Qed.

Lemma startup_score_missing bt bl w :
  (exists p, In p (neighbours (w_city w) bt bl)
             /\ dict_get (needs p) (bname bt) = None) ->
  startup_score bt bl w = Raise KeyError w.
Proof.
  intros (p & Hp & Hn). apply neighbours_In in Hp. destruct Hp as [Hp Hi].
  unfold startup_score. unfold bind at 1. unfold get_city. unfold bind.
  rewrite score_fold_missing; [reflexivity |]. exists p. auto.
Qed.

(** X9.  [startup_score] divides truly, whatever the types of the needs
    and of the threshold: it returns the sum of the needs, for the demand
    named like the business type, of the people strictly within the need
    radius of the location, divided by the threshold.  It raises [KeyError]
    as soon as one of these people has no need of that name, and
    [ZeroDivisionError] when the threshold is zero; in both cases the city
    is left as it was. *)
Theorem startup_score_value
    (bt : BusinessType) (bl : BusinessLocation) (w : World) :
  ((exists p, In p (neighbours (w_city w) bt bl)
              /\ dict_get (needs p) (bname bt) = None) ->
   startup_score bt bl w = Raise KeyError w)
  /\ ((forall p, In p (neighbours (w_city w) bt bl) ->
                 dict_get (needs p) (bname bt) <> None) ->
      (to_R (initial_need_threshold bt) = 0 ->
       startup_score bt bl w = Raise ZeroDivisionError w)
      /\ (to_R (initial_need_threshold bt) <> 0 ->
          startup_score bt bl w
          = Ok (PFloat (sum_R (map (need_of (bname bt))
                                 (neighbours (w_city w) bt bl))
                        / to_R (initial_need_threshold bt))) w)).
Proof.
  split.
  - apply startup_score_missing.
  - intro Hall.
    destruct (sum_needs_value (people (w_city w)) bt bl) with (x := 0)
      as (y & E & Hy).
    { apply Forall_forall. intros p Hp Hi. apply Hall.
      apply neighbours_In. auto. }
    rewrite Rplus_0_l in Hy. fold (neighbours (w_city w) bt bl) in Hy.
    split.
    + intro Hz. unfold startup_score. unfold bind at 1. unfold get_city.
      unfold bind. rewrite (sum_needs_fold _ _ _ _ _ _ E).
      unfold py_div.
      assert (Hd : (if Req_dec_T (to_R (initial_need_threshold bt)) 0
                    then @None num
                    else Some (PFloat (to_R (PFloat y)
                                       / to_R (initial_need_threshold bt))))
                   = None).
      { destruct (Req_dec_T _ 0); [reflexivity | contradiction]. }
      destruct (initial_need_threshold bt); simpl in *; rewrite Hd;
        reflexivity.
    + intro Hz. apply startup_score_eq. unfold score. rewrite E.
      rewrite py_div_float_l by exact Hz. rewrite Hy. reflexivity.
Qed.

(** X10.  [try_startup] leaves the city as it was whenever it raises, and
    it raises in two ways only: [IndexError] for a location that does not
    exist, or the [KeyError] or [ZeroDivisionError] of a score at a vacant
    location.  It never raises [AttributeError]: when the best score is at
    least 1, a type has been selected. *)
Theorem try_startup_raises (j : nat) (w : World) (e : Exn) (w' : World) :
  try_startup j w = Raise e w' ->
  w' = w
  /\ e <> AttributeError
  /\ ((e = IndexError /\ nth_error (business_locations (w_city w)) j = None)
      \/ (exists bl,
            nth_error (business_locations (w_city w)) j = Some bl
            /\ available bl = true
            /\ (e = KeyError \/ e = ZeroDivisionError))).
Proof.
  unfold try_startup. unfold bind at 1. unfold get_location. unfold_m.
  destruct (nth_error (business_locations (w_city w)) j) as [bl |] eqn:Hj;
    simpl.
  2:{ intros [= <- <-]. split; [reflexivity |]. split; [discriminate |].
      left. auto. }
  destruct (available bl) eqn:Hav; [| discriminate].
  destruct (best_startup bl w) as [bb w1 | e1 w1] eqn:Eb.
  - pose proof (quiet_Ok _ _ _ _ (quiet_best_startup bl) Eb) as ->.
    pose proof (best_startup_member _ _ _ _ Eb) as Hm. unfold best_of in Hm.
    destruct (py_geb (to_R (fst bb)) 1) eqn:Hge; [| discriminate].
    destruct (snd bb) as [bt |].
    + rewrite (startup_eq bt j _ w bl) by exact Hj. discriminate.
    + rewrite Hm in Hge. apply geb_iff in Hge. simpl in Hge. lra.
  - pose proof (quiet_Raise _ _ _ _ (quiet_best_startup bl) Eb) as ->.
    pose proof (ro_best_startup bl _ _ _ Eb) as He.
    intros [= <- <-]. split; [reflexivity |].
    split; [destruct He as [-> | ->]; discriminate |].
    right. exists bl. auto.
Qed.

Lemma mismatch_raises :
  try_startup 0 mismatch_world = Raise KeyError mismatch_world.
Proof.
  unfold try_startup. unfold bind at 1. unfold get_location. unfold_m.
  simpl. unfold best_startup. unfold bind at 1. unfold get_city. simpl.
  unfold bind at 1. unfold bind at 1.
  rewrite (startup_score_missing diner_by_name corner mismatch_world).
  - reflexivity.
  - exists (mkPerson generate_person_name (PFloat 0, PFloat 0)
              [("food"%string, PInt 3)]).
    split; [| reflexivity].
    apply neighbours_In. split; [left; reflexivity |].
    apply inside_true. simpl.
    apply distance_lt_iff; simpl; lra.
Qed.

Lemma try_startup_raises_witness :
  mismatch_world = mismatch_world
  /\ KeyError <> AttributeError
  /\ ((KeyError = IndexError
       /\ nth_error (business_locations (w_city mismatch_world)) 0 = None)
      \/ (exists bl,
            nth_error (business_locations (w_city mismatch_world)) 0 = Some bl
            /\ available bl = true
            /\ (KeyError = KeyError \/ KeyError = ZeroDivisionError))).
Proof.
  exact (try_startup_raises 0 mismatch_world KeyError mismatch_world
           mismatch_raises).
Defined.

(** ** [City.bizfail] and [Business.die] on a business that is not active *)

Lemma list_remove_None l x : ~ In x l -> list_remove l x = None.
Proof.
  induction l as [|h t IH]; simpl; intro H; [reflexivity |].
  destruct (Nat.eqb h x) eqn:E.
  - apply Nat.eqb_eq in E. tauto.
  - rewrite IH by tauto. reflexivity.
Qed.

Lemma bizfail_inactive (b : nat) (w : World) :
  ~ In b (businesses (w_city w)) ->
  bizfail b w
  = Raise ValueError
      (mkWorld (with_failed_businesses (w_city w)
                  (failed_businesses (w_city w) ++ [b]))
         (w_ints w) (w_reals w)).
Proof.
  intro H. unfold bizfail. unfold_m. simpl.
  rewrite (list_remove_None _ _ H). reflexivity.
Qed.

Lemma die_inactive (b : nat) (w : World) (biz : Business) :
  nth_error (heap (w_city w)) b = Some biz ->
  ~ In b (businesses (w_city w)) ->
  die b w
  = Raise ValueError
      (mkWorld
         (with_failed_businesses
            (with_heap (w_city w)
               (list_set (heap (w_city w)) b (dead (w_city w) biz)))
            (failed_businesses (w_city w) ++ [b]))
         (w_ints w) (w_reals w)).
Proof.
  intros Hb Hout. unfold die. unfold bind at 1. unfold get_business.
  unfold bind at 1. unfold get_city at 1. unfold lift. rewrite Hb.
  unfold ret. unfold bind at 1. unfold get_city at 1.
  unfold bind at 1. unfold put_business, modify.
  rewrite bizfail_inactive; [reflexivity | exact Hout].
Qed.

(** X11.  [die] is not idempotent.  On an active business of a well placed
    city it returns and takes the business off the active list; called
    again on the same business it raises [ValueError] out of
    [self.businesses.remove], after [bizfail] has appended the business to
    the failed list a second time. *)
Theorem dying_twice_raises (w : World) (b : nat) :
  placed (w_city w) -> In b (businesses (w_city w)) ->
  exists w1 w2,
    die b w = Ok tt w1
    /\ ~ In b (businesses (w_city w1))
    /\ die b w1 = Raise ValueError w2
    /\ businesses (w_city w2) = businesses (w_city w1)
    /\ failed_businesses (w_city w2)
       = failed_businesses (w_city w) ++ [b; b].
Proof.
  intros HP Hin. pose proof HP as (ND & Hs & _).
  destruct (Hs b Hin) as (biz & l & Hb & Hl & _ & _).
  destruct (list_remove_In _ _ Hin) as [bs Hr].
  pose proof (die_eq b w bs biz l Hr Hb Hl) as E1.
  assert (Hout : ~ In b bs).
  { intro H. apply (list_remove_In_iff _ _ _ Hr ND) in H. tauto. }
  eexists. eexists. split; [exact E1 |].
  split; [exact Hout |].
  split.
  - apply die_inactive with (biz := dead (w_city w) biz).
    + cbn [w_city]. unfold city_after_bizfail. fields.
      eapply nth_error_list_set_same; eauto.
    + exact Hout.
  - split; [reflexivity |].
    cbn [w_city]. unfold city_after_bizfail. fields.
    rewrite <- app_assoc. reflexivity.
Qed.

Lemma dying_twice_raises_witness :
  exists w1 w2,
    die 0 two_shops = Ok tt w1
    /\ ~ In 0%nat (businesses (w_city w1))
    /\ die 0 w1 = Raise ValueError w2
    /\ businesses (w_city w2) = businesses (w_city w1)
    /\ failed_businesses (w_city w2)
       = failed_businesses (w_city two_shops) ++ [0%nat; 0%nat].
Proof.
  apply (dying_twice_raises two_shops 0 two_shops_placed).
  simpl. now left.
Defined.

(** ** [Business.age] *)

Lemma Business_age_alive b w biz :
  nth_error (heap (w_city w)) b = Some biz -> deathday biz = None ->
  Business_age b w = Ok (age (w_city w) - birthday biz)%Z w.
Proof.
  intros Hb Hd. unfold Business_age. unfold_m. rewrite Hb. simpl.
  rewrite Hd. reflexivity.
Qed.

Lemma Business_age_dead b w biz d :
  nth_error (heap (w_city w)) b = Some biz -> deathday biz = Some d ->
  Business_age b w = Ok (d - birthday biz)%Z w.
Proof.
  intros Hb Hd. unfold Business_age. unfold_m. rewrite Hb. simpl.
  rewrite Hd. reflexivity.
Qed.

(** X12.  In the city in which a run stops, [Business.age] returns for
    every business that was ever created, and what it returns is never
    negative: for an active business it is the age of the city minus the
    birthday, for a failed one it is the lifespan that [die] recorded,
    whatever the age of the city has become since. *)
Theorem business_age_never_negative
    (dtraw : dict DemandRaw) (btraw : dict BusinessRaw) (fuel : nat)
    (nm : string) (sz : num) (n_people ncycles : Z) (w v : World) (b : nat) :
  w_city v = end_of_run dtraw btraw fuel nm sz n_people ncycles w ->
  (b < length (heap (w_city v)))%nat ->
  exists biz a,
    nth_error (heap (w_city v)) b = Some biz
    /\ Business_age b v = Ok a v
    /\ (0 <= a)%Z
    /\ (In b (businesses (w_city v)) ->
        a = (age (w_city v) - birthday biz)%Z)
    /\ (In b (failed_businesses (w_city v)) -> lifespan biz = Some a).
Proof.
  intros Ev Hb.
  destruct (end_of_run_Books dtraw btraw fuel nm sz n_people ncycles w)
    as ((B1 & B2 & _ & B4 & _) & _).
  rewrite <- Ev in *.
  destruct (B4 b Hb) as [Hact | Hfail].
  - destruct (B1 b Hact) as (biz & Hbiz & (Hd & Hl) & Hborn).
    exists biz, (age (w_city v) - birthday biz)%Z.
    split; [exact Hbiz |].
    split; [apply Business_age_alive; assumption |].
    split; [lia |]. split; [reflexivity |].
    intro Hf. destruct (B2 b Hf) as (_ & _ & _ & Hn). contradiction.
  - destruct (B2 b Hfail) as (biz & Hbiz & (d & Hd & Hl & Hr & _) & Hn).
    exists biz, (d - birthday biz)%Z.
    split; [exact Hbiz |].
    split; [eapply Business_age_dead; eassumption |].
    split; [lia |]. split; [intro; contradiction | intros _; exact Hl].
Qed.

Lemma business_age_never_negative_witness :
  exists biz a,
    nth_error (heap (w_city cycled_world)) 0 = Some biz
    /\ Business_age 0 cycled_world = Ok a cycled_world
    /\ (0 <= a)%Z
    /\ (In 0%nat (businesses (w_city cycled_world)) ->
        a = (age (w_city cycled_world) - birthday biz)%Z)
    /\ (In 0%nat (failed_businesses (w_city cycled_world)) ->
        lifespan biz = Some a).
Proof.
  apply (business_age_never_negative food_demand food_business 1 "Dmotopia"
           (PInt 1) 1 1 blank_world cycled_world 0).
  - symmetry. exact scenario_end.
  - simpl. lia.
Defined.

(** ** [City.life] *)

Lemma for_each_app {A} (xs ys : list A) (body : A -> M unit) w :
  for_each (xs ++ ys) body w = (for_each xs body ;;; for_each ys body) w.
Proof.
  revert w. induction xs as [|x xs IH]; intro w; simpl.
  - reflexivity.
  - rewrite bind_assoc. apply bind_ext. intros _ v. apply IH.
Qed.

Lemma for_each_const {A B} (xs : list A) (ys : list B) (m : M unit) w :
  length xs = length ys ->
  for_each xs (fun _ => m) w = for_each ys (fun _ => m) w.
Proof.
  revert ys w. induction xs as [|x xs IH]; intros [|y ys] w H; simpl in *;
    try discriminate; [reflexivity |].
  unfold bind. destruct (m w) as [[] w1 | e w1]; [| reflexivity].
  apply IH. lia.
Qed.

(** X13.  [life] composes: running [a] cycles and then [b] cycles is
    running [a + b] cycles, returning or raising alike; and [life] of a
    number of cycles that is not positive does nothing. *)
Theorem life_composes (a b : Z) (w : World) :
  (0 <= a)%Z -> (0 <= b)%Z ->
  life (a + b) w = (life a ;;; life b) w
  /\ (forall n, (n <= 0)%Z -> life n w = Ok tt w).
Proof.
  intros Ha Hb. split.
  - unfold life. rewrite <- for_each_app.
    apply for_each_const.
    rewrite length_app, !py_range_length. lia.
  - intros n Hn. unfold life, py_range.
    replace (Z.to_nat (n - 0)) with 0%nat by lia. reflexivity.
Qed.

Lemma life_composes_witness :
  life (1 + 2) built_world = (life 1 ;;; life 2) built_world
  /\ (forall n, (n <= 0)%Z -> life n built_world = Ok tt built_world).
Proof. apply (life_composes 1 2 built_world); lia. Defined.

(** ** [City.generate_business_locations] *)

Lemma py_range_In a b x : In x (py_range a b) <-> (a <= x < b)%Z.
Proof.
  unfold py_range. rewrite in_map_iff. split.
  - intros (k & <- & Hk). apply in_seq in Hk. lia.
  - intro H. exists (Z.to_nat (x - a)). split; [lia |].
    apply in_seq. lia.
Qed.

Lemma IZR_sq (x y : Z) : IZR (x * x + y * y) = IZR x * IZR x + IZR y * IZR y.
Proof. rewrite plus_IZR, !mult_IZR. reflexivity. Qed.

Lemma below_radius_in_range (sz : R) (x y : Z) :
  0 < sz -> IZR (x * x + y * y) < sz * sz ->
  (- py_int sz <= x < py_int sz + 1)%Z.
Proof.
  intros Hsz H. rewrite IZR_sq in H.
  pose proof (Rle_0_sqr (IZR y)) as Hy. unfold Rsqr in Hy.
  assert (Hx : IZR x * IZR x < sz * sz) by lra.
  unfold py_int. destruct (Rle_dec 0 sz) as [_ | N]; [| lra].
  destruct (base_Int_part sz) as [H1 H2].
  set (k := Int_part sz) in *.
  assert (Hk : sz < IZR (k + 1)) by (rewrite plus_IZR; lra).
  assert (Hup : IZR x < IZR (k + 1)).
  { apply Rnot_le_lt. intro Hge.
    assert (sz * sz <= IZR x * IZR x).
    { apply Rmult_le_compat; lra. }
    lra. }
  assert (Hlo : IZR (- x) < IZR (k + 1)).
  { apply Rnot_le_lt. intro Hge. rewrite opp_IZR in Hge.
    assert (sz * sz <= (- IZR x) * (- IZR x)).
    { apply Rmult_le_compat; lra. }
    lra. }
  apply lt_IZR in Hup. apply lt_IZR in Hlo. lia.
Qed.

Lemma inside_origin_iff (x y : Z) (sz : R) :
  inside (PInt x, PInt y) (PInt 0, PInt 0) (PFloat sz) = true
  <-> 0 < sz /\ IZR (x * x + y * y) < sz * sz.
Proof.
  split.
  - intro H. apply inside_iff in H. simpl in H.
    assert (Hsz : 0 < sz).
    { pose proof (distance_nonneg (PInt x, PInt y) (PInt 0, PInt 0)). lra. }
    split; [exact Hsz |].
    apply distance_lt_iff in H; [| exact Hsz]. simpl in H.
    rewrite IZR_sq. lra.
  - intros [Hsz H]. apply lattice_point_inside; assumption.
Qed.

Lemma generated_iff (sz : R) (l : BusinessLocation) :
  In l (generate_business_locations sz)
  <-> exists x y : Z,
        l = mkBusinessLocation (PInt x, PInt y) true
        /\ 0 < sz /\ IZR (x * x + y * y) < sz * sz.
Proof.
  unfold generate_business_locations. rewrite in_flat_map. split.
  - intros (x & Hx & Hl). apply in_flat_map in Hl.
    destruct Hl as (y & Hy & Hl).
    destruct (inside (PInt x, PInt y) _ _) eqn:E; [| destruct Hl].
    destruct Hl as [<- | []]. exists x, y.
    split; [reflexivity |]. apply inside_origin_iff. exact E.
  - intros (x & y & -> & Hsz & H).
    exists x. split.
    + apply py_range_In. eapply below_radius_in_range; eauto.
    + apply in_flat_map. exists y. split.
      * apply py_range_In. apply (below_radius_in_range sz y x Hsz).
        replace (y * y + x * x)%Z with (x * x + y * y)%Z by lia. exact H.
      * rewrite (proj2 (inside_origin_iff x y sz)) by auto. now left.
Qed.

Lemma generated_NoDup (sz : R) : NoDup (generate_business_locations sz).
Proof. apply (NoDup_map_inv bl_location). apply lattice_NoDup. Qed.



(** ** [City.populate] and [Person.init_needs] *)




(** X16.  The needs of a new person: 0, an int, under the name of each
    demand type of the city, once, and nothing under any other name. *)
Theorem init_needs_all_zero (c : City) (n : string) :
  (In n (dict_keys (dtypes c)) -> dict_get (init_needs c) n = Some (PInt 0))
  /\ (~ In n (dict_keys (dtypes c)) -> dict_get (init_needs c) n = None)
  /\ NoDup (dict_keys (init_needs c)).
Proof.
  destruct (init_needs_get c n) as [H1 H2].
  split; [exact H1 |]. split; [exact H2 |].
  unfold init_needs.
  assert (G : forall ks (d : dict num),
             NoDup (dict_keys d) ->
             NoDup (dict_keys (fold_left (fun nd k => dict_set nd k (PInt 0))
                                 ks d))).
  { induction ks as [|k ks IH]; intros d Hd; simpl; [exact Hd |].
    apply IH. apply dict_keys_set_NoDup. exact Hd. }
  apply G. constructor.
Qed.

(** ** [DemandType.demand_radius] *)

(** X17.  With a positive arrival rate the demand radius is defined and,
    between two needs of the same Python type, never shrinks when the need
    grows, floor division included; and it is at least 1 for a need that is
    not negative. *)
Theorem demand_radius_never_shrinks (dt : DemandType) (a b : num) :
  0 < to_R (dlambda dt) -> same_kind a b -> to_R a <= to_R b ->
  exists ra rb,
    demand_radius dt a = Some ra /\ demand_radius dt b = Some rb
    /\ to_R ra <= to_R rb
    /\ (0 <= to_R a -> 1 <= to_R ra).
Proof.
  intros Hl Hk Hab. unfold demand_radius.
  destruct a as [x | x], b as [y | y]; try contradiction;
    destruct (dlambda dt) as [z | z] eqn:El; simpl in Hl, Hab.
  - assert (Hz : (0 < z)%Z) by (apply lt_IZR; exact Hl).
    apply le_IZR in Hab.
    rewrite !py_div_int by lia.
    eexists. eexists. split; [reflexivity |]. split; [reflexivity |].
    rewrite !to_R_add. simpl. split.
    + apply Rplus_le_compat_l. apply IZR_le. apply Z.div_le_mono; lia.
    + intro H0. simpl in H0. apply le_IZR in H0.
      assert (0 <= IZR (x / z)) by (apply IZR_le; apply Z.div_pos; lia).
      lra.
  - rewrite !py_div_float_r by lra.
    eexists. eexists. split; [reflexivity |]. split; [reflexivity |].
    rewrite !to_R_add. simpl. split.
    + apply Rplus_le_compat_l. unfold Rdiv.
      apply Rmult_le_compat_r; [| simpl; exact Hab].
      left. apply Rinv_0_lt_compat. exact Hl.
    + intro H0. simpl in H0.
      assert (0 <= IZR x / z).
      { unfold Rdiv. apply Rmult_le_pos; [exact H0 |].
        left. apply Rinv_0_lt_compat. exact Hl. }
      lra.
  - rewrite !py_div_float_l by (simpl; lra).
    eexists. eexists. split; [reflexivity |]. split; [reflexivity |].
    rewrite !to_R_add. simpl. split.
    + apply Rplus_le_compat_l. unfold Rdiv.
      apply Rmult_le_compat_r; [| simpl; exact Hab].
      left. apply Rinv_0_lt_compat. exact Hl.
    + intro H0. simpl in H0.
      assert (0 <= x / IZR z).
      { unfold Rdiv. apply Rmult_le_pos; [exact H0 |].
        left. apply Rinv_0_lt_compat. exact Hl. }
      lra.
  - rewrite !py_div_float_l by (simpl; lra).
    eexists. eexists. split; [reflexivity |]. split; [reflexivity |].
    rewrite !to_R_add. simpl. split.
    + apply Rplus_le_compat_l. unfold Rdiv.
      apply Rmult_le_compat_r; [| simpl; exact Hab].
      left. apply Rinv_0_lt_compat. exact Hl.
    + intro H0. simpl in H0.
      assert (0 <= x / z).
      { unfold Rdiv. apply Rmult_le_pos; [exact H0 |].
        left. apply Rinv_0_lt_compat. exact Hl. }
      lra.
Qed.

Lemma demand_radius_never_shrinks_witness :
  exists ra rb,
    demand_radius grocer (PInt 2) = Some ra
    /\ demand_radius grocer (PInt 6) = Some rb
    /\ to_R ra <= to_R rb
    /\ (0 <= to_R (PInt 2) -> 1 <= to_R ra).
Proof.
  apply (demand_radius_never_shrinks grocer (PInt 2) (PInt 6)); simpl;
    [lra | exact I | lra].
Defined.

Lemma demand_radius_zero_rate dt a :
  to_R (dlambda dt) = 0 -> demand_radius dt a = None.
Proof.
  intro H. unfold demand_radius, py_div.
  destruct a as [x | x], (dlambda dt) as [z | z]; simpl in *.
  - apply eq_IZR in H. subst z. reflexivity.
  - destruct (Req_dec_T z 0); [reflexivity | contradiction].
  - destruct (Req_dec_T (IZR z) 0); [reflexivity | contradiction].
  - destruct (Req_dec_T z 0); [reflexivity | contradiction].
Qed.

(** X18.  A demand type whose arrival rate is zero, int or float, stops
    fulfillment: for a person who holds that need, whatever its amount,
    [fulfill_need] raises [ZeroDivisionError] and leaves the city as it
    was. *)
Theorem zero_rate_stops_fulfillment
    (i : nat) (need : string) (w : World) (p : Person) (amt : num)
    (dt : DemandType) :
  nth_error (people (w_city w)) i = Some p ->
  dict_get (needs p) need = Some amt ->
  dict_get (dtypes (w_city w)) need = Some dt ->
  to_R (dlambda dt) = 0 ->
  fulfill_need i need w = Raise ZeroDivisionError w.
Proof.
  intros Hp Ha Hd Hz. unfold fulfill_need. unfold_m.
  rewrite Hp. simpl. rewrite Ha. simpl. rewrite Hd. simpl.
  rewrite (demand_radius_zero_rate dt amt Hz). reflexivity.
Qed.

Lemma zero_rate_stops_fulfillment_witness :
  fulfill_need 0 "food" idle_world = Raise ZeroDivisionError idle_world.
Proof.
  apply (zero_rate_stops_fulfillment 0 "food" idle_world
           (mkPerson generate_person_name (PFloat 0, PFloat 0)
              [("food"%string, PInt 0)])
           (PInt 0) (mkDemandType "food" (PInt 0) (PInt 1)));
    reflexivity.
Defined.

(** ** Small cities and empty tables *)

Lemma NoDup_all_equal {A} (l : list A) (a : A) :
  NoDup l -> (forall x, In x l -> x = a) -> (length l <= 1)%nat.
Proof.
  intros ND H. destruct l as [|x [|y t]]; simpl; try lia.
  exfalso. inversion ND as [|? ? Hx _]; subst. apply Hx.
  rewrite (H x), (H y); simpl; auto.
Qed.


Lemma small_lattice (sz : R) :
  sz <= 1 -> (length (generate_business_locations sz) <= 1)%nat.
Proof.
  intro Hsz.
  apply (NoDup_all_equal _ (mkBusinessLocation (PInt 0, PInt 0) true));
    [apply generated_NoDup |].
  intros l Hl. apply generated_iff in Hl.
  destruct Hl as (x & y & -> & H0 & H).
  assert (Hs : sz * sz <= 1).
  { replace 1 with (1 * 1) by ring. apply Rmult_le_compat; lra. }
  assert (Hlt : IZR (x * x + y * y) < IZR 1) by lra.
  apply lt_IZR in Hlt.
  assert (x = 0%Z) by nia. assert (y = 0%Z) by nia. subst. reflexivity.
Qed.


Lemma fill_count_small (nl : nat) :
  (nl <= 1)%nat -> Z.to_nat (py_int (INR nl * (3 / 4))) = 0%nat.
Proof.
  intro H. rewrite py_int_small; [reflexivity |].
  destruct nl as [|[|k]]; simpl; try lia; lra.
Qed.


Lemma Built_locations_length dtraw btraw sz n c :
  Built dtraw btraw sz n c ->
  length (business_locations c)
  = length (generate_business_locations (to_R sz)).
Proof.
  intros (E1 & _ & _ & _ & _ & _ & E7 & _).
  rewrite <- (length_map bl_location), E7, E1. unfold lattice.
  apply length_map.
Qed.

(** X19.  A city of radius at most 1 has at most one location, and three
    quarters of one location, rounded down, is none: when the constructor
    returns, such a city has no business at all. *)
Theorem small_city_starts_empty
    (dtraw : dict DemandRaw) (btraw : dict BusinessRaw) (fuel : nat)
    (nm : string) (sz : num) (n_people : Z) (w w1 : World) :
  to_R sz <= 1 ->
  City_init dtraw btraw fuel nm sz n_people w = Ok tt w1 ->
  (length (business_locations (w_city w1)) <= 1)%nat
  /\ heap (w_city w1) = []
  /\ businesses (w_city w1) = []
  /\ failed_businesses (w_city w1) = [].
Proof.
  intros Hsz Hi.
  pose proof (City_init_run dtraw btraw fuel nm sz n_people w) as H.
  rewrite Hi in H. destruct H as [_ HB].
  pose proof (Built_locations_length _ _ _ _ _ HB) as Hl.
  pose proof (small_lattice (to_R sz) Hsz) as Hs.
  destruct HB as (_ & _ & _ & _ & _ & _ & _ & Hf & Hb & _ & Hn).
  rewrite fill_count_small in Hn by lia.
  apply length_zero_iff_nil in Hn.
  split; [lia |]. split; [exact Hn |].
  split; [rewrite Hb, Hn; reflexivity | exact Hf].
Qed.

Lemma small_city_starts_empty_witness :
  (length (business_locations (w_city built_world)) <= 1)%nat
  /\ heap (w_city built_world) = []
  /\ businesses (w_city built_world) = []
  /\ failed_businesses (w_city built_world) = [].
Proof.
  apply (small_city_starts_empty food_demand food_business 1 "Dmotopia"
           (PInt 1) 1 blank_world built_world); [simpl; lra |].
  exact built_world_eq.
Defined.



(** ** [City.bizreport] and [City.popreport] *)

Lemma init_fold_get {V} (v : V) (ks : list string) (t : string) :
  In t ks ->
  dict_get (fold_left (fun d k => dict_set d k v) ks []) t = Some v.
Proof.
  intro H.
  assert (Hk : In t (dict_keys (fold_left (fun d k => dict_set d k v) ks [])))
    by (apply init_fold_keys; now right).
  apply dict_get_in_keys in Hk. destruct Hk as [x Hx]. rewrite Hx. f_equal.
  pose proof (init_fold_values v ks [] (Forall_nil _)) as F.
  rewrite Forall_forall in F. apply (F (t, x)). apply dict_get_In. exact Hx.
Qed.

Lemma sum_R_app l1 l2 : sum_R (l1 ++ l2) = sum_R l1 + sum_R l2.
Proof.
  unfold sum_R. induction l1 as [|x l1 IH]; simpl; [lra |]. rewrite IH. lra.
Qed.

Lemma of_type_snoc t done biz :
  of_type t (done ++ [biz])
  = of_type t done ++ (if String.eqb (b_type biz) t then [biz] else []).
Proof.
  unfold of_type. rewrite filter_app. simpl.
  destruct (String.eqb (b_type biz) t); reflexivity.
Qed.

Lemma biz_rows_step keys bd done biz row :
  biz_rows keys bd done ->
  dict_get bd (b_type biz) = Some row ->
  biz_rows keys
    (dict_set bd (b_type biz)
       (mkBizRow (count row + 1) (py_add (totalcash row) (cash biz))))
    (done ++ [biz]).
Proof.
  intros [Hk Hr] Hrow. split.
  - intro k. rewrite dict_keys_set_in; [apply Hk |].
    apply dict_get_in_keys. eauto.
  - intros t Ht. destruct (Hr t Ht) as (r & Hg & Hc & Hs).
    rewrite of_type_snoc.
    destruct (String.eqb (b_type biz) t) eqn:E.
    + apply String.eqb_eq in E. subst t.
      rewrite dict_get_set_eq. eexists. split; [reflexivity |].
      rewrite Hrow in Hg. inversion Hg; subst r.
      simpl. rewrite length_app, map_app, sum_R_app, to_R_add. simpl.
      split; [lia |]. rewrite Hs. unfold sum_R. simpl. lra.
    + apply String.eqb_neq in E.
      rewrite dict_get_set_neq by exact E.
      exists r. rewrite app_nil_r. auto.
Qed.

Lemma bizreport_body_cases bd b w :
  (exists biz row,
     nth_error (heap (w_city w)) b = Some biz
     /\ dict_get bd (b_type biz) = Some row
     /\ bizreport_body bd b w
        = Ok (dict_set bd (b_type biz)
                (mkBizRow (count row + 1)
                   (py_add (totalcash row) (cash biz)))) w)
  \/ (exists e, bizreport_body bd b w = Raise e w).
Proof.
  unfold bizreport_body. unfold_m.
  destruct (nth_error (heap (w_city w)) b) as [biz |] eqn:Hb; simpl;
    [| right; eauto].
  destruct (dict_get bd (b_type biz)) as [row |] eqn:Hrow; simpl;
    [| right; eauto].
  left. exists biz, row. auto.
Qed.

Lemma bizreport_fold (keys : list string) (w : World) :
  forall (bs : list nat) (done : list Business) (bd : dict BizRow),
    biz_rows keys bd done ->
    match fold_m bs bd bizreport_body w with
    | Ok br w' =>
        w' = w
        /\ biz_rows keys br
             (done ++ flat_map (fun b => match nth_error (heap (w_city w)) b with
                                         | Some biz => [biz]
                                         | None => []
                                         end) bs)
        /\ Forall (fun b => nth_error (heap (w_city w)) b <> None) bs
    | Raise _ w' => w' = w
    end.
Proof.
  induction bs as [|b bs IH]; intros done bd H; simpl.
  - rewrite app_nil_r. auto.
  - unfold bind.
    destruct (bizreport_body_cases bd b w)
      as [(biz & row & Hb & Hrow & E) | [e E]]; rewrite E; [| reflexivity].
    specialize (IH (done ++ [biz]) _ (biz_rows_step keys bd done biz row H Hrow)).
    destruct (fold_m bs _ bizreport_body w) as [br w' | e w']; [| exact IH].
    destruct IH as (Ew & HR & HF). split; [exact Ew |].
    rewrite Hb. split; [rewrite <- app_assoc in HR; exact HR |].
    constructor; [congruence | exact HF].
Qed.

Lemma biz_rows_init keys :
  biz_rows keys
    (fold_left (fun bd b_type => dict_set bd b_type (mkBizRow 0 (PFloat 0)))
       keys []) [].
Proof.
  split.
  - intro k. rewrite init_fold_keys. simpl. tauto.
  - intros t Ht. eexists. split; [apply init_fold_get; exact Ht |].
    simpl. unfold sum_R. simpl. auto.
Qed.

(** X21.  When [bizreport] returns, the city is as it was, the report
    has one row per business type, every reference of the active list
    resolved, and the row of each type holds the number of active
    businesses of that type and the sum of their cash. *)
Theorem bizreport_counts_active_businesses
    (w : World) (br : dict BizRow) (w' : World) :
  bizreport w = Ok br w' ->
  w' = w
  /\ (forall k, In k (dict_keys br) <-> In k (dict_keys (btypes (w_city w))))
  /\ length (active_records (w_city w)) = length (businesses (w_city w))
  /\ (forall t, In t (dict_keys (btypes (w_city w))) ->
        exists row,
          dict_get br t = Some row
          /\ count row
             = Z.of_nat (length (of_type t (active_records (w_city w))))
          /\ to_R (totalcash row)
             = sum_R (map (fun biz => to_R (cash biz))
                        (of_type t (active_records (w_city w))))).
Proof.
  unfold bizreport. unfold bind at 1. unfold get_city. intro E.
  pose proof (bizreport_fold (dict_keys (btypes (w_city w))) w
                (businesses (w_city w)) [] _
                (biz_rows_init (dict_keys (btypes (w_city w))))) as H.
  change (fold_m (businesses (w_city w))
            (fold_left
               (fun bd b_type => dict_set bd b_type (mkBizRow 0 (PFloat 0)))
               (dict_keys (btypes (w_city w))) [])
            bizreport_body w = Ok br w') in E.
  rewrite E in H. destruct H as (-> & [Hk Hr] & HF).
  split; [reflexivity |]. split; [exact Hk |]. split; [| exact Hr].
  unfold active_records. clear - HF.
  induction HF as [|b bs Hb _ IH]; simpl; [reflexivity |].
  destruct (nth_error (heap (w_city w)) b); [| contradiction].
  simpl. rewrite IH. reflexivity.
Qed.

Lemma cycled_bizreport :
  bizreport cycled_world
  = Ok [("food"%string, mkBizRow 1 (PFloat (0 + 12)))] cycled_world.
Proof. unfold cycled_world. run. Qed.

Lemma bizreport_counts_active_businesses_witness :
  exists row,
    dict_get [("food"%string, mkBizRow 1 (PFloat (0 + 12)))] "food" = Some row
    /\ count row
       = Z.of_nat (length (of_type "food" (active_records (w_city cycled_world))))
    /\ to_R (totalcash row)
       = sum_R (map (fun biz => to_R (cash biz))
                  (of_type "food" (active_records (w_city cycled_world)))).
Proof.
  apply (bizreport_counts_active_businesses cycled_world _ cycled_world
           cycled_bizreport).
  simpl. now left.
Defined.

Lemma unmet_snoc t done na :
  unmet t (done ++ [na])
  = unmet t done
    ++ (if String.eqb (fst na) t && py_gtb (to_R (snd na)) 0
        then [na] else []).
Proof.
  unfold unmet. rewrite filter_app. simpl.
  destruct (String.eqb (fst na) t && py_gtb (to_R (snd na)) 0); reflexivity.
Qed.

Lemma pop_rows_skip keys pd done na :
  pop_rows keys pd done -> py_gtb (to_R (snd na)) 0 = false ->
  pop_rows keys pd (done ++ [na]).
Proof.
  intros [Hk Hr] Hn. split; [exact Hk |].
  intros t Ht. destruct (Hr t Ht) as (r & Hg & Hc & Hs).
  exists r. rewrite unmet_snoc, Hn, andb_false_r, app_nil_r. auto.
Qed.

Lemma pop_rows_step keys pd done na row :
  pop_rows keys pd done -> py_gtb (to_R (snd na)) 0 = true ->
  dict_get pd (fst na) = Some row ->
  pop_rows keys
    (dict_set pd (fst na)
       (mkPopRow (demand_count row + 1) (py_add (total_demand row) (snd na))))
    (done ++ [na]).
Proof.
  intros [Hk Hr] Hp Hrow. split.
  - intro k. rewrite dict_keys_set_in; [apply Hk |].
    apply dict_get_in_keys. eauto.
  - intros t Ht. destruct (Hr t Ht) as (r & Hg & Hc & Hs).
    rewrite unmet_snoc, Hp, andb_true_r.
    destruct (String.eqb (fst na) t) eqn:E.
    + apply String.eqb_eq in E. subst t.
      rewrite dict_get_set_eq. eexists. split; [reflexivity |].
      rewrite Hrow in Hg. inversion Hg; subst r.
      simpl. rewrite length_app, map_app, sum_R_app, to_R_add. simpl.
      split; [lia |]. rewrite Hs. unfold sum_R. simpl. lra.
    + apply String.eqb_neq in E.
      rewrite dict_get_set_neq by exact E.
      exists r. rewrite app_nil_r. auto.
Qed.

Lemma popreport_fold (keys : list string) (w : World) :
  forall (entries done : list (string * num)) (pd : dict PopRow),
    pop_rows keys pd done ->
    match fold_m entries pd popreport_body w with
    | Ok pr w' => w' = w /\ pop_rows keys pr (done ++ entries)
    | Raise _ w' => w' = w
    end.
Proof.
  induction entries as [|na entries IH]; intros done pd H; simpl.
  - rewrite app_nil_r. auto.
  - unfold bind. unfold popreport_body at 1.
    destruct (py_gtb (to_R (snd na)) 0) eqn:Hp.
    + unfold bind, lift.
      destruct (dict_get pd (fst na)) as [row |] eqn:Hrow; [| reflexivity].
      simpl.
      specialize (IH (done ++ [na]) _
                    (pop_rows_step keys pd done na row H Hp Hrow)).
      rewrite <- app_assoc in IH. exact IH.
    + simpl.
      specialize (IH (done ++ [na]) _ (pop_rows_skip keys pd done na H Hp)).
      rewrite <- app_assoc in IH. exact IH.
Qed.

Lemma fold_m_app {A T} (xs ys : list A) (body : T -> A -> M T) acc w :
  fold_m (xs ++ ys) acc body w
  = (a <- fold_m xs acc body ;; fold_m ys a body) w.
Proof.
  revert acc w. induction xs as [|x xs IH]; intros acc w; simpl.
  - reflexivity.
  - rewrite bind_assoc. apply bind_ext. intros a v. apply IH.
Qed.

Lemma fold_m_flat {A B T} (f : A -> list B) (xs : list A)
    (body : T -> B -> M T) acc w :
  fold_m xs acc (fun acc x => fold_m (f x) acc body) w
  = fold_m (flat_map f xs) acc body w.
Proof.
  revert acc w. induction xs as [|x xs IH]; intros acc w; simpl.
  - reflexivity.
  - rewrite fold_m_app. apply bind_ext. intros a v. apply IH.
Qed.

Lemma pop_rows_init keys :
  pop_rows keys
    (fold_left (fun pd d_type => dict_set pd d_type (mkPopRow 0 (PFloat 0)))
       keys []) [].
Proof.
  split.
  - intro k. rewrite init_fold_keys. simpl. tauto.
  - intros t Ht. eexists. split; [apply init_fold_get; exact Ht |].
    simpl. unfold sum_R. simpl. auto.
Qed.

(** X22.  When [popreport] returns, the city is as it was, the report
    has one row per demand type, and the row of each type holds the number
    of people whose need of that type is positive and the sum of these
    needs. *)
Theorem popreport_counts_unmet_needs
    (w : World) (pr : dict PopRow) (w' : World) :
  popreport w = Ok pr w' ->
  w' = w
  /\ (forall k, In k (dict_keys pr) <-> In k (dict_keys (dtypes (w_city w))))
  /\ (forall t, In t (dict_keys (dtypes (w_city w))) ->
        exists row,
          dict_get pr t = Some row
          /\ demand_count row
             = Z.of_nat (length (unmet t (all_needs (w_city w))))
          /\ to_R (total_demand row)
             = sum_R (map (fun na => to_R (snd na))
                        (unmet t (all_needs (w_city w))))).
Proof.
  unfold popreport. unfold bind at 1. unfold get_city. intro E.
  change (fold_m (people (w_city w))
            (fold_left
               (fun pd d_type => dict_set pd d_type (mkPopRow 0 (PFloat 0)))
               (dict_keys (dtypes (w_city w))) [])
            (fun pd p => fold_m (needs p) pd popreport_body) w = Ok pr w')
    in E.
  rewrite fold_m_flat in E.
  pose proof (popreport_fold (dict_keys (dtypes (w_city w))) w
                (flat_map needs (people (w_city w))) [] _
                (pop_rows_init (dict_keys (dtypes (w_city w))))) as H.
  rewrite E in H. destruct H as (-> & [Hk Hr]).
  split; [reflexivity |]. split; [exact Hk | exact Hr].
Qed.

Lemma hungry_popreport :
  popreport hungry_world
  = Ok [("food"%string, mkPopRow 1 (PFloat (0 + 6)))] hungry_world.
Proof. unfold hungry_world, hungry_city, hungry. run. Qed.

Lemma popreport_counts_unmet_needs_witness :
  exists row,
    dict_get [("food"%string, mkPopRow 1 (PFloat (0 + 6)))] "food" = Some row
    /\ demand_count row
       = Z.of_nat (length (unmet "food" (all_needs (w_city hungry_world))))
    /\ to_R (total_demand row)
       = sum_R (map (fun na => to_R (snd na))
                  (unmet "food" (all_needs (w_city hungry_world)))).
Proof.
  apply (popreport_counts_unmet_needs hungry_world _ hungry_world
           hungry_popreport).
  simpl. now left.
Defined.

(** ** [Person.generate] *)

Lemma list_set_same_id {A} (l : list A) i x :
  nth_error l i = Some x -> list_set l i x = l.
Proof.
  revert i. induction l as [|h t IH]; intros [|i] H; simpl in *;
    try discriminate.
  - inversion H. reflexivity.
  - f_equal. apply IH. exact H.
Qed.

Lemma generate_run dts i :
  forall ks w p nd',
    nth_error (people (w_city w)) i = Some p ->
    dtypes (w_city w) = dts ->
    generated dts ks (needs p) (w_ints w) = Some nd' ->
    for_each ks (generate_step i) w
    = Ok tt (mkWorld
               (with_people (w_city w)
                  (list_set (people (w_city w)) i (with_needs p nd')))
               (fun m => w_ints w (length ks + m)%nat) (w_reals w)).
Proof.
  induction ks as [|n ks IH]; intros w p nd' Hp Hd Hg; simpl in *.
  - inversion Hg; subst nd'. unfold ret. f_equal.
    destruct w as [c ints reals]. simpl in *. f_equal.
    replace (with_needs p (needs p)) with p by (destruct p; reflexivity).
    rewrite (list_set_same_id _ _ _ Hp). destruct c; reflexivity.
  - destruct (dict_get (needs p) n) as [old |] eqn:Ho; [| discriminate].
    destruct (dict_get dts n) as [dt |] eqn:Ed; [| discriminate].
    unfold bind.
    rewrite (generate_step_eq i n w p old dt Hp Ho) by (rewrite Hd; exact Ed).
    unfold drawn, city_after_generate_step.
    match goal with |- for_each ks _ ?v = _ =>
      rewrite (IH v (with_needs p
                       (dict_set (needs p) n
                          (py_add old
                             (py_mul (PInt (Z.of_nat (w_ints w 0%nat)))
                                (dprice dt))))) nd')
    end.
    + cbn [w_city w_ints w_reals]. unfold with_people, with_needs.
      cbn [people p_name p_location name size age dtypes btypes heap
           businesses business_locations failed_businesses pophistory
           bizhistory].
      rewrite list_set_twice. reflexivity.
    + cbn [w_city]. unfold with_people. cbn [people].
      apply nth_error_list_set_eq. apply nth_error_Some. congruence.
    + cbn [w_city]. exact Hd.
    + cbn [w_ints]. unfold with_needs. cbn [needs]. exact Hg.
Qed.

Lemma generated_defined dts :
  forall ks nd ints,
    (forall n, In n ks -> In n (dict_keys nd) /\ In n (dict_keys dts)) ->
    exists nd', generated dts ks nd ints = Some nd'.
Proof.
  induction ks as [|n ks IH]; intros nd ints H; simpl.
  - eauto.
  - destruct (H n (or_introl eq_refl)) as [H1 H2].
    apply dict_get_in_keys in H1. destruct H1 as [old ->].
    apply dict_get_in_keys in H2. destruct H2 as [dt ->].
    apply IH. intros m Hm. split; [| apply H; now right].
    apply dict_keys_set_iff. right. apply H. now right.
Qed.

Lemma generated_get dts :
  forall ks nd ints nd',
    NoDup ks ->
    generated dts ks nd ints = Some nd' ->
    (forall n, ~ In n ks -> dict_get nd' n = dict_get nd n)
    /\ (forall k n,
          nth_error ks k = Some n ->
          exists old dt,
            dict_get nd n = Some old /\ dict_get dts n = Some dt
            /\ dict_get nd' n
               = Some (py_add old
                         (py_mul (PInt (Z.of_nat (ints k))) (dprice dt)))).
Proof.
  induction ks as [|n ks IH]; intros nd ints nd' ND Hg; simpl in Hg.
  - inversion Hg; subst. split; [reflexivity |].
    intros [|k] m Hk; discriminate.
  - inversion ND as [|? ? Hn ND']; subst.
    destruct (dict_get nd n) as [old |] eqn:Ho; [| discriminate].
    destruct (dict_get dts n) as [dt |] eqn:Ed; [| discriminate].
    destruct (IH _ _ _ ND' Hg) as [I1 I2]. split.
    + intros m Hm. rewrite I1 by (simpl in Hm; tauto).
      apply dict_get_set_neq. simpl in Hm. intros ->. tauto.
    + intros [|k] m Hk; simpl in Hk.
      * inversion Hk; subst m. exists old, dt.
        split; [exact Ho |]. split; [exact Ed |].
        rewrite I1 by exact Hn. apply dict_get_set_eq.
      * destruct (I2 k m Hk) as (old' & dt' & H1 & H2 & H3).
        assert (m <> n).
        { intros ->. apply Hn. eapply nth_error_In; eauto. }
        rewrite dict_get_set_neq in H1 by congruence.
        exists old', dt'. auto.
Qed.

Lemma dict_get_nth {V} (d : dict V) k n v :
  NoDup (dict_keys d) -> nth_error d k = Some (n, v) -> dict_get d n = Some v.
Proof.
  revert k. induction d as [|[n0 v0] d IH]; intros [|k] ND H; simpl in *;
    try discriminate.
  - inversion H; subst. rewrite String.eqb_refl. reflexivity.
  - inversion ND as [|? ? Hn ND']; subst.
    destruct (String.eqb n0 n) eqn:E.
    + apply String.eqb_eq in E. subst n0. exfalso. apply Hn.
      unfold dict_keys. apply (in_map fst _ (n, v)).
      eapply nth_error_In; eauto.
    + eapply IH; eauto.
Qed.

(** X23.  [generate] makes one draw per demand type, in the iteration
    order of the registry, and adds to each need of the person the draw
    times the unit price of the type.  With positive arrival rates, for a
    person who holds a need for every demand type, it returns; it changes
    nothing in the city but the needs of that person, and leaves a need
    under any other name alone. *)
Theorem generate_adds_one_draw_per_type (i : nat) (w : World) (p : Person) :
  nth_error (people (w_city w)) i = Some p ->
  Forall (fun kv => 0 < to_R (dlambda (snd kv))) (dtypes (w_city w)) ->
  NoDup (dict_keys (dtypes (w_city w))) ->
  (forall n, In n (dict_keys (dtypes (w_city w))) ->
             In n (dict_keys (needs p))) ->
  exists nd',
    generate i w
    = Ok tt (mkWorld
               (with_people (w_city w)
                  (list_set (people (w_city w)) i (with_needs p nd')))
               (fun m => w_ints w (length (dtypes (w_city w)) + m)%nat)
               (w_reals w))
    /\ (forall k n dt,
          nth_error (dtypes (w_city w)) k = Some (n, dt) ->
          exists old,
            dict_get (needs p) n = Some old
            /\ dict_get nd' n
               = Some (py_add old
                         (py_mul (PInt (Z.of_nat (w_ints w k))) (dprice dt))))
    /\ (forall n, ~ In n (dict_keys (dtypes (w_city w))) ->
                  dict_get nd' n = dict_get (needs p) n).
Proof.
  intros Hp _ ND Hk.
  destruct (generated_defined (dtypes (w_city w))
              (dict_keys (dtypes (w_city w))) (needs p) (w_ints w))
    as [nd' Hg].
  { intros n Hn. split; [apply Hk |]; exact Hn. }
  exists nd'. split; [| split].
  - rewrite generate_eq. unfold bind at 1. unfold get_city.
    rewrite (generate_run _ i _ w p nd' Hp eq_refl Hg).
    unfold dict_keys. rewrite length_map. reflexivity.
  - intros k n dt Hnth.
    destruct (generated_get _ _ _ _ _ ND Hg) as [_ I2].
    assert (Hkn : nth_error (dict_keys (dtypes (w_city w))) k = Some n).
    { unfold dict_keys. rewrite nth_error_map, Hnth. reflexivity. }
    destruct (I2 k n Hkn) as (old & dt' & H1 & H2 & H3).
    rewrite (dict_get_nth _ _ _ _ ND Hnth) in H2. inversion H2; subst dt'.
    exists old. auto.
  - intros n Hn. destruct (generated_get _ _ _ _ _ ND Hg) as [I1 _].
    apply I1. exact Hn.
Qed.

Lemma hungry_generate_hyps :
  nth_error (people (w_city hungry_world)) 0 = Some hungry
  /\ Forall (fun kv => 0 < to_R (dlambda (snd kv)))
       (dtypes (w_city hungry_world))
  /\ NoDup (dict_keys (dtypes (w_city hungry_world)))
  /\ (forall n, In n (dict_keys (dtypes (w_city hungry_world))) ->
                In n (dict_keys (needs hungry))).
Proof.
  split; [reflexivity |]. split; [| split].
  - repeat constructor. simpl. lra.
  - simpl. repeat constructor. simpl. tauto.
  - intros n H. exact H.
Qed.

Lemma generate_adds_one_draw_per_type_witness :
  exists nd',
    generate 0 hungry_world
    = Ok tt (mkWorld
               (with_people (w_city hungry_world)
                  (list_set (people (w_city hungry_world)) 0
                     (with_needs hungry nd')))
               (fun m => w_ints hungry_world
                           (length (dtypes (w_city hungry_world)) + m)%nat)
               (w_reals hungry_world))
    /\ (forall k n dt,
          nth_error (dtypes (w_city hungry_world)) k = Some (n, dt) ->
          exists old,
            dict_get (needs hungry) n = Some old
            /\ dict_get nd' n
               = Some (py_add old
                         (py_mul (PInt (Z.of_nat (w_ints hungry_world k)))
                            (dprice dt))))
    /\ (forall n, ~ In n (dict_keys (dtypes (w_city hungry_world))) ->
                  dict_get nd' n = dict_get (needs hungry) n).
Proof.
  apply (generate_adds_one_draw_per_type 0 hungry_world hungry);
    apply hungry_generate_hyps.
Defined.

(** ** [BusinessType.startup] *)

(** X24.  [startup] does not look at [available]: the test is left to
    its callers.  Called twice for the same location it returns twice, and
    two active businesses then sit on that location. *)
Theorem startup_does_not_check_vacancy
    (bt bt' : BusinessType) (j : nat) (nm nm' : string) (w : World)
    (l : BusinessLocation) :
  nth_error (business_locations (w_city w)) j = Some l ->
  exists w2 b1 b2 biz1 biz2,
    (startup bt j nm ;;; startup bt' j nm') w = Ok tt w2
    /\ b1 <> b2
    /\ In b1 (businesses (w_city w2)) /\ In b2 (businesses (w_city w2))
    /\ nth_error (heap (w_city w2)) b1 = Some biz1
    /\ nth_error (heap (w_city w2)) b2 = Some biz2
    /\ blocation biz1 = j /\ blocation biz2 = j
    /\ b_location biz1 = b_location biz2.
Proof.
  intro Hl. unfold bind. rewrite (startup_eq bt j nm w l Hl).
  rewrite (startup_eq bt' j nm' _ (with_available l false)).
  2:{ cbn [w_city]. unfold city_after_startup. fields.
      eapply nth_error_list_set_same; eauto. }
  eexists. exists (length (heap (w_city w))), (S (length (heap (w_city w)))).
  eexists. eexists. split; [reflexivity |]. split; [lia |].
  cbn [w_city]. unfold city_after_startup. fields.
  split; [apply in_app_iff; left; apply in_app_iff; right; now left |].
  split; [apply in_app_iff; right; left; rewrite length_app; simpl; lia |].
  split.
  { rewrite nth_error_app1 by (rewrite length_app; simpl; lia).
    rewrite nth_error_app2, Nat.sub_diag by lia. reflexivity. }
  split.
  { rewrite nth_error_app2 by (rewrite length_app; simpl; lia).
    match goal with |- nth_error _ ?k = _ =>
      replace k with 0%nat by (rewrite length_app; cbn [length]; lia)
    end.
    reflexivity. }
  unfold new_business. simpl. auto.
Qed.

Lemma startup_does_not_check_vacancy_witness :
  exists w2 b1 b2 biz1 biz2,
    (startup diner 0 "first" ;;; startup diner 0 "second") scenario_A_world
    = Ok tt w2
    /\ b1 <> b2
    /\ In b1 (businesses (w_city w2)) /\ In b2 (businesses (w_city w2))
    /\ nth_error (heap (w_city w2)) b1 = Some biz1
    /\ nth_error (heap (w_city w2)) b2 = Some biz2
    /\ blocation biz1 = 0%nat /\ blocation biz2 = 0%nat
    /\ b_location biz1 = b_location biz2.
Proof.
  apply (startup_does_not_check_vacancy diner diner 0 "first" "second"
           scenario_A_world corner).
  reflexivity.
Defined.

(** ** [Person.cycle] *)

Lemma shops_fixed_refl c : shops_fixed c c.
Proof. unfold shops_fixed. auto. Qed.

Lemma fixed_generate_step c0 i n :
  hoare (shops_fixed c0) (generate_step i n) (fun _ => shops_fixed c0)
    (shops_fixed c0).
Proof.
  intros w H.
  destruct (generate_step_cases i n w)
    as [(p & old & dt & _ & _ & _ & E) | [e E]]; rewrite E; exact H.
Qed.

Lemma fixed_fulfill_need c0 i need :
  hoare (shops_fixed c0) (fulfill_need i need) (fun _ => shops_fixed c0)
    (shops_fixed c0).
Proof.
  intros w H.
  destruct (fulfill_need_cases i need w)
    as [(p & amt & dt & r & b & biz & _ & _ & _ & _ & _ & Hb & E)
       | [E | [e E]]]; rewrite E; try exact H.
  destruct H as (H1 & H2 & H3 & H4 & H5).
  unfold shops_fixed, drawn, city_after_give_biz. simpl.
  rewrite length_list_set. auto.
Qed.

Lemma fixed_cycle c0 i :
  hoare (shops_fixed c0) (cycle i) (fun _ => shops_fixed c0) (shops_fixed c0).
Proof.
  unfold cycle. eapply hoare_bind.
  - rewrite generate_eq. eapply hoare_bind; [apply hoare_pure, pure_get_city |].
    intro c. apply hoare_for_each. intros n _. apply fixed_generate_step.
  - intros u. unfold fulfill.
    eapply hoare_bind; [apply hoare_pure, pure_get_person |].
    intro p. apply hoare_for_each. intros n _. apply fixed_fulfill_need.
Qed.

Lemma Whole_Sound c0 c : Whole c0 c -> Sound c c.
Proof.
  intros (HR & HB & HK & _).
  split; [eapply Run_Inv; eauto |]. split; [exact HB |].
  split; [exact HK | apply same_people_refl].
Qed.

Lemma total_cycle c i :
  rates_ok c -> (i < length (people c))%nat -> total c (cycle i).
Proof.
  intros Hr Hi. unfold cycle.
  apply total_bind; [apply total_generate; exact Hi |].
  intros _. apply total_fulfill; assumption.
Qed.

(** X25.  [Person.cycle], on a city that the constructor returned for
    tables with positive arrival rates and that [life] has run for any
    number of cycles, returns for every person of the city; it opens and
    closes no business, marks no location, moves nobody and leaves the age
    of the city alone. *)
Theorem person_cycle_keeps_the_shops
    (dtraw : dict DemandRaw) (btraw : dict BusinessRaw) (fuel : nat)
    (nm : string) (sz : num) (n_people ncycles : Z) (w w1 v : World)
    (i : nat) :
  rates_positive dtraw ->
  City_init dtraw btraw fuel nm sz n_people w = Ok tt w1 ->
  w_city v = w_city (final (life ncycles w1)) ->
  (i < length (people (w_city v)))%nat ->
  exists v',
    cycle i v = Ok tt v'
    /\ shops_fixed (w_city v) (w_city v')
    /\ map p_location (people (w_city v'))
       = map p_location (people (w_city v)).
Proof.
  intros Hr Hi Ev Hlt.
  pose proof (City_init_run dtraw btraw fuel nm sz n_people w) as H.
  rewrite Hi in H. destruct H as [HW HB].
  destruct HB as (_ & _ & Ed & _).
  pose proof (life_Whole (w_city w1) ncycles w1 HW) as HW2.
  rewrite <- Ev in HW2.
  assert (Hrates : rates_ok (w_city v)).
  { destruct HW2 as (((_ & S2 & _) & _) & _).
    unfold rates_ok. rewrite S2, Ed.
    apply (compile_values demand_of_raw (fun _ x => to_R (dlambda x) <> 0));
      [| constructor].
    eapply Forall_impl; [| exact Hr]. intros kv H. simpl in *. lra. }
  pose proof (Whole_Sound _ _ HW2) as HS.
  destruct (total_returns (w_city v) (cycle i) v
              (total_cycle (w_city v) i Hrates Hlt) HS)
    as ([] & v' & E & HS').
  exists v'. split; [exact E |]. split.
  - pose proof (fixed_cycle (w_city v) i v (shops_fixed_refl _)) as Hf.
    rewrite E in Hf. exact Hf.
  - destruct HS' as (_ & _ & _ & (_ & P2)). exact P2.
Qed.

Lemma food_rates : rates_positive food_demand.
Proof. repeat constructor. simpl. lra. Qed.

Lemma person_cycle_keeps_the_shops_witness :
  exists v',
    cycle 0 built_world = Ok tt v'
    /\ shops_fixed (w_city built_world) (w_city v')
    /\ map p_location (people (w_city v'))
       = map p_location (people (w_city built_world)).
Proof.
  apply (person_cycle_keeps_the_shops food_demand food_business 1 "Dmotopia"
           (PInt 1) 1 0 blank_world built_world built_world 0 food_rates
           built_world_eq).
  - reflexivity.
  - simpl. lia.
Defined.

(** ** The dead stay dead *)

Lemma same_business_refl biz : same_business biz biz.
Proof. unfold same_business. auto 7. Qed.

Lemma same_business_trans b1 b2 b3 :
  same_business b1 b2 -> same_business b2 b3 -> same_business b1 b3.
Proof.
  intros (A1 & A2 & A3 & A4 & A5 & A6) (B1 & B2 & B3 & B4 & B5 & B6).
  unfold same_business. repeat split; congruence.
Qed.

Lemma frozen_refl c : frozen c c.
Proof.
  split; [exists []; now rewrite app_nil_r |]. split.
  - intros x biz H. exists biz. split; [exact H | apply same_business_refl].
  - reflexivity.
Qed.

Lemma frozen_trans c1 c2 c3 : frozen c1 c2 -> frozen c2 c3 -> frozen c1 c3.
Proof.
  intros ([e1 F1] & H1 & G1) ([e2 F2] & H2 & G2).
  split; [exists (e1 ++ e2); rewrite F2, F1, app_assoc; reflexivity |].
  split.
  - intros x biz Hx. destruct (H1 x biz Hx) as (b2 & Hb2 & S12).
    destruct (H2 x b2 Hb2) as (b3 & Hb3 & S23).
    exists b3. split; [exact Hb3 | eapply same_business_trans; eauto].
  - intros x Hx. rewrite G2, G1; [reflexivity | exact Hx |].
    rewrite F1. apply in_app_iff. now left.
Qed.

Lemma freezes_pure s {A} (m : M A) : pure_m m -> freezes s m.
Proof. intros H w _. rewrite H. apply frozen_refl. Qed.

Lemma freezes_bind s {A B} (m : M A) (f : A -> M B) :
  sound s m -> freezes s m -> (forall a, freezes s (f a)) ->
  freezes s (bind m f).
Proof.
  intros Hs Hm Hf w H. specialize (Hs w H). specialize (Hm w H).
  unfold bind. destruct (m w) as [a w1 | e w1]; simpl in *; [| exact Hm].
  eapply frozen_trans; [exact Hm | apply Hf; exact Hs].
Qed.

Lemma freezes_for_each s {A} (xs : list A) (body : A -> M unit) :
  (forall x, sound s (body x)) -> (forall x, freezes s (body x)) ->
  freezes s (for_each xs body).
Proof.
  intros Hs Hf. induction xs as [|x xs IH]; simpl.
  - apply freezes_pure, pure_ret.
  - apply freezes_bind; auto.
Qed.

Lemma frozen_people c ps : frozen c (with_people c ps).
Proof. exact (frozen_refl c). Qed.

Lemma frozen_update c b biz biz' :
  Books c -> In b (businesses c) ->
  nth_error (heap c) b = Some biz -> same_business biz biz' ->
  frozen c (with_heap c (list_set (heap c) b biz')).
Proof.
  intros (_ & B2 & _) Hin Hb Hsame.
  split; [exists []; fields; now rewrite app_nil_r |]. fields. split.
  - intros x y Hx. destruct (Nat.eq_dec b x) as [<- | Hne].
    + exists biz'. split; [eapply nth_error_list_set_same; eauto |].
      rewrite Hb in Hx. inversion Hx; subst y. exact Hsame.
    + exists y. rewrite nth_error_list_set_neq by exact Hne.
      split; [exact Hx | apply same_business_refl].
  - intros x Hx. apply nth_error_list_set_neq.
    intros ->. destruct (B2 x Hx) as (_ & _ & _ & Hn). contradiction.
Qed.

Lemma frozen_startup c bt j l nm :
  Books c -> frozen c (city_after_startup c bt j l nm).
Proof.
  intro HB.
  split; [exists []; fields; now rewrite app_nil_r |]. fields. split.
  - intros x y Hx. exists y. split; [| apply same_business_refl].
    rewrite nth_error_app1; [exact Hx |]. apply nth_error_Some. congruence.
  - intros x Hx. apply nth_error_app1.
    apply (Books_refs_in_range c x HB). now right.
Qed.

Lemma frozen_die c b bs biz0 biz l :
  Books c -> In b (businesses c) ->
  nth_error (heap c) b = Some biz0 -> same_business biz0 biz ->
  frozen c (city_after_bizfail
              (with_heap c (list_set (heap c) b (dead c biz)))
              b bs (dead c biz) l).
Proof.
  intros (_ & B2 & _) Hin Hb Hsame.
  split; [exists [b]; reflexivity |]. fields. split.
  - intros x y Hx. destruct (Nat.eq_dec b x) as [<- | Hne].
    + exists (dead c biz). split; [eapply nth_error_list_set_same; eauto |].
      rewrite Hb in Hx. inversion Hx; subst y. exact Hsame.
    + exists y. rewrite nth_error_list_set_neq by exact Hne.
      split; [exact Hx | apply same_business_refl].
  - intros x Hx. apply nth_error_list_set_neq.
    intros ->. destruct (B2 x Hx) as (_ & _ & _ & Hn). contradiction.
Qed.

Lemma freezes_generate_step s i n : freezes s (generate_step i n).
Proof.
  intros w _.
  destruct (generate_step_cases i n w)
    as [(p & old & dt & _ & _ & _ & E) | [e E]]; rewrite E; simpl.
  - apply frozen_people.
  - apply frozen_refl.
Qed.

Lemma freezes_generate s i : freezes s (generate i).
Proof.
  rewrite generate_eq.
  apply freezes_bind;
    [apply sound_pure, pure_get_city | apply freezes_pure, pure_get_city |].
  intro c. apply freezes_for_each; intro n.
  - apply sound_generate_step.
  - apply freezes_generate_step.
Qed.

Lemma freezes_fulfill_need s i need : freezes s (fulfill_need i need).
Proof.
  intros w (_ & HB & _).
  destruct (fulfill_need_cases i need w)
    as [(p & amt & dt & r & b & biz & _ & _ & _ & _ & Hb & Hbiz & E)
       | [E | [e E]]]; rewrite E; simpl; try apply frozen_refl.
  destruct (pos_biz_active _ _ _ _ Hb) as [Hact _].
  unfold city_after_give_biz.
  eapply frozen_trans; [| apply frozen_people].
  apply (frozen_update (w_city w) b biz); auto.
  exact (same_business_refl biz).
Qed.

Lemma freezes_fulfill s i : freezes s (fulfill i).
Proof.
  unfold fulfill.
  apply freezes_bind;
    [apply sound_pure, pure_get_person | apply freezes_pure, pure_get_person |].
  intro p. apply freezes_for_each; intro n.
  - apply sound_fulfill_need.
  - apply freezes_fulfill_need.
Qed.

Lemma freezes_try_startup s j : freezes s (try_startup j).
Proof.
  intros w (_ & HB & _).
  destruct (try_startup_cases j w)
    as [(bl & bt & n & _ & _ & _ & E) | [E | [e E]]]; rewrite E; simpl;
    try apply frozen_refl.
  apply frozen_startup. exact HB.
Qed.

Lemma frozen_burn s b w :
  Sound s (w_city w) -> In b (businesses (w_city w)) ->
  frozen (w_city w) (w_city (final (burn b w))).
Proof.
  intros (HI & HB & _) Hin. pose proof HI as (_ & P & _).
  destruct (P eq_refl) as (ND & Hs & _).
  destruct (Hs b Hin) as (biz & l & Hb & Hl & _ & _).
  destruct (Rlt_le_dec (to_R (cash (burned biz))) 0) as [Hneg | Hpos].
  - destruct (list_remove_In _ _ Hin) as [bs Hr].
    rewrite (burn_dead_eq b w bs biz l) by assumption. simpl.
    apply (frozen_die (w_city w) b bs biz (burned biz) l); auto.
    exact (same_business_refl biz).
  - rewrite (burn_alive_eq b w biz) by assumption. simpl.
    apply (frozen_update (w_city w) b biz); auto.
    exact (same_business_refl biz).
Qed.

Lemma freezes_scan s fuel :
  forall i, freezes s (scan_businesses fuel i burn).
Proof.
  induction fuel as [|f IH]; intros i w H; simpl.
  - unfold_m. destruct (nth_error (businesses (w_city w)) i);
      apply frozen_refl.
  - unfold bind at 1. unfold get_city.
    destruct (nth_error (businesses (w_city w)) i) as [b |] eqn:Hb;
      [| apply frozen_refl].
    assert (Hin : In b (businesses (w_city w)))
      by (eapply nth_error_In; eauto).
    pose proof (frozen_burn s b w H Hin) as Hf.
    pose proof (sound_burn s b w (conj H Hin)) as Hs.
    unfold bind. destruct (burn b w) as [[] w1 | e w1]; simpl in *;
      [| exact Hf].
    eapply frozen_trans; [exact Hf | apply IH; exact Hs].
Qed.

Lemma freezes_phases s : freezes s phases.
Proof.
  unfold phases.
  apply freezes_bind;
    [apply sound_pure, pure_get_city | apply freezes_pure, pure_get_city |].
  intro c. apply freezes_bind.
  { apply sound_for_each; intro; apply sound_generate. }
  { apply freezes_for_each; intro;
      [apply sound_generate | apply freezes_generate]. }
  intros _. apply freezes_bind;
    [apply sound_pure, pure_get_city | apply freezes_pure, pure_get_city |].
  intro c2. apply freezes_bind.
  { apply sound_for_each; intro; apply sound_try_startup. }
  { apply freezes_for_each; intro;
      [apply sound_try_startup | apply freezes_try_startup]. }
  intros _. apply freezes_bind;
    [apply sound_pure, pure_get_city | apply freezes_pure, pure_get_city |].
  intro c3. apply freezes_bind.
  { apply sound_for_each; intro; apply sound_fulfill. }
  { apply freezes_for_each; intro;
      [apply sound_fulfill | apply freezes_fulfill]. }
  intros _. apply freezes_bind;
    [apply sound_pure, pure_get_city | apply freezes_pure, pure_get_city |].
  intro c4. apply freezes_scan.
Qed.

Lemma reports_frozen w : frozen (w_city w) (w_city (final (reports w))).
Proof.
  unfold reports. unfold bind at 1.
  destruct (popreport w) as [pr w1 | e w1] eqn:Ep.
  - pose proof (quiet_Ok _ _ _ _ quiet_popreport Ep) as ->.
    unfold bind at 1. unfold modify at 1. unfold bind at 1.
    match goal with |- context [bizreport ?v] =>
      destruct (bizreport v) as [br w2 | e w2] eqn:Eb
    end.
    + pose proof (quiet_Ok _ _ _ _ quiet_bizreport Eb) as ->.
      unfold modify. simpl. exact (frozen_refl (w_city w)).
    + pose proof (quiet_Raise _ _ _ _ quiet_bizreport Eb) as ->.
      simpl. exact (frozen_refl (w_city w)).
  - pose proof (quiet_Raise _ _ _ _ quiet_popreport Ep) as ->.
    simpl. apply frozen_refl.
Qed.

Lemma city_cycle_frozen c0 w :
  Whole c0 (w_city w) -> frozen (w_city w) (w_city (final (city_cycle w))).
Proof.
  intro H. rewrite city_cycle_eq.
  unfold bind at 1. unfold tick, modify.
  set (c1 := with_age (w_city w) (age (w_city w) + 1)).
  set (w1 := mkWorld c1 (w_ints w) (w_reals w)).
  pose proof (Whole_tick c0 _ H) as HS.
  pose proof (sound_phases c1 w1 HS) as H1.
  pose proof (freezes_phases c1 w1 HS) as F1.
  assert (F0 : frozen (w_city w) c1) by exact (frozen_refl (w_city w)).
  unfold bind at 1.
  destruct (phases w1) as [[] w2 | e w2]; simpl in F1 |- *.
  - eapply frozen_trans; [exact F0 |].
    eapply frozen_trans; [exact F1 | apply reports_frozen].
  - eapply frozen_trans; eauto.
Qed.

Lemma life_frozen c0 n w :
  Whole c0 (w_city w) -> frozen (w_city w) (w_city (final (life n w))).
Proof.
  unfold life. generalize (py_range 0 n). intro xs. revert w.
  induction xs as [|x xs IH]; intros w H; simpl; [apply frozen_refl |].
  unfold bind. pose proof (city_cycle_Whole c0 w H) as H1.
  pose proof (city_cycle_frozen c0 w H) as F1.
  destruct (city_cycle w) as [[] w1 | e w1]; simpl in *; [| exact F1].
  eapply frozen_trans; [exact F1 | apply IH; exact H1].
Qed.

(** X26.  Failure is final.  Take the city after any number of cycles and
    let [life] run on, to its end or to an exception: the failed list has
    only been appended to, every business that had failed is exactly as
    [die] left it, and every business that existed still exists, with the
    name, the type, the location and the birthday it had. *)
Theorem failure_is_final
    (dtraw : dict DemandRaw) (btraw : dict BusinessRaw) (fuel : nat)
    (nm : string) (sz : num) (n_people a b : Z) (w w1 v : World) :
  City_init dtraw btraw fuel nm sz n_people w = Ok tt w1 ->
  life a w1 = Ok tt v ->
  (exists extra,
     failed_businesses (w_city (final (life b v)))
     = failed_businesses (w_city v) ++ extra)
  /\ (forall x, In x (failed_businesses (w_city v)) ->
        nth_error (heap (w_city (final (life b v)))) x
        = nth_error (heap (w_city v)) x)
  /\ (forall x biz,
        nth_error (heap (w_city v)) x = Some biz ->
        exists biz',
          nth_error (heap (w_city (final (life b v)))) x = Some biz'
          /\ same_business biz biz').
Proof.
  intros Hi Ha.
  pose proof (City_init_run dtraw btraw fuel nm sz n_people w) as H.
  rewrite Hi in H. destruct H as [HW _].
  pose proof (life_Whole (w_city w1) a w1 HW) as HW2. rewrite Ha in HW2.
  simpl in HW2.
  destruct (life_frozen (w_city w1) b v HW2) as (F1 & F2 & F3).
  auto.
Qed.

(** The constructor and two cycles with the bills that no diner can pay. *)
Lemma costly_built_world_eq :
  City_init food_demand costly_business 1 "Dmotopia" (PInt 1) 1 blank_world
  = Ok tt costly_built_world.
Proof.
  unfold costly_business, costly_built_world, costly_diner.
  run.
  eapply bind_Ok.
  { unfold populate. change (py_range 0 1) with [0%Z]. run. }
  cbv beta. run.
  rewrite unit_lattice.
  eapply bind_Ok.
  { unfold business_populate. eapply bind_Ok; [run | cbv beta; norm].
    rewrite (py_int_small (INR 1 * (3 / 4))) by (simpl; lra).
    change (Z.to_nat 0) with 0%nat. run. }
  cbv beta. run.
Qed.

Lemma bankrupt_world_eq : city_cycle costly_built_world = Ok tt bankrupt_world.
Proof. unfold bankrupt_world, costly_built_world, costly_diner. run. Qed.

Lemma twice_bankrupt_world_eq :
  city_cycle bankrupt_world = Ok tt twice_bankrupt_world.
Proof. unfold twice_bankrupt_world, bankrupt_world, costly_diner. run. Qed.

Lemma life_to_bankruptcy : life 1 costly_built_world = Ok tt bankrupt_world.
Proof.
  unfold life. change (py_range 0 1) with [0%Z]. cbn [for_each].
  eapply bind_Ok; [apply bankrupt_world_eq | reflexivity].
Qed.

Lemma life_after_bankruptcy :
  life 1 bankrupt_world = Ok tt twice_bankrupt_world.
Proof.
  unfold life. change (py_range 0 1) with [0%Z]. cbn [for_each].
  eapply bind_Ok; [apply twice_bankrupt_world_eq | reflexivity].
Qed.

(** After one cycle the first diner has failed; one more cycle returns, a
    second diner fails in it, and the first one is still on the failed list
    and exactly as [die] left it. *)
Lemma failure_is_final_witness :
  failed_businesses (w_city bankrupt_world) = [0%nat]
  /\ life 1 bankrupt_world = Ok tt twice_bankrupt_world
  /\ (exists extra,
        failed_businesses (w_city (final (life 1 bankrupt_world)))
        = failed_businesses (w_city bankrupt_world) ++ extra)
  /\ nth_error (heap (w_city (final (life 1 bankrupt_world)))) 0
     = nth_error (heap (w_city bankrupt_world)) 0.
Proof.
  destruct (failure_is_final food_demand costly_business 1 "Dmotopia" (PInt 1)
              1 1 1 blank_world costly_built_world bankrupt_world
              costly_built_world_eq life_to_bankruptcy)
    as (H1 & H2 & _).
  split; [reflexivity |]. split; [exact life_after_bankruptcy |].
  split; [exact H1 |]. apply H2. left. reflexivity.
Defined.
